(** * webitel-dc-switcher: the activation engine, the cluster repository's
      name lists and the heartbeat / reconciliation loop

    A shallow embedding of
    - [internal/service] ([datacenterService]: [ListDatacenters],
      [getDatacenterInfo], [GetNodes], [ActivateDatacenter], [getRegionInfo],
      [ActivateRegion], [PerformStartupReconciliation], [drainMyNodes],
      [heartbeatLoop]),
    - [internal/repository/nomad_client.go] ([GetClusterNames],
      [GetClusterRegion], [GetClustersByRegion], [GetAllRegions], [ListNodes],
      [SetNodeDrain]),
    - [internal/model] ([Node], [Datacenter], [Region], [ActiveDatacenter],
      [ActivationResult]) and [internal/concurrent] ([ParallelMap],
      [CollectResults], [FirstError], [AllErrors], [HasErrors]),
    - the rest of the service ([ListRegions], [GetDatacentersByRegion],
      [GetRegionDatacenters], [DrainAllNodesInRegion],
      [EnsureSingleActiveDatacenter]),
    - [internal/config] ([Validate]), the construction of the repository
      ([NewNomadRepository], [checkClusterHealth], [detectClusterInfo]) and
      [internal/healthcheck] ([Checker]: [performCheck], [handleFailure]).

    The service is stateful: it talks to Nomad clusters, to etcd and to a TTL
    cache.  The embedding threads a [World] (the node tables of the clusters,
    the cache, the etcd key, the [amDrained] flag) through a small state and
    writer monad that also records every outgoing call. What the outside
    world answers (a failing API call, the wall clock) is an [Oracle]. *)

From Stdlib Require Import ZArith Lia.
From stdpp Require Import base decidable option list sorting gmap strings fin_maps.
From stdpp Require Import pretty.

Open Scope string_scope.
Open Scope list_scope.
Open Scope nat_scope.

(** ** Go strings *)

(** [sort.Strings]: ascending byte-wise order. [String.le] is [String.leb],
    which compares the bytes of both strings from the left. *)
Definition sortStrings (l : list string) : list string := merge_sort String.le l.

(** [==] on Go strings, as a boolean. *)
Definition streq (a b : string) : bool := bool_decide (a = b).

(** ** internal/model *)

Module Node.
Record t := mk {
  ID : string;
  Name : string;
  Drain : bool;
  SchedulingEligibility : string;
  Status : string
}.
(** [func (n *Node) IsReady() bool] *)
Definition IsReady (n : t) : bool :=
  negb (Drain n) && streq (SchedulingEligibility n) "eligible".
End Node.

Module Job.
Record t := mk { ID : string; Status : string }.
End Job.

Definition DatacenterStatusActive : string := "active".
Definition DatacenterStatusDraining : string := "draining".
Definition DatacenterStatusError : string := "error".

Module Datacenter.
Record t := mk {
  Name : string;
  Region : string;
  Status : string;
  NodesTotal : nat;
  NodesReady : nat;
  NodesDraining : nat;
  JobsTotal : nat;
  JobsRunning : nat;
  JobsStopped : nat
}.
(** The zero value [model.Datacenter{}]. *)
Definition zero : t := mk "" "" "" 0 0 0 0 0 0.
End Datacenter.

Module Region.
Record t := mk {
  Name : string;
  Datacenters : list Datacenter.t;
  Status : string;
  JobsTotal : nat;
  JobsRunning : nat;
  JobsStopped : nat
}.
End Region.

(** Times are nanoseconds on the wall clock, durations are differences. *)
Module ActiveDatacenter.
Record t := mk {
  Datacenter : string;
  ActivatedAt : Z;
  ActivatedBy : string;
  LastHeartbeat : Z
}.
End ActiveDatacenter.

Module ActivationResult.
Record t := mk {
  Activated : string;
  DrainedNodes : nat;
  UnDrainedNodes : nat;
  Errors : list string
}.
End ActivationResult.

(** A Go [(T, error)] result. *)
Inductive result (A : Type) : Type :=
| Ok (a : A)
| Err (e : string).
Arguments Ok {A} a.
Arguments Err {A} e.

(** ** internal/config *)

Record HeartbeatConfig := {
  UpdateInterval : Z;
  MaxFailures : nat;
  StaleThreshold : Z
}.

(** ** internal/repository: the cluster table *)

Record clusterMetadata := {
  name : string;
  region : string
}.

(** [nomadRepository.clusters], a [map[string]*clusterMetadata]. *)
Abbreviation clusterTable := (gmap string clusterMetadata).

(** [GetClusterNames]: the keys, sorted. Go ranges over the map in an
    unspecified order; the sort makes the result independent of it
    ([sortStrings_order_independent] below). *)
Definition GetClusterNames (clusters : clusterTable) : list string :=
  sortStrings ((map_to_list clusters).*1).

(** [GetClusterRegion] *)
Definition GetClusterRegion (clusters : clusterTable) (clusterName : string)
  : result string :=
  match clusters !! clusterName with
  | Some meta => Ok (region meta)
  | None => Err ("cluster " +:+ clusterName +:+ " not found")
  end.

(** [GetClustersByRegion]: the [name] of every cluster of the region, sorted. *)
Definition GetClustersByRegion (clusters : clusterTable) (r : string)
  : list string :=
  sortStrings
    (name <$> filter (λ meta, region meta = r) ((map_to_list clusters).*2)).

(** [GetAllRegions]: [regionMap] is the set of regions, then sorted. *)
Definition GetAllRegions (clusters : clusterTable) : list string :=
  sortStrings
    (elements (list_to_set (C := gset string) (region <$> (map_to_list clusters).*2))).

(** ** The outside world *)

(** What the service's collaborators answer during one operation. A [Some e]
    is the Go error [e] of the call. *)
Record Oracle := {
  (** [client.Nodes().List] of a cluster *)
  nodes_list_err : string → option string;
  (** [client.Nodes().UpdateDrain] of (cluster, node, drain) *)
  update_drain_err : string → string → bool → option string;
  (** [setNodeDrainDirect], the direct call to the node itself *)
  direct_drain_err : string → string → bool → option string;
  (** [ListJobs] of a cluster *)
  jobs_list : string → result (list Job.t);
  (** [TriggerJobEvaluations] of a cluster *)
  trigger_err : string → option string;
  (** [client.Get] and [client.Put] on the etcd key *)
  etcd_get_err : option string;
  etcd_put_err : option string;
  (** the wall clock at its k-th reading *)
  clock : nat → Z
}.

(** The state the service reads and writes. *)
Record World := {
  (** the node table of every cluster, as its Nomad servers hold it *)
  nomad : gmap string (list Node.t);
  (** [s.cache]; the only keys are ["<dc>:nodes"] *)
  cache : gmap string (list Node.t);
  (** the value under [dc-switcher/active-datacenter] *)
  etcd : option ActiveDatacenter.t;
  (** [s.amDrained] *)
  amDrained : bool;
  (** how many times the clock was read *)
  reads : nat
}.

Definition set_nomad (f : gmap string (list Node.t) → gmap string (list Node.t))
  (w : World) : World :=
  {| nomad := f (nomad w); cache := cache w; etcd := etcd w;
     amDrained := amDrained w; reads := reads w |}.
Definition set_cache (f : gmap string (list Node.t) → gmap string (list Node.t))
  (w : World) : World :=
  {| nomad := nomad w; cache := f (cache w); etcd := etcd w;
     amDrained := amDrained w; reads := reads w |}.
Definition set_etcd (v : option ActiveDatacenter.t) (w : World) : World :=
  {| nomad := nomad w; cache := cache w; etcd := v;
     amDrained := amDrained w; reads := reads w |}.
Definition set_amDrained (b : bool) (w : World) : World :=
  {| nomad := nomad w; cache := cache w; etcd := etcd w;
     amDrained := b; reads := reads w |}.
Definition bump_reads (w : World) : World :=
  {| nomad := nomad w; cache := cache w; etcd := etcd w;
     amDrained := amDrained w; reads := S (reads w) |}.

(** The calls the service issues to its collaborators, with their outcome. *)
Inductive Call :=
| SetNodeDrainCall (cluster nodeID : string) (drain : bool) (err : option string)
| TriggerJobEvaluationsCall (cluster : string) (err : option string)
| ReadActiveDatacenterCall (res : result ActiveDatacenter.t)
| WriteActiveDatacenterCall (info : ActiveDatacenter.t) (err : option string)
| SetActiveRegionCall (region : string).

(** The fixed part of a [datacenterService]. *)
Record Service := {
  clusters : clusterTable;
  myDatacenter : string;
  heartbeatCfg : HeartbeatConfig;
  (** [s.healthChecker != nil] *)
  healthChecker : bool
}.

(** ** The monad: state over [World], plus the calls issued *)

Definition M (A : Type) : Type := World → A * World * list Call.

Definition ret {A} (a : A) : M A := λ w, (a, w, []).
Definition bind {A B} (m : M A) (f : A → M B) : M B := λ w,
  let '(a, w1, c1) := m w in
  let '(b, w2, c2) := f a w1 in
  (b, w2, c1 ++ c2).
Definition get : M World := λ w, (w, w, []).
Definition modify (f : World → World) : M unit := λ w, (tt, f w, []).
Definition emit (c : Call) : M unit := λ w, (tt, w, [c]).

Notation "x <- m ;; k" := (bind m (λ x, k))
  (at level 100, m at next level, right associativity, only parsing).
Notation "m ;;; k" := (bind m (λ _, k))
  (at level 100, right associativity, only parsing).

(** [for _, x := range l { acc = body(acc, x) }] *)
Fixpoint foldM {A B} (body : B → A → M B) (l : list A) (acc : B) : M B :=
  match l with
  | [] => ret acc
  | x :: l' => acc' <- body acc x ;; foldM body l' acc'
  end.

(** [time.Now()] *)
Definition Now (orc : Oracle) : M Z := λ w, (clock orc (reads w), bump_reads w, []).

(** ** internal/repository: calls to a cluster and to etcd *)

(** [ListNodes] *)
Definition ListNodes (svc : Service) (orc : Oracle) (clusterName : string)
  : M (result (list Node.t)) :=
  match clusters svc !! clusterName with
  | None => ret (Err ("cluster " +:+ clusterName +:+ " not found"))
  | Some _ =>
      match nodes_list_err orc clusterName with
      | Some e => ret (Err ("failed to list nodes: " +:+ e))
      | None => w <- get ;; ret (Ok (default [] (nomad w !! clusterName)))
      end
  end.

(** What a drain update that went through does to the node table of the
    cluster: the node gets [Drain = drain] and is eligible iff
    [markEligible = !drain]. *)
Definition apply_drain (nodeID : string) (drain : bool) (n : Node.t) : Node.t :=
  if streq (Node.ID n) nodeID then
    Node.mk (Node.ID n) (Node.Name n) drain
      (if drain then "ineligible" else "eligible") (Node.Status n)
  else n.

Definition drain_in_table (clusterName nodeID : string) (drain : bool)
  (t : gmap string (list Node.t)) : gmap string (list Node.t) :=
  alter (fmap (apply_drain nodeID drain)) clusterName t.

(** [SetNodeDrain]: the server API first, the node's own API second; an error
    only when both fail. *)
Definition SetNodeDrain (svc : Service) (orc : Oracle)
  (clusterName nodeID : string) (drain : bool) : M (option string) :=
  err <-
    match clusters svc !! clusterName with
    | None => ret (Some ("cluster " +:+ clusterName +:+ " not found"))
    | Some _ =>
        match update_drain_err orc clusterName nodeID drain with
        | None =>
            modify (set_nomad (drain_in_table clusterName nodeID drain)) ;;;
            ret None
        | Some e =>
            match direct_drain_err orc clusterName nodeID drain with
            | None =>
                modify (set_nomad (drain_in_table clusterName nodeID drain)) ;;;
                ret None
            | Some fallbackErr =>
                ret (Some ("both Server API and Client API failed: server_error="
                           +:+ e +:+ ", client_error=" +:+ fallbackErr))
            end
        end
    end ;;
  emit (SetNodeDrainCall clusterName nodeID drain err) ;;;
  ret err.

(** [TriggerJobEvaluations], by its outcome. *)
Definition TriggerJobEvaluations (svc : Service) (orc : Oracle)
  (clusterName : string) : M (option string) :=
  let err :=
    match clusters svc !! clusterName with
    | None => Some ("cluster " +:+ clusterName +:+ " not found")
    | Some _ => trigger_err orc clusterName
    end in
  emit (TriggerJobEvaluationsCall clusterName err) ;;;
  ret err.

(** [ListJobs], by its outcome. *)
Definition ListJobs (svc : Service) (orc : Oracle) (clusterName : string)
  : result (list Job.t) :=
  match clusters svc !! clusterName with
  | None => Err ("cluster " +:+ clusterName +:+ " not found")
  | Some _ => jobs_list orc clusterName
  end.

(** [etcdClient.ReadActiveDatacenter] *)
Definition ReadActiveDatacenter (orc : Oracle) : M (result ActiveDatacenter.t) :=
  w <- get ;;
  let res :=
    match etcd_get_err orc with
    | Some e => Err ("failed to read active datacenter from etcd: " +:+ e)
    | None =>
        match etcd w with
        | None => Err "no active datacenter found in etcd"
        | Some info => Ok info
        end
    end in
  emit (ReadActiveDatacenterCall res) ;;;
  ret res.

(** [etcdClient.WriteActiveDatacenter]: an unconditional put. *)
Definition WriteActiveDatacenter (orc : Oracle) (info : ActiveDatacenter.t)
  : M (option string) :=
  err <-
    match etcd_put_err orc with
    | Some e => ret (Some ("failed to write active datacenter to etcd: " +:+ e))
    | None => modify (set_etcd (Some info)) ;;; ret None
    end ;;
  emit (WriteActiveDatacenterCall info err) ;;;
  ret err.

(** [IsStale] and [HeartbeatAge]: both read the clock ([time.Since]). *)
Definition HeartbeatAge (orc : Oracle) (a : ActiveDatacenter.t) : M Z :=
  now <- Now orc ;; ret (now - ActiveDatacenter.LastHeartbeat a)%Z.
Definition IsStale (orc : Oracle) (a : ActiveDatacenter.t) (threshold : Z) : M bool :=
  now <- Now orc ;;
  ret (bool_decide (threshold < now - ActiveDatacenter.LastHeartbeat a)%Z).

(** ** internal/concurrent *)

(** [concurrent.Result[T]] *)
Record Result (T : Type) := mkResult {
  Value : T;
  Error : option string;
  Index : nat
}.
Arguments mkResult {T} _ _ _.
Arguments Value {T} _.
Arguments Error {T} _.
Arguments Index {T} _.

(** [concurrent.ParallelMap]: [results[i]] is what [fn] gave on [items[i]],
    and the call returns when every worker is done. The workers run
    concurrently; here they run in the order of the items. Every worker in
    this file touches only the state of its own item (the cache key of one
    cluster, one node of one cluster), so the effects commute. *)
Fixpoint ParallelMapFrom {T R} (fn : T → M (R * option string))
  (index : nat) (items : list T) : M (list (Result R)) :=
  match items with
  | [] => ret []
  | item :: items' =>
      r <- fn item ;;
      rs <- ParallelMapFrom fn (S index) items' ;;
      ret (mkResult r.1 r.2 index :: rs)
  end.
Definition ParallelMap {T R} (fn : T → M (R * option string)) (items : list T)
  : M (list (Result R)) :=
  ParallelMapFrom fn 0 items.

(** ** internal/service *)

Section service.
Context (svc : Service) (orc : Oracle).

Definition cacheKey (dc : string) : string := dc +:+ ":nodes".

(** [GetNodes]: the cached snapshot if there is one, else the cluster's list,
    which is then cached. *)
Definition GetNodes (dc : string) : M (result (list Node.t)) :=
  w <- get ;;
  match cache w !! cacheKey dc with
  | Some nodes => ret (Ok nodes)
  | None =>
      r <- ListNodes svc orc dc ;;
      match r with
      | Err e => ret (Err ("failed to list nodes: " +:+ e))
      | Ok nodes =>
          modify (set_cache (insert (cacheKey dc) nodes)) ;;;
          ret (Ok nodes)
      end
  end.

(** The counting loop of [getDatacenterInfo]: (ready, draining). *)
Definition countNodes (nodes : list Node.t) : nat * nat :=
  foldl (λ '(ready, draining) node,
           if Node.Drain node then (ready, S draining)
           else if streq (Node.SchedulingEligibility node) "eligible"
                then (S ready, draining)
                else (ready, S draining))
        (0, 0) nodes.

(** The job statistics loop of [getDatacenterInfo]: (running, stopped). *)
Definition countJobs (jobs : list Job.t) : nat * nat :=
  foldl (λ '(running, stopped) job,
           if streq (Job.Status job) "running" then (S running, stopped)
           else if streq (Job.Status job) "dead" then (running, S stopped)
                else (running, stopped))
        (0, 0) jobs.

(** [getDatacenterInfo] *)
Definition getDatacenterInfo (dcName : string) : M (result Datacenter.t) :=
  r <- GetNodes dcName ;;
  match r with
  | Err e => ret (Err e)
  | Ok nodes =>
      let region :=
        match GetClusterRegion (clusters svc) dcName with
        | Ok region => region
        | Err _ => "unknown"
        end in
      let NodesTotal := length nodes in
      let '(NodesReady, NodesDraining) := countNodes nodes in
      let Status :=
        if bool_decide (NodesDraining = NodesTotal) then DatacenterStatusDraining
        else if bool_decide (0 < NodesReady) then DatacenterStatusActive
             else DatacenterStatusDraining in
      let '(JobsTotal, (JobsRunning, JobsStopped)) :=
        match ListJobs svc orc dcName with
        | Err _ => (0, (0, 0))
        | Ok jobs => (length jobs, countJobs jobs)
        end in
      ret (Ok (Datacenter.mk dcName region Status NodesTotal NodesReady
                 NodesDraining JobsTotal JobsRunning JobsStopped))
  end.

(** [ListDatacenters] *)
Definition ListDatacenters : M (list Datacenter.t * option string) :=
  let clusterNames := GetClusterNames (clusters svc) in
  results <- ParallelMap (λ dcName,
      r <- getDatacenterInfo dcName ;;
      match r with
      | Err _ =>
          ret (Datacenter.mk dcName "" DatacenterStatusError 0 0 0 0 0 0, None)
      | Ok dc => ret (dc, None)
      end) clusterNames ;;
  ret (Value <$> results, None).

(** The counters of [getRegionInfo]'s loop. *)
Record regionCounts := {
  activeCount : nat;
  drainingCount : nat;
  errorCount : nat;
  totalJobs : nat;
  runningJobs : nat;
  stoppedJobs : nat
}.

Definition countStatus (acc : regionCounts) (dc : Datacenter.t) : regionCounts :=
  let st := Datacenter.Status dc in
  {| activeCount :=
       if streq st DatacenterStatusActive then S (activeCount acc)
       else activeCount acc;
     drainingCount :=
       if streq st DatacenterStatusActive then drainingCount acc
       else if streq st DatacenterStatusDraining then S (drainingCount acc)
            else drainingCount acc;
     errorCount :=
       if streq st DatacenterStatusActive then errorCount acc
       else if streq st DatacenterStatusDraining then errorCount acc
            else if streq st DatacenterStatusError then S (errorCount acc)
                 else errorCount acc;
     totalJobs := totalJobs acc + Datacenter.JobsTotal dc;
     runningJobs := runningJobs acc + Datacenter.JobsRunning dc;
     stoppedJobs := stoppedJobs acc + Datacenter.JobsStopped dc |}.

(** The status decision at the end of [getRegionInfo]. *)
Definition regionStatus (counts : regionCounts) (nClusterNames : nat) : string :=
  if bool_decide (0 < errorCount counts) then DatacenterStatusError
  else if bool_decide (drainingCount counts = nClusterNames)
       then DatacenterStatusDraining
       else if bool_decide (0 < activeCount counts)
               && bool_decide (0 < drainingCount counts)
            then "partial"
            else DatacenterStatusActive.

(** [getRegionInfo] *)
Definition getRegionInfo (regionName : string) : M (Region.t * option string) :=
  let clusterNames := GetClustersByRegion (clusters svc) regionName in
  results <- ParallelMap (λ dcName,
      r <- getDatacenterInfo dcName ;;
      match r with
      | Err _ =>
          ret (Datacenter.mk dcName regionName DatacenterStatusError
                 0 0 0 0 0 0, None)
      | Ok dc => ret (dc, None)
      end) clusterNames ;;
  let datacenters := Value <$> results in
  let counts := foldl countStatus (Build_regionCounts 0 0 0 0 0 0) datacenters in
  ret (Region.mk regionName datacenters
         (regionStatus counts (length clusterNames))
         (totalJobs counts) (runningJobs counts) (stoppedJobs counts), None).

End service.

(** *** Activation *)

Module clusterNodesInfo.
Record t := mk {
  clusterName : string;
  nodes : list Node.t;
  region : string;
  err : option string
}.
End clusterNodesInfo.

Module nodeToChange.
Record t := mk {
  node : Node.t;
  nodeIsEligible : bool;
  alreadyCorrect : bool
}.
End nodeToChange.

Module nodeResult.
Record t := mk {
  nodeID : string;
  success : bool
}.
End nodeResult.

Section activation.
Context (svc : Service) (orc : Oracle).

(** The worker of the first fan-out of [ActivateDatacenter]. *)
Definition fetchClusterForDatacenter (targetDC targetRegion clusterName : string)
  : M (clusterNodesInfo.t * option string) :=
  match GetClusterRegion (clusters svc) clusterName with
  | Err e => ret (clusterNodesInfo.mk clusterName [] "" (Some e), None)
  | Ok clusterRegion =>
      if streq clusterRegion targetRegion && negb (streq clusterName targetDC)
      then ret (clusterNodesInfo.mk clusterName [] clusterRegion None, None)
      else
        r <- GetNodes svc orc clusterName ;;
        match r with
        | Err e => ret (clusterNodesInfo.mk clusterName [] "" (Some e), None)
        | Ok nodes =>
            ret (clusterNodesInfo.mk clusterName nodes clusterRegion None, None)
        end
  end.

(** The worker of the first fan-out of [ActivateRegion]. *)
Definition fetchClusterForRegion (clusterName : string)
  : M (clusterNodesInfo.t * option string) :=
  match GetClusterRegion (clusters svc) clusterName with
  | Err e => ret (clusterNodesInfo.mk clusterName [] "" (Some e), None)
  | Ok clusterRegion =>
      r <- GetNodes svc orc clusterName ;;
      match r with
      | Err e => ret (clusterNodesInfo.mk clusterName [] "" (Some e), None)
      | Ok nodes =>
          ret (clusterNodesInfo.mk clusterName nodes clusterRegion None, None)
      end
  end.

(** "Collect nodes that need changes": one [nodeToChange] per node. *)
Definition planNode (shouldDrain : bool) (node : Node.t) : nodeToChange.t :=
  let shouldBeEligible := negb shouldDrain in
  let nodeIsEligible := streq (Node.SchedulingEligibility node) "eligible" in
  let alreadyCorrect :=
    eqb (Node.Drain node) shouldDrain && eqb nodeIsEligible shouldBeEligible in
  nodeToChange.mk node nodeIsEligible alreadyCorrect.

(** The worker of the per-node fan-out. *)
Definition applyChange (clusterName : string) (shouldDrain : bool)
  (ntc : nodeToChange.t) : M (nodeResult.t * option string) :=
  if nodeToChange.alreadyCorrect ntc then ret (nodeResult.mk "" true, None)
  else
    let id := Node.ID (nodeToChange.node ntc) in
    err <- SetNodeDrain svc orc clusterName id shouldDrain ;;
    match err with
    | Some e => ret (nodeResult.mk id false, Some e)
    | None => ret (nodeResult.mk id true, None)
    end.

(** "Collect errors and update counters": one step of the loop over
    [nodeResults]. *)
Definition collectNodeResult (clusterName : string) (shouldDrain : bool)
  (result : ActivationResult.t) (nr : Result nodeResult.t) : ActivationResult.t :=
  match Error nr with
  | Some e =>
      let errMsg := "cluster " +:+ clusterName +:+ ", node "
                    +:+ nodeResult.nodeID (Value nr) +:+ ": " +:+ e in
      ActivationResult.mk (ActivationResult.Activated result)
        (ActivationResult.DrainedNodes result)
        (ActivationResult.UnDrainedNodes result)
        (ActivationResult.Errors result ++ [errMsg])
  | None =>
      if nodeResult.success (Value nr)
         && negb (streq (nodeResult.nodeID (Value nr)) "")
      then
        if shouldDrain then
          ActivationResult.mk (ActivationResult.Activated result)
            (S (ActivationResult.DrainedNodes result))
            (ActivationResult.UnDrainedNodes result)
            (ActivationResult.Errors result)
        else
          ActivationResult.mk (ActivationResult.Activated result)
            (ActivationResult.DrainedNodes result)
            (S (ActivationResult.UnDrainedNodes result))
            (ActivationResult.Errors result)
      else result
  end.

(** The part of the cluster loop that both activations share, from
    [nodesToChange] to the cache invalidation. *)
Definition changeNodes (clusterName : string) (shouldDrain : bool)
  (nodes : list Node.t) (result : ActivationResult.t) : M ActivationResult.t :=
  let nodesToChange := planNode shouldDrain <$> nodes in
  nodeResults <- ParallelMap (applyChange clusterName shouldDrain) nodesToChange ;;
  let result' := foldl (collectNodeResult clusterName shouldDrain) result nodeResults in
  modify (set_cache (delete (cacheKey clusterName))) ;;;
  ret result'.

Definition addError (result : ActivationResult.t) (errMsg : string)
  : ActivationResult.t :=
  ActivationResult.mk (ActivationResult.Activated result)
    (ActivationResult.DrainedNodes result)
    (ActivationResult.UnDrainedNodes result)
    (ActivationResult.Errors result ++ [errMsg]).

Definition fetchError (clusterInfo : clusterNodesInfo.t) (e : string) : string :=
  "cluster " +:+ clusterNodesInfo.clusterName clusterInfo
  +:+ ": failed to fetch nodes: " +:+ e.

(** The body of the cluster loop of [ActivateDatacenter]. *)
Definition processClusterForDatacenter (targetDC : string)
  (result : ActivationResult.t) (clusterResult : Result clusterNodesInfo.t)
  : M ActivationResult.t :=
  let clusterInfo := Value clusterResult in
  match clusterNodesInfo.err clusterInfo with
  | Some e => ret (addError result (fetchError clusterInfo e))
  | None =>
      if bool_decide (length (clusterNodesInfo.nodes clusterInfo) = 0)
      then ret result
      else
        let clusterName := clusterNodesInfo.clusterName clusterInfo in
        let shouldDrain := negb (streq clusterName targetDC) in
        changeNodes clusterName shouldDrain (clusterNodesInfo.nodes clusterInfo) result
  end.

(** The etcd write at the end of both activations. [mine] says whether the
    success branch clears [s.amDrained]. *)
Definition recordActive (datacenter by_ : string) (mine : bool)
  (result : ActivationResult.t) : M ActivationResult.t :=
  activatedAt <- Now orc ;;
  lastHeartbeat <- Now orc ;;
  let activeInfo := ActiveDatacenter.mk datacenter activatedAt by_ lastHeartbeat in
  err <- WriteActiveDatacenter orc activeInfo ;;
  match err with
  | Some e => ret (addError result ("failed to write to etcd: " +:+ e))
  | None =>
      (if mine then modify (set_amDrained false) else ret tt) ;;;
      ret result
  end.

Definition notifyHealthChecker (targetRegion : string) : M unit :=
  if healthChecker svc then emit (SetActiveRegionCall targetRegion) else ret tt.

(** [ActivateDatacenter] *)
Definition ActivateDatacenter (targetDC : string)
  : M (option ActivationResult.t * option string) :=
  let result := ActivationResult.mk targetDC 0 0 [] in
  let clusterNames := GetClusterNames (clusters svc) in
  match GetClusterRegion (clusters svc) targetDC with
  | Err e =>
      ret (None, Some ("target datacenter " +:+ targetDC +:+ " not found: " +:+ e))
  | Ok targetRegion =>
      clusterNodesResults <-
        ParallelMap (fetchClusterForDatacenter targetDC targetRegion) clusterNames ;;
      result <- foldM (processClusterForDatacenter targetDC)
                  clusterNodesResults result ;;
      result <-
        (if bool_decide (0 < ActivationResult.UnDrainedNodes result) then
           err <- TriggerJobEvaluations svc orc targetDC ;;
           match err with
           | Some e =>
               ret (addError result ("failed to trigger job evaluations for "
                                     +:+ targetDC +:+ ": " +:+ e))
           | None => ret result
           end
         else ret result) ;;
      result <- recordActive targetDC "api" true result ;;
      notifyHealthChecker targetRegion ;;;
      ret (Some result, None)
  end.

(** The body of the cluster loop of [ActivateRegion]. *)
Definition processClusterForRegion (targetRegion : string)
  (result : ActivationResult.t) (clusterResult : Result clusterNodesInfo.t)
  : M ActivationResult.t :=
  let clusterInfo := Value clusterResult in
  match clusterNodesInfo.err clusterInfo with
  | Some e => ret (addError result (fetchError clusterInfo e))
  | None =>
      let clusterName := clusterNodesInfo.clusterName clusterInfo in
      let clusterRegion := clusterNodesInfo.region clusterInfo in
      let shouldDrain := negb (streq clusterRegion targetRegion) in
      changeNodes clusterName shouldDrain (clusterNodesInfo.nodes clusterInfo) result
  end.

(** "Trigger evaluations for all clusters in the region": the errors, in order. *)
Fixpoint triggerAll (targetClusters : list string) (evalErrors : list string)
  : M (list string) :=
  match targetClusters with
  | [] => ret evalErrors
  | clusterName :: rest =>
      err <- TriggerJobEvaluations svc orc clusterName ;;
      match err with
      | Some e =>
          triggerAll rest (evalErrors ++ ["datacenter " +:+ clusterName +:+ ": " +:+ e])
      | None => triggerAll rest evalErrors
      end
  end.

(** [ActivateRegion] *)
Definition ActivateRegion (targetRegion : string)
  : M (option ActivationResult.t * option string) :=
  let targetClusters := GetClustersByRegion (clusters svc) targetRegion in
  match targetClusters with
  | [] =>
      ret (None, Some ("region " +:+ targetRegion
                       +:+ " not found or has no datacenters"))
  | activeDatacenter :: _ =>
      let result := ActivationResult.mk targetRegion 0 0 [] in
      let allClusters := GetClusterNames (clusters svc) in
      clusterNodesResults <- ParallelMap fetchClusterForRegion allClusters ;;
      result <- foldM (processClusterForRegion targetRegion)
                  clusterNodesResults result ;;
      result <-
        (if bool_decide (0 < ActivationResult.UnDrainedNodes result) then
           evalErrors <- triggerAll targetClusters [] ;;
           ret (ActivationResult.mk (ActivationResult.Activated result)
                  (ActivationResult.DrainedNodes result)
                  (ActivationResult.UnDrainedNodes result)
                  (ActivationResult.Errors result ++ evalErrors))
         else ret result) ;;
      result <- recordActive activeDatacenter "api-region"
                  (streq activeDatacenter (myDatacenter svc)) result ;;
      notifyHealthChecker targetRegion ;;;
      ret (Some result, None)
  end.

End activation.

(** *** Startup reconciliation and the heartbeat loop *)

Section heartbeat.
Context (svc : Service) (orc : Oracle).

(** The node loop of [drainMyNodes]; it returns at the first failed write. *)
Fixpoint drainLoop (nodes : list Node.t) : M (option string) :=
  match nodes with
  | [] => ret None
  | node :: rest =>
      if Node.Drain node
         || negb (streq (Node.SchedulingEligibility node) "eligible")
      then drainLoop rest
      else
        err <- SetNodeDrain svc orc (myDatacenter svc) (Node.ID node) true ;;
        match err with
        | Some e => ret (Some ("failed to drain node " +:+ Node.ID node +:+ ": " +:+ e))
        | None => drainLoop rest
        end
  end.

(** [drainMyNodes] *)
Definition drainMyNodes : M (option string) :=
  r <- GetNodes svc orc (myDatacenter svc) ;;
  match r with
  | Err e => ret (Some ("failed to get nodes: " +:+ e))
  | Ok nodes =>
      err <- drainLoop nodes ;;
      match err with
      | Some e => ret (Some e)
      | None =>
          modify (set_cache (delete (cacheKey (myDatacenter svc)))) ;;;
          ret None
      end
  end.

(** The three places of [PerformStartupReconciliation] that drain, mark
    "drained" and return [ret_]: [if err := s.drainMyNodes(ctx); err != nil
    { return ... }; s.amDrained = true; return ret_]. *)
Definition drainAndMark (ret_ : option string) : M (option string) :=
  err <- drainMyNodes ;;
  match err with
  | Some e => ret (Some ("failed to drain nodes: " +:+ e))
  | None => modify (set_amDrained true) ;;; ret ret_
  end.

(** [PerformStartupReconciliation]; the result is the returned [error]. *)
Definition PerformStartupReconciliation : M (option string) :=
  r <- ReadActiveDatacenter orc ;;
  match r with
  | Err _ => drainAndMark None
  | Ok activeInfo =>
      (* the age in the "found active datacenter" log line *)
      HeartbeatAge orc activeInfo ;;;
      if negb (streq (ActiveDatacenter.Datacenter activeInfo) (myDatacenter svc))
      then drainAndMark None
      else
        stale <- IsStale orc activeInfo (StaleThreshold (heartbeatCfg svc)) ;;
        if stale then
          (* the age in the "heartbeat is stale" log line *)
          HeartbeatAge orc activeInfo ;;;
          drainAndMark None
        else
          age <- HeartbeatAge orc activeInfo ;;
          if bool_decide (age < StaleThreshold (heartbeatCfg svc))%Z then
            drainAndMark
              (Some "another instance of this datacenter might be running (fresh heartbeat found)")
          else
            modify (set_amDrained false) ;;;
            ret None
  end.

(** [if !s.amDrained { if err := s.drainMyNodes(ctx); err != nil { log }
    else { s.amDrained = true } }] without the outer test. *)
Definition drainOrLog : M unit :=
  err <- drainMyNodes ;;
  match err with
  | Some _ => ret tt
  | None => modify (set_amDrained true)
  end.

(** One [case <-ticker.C:] of [heartbeatLoop]: from the value of
    [consecutiveFailures] before the tick to its value after. *)
Definition heartbeatTick (consecutiveFailures : nat) : M nat :=
  r <- ReadActiveDatacenter orc ;;
  match r with
  | Err _ => ret (S consecutiveFailures)
  | Ok activeInfo =>
      if negb (streq (ActiveDatacenter.Datacenter activeInfo) (myDatacenter svc))
      then
        w <- get ;;
        (if negb (amDrained w) then drainOrLog else ret tt) ;;;
        ret 0
      else
        heartbeatAge <- HeartbeatAge orc activeInfo ;;
        w <- get ;;
        if bool_decide (heartbeatAge < StaleThreshold (heartbeatCfg svc))%Z
           && amDrained w
        then ret consecutiveFailures
        else
          now <- Now orc ;;
          let activeInfo :=
            ActiveDatacenter.mk (ActiveDatacenter.Datacenter activeInfo)
              (ActiveDatacenter.ActivatedAt activeInfo)
              (ActiveDatacenter.ActivatedBy activeInfo) now in
          err <- WriteActiveDatacenter orc activeInfo ;;
          match err with
          | Some _ =>
              let consecutiveFailures := S consecutiveFailures in
              w <- get ;;
              (if bool_decide (MaxFailures (heartbeatCfg svc) ≤ consecutiveFailures)%nat
                  && negb (amDrained w)
               then drainOrLog else ret tt) ;;;
              ret consecutiveFailures
          | None => ret 0
          end
  end.

End heartbeat.

(** What happens between two ticks and at a tick: a peer instance may have
    put a record under the etcd key, and the collaborators answer by the
    tick's oracle. *)
Record Tick := {
  peer_put : option ActiveDatacenter.t;
  tick_orc : Oracle
}.

Definition peerPut (t : Tick) (w : World) : World :=
  match peer_put t with
  | Some info => set_etcd (Some info) w
  | None => w
  end.

(** [heartbeatLoop] over the ticks that arrive before the stop signal: the
    final [consecutiveFailures], the final world, and the calls of every
    tick, tick by tick. *)
Fixpoint heartbeatLoopFrom (svc : Service) (ticks : list Tick)
  (consecutiveFailures : nat) (w : World) : nat * World * list (list Call) :=
  match ticks with
  | [] => (consecutiveFailures, w, [])
  | t :: ticks' =>
      let '(consecutiveFailures', w', calls) :=
        heartbeatTick svc (tick_orc t) consecutiveFailures (peerPut t w) in
      let '(n, w'', rest) := heartbeatLoopFrom svc ticks' consecutiveFailures' w' in
      (n, w'', calls :: rest)
  end.

Definition heartbeatLoop (svc : Service) (ticks : list Tick) (w : World)
  : nat * World * list (list Call) :=
  heartbeatLoopFrom svc ticks 0 w.

(** ** Vocabulary of the statements *)

Section views.
Context (svc : Service) (orc : Oracle).

(** The error [SetNodeDrain] returns; it depends on the collaborators only. *)
Definition drainOutcome (clusterName nodeID : string) (drain : bool)
  : option string :=
  match clusters svc !! clusterName with
  | None => Some ("cluster " +:+ clusterName +:+ " not found")
  | Some _ =>
      match update_drain_err orc clusterName nodeID drain with
      | None => None
      | Some e =>
          match direct_drain_err orc clusterName nodeID drain with
          | None => None
          | Some fallbackErr =>
              Some ("both Server API and Client API failed: server_error="
                    +:+ e +:+ ", client_error=" +:+ fallbackErr)
          end
      end
  end.

(** What [GetNodes] answers for a datacenter in a given world. *)
Definition snapshot (w : World) (dc : string) : result (list Node.t) :=
  match cache w !! cacheKey dc with
  | Some nodes => Ok nodes
  | None =>
      match clusters svc !! dc with
      | None => Err ("failed to list nodes: " +:+ ("cluster " +:+ dc +:+ " not found"))
      | Some _ =>
          match nodes_list_err orc dc with
          | Some e => Err ("failed to list nodes: " +:+ ("failed to list nodes: " +:+ e))
          | None => Ok (default [] (nomad w !! dc))
          end
      end
  end.

(** The world [GetNodes] leaves: a fetched list is cached. *)
Definition cacheFetched (dc : string) (w : World) : World :=
  match cache w !! cacheKey dc, snapshot w dc with
  | None, Ok nodes => set_cache (insert (cacheKey dc) nodes) w
  | _, _ => w
  end.

End views.

(** A node is in the state an activation wants for its cluster. *)
Definition inDesiredState (shouldDrain : bool) (n : Node.t) : bool :=
  nodeToChange.alreadyCorrect (planNode shouldDrain n).

(** Every cached snapshot is the node table of its cluster. *)
Definition cacheCoherent (w : World) : Prop :=
  ∀ dc nodes, cache w !! cacheKey dc = Some nodes →
              nodes = default [] (nomad w !! dc).

Definition isSetNodeDrain (c : Call) : bool :=
  match c with SetNodeDrainCall _ _ _ _ => true | _ => false end.
Definition isWriteActiveDatacenter (c : Call) : bool :=
  match c with WriteActiveDatacenterCall _ _ => true | _ => false end.

(** A write that went through on a node with an ID, to [drain]. *)
Definition changedTo (drain : bool) (c : Call) : bool :=
  match c with
  | SetNodeDrainCall _ nodeID d None => eqb d drain && negb (streq nodeID "")
  | _ => false
  end.


(** The three parts of a computation's outcome. *)
Definition valueOf {A} (x : A * World * list Call) : A := x.1.1.
Definition worldOf {A} (x : A * World * list Call) : World := x.1.2.
Definition callsOf {A} (x : A * World * list Call) : list Call := x.2.
Arguments valueOf {A} !x /.
Arguments worldOf {A} !x /.
Arguments callsOf {A} !x /.

Section changes.
Context (svc : Service) (orc : Oracle).

(** What the per-node worker answers, does to the world, and calls. *)
Definition changeResult (clusterName : string) (shouldDrain : bool)
  (ntc : nodeToChange.t) : nodeResult.t * option string :=
  if nodeToChange.alreadyCorrect ntc then (nodeResult.mk "" true, None)
  else
    let id := Node.ID (nodeToChange.node ntc) in
    match drainOutcome svc orc clusterName id shouldDrain with
    | Some e => (nodeResult.mk id false, Some e)
    | None => (nodeResult.mk id true, None)
    end.

Definition changeEffect (clusterName : string) (shouldDrain : bool)
  (ntc : nodeToChange.t) (w : World) : World :=
  if nodeToChange.alreadyCorrect ntc then w
  else
    let id := Node.ID (nodeToChange.node ntc) in
    match drainOutcome svc orc clusterName id shouldDrain with
    | Some _ => w
    | None => set_nomad (drain_in_table clusterName id shouldDrain) w
    end.

Definition changeCalls (clusterName : string) (shouldDrain : bool)
  (ntc : nodeToChange.t) : list Call :=
  if nodeToChange.alreadyCorrect ntc then []
  else
    let id := Node.ID (nodeToChange.node ntc) in
    [SetNodeDrainCall clusterName id shouldDrain
       (drainOutcome svc orc clusterName id shouldDrain)].

End changes.

(** ** A small deployment, for the concrete runs *)

Module Example.

(** Three clusters: [dcA] and [dcC] in region [us], [dcB] in region [eu]. *)
Definition table : gmap string clusterMetadata :=
  <["dcA" := {| name := "dcA"; region := "us" |}]>
    (<["dcB" := {| name := "dcB"; region := "eu" |}]>
       (<["dcC" := {| name := "dcC"; region := "us" |}]> ∅)).

(** The instance that manages [dcB]: [max_failures = 3], a stale threshold
    of 120 s, times in nanoseconds. *)
Definition svc : Service :=
  {| clusters := table; myDatacenter := "dcB";
     heartbeatCfg := {| UpdateInterval := 30000000000; MaxFailures := 3;
                        StaleThreshold := 120000000000 |};
     healthChecker := true |}.

(** Every collaborator answers; the clock stands at 1000 s. *)
Definition allGood : Oracle :=
  {| nodes_list_err := λ _, None;
     update_drain_err := λ _ _ _, None;
     direct_drain_err := λ _ _ _, None;
     jobs_list := λ _, Ok [];
     trigger_err := λ _, None;
     etcd_get_err := None;
     etcd_put_err := None;
     clock := λ _, 1000000000000%Z |}.

Definition ready (id : string) : Node.t := Node.mk id id false "eligible" "ready".
Definition draining (id : string) : Node.t := Node.mk id id true "ineligible" "ready".

(** Every node ready, nothing cached, no record in etcd. *)
Definition fresh : World :=
  {| nomad := <["dcA" := [ready "a1"; ready "a2"]]>
                (<["dcB" := [ready "b1"; ready "b2"]]>
                   (<["dcC" := [ready "c1"]]> ∅));
     cache := ∅; etcd := None; amDrained := false; reads := 0 |}.

End Example.

(** Statuses of the members of a region view. *)
Definition anyStatus (st : string) (ds : list Datacenter.t) : Prop :=
  ∃ d, d ∈ ds ∧ Datacenter.Status d = st.
Definition allStatus (st : string) (ds : list Datacenter.t) : Prop :=
  ∀ d, d ∈ ds → Datacenter.Status d = st.

(** The three statuses a datacenter view can have. *)
Definition datacenterStatus (st : string) : Prop :=
  st = DatacenterStatusActive ∨ st = DatacenterStatusDraining
  ∨ st = DatacenterStatusError.

(** How many members satisfy [p]. *)
Definition countIf (p : Datacenter.t → bool) (ds : list Datacenter.t) : nat :=
  length (filter (λ d, p d = true) ds).

(** The [case]s of the [switch dc.Status] in [getRegionInfo]. *)
Definition isActive (d : Datacenter.t) : bool :=
  streq (Datacenter.Status d) DatacenterStatusActive.
Definition isDraining (d : Datacenter.t) : bool :=
  streq (Datacenter.Status d) DatacenterStatusDraining.
Definition isError (d : Datacenter.t) : bool :=
  streq (Datacenter.Status d) DatacenterStatusError.

Section activation_views.
Context (svc : Service) (orc : Oracle).

(** The answer of the first fan-out of [ActivateDatacenter] for one cluster,
    from what [GetNodes] answers in the world [w0] the activation starts in. *)
Definition fetchedInfo (targetDC targetRegion : string) (w0 : World)
  (clusterName : string) : clusterNodesInfo.t :=
  match GetClusterRegion (clusters svc) clusterName with
  | Err e => clusterNodesInfo.mk clusterName [] "" (Some e)
  | Ok clusterRegion =>
      if streq clusterRegion targetRegion && negb (streq clusterName targetDC)
      then clusterNodesInfo.mk clusterName [] clusterRegion None
      else
        match snapshot svc orc w0 clusterName with
        | Err e => clusterNodesInfo.mk clusterName [] "" (Some e)
        | Ok nodes => clusterNodesInfo.mk clusterName nodes clusterRegion None
        end
  end.

(** The world that worker leaves: a cluster that is not skipped is fetched. *)
Definition fetchedWorld (targetDC targetRegion : string)
  (clusterName : string) (w : World) : World :=
  match GetClusterRegion (clusters svc) clusterName with
  | Err _ => w
  | Ok clusterRegion =>
      if streq clusterRegion targetRegion && negb (streq clusterName targetDC)
      then w
      else cacheFetched svc orc clusterName w
  end.

(** One step of the loop over [nodeResults], on the worker's answer. *)
Definition collectChange (clusterName : string) (shouldDrain : bool)
  (result : ActivationResult.t) (ntc : nodeToChange.t) : ActivationResult.t :=
  collectNodeResult clusterName shouldDrain result
    (mkResult (changeResult svc orc clusterName shouldDrain ntc).1
       (changeResult svc orc clusterName shouldDrain ntc).2 0).

(** The body of the cluster loop of [ActivateDatacenter]: its result, its
    effect on the world and its calls. *)
Definition processedResult (targetDC : string) (result : ActivationResult.t)
  (clusterInfo : clusterNodesInfo.t) : ActivationResult.t :=
  match clusterNodesInfo.err clusterInfo with
  | Some e => addError result (fetchError clusterInfo e)
  | None =>
      if bool_decide (length (clusterNodesInfo.nodes clusterInfo) = 0)
      then result
      else
        let clusterName := clusterNodesInfo.clusterName clusterInfo in
        let shouldDrain := negb (streq clusterName targetDC) in
        foldl (collectChange clusterName shouldDrain) result
          (planNode shouldDrain <$> clusterNodesInfo.nodes clusterInfo)
  end.

Definition processedWorld (targetDC : string)
  (clusterInfo : clusterNodesInfo.t) (w : World) : World :=
  match clusterNodesInfo.err clusterInfo with
  | Some _ => w
  | None =>
      if bool_decide (length (clusterNodesInfo.nodes clusterInfo) = 0)
      then w
      else
        let clusterName := clusterNodesInfo.clusterName clusterInfo in
        let shouldDrain := negb (streq clusterName targetDC) in
        set_cache (delete (cacheKey clusterName))
          (foldl (λ w x, changeEffect svc orc clusterName shouldDrain x w) w
             (planNode shouldDrain <$> clusterNodesInfo.nodes clusterInfo))
  end.

Definition processedCalls (targetDC : string)
  (clusterInfo : clusterNodesInfo.t) : list Call :=
  match clusterNodesInfo.err clusterInfo with
  | Some _ => []
  | None =>
      if bool_decide (length (clusterNodesInfo.nodes clusterInfo) = 0)
      then []
      else
        let clusterName := clusterNodesInfo.clusterName clusterInfo in
        let shouldDrain := negb (streq clusterName targetDC) in
        (planNode shouldDrain <$> clusterNodesInfo.nodes clusterInfo)
          ≫= changeCalls svc orc clusterName shouldDrain
  end.

End activation_views.

(** What the fetches of an activation keep true of the world. *)
Definition fetchInv (svc : Service) (orc : Oracle) (w0 w : World) : Prop :=
  (∀ dc, snapshot svc orc w dc = snapshot svc orc w0 dc)
  ∧ nomad w = nomad w0 ∧ etcd w = etcd w0 ∧ amDrained w = amDrained w0
  ∧ reads w = reads w0
  ∧ (cacheCoherent w0 → cacheCoherent w).

(** The node writes an activation issues for a cluster, given the snapshot
    of its nodes: one for every node that is not in the desired state, in
    the order of the snapshot. *)
Definition writesFor (svc : Service) (orc : Oracle) (clusterName : string)
  (shouldDrain : bool) (nodes : list Node.t) : list Call :=
  (λ n, SetNodeDrainCall clusterName (Node.ID n) shouldDrain
          (drainOutcome svc orc clusterName (Node.ID n) shouldDrain))
  <$> filter (λ n, inDesiredState shouldDrain n = false) nodes.

(** The entry of [errors[]] for a node write that failed. *)
Definition failureMessage (c : Call) : option string :=
  match c with
  | SetNodeDrainCall clusterName nodeID _ (Some e) =>
      Some ("cluster " +:+ clusterName +:+ ", node " +:+ nodeID +:+ ": " +:+ e)
  | _ => None
  end.

(** How many calls are writes that went through on a node with an ID. *)
Definition countChanged (drain : bool) (calls : list Call) : nat :=
  length (filter (λ c, changedTo drain c = true) calls).


Module Example6.
End Example6.

(** The node table of a cluster after the writes an activation issues for
    the snapshot [todo]: every write that goes through rewrites the nodes
    with that ID. *)
Definition afterWrites (svc : Service) (orc : Oracle) (clusterName : string)
  (shouldDrain : bool) (todo : list Node.t) (table : list Node.t) : list Node.t :=
  foldl (λ table n,
           if inDesiredState shouldDrain n then table
           else match drainOutcome svc orc clusterName (Node.ID n) shouldDrain with
                | Some _ => table
                | None => apply_drain (Node.ID n) shouldDrain <$> table
                end)
        table todo.

(** What the cluster loop of [ActivateDatacenter] does to the node table of
    the cluster of [clusterInfo]. *)
Definition tableAfter (svc : Service) (orc : Oracle) (targetDC : string)
  (clusterInfo : clusterNodesInfo.t) (table : option (list Node.t))
  : option (list Node.t) :=
  match clusterNodesInfo.err clusterInfo with
  | Some _ => table
  | None =>
      if bool_decide (length (clusterNodesInfo.nodes clusterInfo) = 0)
      then table
      else
        let clusterName := clusterNodesInfo.clusterName clusterInfo in
        afterWrites svc orc clusterName (negb (streq clusterName targetDC))
          (clusterNodesInfo.nodes clusterInfo) <$> table
  end.

Module Example5.
(** [dcB], managed by this instance, has two ready nodes; [dcA] has one
    ready node; the node of [dcC] is drained. Nothing is cached. *)
Definition start : World :=
  {| nomad := <["dcA" := [Example.ready "a1"]]>
                (<["dcB" := [Example.ready "b1"; Example.ready "b2"]]>
                   (<["dcC" := [Example.draining "c1"]]> ∅));
     cache := ∅; etcd := None; amDrained := false; reads := 0 |}.

(** Every collaborator answers, except that no drain update reaches the node
    [b2] of [dcB], through the servers or directly. *)
Definition b2Fails : Oracle :=
  {| nodes_list_err := λ _, None;
     update_drain_err := λ c id _,
       if streq c "dcB" && streq id "b2" then Some "no leader" else None;
     direct_drain_err := λ c id _,
       if streq c "dcB" && streq id "b2" then Some "connection refused" else None;
     jobs_list := λ _, Ok [];
     trigger_err := λ _, None;
     etcd_get_err := None;
     etcd_put_err := None;
     clock := λ _, 1000000000000%Z |}.
End Example5.

(** [drainMyNodes] goes through in the world [w]: [GetNodes] answers, and
    the write to every ready node of its answer succeeds. *)
Definition drainSucceeds (svc : Service) (orc : Oracle) (w : World) : Prop :=
  ∃ nodes, snapshot svc orc w (myDatacenter svc) = Ok nodes
           ∧ ∀ n, n ∈ nodes → Node.IsReady n = true →
                  drainOutcome svc orc (myDatacenter svc) (Node.ID n) true = None.

(** The collaborators let [drainMyNodes] go through whatever the world is:
    the local datacenter is a configured cluster, its node list can be read
    and the servers accept every drain update for it. *)
Definition drainAlwaysSucceeds (svc : Service) (orc : Oracle) : Prop :=
  is_Some (clusters svc !! myDatacenter svc)
  ∧ nodes_list_err orc (myDatacenter svc) = None
  ∧ ∀ nodeID, update_drain_err orc (myDatacenter svc) nodeID true = None.

(** The writes [drainMyNodes] issues when all of them succeed: one for every
    ready node of the snapshot, in order. *)
Definition drainWrites (svc : Service) (nodes : list Node.t) : list Call :=
  (λ n, SetNodeDrainCall (myDatacenter svc) (Node.ID n) true None)
  <$> filter (λ n, Node.IsReady n = true) nodes.




(** The parts of the outcome of [heartbeatLoopFrom]. *)
Definition failuresOf (x : nat * World * list (list Call)) : nat := x.1.1.
Definition stateOf (x : nat * World * list (list Call)) : World := x.1.2.
Definition ticksOf (x : nat * World * list (list Call)) : list (list Call) := x.2.
Arguments failuresOf !x /.
Arguments stateOf !x /.
Arguments ticksOf !x /.

Module Example1.
(** etcd names [dcB] as active with a heartbeat 5 s before the clock of the
    example oracles; both nodes of [dcB] are ready. *)
Definition peerAlive : World :=
  {| nomad := <["dcB" := [Example.ready "b1"; Example.ready "b2"]]> ∅;
     cache := ∅;
     etcd := Some (ActiveDatacenter.mk "dcB" 900000000000 "api" 995000000000);
     amDrained := false; reads := 0 |}.


(** etcd cannot be read. *)
Definition etcdDown : Oracle :=
  {| nodes_list_err := λ _, None;
     update_drain_err := λ _ _ _, None;
     direct_drain_err := λ _ _ _, None;
     jobs_list := λ _, Ok [];
     trigger_err := λ _, None;
     etcd_get_err := Some "context deadline exceeded";
     etcd_put_err := Some "context deadline exceeded";
     clock := λ _, 1000000000000%Z |}.



Definition tick (orc : Oracle) : Tick := {| peer_put := None; tick_orc := orc |}.
End Example1.

(** What [ReadActiveDatacenter] answers in a given world. *)
Definition readResult (orc : Oracle) (w : World) : result ActiveDatacenter.t :=
  match etcd_get_err orc with
  | Some e => Err ("failed to read active datacenter from etcd: " +:+ e)
  | None =>
      match etcd w with
      | None => Err "no active datacenter found in etcd"
      | Some info => Ok info
      end
  end.

(** A tick in which the read of the etcd key failed. *)
Definition failedRead (c : Call) : bool :=
  match c with
  | ReadActiveDatacenterCall (Err _) => true
  | _ => false
  end.
Definition readFailed (calls : list Call) : Prop :=
  existsb failedRead calls = true.

(** * The rest of the service and what calls it *)

(** ** More of internal/concurrent *)

(** [concurrent.CollectResults]: (values, errors). *)
Definition CollectResults {T} (results : list (Result T)) : list T * list string :=
  foldl (λ '(values, errors) result,
           match Error result with
           | Some e => (values, errors ++ [e])
           | None => (values ++ [Value result], errors)
           end)
        ([], []) results.

(** [concurrent.FirstError] *)
Fixpoint FirstError {T} (results : list (Result T)) : option string :=
  match results with
  | [] => None
  | result :: rest =>
      match Error result with
      | Some e => Some e
      | None => FirstError rest
      end
  end.

(** [concurrent.AllErrors] *)
Definition AllErrors {T} (results : list (Result T)) : list string :=
  foldl (λ errors result,
           match Error result with
           | Some e => errors ++ [e]
           | None => errors
           end)
        [] results.

(** [concurrent.HasErrors] *)
Fixpoint HasErrors {T} (results : list (Result T)) : bool :=
  match results with
  | [] => false
  | result :: rest =>
      match Error result with
      | Some _ => true
      | None => HasErrors rest
      end
  end.

(** ** More of internal/service *)

(** [fmt.Sprintf("%v", l)] of a [[]string]: the elements between brackets,
    separated by one space. *)
Definition fmtStrings (l : list string) : string :=
  "[" +:+ String.concat " " l +:+ "]".

Module clusterNodesWithRegion.
Record t := mk {
  clusterName : string;
  nodes : list Node.t;
  region : string;
  err : option string
}.
End clusterNodesWithRegion.

Module nodeToDrain.
Record t := mk {
  clusterName : string;
  node : Node.t
}.
End nodeToDrain.

Section service_rest.
Context (svc : Service) (orc : Oracle).

(** [ListRegions] *)
Definition ListRegions : M (list Region.t * option string) :=
  let regionNames := GetAllRegions (clusters svc) in
  results <- ParallelMap (λ regionName,
      r <- getRegionInfo svc orc regionName ;;
      match r.2 with
      | Some _ => ret (Region.mk regionName [] DatacenterStatusError 0 0 0, None)
      | None => ret (r.1, None)
      end) regionNames ;;
  ret (Value <$> results, None).

(** [GetDatacentersByRegion] *)
Definition GetDatacentersByRegion (region : string)
  : M (result (list Datacenter.t)) :=
  let clusterNames := GetClustersByRegion (clusters svc) region in
  if bool_decide (length clusterNames = 0)
  then ret (Err ("region " +:+ region +:+ " not found or has no datacenters"))
  else
    results <- ParallelMap (λ dcName,
        r <- getDatacenterInfo svc orc dcName ;;
        match r with
        | Err _ =>
            ret (Datacenter.mk dcName region DatacenterStatusError
                   0 0 0 0 0 0, None)
        | Ok dc => ret (dc, None)
        end) clusterNames ;;
    ret (Ok (Value <$> results)).

(** [GetRegionDatacenters] *)
Definition GetRegionDatacenters (region : string) : M (result Region.t) :=
  r <- getRegionInfo svc orc region ;;
  match r.2 with
  | Some e => ret (Err ("failed to get region info: " +:+ e))
  | None => ret (Ok r.1)
  end.

(** [GetJobs] *)
Definition GetJobs (dc : string) : result (list Job.t) :=
  match ListJobs svc orc dc with
  | Err e => Err ("failed to list jobs: " +:+ e)
  | Ok jobs => Ok jobs
  end.

(** The node loop of the worker of [DrainAllNodesInRegion]: a failed write
    is logged and the loop goes on. *)
Definition drainNode (clusterName : string) (drainedCount : nat) (node : Node.t)
  : M nat :=
  if negb (Node.Drain node) then
    err <- SetNodeDrain svc orc clusterName (Node.ID node) true ;;
    match err with
    | Some _ => ret drainedCount
    | None => ret (S drainedCount)
    end
  else ret drainedCount.

(** The worker of [DrainAllNodesInRegion]. *)
Definition drainCluster (clusterName : string) : M (nat * option string) :=
  r <- GetNodes svc orc clusterName ;;
  match r with
  | Err e => ret (0, Some e)
  | Ok nodes =>
      drainedCount <- foldM (drainNode clusterName) nodes 0 ;;
      ret (drainedCount, None)
  end.

(** "Collect results and errors": (totalDrained, errors). *)
Definition collectDrainResult (acc : nat * list string) (result : Result nat)
  : nat * list string :=
  match Error result with
  | Some e => (acc.1, acc.2 ++ ["cluster drain error: " +:+ e])
  | None => (acc.1 + Value result, acc.2)
  end.

(** [DrainAllNodesInRegion]; the result is the returned [error]. *)
Definition DrainAllNodesInRegion (region : string) : M (option string) :=
  let clusterNames := GetClustersByRegion (clusters svc) region in
  if bool_decide (length clusterNames = 0)
  then ret (Some ("no clusters found in region " +:+ region))
  else
    drainResults <- ParallelMap drainCluster clusterNames ;;
    let '(totalDrained, errors) := foldl collectDrainResult (0, []) drainResults in
    foldM (λ _ clusterName, modify (set_cache (delete (cacheKey clusterName))))
      clusterNames tt ;;;
    if bool_decide (0 < length errors)
    then ret (Some ("some drain operations failed: " +:+ fmtStrings errors))
    else ret None.

(** The worker of the first fan-out of [EnsureSingleActiveDatacenter]. *)
Definition fetchClusterWithRegion (clusterName : string)
  : M (clusterNodesWithRegion.t * option string) :=
  r <- GetNodes svc orc clusterName ;;
  match r with
  | Err e => ret (clusterNodesWithRegion.mk clusterName [] "" (Some e), None)
  | Ok nodes =>
      match GetClusterRegion (clusters svc) clusterName with
      | Err e => ret (clusterNodesWithRegion.mk clusterName nodes "" (Some e), None)
      | Ok region => ret (clusterNodesWithRegion.mk clusterName nodes region None, None)
      end
  end.

(** [hasReadyNodes] of the grouping loop. *)
Definition hasReadyNodes (nodes : list Node.t) : bool :=
  existsb (λ node, negb (Node.Drain node)
                   && streq (Node.SchedulingEligibility node) "eligible") nodes.

(** "Find all datacenters with ready nodes, grouped by region": one step of
    the loop that fills [activeDatacentersByRegion]. *)
Definition groupActive (m : gmap string (list string))
  (result : Result clusterNodesWithRegion.t) : gmap string (list string) :=
  let info := Value result in
  match clusterNodesWithRegion.err info with
  | Some _ => m
  | None =>
      if hasReadyNodes (clusterNodesWithRegion.nodes info)
      then <[clusterNodesWithRegion.region info :=
               default [] (m !! clusterNodesWithRegion.region info)
               ++ [clusterNodesWithRegion.clusterName info]]> m
      else m
  end.

(** "Find nodes from our earlier fetch": the ready nodes of the first result
    of the cluster that has no error. *)
Fixpoint nodesOfCluster (clusterName : string)
  (results : list (Result clusterNodesWithRegion.t)) : list nodeToDrain.t :=
  match results with
  | [] => []
  | result :: rest =>
      if streq (clusterNodesWithRegion.clusterName (Value result)) clusterName
         && bool_decide (clusterNodesWithRegion.err (Value result) = None)
      then
        nodeToDrain.mk clusterName
        <$> filter (λ node, negb (Node.Drain node)
                            && streq (Node.SchedulingEligibility node) "eligible"
                            = true)
              (clusterNodesWithRegion.nodes (Value result))
      else nodesOfCluster clusterName rest
  end.

(** The worker of the drain fan-out: the cluster name when the write went
    through, the empty string and the error when it did not. *)
Definition drainForSync (ntd : nodeToDrain.t) : M (string * option string) :=
  err <- SetNodeDrain svc orc (nodeToDrain.clusterName ntd)
           (Node.ID (nodeToDrain.node ntd)) true ;;
  match err with
  | Some e => ret ("", Some e)
  | None => ret (nodeToDrain.clusterName ntd, None)
  end.

(** The body of the loop over [drainRegions]. [modifiedClusters] is a set;
    the cache deletions commute, so the order in which Go ranges over it
    does not show. *)
Definition drainRegionForSync (activeDatacentersByRegion : gmap string (list string))
  (clusterNodesResults : list (Result clusterNodesWithRegion.t))
  (_ : unit) (region : string) : M unit :=
  let datacenters := default [] (activeDatacentersByRegion !! region) in
  let nodesToDrain :=
    datacenters ≫= (λ clusterName, nodesOfCluster clusterName clusterNodesResults) in
  drainResults <- ParallelMap drainForSync nodesToDrain ;;
  let modifiedClusters : gset string :=
    list_to_set (filter (λ v, v ≠ "") (Value <$> drainResults)) in
  foldM (λ _ clusterName, modify (set_cache (delete (cacheKey clusterName))))
    (elements modifiedClusters) tt.

(** [EnsureSingleActiveDatacenter]; the result is the returned [error].
    [rangeOrder m] is the order in which Go ranges over the keys of
    [activeDatacentersByRegion]; the language leaves it unspecified. *)
Definition EnsureSingleActiveDatacenter
  (rangeOrder : gmap string (list string) → list string) : M (option string) :=
  let clusterNames := GetClusterNames (clusters svc) in
  clusterNodesResults <- ParallelMap fetchClusterWithRegion clusterNames ;;
  let activeDatacentersByRegion := foldl groupActive ∅ clusterNodesResults in
  if bool_decide (size activeDatacentersByRegion ≤ 1) then ret None
  else
    let activeRegions := rangeOrder activeDatacentersByRegion in
    let drainRegions := drop 1 activeRegions in
    foldM (drainRegionForSync activeDatacentersByRegion clusterNodesResults)
      drainRegions tt ;;;
    ret None.

End service_rest.

(** ** Vocabulary for the rest of the service *)

(** The world [w] differs from [w0] at most by cache entries that hold what
    [GetNodes] answered in [w0]: the node tables, the etcd key, [amDrained]
    and the clock are the same, and [GetNodes] answers the same for every
    datacenter. *)
Definition readOnly (svc : Service) (orc : Oracle) (w0 w : World) : Prop :=
  nomad w = nomad w0 ∧ etcd w = etcd w0 ∧ amDrained w = amDrained w0
  ∧ reads w = reads w0
  ∧ ∀ dc, snapshot svc orc w dc = snapshot svc orc w0 dc.

(** Every entry of the cluster table sits under its own name, as
    [NewNomadRepository] stores it ([metadata.name = clusterKey]). *)
Definition keyedByName (table : clusterTable) : Prop :=
  ∀ key meta, table !! key = Some meta → name meta = key.

Section drain_views.
Context (svc : Service) (orc : Oracle).

(** What the node loop of [DrainAllNodesInRegion] does for one node: the
    call, the effect on the world, the count. *)
Definition drainNodeCalls (clusterName : string) (node : Node.t) : list Call :=
  if Node.Drain node then []
  else [SetNodeDrainCall clusterName (Node.ID node) true
          (drainOutcome svc orc clusterName (Node.ID node) true)].

Definition drainNodeEffect (clusterName : string) (node : Node.t) (w : World)
  : World :=
  if Node.Drain node then w
  else match drainOutcome svc orc clusterName (Node.ID node) true with
       | Some _ => w
       | None => set_nomad (drain_in_table clusterName (Node.ID node) true) w
       end.

Definition drainNodeCount (clusterName : string) (drainedCount : nat)
  (node : Node.t) : nat :=
  if Node.Drain node then drainedCount
  else match drainOutcome svc orc clusterName (Node.ID node) true with
       | Some _ => drainedCount
       | None => S drainedCount
       end.

(** The writes of [DrainAllNodesInRegion] to one cluster, by what [GetNodes]
    answers for it in [w]: one [SetNodeDrain(cluster, id, true)] for every
    node of the answer that has [Drain = false], in order. *)
Definition drainClusterCalls (w : World) (clusterName : string) : list Call :=
  match snapshot svc orc w clusterName with
  | Ok nodes => nodes ≫= drainNodeCalls clusterName
  | Err _ => []
  end.

Definition drainClusterEffect (w0 : World) (clusterName : string) (w : World)
  : World :=
  match snapshot svc orc w0 clusterName with
  | Ok nodes =>
      foldl (λ w x, drainNodeEffect clusterName x w)
        (cacheFetched svc orc clusterName w) nodes
  | Err _ => w
  end.

Definition drainClusterResult (w0 : World) (clusterName : string)
  : nat * option string :=
  match snapshot svc orc w0 clusterName with
  | Ok nodes => (foldl (drainNodeCount clusterName) 0 nodes, None)
  | Err e => (0, Some e)
  end.

End drain_views.

(** The node table of a cluster in a world. *)
Definition nodesOf (w : World) (clusterName : string) : list Node.t :=
  default [] (nomad w !! clusterName).

(** The collaborators let every drain of the cluster go through: the cluster
    is configured, its node list can be read and its servers accept every
    drain update. *)
Definition clusterAnswers (svc : Service) (orc : Oracle) (clusterName : string)
  : Prop :=
  is_Some (clusters svc !! clusterName)
  ∧ nodes_list_err orc clusterName = None
  ∧ ∀ nodeID, update_drain_err orc clusterName nodeID true = None.

(** The node tables of [w'] come from those of [w] by drain updates only:
    cluster by cluster the same nodes in the same order, and a node that was
    draining is still draining. *)
Definition onlyDrained (w w' : World) : Prop :=
  ∀ clusterName,
    Forall2 (λ n n', Node.ID n' = Node.ID n
                     ∧ (Node.Drain n = true → Node.Drain n' = true))
      (nodesOf w clusterName) (nodesOf w' clusterName).

Section sync_views.
Context (svc : Service) (orc : Oracle).

(** What the first fan-out of [EnsureSingleActiveDatacenter] gets for a
    cluster in the world [w]. *)
Definition fetchedWithRegion (w : World) (clusterName : string)
  : clusterNodesWithRegion.t :=
  match snapshot svc orc w clusterName with
  | Err e => clusterNodesWithRegion.mk clusterName [] "" (Some e)
  | Ok nodes =>
      match GetClusterRegion (clusters svc) clusterName with
      | Err e => clusterNodesWithRegion.mk clusterName nodes "" (Some e)
      | Ok region => clusterNodesWithRegion.mk clusterName nodes region None
      end
  end.

Definition fetchedResults (w : World) : list (Result clusterNodesWithRegion.t) :=
  imap (λ j c, mkResult (fetchedWithRegion w c) None j)
    (GetClusterNames (clusters svc)).

(** [activeDatacentersByRegion] as [EnsureSingleActiveDatacenter] fills it
    in the world [w]: for every region the datacenters of which [GetNodes]
    lists a ready node. *)
Definition activeByRegion (w : World) : gmap string (list string) :=
  foldl groupActive ∅ (fetchedResults w).

(** The write of the startup sync for a node, and what it does. *)
Definition syncCall (ntd : nodeToDrain.t) : Call :=
  SetNodeDrainCall (nodeToDrain.clusterName ntd) (Node.ID (nodeToDrain.node ntd))
    true
    (drainOutcome svc orc (nodeToDrain.clusterName ntd)
       (Node.ID (nodeToDrain.node ntd)) true).

Definition syncEffect (ntd : nodeToDrain.t) (w : World) : World :=
  match drainOutcome svc orc (nodeToDrain.clusterName ntd)
          (Node.ID (nodeToDrain.node ntd)) true with
  | Some _ => w
  | None =>
      set_nomad (drain_in_table (nodeToDrain.clusterName ntd)
                   (Node.ID (nodeToDrain.node ntd)) true) w
  end.

Definition syncResult (ntd : nodeToDrain.t) : string * option string :=
  match drainOutcome svc orc (nodeToDrain.clusterName ntd)
          (Node.ID (nodeToDrain.node ntd)) true with
  | Some e => ("", Some e)
  | None => (nodeToDrain.clusterName ntd, None)
  end.

(** The nodes the startup sync drains for a region: for every datacenter
    listed for the region, the ready nodes that were fetched for it. *)
Definition nodesToDrainIn (w : World) (region : string) : list nodeToDrain.t :=
  default [] (activeByRegion w !! region)
  ≫= (λ clusterName, nodesOfCluster clusterName (fetchedResults w)).

End sync_views.

(** A listing of the keys of a map without repeats: what ranging over a Go
    map yields, in some order. *)
Definition rangesOver (order : list string) (m : gmap string (list string))
  : Prop :=
  NoDup order ∧ ∀ k, k ∈ order ↔ is_Some (m !! k).

(** A result of the first fan-out of the startup sync that puts its
    datacenter under [region]: fetched without error, with a ready node. *)
Definition activeIn (region : string) (result : Result clusterNodesWithRegion.t)
  : Prop :=
  clusterNodesWithRegion.err (Value result) = None
  ∧ hasReadyNodes (clusterNodesWithRegion.nodes (Value result)) = true
  ∧ clusterNodesWithRegion.region (Value result) = region.

Global Instance activeIn_dec region result : Decision (activeIn region result).
Proof. unfold activeIn. apply _. Defined.

Module Example8.
(** As [Example.fresh], with the nodes of [dcB] (region [eu]) drained: only
    region [us] has ready nodes. *)
Definition onlyUs : World :=
  {| nomad := <["dcA" := [Example.ready "a1"; Example.ready "a2"]]>
                (<["dcB" := [Example.draining "b1"; Example.draining "b2"]]>
                   (<["dcC" := [Example.ready "c1"]]> ∅));
     cache := ∅; etcd := None; amDrained := false; reads := 0 |}.

(** Ranging over the map in the order of its key list. *)
Definition keyOrder (m : gmap string (list string)) : list string :=
  (map_to_list m).*1.
End Example8.

Module Example9.
(** etcd names [dcB] as active with a heartbeat 200 s before the clock of
    the example oracles, beyond the stale threshold of 120 s: the instance
    that wrote it is gone. Both nodes of [dcB] are ready. *)
Definition peerDead : World :=
  {| nomad := <["dcB" := [Example.ready "b1"; Example.ready "b2"]]> ∅;
     cache := ∅;
     etcd := Some (ActiveDatacenter.mk "dcB" 700000000000 "api" 800000000000);
     amDrained := false; reads := 0 |}.

(** The same record, read by an instance that has drained its nodes. *)
Definition drainedPeerDead : World :=
  {| nomad := <["dcB" := [Example.draining "b1"; Example.draining "b2"]]> ∅;
     cache := ∅;
     etcd := Some (ActiveDatacenter.mk "dcB" 700000000000 "api" 800000000000);
     amDrained := true; reads := 0 |}.

(** etcd names [dcA] as active. *)
Definition otherActive : World :=
  {| nomad := <["dcB" := [Example.ready "b1"; Example.ready "b2"]]> ∅;
     cache := ∅;
     etcd := Some (ActiveDatacenter.mk "dcA" 900000000000 "api" 995000000000);
     amDrained := false; reads := 0 |}.
End Example9.

(** The calls a heartbeat tick may issue: the read and the write of the etcd
    key, and drains of nodes of the local datacenter. *)
Definition heartbeatCall (svc : Service) (call : Call) : Prop :=
  match call with
  | ReadActiveDatacenterCall _ => True
  | WriteActiveDatacenterCall info _ =>
      ActiveDatacenter.Datacenter info = myDatacenter svc
  | SetNodeDrainCall clusterName _ drain _ =>
      clusterName = myDatacenter svc ∧ drain = true
  | _ => False
  end.

(** The worlds [w0] and [w] agree on the etcd key, on [amDrained] and on
    the clock. *)
Definition sameRecord (w0 w : World) : Prop :=
  etcd w = etcd w0 ∧ amDrained w = amDrained w0 ∧ reads w = reads w0.

(** The record an activation writes when it starts in the world [w]. *)
Definition activationRecord (orc : Oracle) (w : World) (datacenter by_ : string)
  : ActiveDatacenter.t :=
  ActiveDatacenter.mk datacenter (clock orc (reads w)) by_ (clock orc (S (reads w))).

Module Example10.
(** The instance that manages [dcC], with the table of the example. *)
Definition svcC : Service :=
  {| clusters := Example.table; myDatacenter := "dcC";
     heartbeatCfg := {| UpdateInterval := 30000000000; MaxFailures := 3;
                        StaleThreshold := 120000000000 |};
     healthChecker := true |}.

(** Every node of the three clusters is drained and the instance is marked
    drained. *)
Definition allDrained : World :=
  {| nomad := <["dcA" := [Example.draining "a1"]]>
                (<["dcB" := [Example.draining "b1"]]>
                   (<["dcC" := [Example.draining "c1"]]> ∅));
     cache := ∅; etcd := None; amDrained := true; reads := 0 |}.
End Example10.


(** ** internal/config: the configuration file and [Validate] *)

(** Durations are nanoseconds ([time.Duration]), Go [int]s are integers. *)
Module config.

Module TLSConfig.
Record t := mk { CA : string; Cert : string; Key : string }.
End TLSConfig.

Module ServerConfig.
Record t := mk {
  Addr : string;
  ReadTimeout : Z;
  WriteTimeout : Z;
  BasePath : string
}.
End ServerConfig.

Module CacheConfig.
Record t := mk { TTL : Z }.
End CacheConfig.

Module HealthCheckConfig.
Record t := mk { Enabled : bool; Interval : Z; FailedThreshold : Z }.
End HealthCheckConfig.

Module EtcdConfig.
Record t := mk {
  Endpoints : list string;
  DialTimeout : Z;
  Username : string;
  Password : string;
  TLS : option TLSConfig.t
}.
End EtcdConfig.

Module HeartbeatConfig.
Record t := mk { UpdateInterval : Z; MaxFailures : Z; StaleThreshold : Z }.
End HeartbeatConfig.

Module ClusterConfig.
Record t := mk {
  Name : string;
  Region : string;
  Address : string;
  TLS : option TLSConfig.t
}.
End ClusterConfig.

Module Config.
Record t := mk {
  Server : ServerConfig.t;
  Cache : CacheConfig.t;
  HealthCheck : HealthCheckConfig.t;
  Etcd : EtcdConfig.t;
  Heartbeat : HeartbeatConfig.t;
  MyDatacenter : string;
  ClusterRetryInterval : Z;
  Clusters : list ClusterConfig.t;
  SkipUnhealthyClusters : bool
}.
End Config.

Definition Second : Z := 1000000000.
Definition Minute : Z := 60 * Second.

(** The loop over [c.Clusters] of [Validate]: the error of the first
    cluster without an address. *)
Fixpoint checkAddresses (i : nat) (clusters : list ClusterConfig.t)
  : option string :=
  match clusters with
  | [] => None
  | cluster :: rest =>
      if streq (ClusterConfig.Address cluster) ""
      then Some ("cluster[" +:+ pretty i +:+ "].address is required")
      else checkAddresses (S i) rest
  end.

(** The assignments of the defaults at the end of [Validate], in order. *)
Definition withDialTimeout (c : Config.t) : Config.t :=
  if bool_decide (EtcdConfig.DialTimeout (Config.Etcd c) ≤ 0)%Z then
    Config.mk (Config.Server c) (Config.Cache c) (Config.HealthCheck c)
      (EtcdConfig.mk (EtcdConfig.Endpoints (Config.Etcd c)) (5 * Second)
         (EtcdConfig.Username (Config.Etcd c)) (EtcdConfig.Password (Config.Etcd c))
         (EtcdConfig.TLS (Config.Etcd c)))
      (Config.Heartbeat c) (Config.MyDatacenter c) (Config.ClusterRetryInterval c)
      (Config.Clusters c) (Config.SkipUnhealthyClusters c)
  else c.

Definition withHeartbeat (h : HeartbeatConfig.t) (c : Config.t) : Config.t :=
  Config.mk (Config.Server c) (Config.Cache c) (Config.HealthCheck c)
    (Config.Etcd c) h (Config.MyDatacenter c) (Config.ClusterRetryInterval c)
    (Config.Clusters c) (Config.SkipUnhealthyClusters c).

Definition withUpdateInterval (c : Config.t) : Config.t :=
  if bool_decide (HeartbeatConfig.UpdateInterval (Config.Heartbeat c) ≤ 0)%Z then
    withHeartbeat
      (HeartbeatConfig.mk (30 * Second)
         (HeartbeatConfig.MaxFailures (Config.Heartbeat c))
         (HeartbeatConfig.StaleThreshold (Config.Heartbeat c))) c
  else c.

Definition withMaxFailures (c : Config.t) : Config.t :=
  if bool_decide (HeartbeatConfig.MaxFailures (Config.Heartbeat c) ≤ 0)%Z then
    withHeartbeat
      (HeartbeatConfig.mk (HeartbeatConfig.UpdateInterval (Config.Heartbeat c)) 3
         (HeartbeatConfig.StaleThreshold (Config.Heartbeat c))) c
  else c.

Definition withStaleThreshold (c : Config.t) : Config.t :=
  if bool_decide (HeartbeatConfig.StaleThreshold (Config.Heartbeat c) ≤ 0)%Z then
    withHeartbeat
      (HeartbeatConfig.mk (HeartbeatConfig.UpdateInterval (Config.Heartbeat c))
         (HeartbeatConfig.MaxFailures (Config.Heartbeat c)) (2 * Minute)) c
  else c.

Definition withClusterRetryInterval (c : Config.t) : Config.t :=
  if bool_decide (Config.ClusterRetryInterval c ≤ 0)%Z then
    Config.mk (Config.Server c) (Config.Cache c) (Config.HealthCheck c)
      (Config.Etcd c) (Config.Heartbeat c) (Config.MyDatacenter c) (5 * Minute)
      (Config.Clusters c) (Config.SkipUnhealthyClusters c)
  else c.

(** [Validate]: the configuration it leaves behind and its error. It
    assigns only after the last [return] of an error. *)
Definition Validate (c : Config.t) : Config.t * option string :=
  if streq (ServerConfig.Addr (Config.Server c)) ""
  then (c, Some "server.addr is required")
  else if bool_decide (length (Config.Clusters c) = 0)
  then (c, Some "at least one cluster must be configured")
  else
    match checkAddresses 0 (Config.Clusters c) with
    | Some e => (c, Some e)
    | None =>
        let hc := Config.HealthCheck c in
        if HealthCheckConfig.Enabled hc
           && bool_decide (HealthCheckConfig.Interval hc ≤ 0)%Z
        then (c, Some "health_check.interval must be positive when health check is enabled")
        else if HealthCheckConfig.Enabled hc
                && bool_decide (HealthCheckConfig.FailedThreshold hc ≤ 0)%Z
        then (c, Some "health_check.failed_threshold must be positive when health check is enabled")
        else if streq (Config.MyDatacenter c) ""
        then (c, Some "my_datacenter is required")
        else if bool_decide (length (EtcdConfig.Endpoints (Config.Etcd c)) = 0)
        then (c, Some "etcd.endpoints is required")
        else
          (withClusterRetryInterval
             (withStaleThreshold
                (withMaxFailures (withUpdateInterval (withDialTimeout c)))),
           None)
    end.

(** What [Validate] asks of a configuration. *)
Definition acceptable (c : Config.t) : Prop :=
  ServerConfig.Addr (Config.Server c) ≠ ""
  ∧ Config.Clusters c ≠ []
  ∧ Forall (λ cluster, ClusterConfig.Address cluster ≠ "") (Config.Clusters c)
  ∧ (HealthCheckConfig.Enabled (Config.HealthCheck c) = true →
     (0 < HealthCheckConfig.Interval (Config.HealthCheck c))%Z
     ∧ (0 < HealthCheckConfig.FailedThreshold (Config.HealthCheck c))%Z)
  ∧ Config.MyDatacenter c ≠ ""
  ∧ EtcdConfig.Endpoints (Config.Etcd c) ≠ [].

(** The value of a field that has a default. *)
Definition orDefault (value default_ : Z) : Z :=
  if bool_decide (value ≤ 0)%Z then default_ else value.

End config.

(** ** internal/repository: building the cluster table *)

(** An entry of [self.Config], a [map[string]interface{}]. *)
Inductive ConfigValue :=
| Absent
| NotString
| Str (s : string).

(** [health.Client] and [health.Server]: [nil], or the [Ok] flag. *)
Module AgentHealth.
Record t := mk { Client : option bool; Server : option bool }.
End AgentHealth.

(** What the Nomad agent of one configured cluster answers while the
    repository is built: whether a client can be made for it, and the
    answers to [Status().Leader()], [Agent().Health()] (a [nil] response is
    [None]) and [Agent().Self()] (the entries [Datacenter] and [Region] of
    its [Config]; [None] when [Config] is [nil]). *)
Module NomadAgent.
Record t := mk {
  create_err : option string;
  Leader : result string;
  Health : result (option AgentHealth.t);
  Self : result (option (ConfigValue * ConfigValue))
}.
End NomadAgent.

(** [checkClusterHealth]. It returns [(true, nil)], here [None], or
    [(false, err)], here [Some err]. *)
Definition checkClusterHealth (agent : NomadAgent.t) : option string :=
  match NomadAgent.Leader agent with
  | Err e => Some ("failed to get leader: " +:+ e)
  | Ok leader =>
      if streq leader "" then Some "no leader elected"
      else
        match NomadAgent.Health agent with
        | Err e => Some ("failed to get agent health: " +:+ e)
        | Ok None => Some "agent health response is nil"
        | Ok (Some health) =>
            if match AgentHealth.Client health with
               | Some ok => negb ok
               | None => false
               end
            then Some "client health check failed"
            else if match AgentHealth.Server health with
                    | Some ok => negb ok
                    | None => false
                    end
            then Some "server health check failed"
            else None
        end
  end.

(** [detectClusterInfo]: the datacenter and the region of the agent. *)
Definition detectClusterInfo (agent : NomadAgent.t) : result (string * string) :=
  match NomadAgent.Self agent with
  | Err e => Err ("failed to query agent self: " +:+ e)
  | Ok None => Err "config section not found in agent self response"
  | Ok (Some (datacenterVal, regionVal)) =>
      match datacenterVal with
      | Absent => Err "datacenter not found in config"
      | NotString => Err "datacenter is not a valid string"
      | Str datacenter =>
          if streq datacenter "" then Err "datacenter is not a valid string"
          else
            let region :=
              match regionVal with
              | Str regionStr => if negb (streq regionStr "") then regionStr else "global"
              | _ => "global"
              end in
            Ok (datacenter, region)
      end
  end.

(** "Auto-detect name and region from Nomad API if not specified": the name
    and the region of the cluster at index [i]. *)
Definition nameAndRegion (i : nat) (cluster : config.ClusterConfig.t)
  (agent : NomadAgent.t) : string * string :=
  let name := config.ClusterConfig.Name cluster in
  let region := config.ClusterConfig.Region cluster in
  if streq name "" || streq region "" then
    match detectClusterInfo agent with
    | Err _ =>
        (if streq name "" then "cluster-" +:+ pretty i else name,
         if streq region "" then "global" else region)
    | Ok (detectedName, detectedRegion) =>
        (if streq name "" then detectedName else name,
         if streq region "" then detectedRegion else region)
    end
  else (name, region).

(** The key under which a cluster is stored. *)
Definition clusterKeyFor (clusters : clusterTable) (name region : string) : string :=
  if bool_decide (is_Some (clusters !! name)) then name +:+ "-" +:+ region else name.

(** The loop over [cfg.Clusters] of [NewNomadRepository], from index [i]
    with the table [clusters] built so far. [agents i] is what the agent of
    the cluster at index [i] answers. The node addresses that the loop
    caches per cluster are not part of the table. *)
Fixpoint initClusters (skip : bool) (agents : nat → NomadAgent.t) (i : nat)
  (cfgs : list config.ClusterConfig.t) (clusters : clusterTable)
  : result clusterTable :=
  match cfgs with
  | [] => Ok clusters
  | cluster :: rest =>
      match NomadAgent.create_err (agents i) with
      | Some e =>
          Err ("failed to create client for cluster at index " +:+ pretty i
               +:+ ": " +:+ e)
      | None =>
          match checkClusterHealth (agents i) with
          | Some healthErr =>
              if skip then initClusters skip agents (S i) rest clusters
              else Err ("cluster at " +:+ config.ClusterConfig.Address cluster
                        +:+ " is not healthy or unreachable: " +:+ healthErr)
          | None =>
              let '(name, region) := nameAndRegion i cluster (agents i) in
              let clusterKey := clusterKeyFor clusters name region in
              initClusters skip agents (S i) rest
                (<[clusterKey := {| name := clusterKey; region := region |}]> clusters)
          end
      end
  end.

(** [NewNomadRepository]: the cluster table of the repository. *)
Definition NewNomadRepository (cfg : config.Config.t) (agents : nat → NomadAgent.t)
  : result clusterTable :=
  match initClusters (config.Config.SkipUnhealthyClusters cfg) agents 0
          (config.Config.Clusters cfg) ∅ with
  | Err e => Err e
  | Ok clusters =>
      if bool_decide (size clusters = 0) then Err "no healthy clusters available"
      else Ok clusters
  end.

(** The cluster at index [i] stops [NewNomadRepository]. *)
Definition stopsAt (skip : bool) (agents : nat → NomadAgent.t) (i : nat) : Prop :=
  NomadAgent.create_err (agents i) ≠ None
  ∨ (skip = false ∧ checkClusterHealth (agents i) ≠ None).

(** The cluster at index [i] gets an entry in the table. *)
Definition usable (agents : nat → NomadAgent.t) (i : nat) : Prop :=
  NomadAgent.create_err (agents i) = None ∧ checkClusterHealth (agents i) = None.

Module Example11.
(** An agent that has a leader and is healthy, in datacenter [dc1] of the
    default region. *)
Definition healthy : NomadAgent.t :=
  NomadAgent.mk None (Ok "10.0.0.1:4647")
    (Ok (Some (AgentHealth.mk (Some true) (Some true))))
    (Ok (Some (Str "dc1", Absent))).

(** Two clusters with names and regions. *)
Definition clusters : list config.ClusterConfig.t :=
  [config.ClusterConfig.mk "dcA" "us" "http://a:4646" None;
   config.ClusterConfig.mk "dcB" "eu" "http://b:4646" None].

Definition cfg : config.Config.t :=
  config.Config.mk (config.ServerConfig.mk ":8080" 0 0 "")
    (config.CacheConfig.mk 0)
    (config.HealthCheckConfig.mk true (10 * config.Second) 3)
    (config.EtcdConfig.mk ["http://etcd:2379"] 0 "" "" None)
    (config.HeartbeatConfig.mk 0 5 0) "dcA" 0 clusters false.
End Example11.

(** ** internal/healthcheck *)

(** Go [int] arithmetic: 64 bits, two's complement. *)
Definition wrapInt (z : Z) : Z := ((z + 2 ^ 63) `mod` 2 ^ 64 - 2 ^ 63)%Z.

(** The mutable part of a [Checker]. *)
Module Checker.
Record t := mk {
  activeRegion : string;
  failureCounter : gmap string Z
}.
End Checker.

(** [NewChecker]: no region, an empty counter map. *)
Definition NewChecker : Checker.t := Checker.mk "" ∅.

(** [c.failureCounter[region]]: a key that is not in the map reads 0. *)
Definition failuresIn (c : Checker.t) (region : string) : Z :=
  default 0%Z (Checker.failureCounter c !! region).

(** [SetActiveRegion] *)
Definition SetActiveRegion (region : string) (c : Checker.t) : Checker.t :=
  Checker.mk region ∅.

(** The loop of [detectActiveRegion]: the first region that is active or
    partial, or the empty string. *)
Fixpoint firstActiveRegion (regions : list Region.t) : string :=
  match regions with
  | [] => ""
  | region :: rest =>
      if streq (Region.Status region) "active"
         || streq (Region.Status region) "partial"
      then Region.Name region
      else firstActiveRegion rest
  end.

(** The checker runs against the datacenter service. [status_leader] is what
    [Status().Leader()] of a cluster answers during the check. One check is
    taken without a concurrent [SetActiveRegion]. *)
Section healthcheck.
Context (cfg : config.HealthCheckConfig.t) (svc : Service) (orc : Oracle)
  (status_leader : string → result string).

(** [nomadRepository.CheckLeader] *)
Definition CheckLeader (clusterName : string) : result bool :=
  match clusters svc !! clusterName with
  | None => Err ("cluster " +:+ clusterName +:+ " not found")
  | Some _ =>
      match status_leader clusterName with
      | Err e => Err ("failed to get leader: " +:+ e)
      | Ok leader => Ok (negb (streq leader ""))
      end
  end.

(** [datacenterService.CheckClusterLeader] *)
Definition CheckClusterLeader (clusterName : string) : result bool :=
  match CheckLeader clusterName with
  | Err e => Err ("failed to check leader: " +:+ e)
  | Ok hasLeader => Ok hasLeader
  end.

(** [detectActiveRegion] *)
Definition detectActiveRegion : M (result string) :=
  r <- ListRegions svc orc ;;
  match r.2 with
  | Some e => ret (Err e)
  | None => ret (Ok (firstActiveRegion r.1))
  end.

(** [checkRegionLeader] *)
Definition checkRegionLeader (region : string) : M (result bool) :=
  r <- GetRegionDatacenters svc orc region ;;
  match r with
  | Err e => ret (Err e)
  | Ok regionDetails =>
      match Region.Datacenters regionDetails with
      | [] => ret (Ok false)
      | firstDC :: _ => ret (CheckClusterLeader (Datacenter.Name firstDC))
      end
  end.

(** [drainRegion] *)
Definition drainRegion (region : string) : M (option string) :=
  err <- DrainAllNodesInRegion svc orc region ;;
  match err with
  | Some e => ret (Some ("failed to drain region: " +:+ e))
  | None => ret None
  end.

Definition setFailures (region : string) (n : Z) (c : Checker.t) : Checker.t :=
  Checker.mk (Checker.activeRegion c) (<[region := n]> (Checker.failureCounter c)).

(** [handleFailure] *)
Definition handleFailure (region : string) (c : Checker.t) : M Checker.t :=
  let currentFailures := wrapInt (failuresIn c region + 1) in
  let c := setFailures region currentFailures c in
  if bool_decide (config.HealthCheckConfig.FailedThreshold cfg ≤ currentFailures)%Z
  then
    err <- drainRegion region ;;
    match err with
    | Some _ => ret c
    | None => ret (setFailures region 0 c)
    end
  else ret c.

(** "Sync active region with actual state before checking": the first block
    of [performCheck]. *)
Definition syncActiveRegion (c : Checker.t) : M Checker.t :=
  r <- detectActiveRegion ;;
  match r with
  | Err _ => ret c
  | Ok realActiveRegion =>
      if negb (streq realActiveRegion "")
         && negb (streq (Checker.activeRegion c) realActiveRegion)
      then ret (Checker.mk realActiveRegion ∅)
      else ret c
  end.

(** [performCheck] *)
Definition performCheck (c : Checker.t) : M Checker.t :=
  c <- syncActiveRegion c ;;
  let activeRegion := Checker.activeRegion c in
  if streq activeRegion "" then ret c
  else
    r <- checkRegionLeader activeRegion ;;
    match r with
    | Err _ => handleFailure activeRegion c
    | Ok hasLeader =>
        if negb hasLeader then handleFailure activeRegion c
        else ret (setFailures activeRegion 0 c)
    end.

End healthcheck.

(** One check of a run of the checker: what the collaborators answer and
    the world the check finds. *)
Record Check := {
  check_orc : Oracle;
  check_leader : string → result string;
  check_world : World
}.

(** The checker after the checks, and the calls of every check. Between two
    checks the world may change in any way. *)
Fixpoint performChecks (cfg : config.HealthCheckConfig.t) (svc : Service)
  (checks : list Check) (c : Checker.t) : Checker.t * list (list Call) :=
  match checks with
  | [] => (c, [])
  | t :: rest =>
      let out := performCheck cfg svc (check_orc t) (check_leader t) c (check_world t) in
      let '(c', calls) := performChecks cfg svc rest (valueOf out) in
      (c', callsOf out :: calls)
  end.

(** Every counter of the checker is a Go [int] that is at most [n]. *)
Definition countersAtMost (n : Z) (c : Checker.t) : Prop :=
  ∀ region, (- 2 ^ 63 ≤ failuresIn c region ≤ n)%Z.

Module Example12.
(** The health check of the example: three failures drain the region. *)
Definition hc : config.HealthCheckConfig.t :=
  config.HealthCheckConfig.mk true (10 * config.Second) 3.

(** No cluster has a leader. *)
Definition noLeader : Check :=
  {| check_orc := Example.allGood;
     check_leader := λ _, Ok "";
     check_world := Example.fresh |}.
End Example12.

(** * Proofs *)

(** ** The monad *)

Lemma bind_eq {A B} (m : M A) (f : A → M B) w a w1 c1 b w2 c2 :
  m w = (a, w1, c1) → f a w1 = (b, w2, c2) →
  bind m f w = (b, w2, c1 ++ c2).
Proof. intros Hm Hf. unfold bind. rewrite Hm, Hf. reflexivity. Qed.

Lemma bind_inv {A B} (m : M A) (f : A → M B) w b w2 c :
  bind m f w = (b, w2, c) →
  ∃ a w1 c1 c2, m w = (a, w1, c1) ∧ f a w1 = (b, w2, c2) ∧ c = c1 ++ c2.
Proof.
  unfold bind. destruct (m w) as [[a w1] c1].
  destruct (f a w1) as [[b' w2'] c2] eqn:Hf.
  intros [= <- <- <-]. by exists a, w1, c1, c2.
Qed.

(** A fan-out whose workers answer [g], change the world by [h] and issue the
    calls [k], as long as the world satisfies [I]. *)
Lemma ParallelMapFrom_pure {T R} (fn : T → M (R * option string))
  (I : World → Prop) (g : T → R * option string) (h : T → World → World)
  (k : T → list Call) :
  (∀ x w, I w → fn x w = (g x, h x w, k x) ∧ I (h x w)) →
  ∀ items index w, I w →
    ParallelMapFrom fn index items w
    = (imap (λ j x, mkResult (g x).1 (g x).2 (index + j)) items,
       foldl (λ w x, h x w) w items,
       items ≫= k)
    ∧ I (foldl (λ w x, h x w) w items).
Proof.
  intros Hfn items. induction items as [|x items IH]; intros index w HI.
  - done.
  - destruct (Hfn x w HI) as [Hx HI']. destruct (IH (S index) _ HI') as [Hrec HI''].
    split; [|done]. simpl.
    erewrite bind_eq; [| exact Hx |
      erewrite bind_eq; [| exact Hrec | reflexivity ]; reflexivity ].
    rewrite app_nil_r. f_equal. f_equal. f_equal.
    + f_equal. lia.
    + apply imap_ext. intros j y _. simpl. f_equal. lia.
Qed.

Lemma foldM_pure {A B} (body : B → A → M B) (I : World → Prop)
  (g : B → A → B) (h : A → World → World) (k : A → list Call) :
  (∀ acc x w, I w → body acc x w = (g acc x, h x w, k x) ∧ I (h x w)) →
  ∀ l acc w, I w →
    foldM body l acc w
    = (foldl g acc l, foldl (λ w x, h x w) w l, l ≫= k)
    ∧ I (foldl (λ w x, h x w) w l).
Proof.
  intros Hbody l. induction l as [|x l IH]; intros acc w HI.
  - done.
  - destruct (Hbody acc x w HI) as [Hx HI'].
    destruct (IH (g acc x) _ HI') as [Hrec HI'']. split; [|done]. simpl.
    erewrite bind_eq; [| exact Hx | exact Hrec ]. done.
Qed.

(** ** Strings *)

Lemma string_length_app (s t : string) :
  String.length (s +:+ t) = String.length s + String.length t.
Proof. induction s as [|a s IH]; simpl; [done|]. by rewrite IH. Qed.

(** The cache key determines the datacenter. *)
Lemma cacheKey_inj dc1 dc2 : cacheKey dc1 = cacheKey dc2 → dc1 = dc2.
Proof.
  unfold cacheKey. revert dc2.
  induction dc1 as [|a dc1 IH]; intros [|b dc2]; simpl; try done.
  - intros H. apply (f_equal String.length) in H. simpl in H.
    rewrite string_length_app in H. simpl in H. lia.
  - intros H. apply (f_equal String.length) in H. simpl in H.
    rewrite string_length_app in H. simpl in H. lia.
  - intros [= -> H]. f_equal. by apply IH.
Qed.

Lemma streq_true a b : streq a b = true ↔ a = b.
Proof. unfold streq. apply bool_decide_eq_true. Qed.

Lemma streq_false a b : streq a b = false ↔ a ≠ b.
Proof. unfold streq. apply bool_decide_eq_false. Qed.

Lemma streq_refl a : streq a a = true.
Proof. by apply streq_true. Qed.

(** [sort.Strings] gives the same list for every order of its input: the
    order in which Go ranges over the cluster map does not matter. *)
Lemma sortStrings_order_independent l1 l2 :
  l1 ≡ₚ l2 → sortStrings l1 = sortStrings l2.
Proof.
  intros Hp. unfold sortStrings.
  apply (Sorted_unique String.le); try apply Sorted_merge_sort; try apply _.
  by rewrite !merge_sort_Permutation.
Qed.

Lemma sortStrings_sorted l : StronglySorted String.le (sortStrings l).
Proof. apply StronglySorted_merge_sort; apply _. Qed.

Lemma sortStrings_elem x l : x ∈ sortStrings l ↔ x ∈ l.
Proof. unfold sortStrings. by rewrite merge_sort_Permutation. Qed.

(** The head of a sorted list is its least element. *)
Lemma sortStrings_head_least l x rest y :
  sortStrings l = x :: rest → y ∈ l → String.le x y.
Proof.
  intros Hs Hy. pose proof (sortStrings_sorted l) as Hsorted.
  apply sortStrings_elem in Hy. rewrite Hs in Hsorted, Hy.
  apply StronglySorted_inv in Hsorted as [_ Hall].
  apply elem_of_cons in Hy as [->|Hy]; [done|].
  rewrite Forall_forall in Hall. by apply Hall.
Qed.

(** ** Calls of a computation *)

Lemma callsOf_bind {A B} (m : M A) (f : A → M B) w :
  callsOf (bind m f w)
  = callsOf (m w) ++ callsOf (f (valueOf (m w)) (worldOf (m w))).
Proof.
  unfold bind, callsOf, valueOf, worldOf.
  destruct (m w) as [[a w1] c1]. simpl. by destruct (f a w1) as [[b w2] c2].
Qed.

Lemma worldOf_bind {A B} (m : M A) (f : A → M B) w :
  worldOf (bind m f w) = worldOf (f (valueOf (m w)) (worldOf (m w))).
Proof.
  unfold bind, valueOf, worldOf.
  destruct (m w) as [[a w1] c1]. simpl. by destruct (f a w1) as [[b w2] c2].
Qed.

Lemma valueOf_bind {A B} (m : M A) (f : A → M B) w :
  valueOf (bind m f w) = valueOf (f (valueOf (m w)) (worldOf (m w))).
Proof.
  unfold bind, valueOf, worldOf.
  destruct (m w) as [[a w1] c1]. simpl. by destruct (f a w1) as [[b w2] c2].
Qed.

Lemma foldM_calls_Forall {A B} (P : Call → Prop) (body : B → A → M B) :
  (∀ acc x w, Forall P (callsOf (body acc x w))) →
  ∀ l acc w, Forall P (callsOf (foldM body l acc w)).
Proof.
  intros Hbody l. induction l as [|x l IH]; intros acc w; simpl.
  - constructor.
  - rewrite callsOf_bind. apply Forall_app. split; [apply Hbody | apply IH].
Qed.

Lemma ParallelMapFrom_calls_Forall {T R} (P : Call → Prop)
  (fn : T → M (R * option string)) :
  (∀ x w, Forall P (callsOf (fn x w))) →
  ∀ items index w, Forall P (callsOf (ParallelMapFrom fn index items w)).
Proof.
  intros Hfn items. induction items as [|x items IH]; intros index w; simpl.
  - constructor.
  - rewrite callsOf_bind. apply Forall_app. split; [apply Hfn|].
    rewrite callsOf_bind. apply Forall_app. split; [apply IH | constructor].
Qed.

Lemma filter_none {A} (P : A → Prop) `{∀ x, Decision (P x)} (l : list A) :
  Forall (λ x, ¬ P x) l → filter P l = [].
Proof.
  induction 1 as [|x l Hx _ IH]; [done|].
  rewrite filter_cons. by destruct (decide (P x)).
Qed.

(** ** The repository and the cache *)

Section basic.
Context (svc : Service) (orc : Oracle).

Lemma SetNodeDrain_eq c id d w :
  SetNodeDrain svc orc c id d w
  = (drainOutcome svc orc c id d,
     match drainOutcome svc orc c id d with
     | Some _ => w
     | None => set_nomad (drain_in_table c id d) w
     end,
     [SetNodeDrainCall c id d (drainOutcome svc orc c id d)]).
Proof.
  unfold SetNodeDrain, drainOutcome.
  destruct (clusters svc !! c); [|done].
  destruct (update_drain_err orc c id d); [|done].
  by destruct (direct_drain_err orc c id d).
Qed.

Lemma GetNodes_eq dc w :
  GetNodes svc orc dc w = (snapshot svc orc w dc, cacheFetched svc orc dc w, []).
Proof.
  unfold GetNodes, snapshot, cacheFetched, snapshot, ListNodes, bind, get. simpl.
  destruct (cache w !! cacheKey dc); [done|].
  destruct (clusters svc !! dc); [|done].
  by destruct (nodes_list_err orc dc).
Qed.

(** Caching a fetched list does not change what [GetNodes] answers, now or
    for any other datacenter. *)
Lemma snapshot_cacheFetched dc w dc' :
  snapshot svc orc (cacheFetched svc orc dc w) dc' = snapshot svc orc w dc'.
Proof.
  unfold cacheFetched.
  destruct (cache w !! cacheKey dc) eqn:Hc; [done|].
  destruct (snapshot svc orc w dc) as [nodes|e] eqn:Hs; [|done].
  unfold snapshot in *. simpl. rewrite Hc in Hs.
  destruct (decide (dc = dc')) as [<-|Hne].
  - rewrite lookup_insert_eq, Hc.
    destruct (clusters svc !! dc); [|done].
    by destruct (nodes_list_err orc dc).
  - rewrite lookup_insert_ne; [done|]. intros Heq. by apply cacheKey_inj in Heq.
Qed.

Lemma nomad_cacheFetched dc w : nomad (cacheFetched svc orc dc w) = nomad w.
Proof.
  unfold cacheFetched. destruct (cache w !! cacheKey dc); [done|].
  by destruct (snapshot svc orc w dc).
Qed.

Lemma applyChange_eq c d ntc w :
  applyChange svc orc c d ntc w
  = (changeResult svc orc c d ntc, changeEffect svc orc c d ntc w,
     changeCalls svc orc c d ntc).
Proof.
  unfold applyChange, changeResult, changeEffect, changeCalls.
  destruct (nodeToChange.alreadyCorrect ntc); [done|].
  unfold bind. rewrite SetNodeDrain_eq.
  by destruct (drainOutcome svc orc c (Node.ID (nodeToChange.node ntc)) d).
Qed.

Lemma changeNodes_eq c d nodes res w :
  changeNodes svc orc c d nodes res w
  = (foldl (collectNodeResult c d) res
       (imap (λ j x, mkResult (changeResult svc orc c d x).1
                       (changeResult svc orc c d x).2 (0 + j))
          (planNode d <$> nodes)),
     set_cache (delete (cacheKey c))
       (foldl (λ w x, changeEffect svc orc c d x w) w (planNode d <$> nodes)),
     (planNode d <$> nodes) ≫= changeCalls svc orc c d).
Proof.
  unfold changeNodes, ParallelMap.
  destruct (ParallelMapFrom_pure (applyChange svc orc c d) (λ _, True)
              (changeResult svc orc c d) (changeEffect svc orc c d)
              (changeCalls svc orc c d)) with (items := planNode d <$> nodes)
              (index := 0) (w := w) as [Heq _]; [|done|].
  { intros x w' _. split; [apply applyChange_eq | done]. }
  erewrite bind_eq; [| exact Heq | reflexivity]. by rewrite app_nil_r.
Qed.

Lemma changeCalls_isSetNodeDrain c d ntcs :
  Forall (λ call, ∃ id e, call = SetNodeDrainCall c id d e)
    (ntcs ≫= changeCalls svc orc c d).
Proof.
  apply Forall_forall. intros call Hin. apply list_elem_of_bind in Hin as (ntc & Hin & _).
  unfold changeCalls in Hin. destruct (nodeToChange.alreadyCorrect ntc).
  - by apply elem_of_nil in Hin.
  - apply list_elem_of_singleton in Hin. eauto.
Qed.

End basic.

(** ** The name lists of the repository *)

Lemma elem_of_table_values (table : gmap string clusterMetadata) meta :
  meta ∈ (map_to_list table).*2 ↔ ∃ key, table !! key = Some meta.
Proof.
  rewrite list_elem_of_fmap. split.
  - intros [[key meta'] [-> Hin]]. exists key. by apply elem_of_map_to_list.
  - intros [key Hkey]. exists (key, meta). split; [done|].
    by apply elem_of_map_to_list.
Qed.

Lemma elem_of_GetClusterNames (table : gmap string clusterMetadata) key :
  key ∈ GetClusterNames table ↔ is_Some (table !! key).
Proof.
  unfold GetClusterNames. rewrite sortStrings_elem, list_elem_of_fmap. split.
  - intros [[key' meta] [-> Hin]]. apply elem_of_map_to_list in Hin. by exists meta.
  - intros [meta Hkey]. exists (key, meta). split; [done|].
    by apply elem_of_map_to_list.
Qed.

Lemma NoDup_GetClusterNames (table : gmap string clusterMetadata) :
  NoDup (GetClusterNames table).
Proof.
  unfold GetClusterNames, sortStrings. rewrite merge_sort_Permutation.
  apply NoDup_fst_map_to_list.
Qed.

Lemma elem_of_GetClustersByRegion (table : gmap string clusterMetadata) r n :
  n ∈ GetClustersByRegion table r
  ↔ ∃ key meta, table !! key = Some meta ∧ region meta = r ∧ name meta = n.
Proof.
  unfold GetClustersByRegion. rewrite sortStrings_elem, list_elem_of_fmap. split.
  - intros (meta & -> & Hin). apply list_elem_of_filter in Hin as [Hr Hin].
    apply elem_of_table_values in Hin as [key Hkey]. by exists key, meta.
  - intros (key & meta & Hkey & Hr & <-). exists meta. split; [done|].
    apply list_elem_of_filter. split; [done|]. apply elem_of_table_values. eauto.
Qed.

(** ** The end of an activation *)

Section finish.
Context (svc : Service) (orc : Oracle).

Lemma recordActive_spec datacenter by_ mine res w :
  ∃ info err,
    callsOf (recordActive orc datacenter by_ mine res w)
    = [WriteActiveDatacenterCall info err]
    ∧ ActiveDatacenter.Datacenter info = datacenter
    ∧ ActiveDatacenter.ActivatedBy info = by_
    ∧ (err = None → etcd (worldOf (recordActive orc datacenter by_ mine res w)) = Some info)
    ∧ nomad (worldOf (recordActive orc datacenter by_ mine res w)) = nomad w
    ∧ ActivationResult.DrainedNodes
        (valueOf (recordActive orc datacenter by_ mine res w))
      = ActivationResult.DrainedNodes res
    ∧ ActivationResult.UnDrainedNodes
        (valueOf (recordActive orc datacenter by_ mine res w))
      = ActivationResult.UnDrainedNodes res
    ∧ ∀ e, e ∈ ActivationResult.Errors res →
           e ∈ ActivationResult.Errors
                 (valueOf (recordActive orc datacenter by_ mine res w)).
Proof.
  unfold recordActive, WriteActiveDatacenter, Now, bind, modify, emit, ret,
    callsOf, worldOf, valueOf.
  destruct (etcd_put_err orc) as [e|]; simpl.
  - eexists _, _. repeat split; try done.
    intros e' He'. apply elem_of_app. by left.
  - destruct mine; simpl; eexists _, _; repeat split; done.
Qed.

Lemma notifyHealthChecker_spec r w :
  worldOf (notifyHealthChecker svc r w) = w
  ∧ Forall (λ c, c = SetActiveRegionCall r) (callsOf (notifyHealthChecker svc r w)).
Proof.
  unfold notifyHealthChecker. destruct (healthChecker svc); simpl.
  - split; [done|]. by repeat constructor.
  - split; [done|]. constructor.
Qed.

Lemma TriggerJobEvaluations_spec c w :
  worldOf (TriggerJobEvaluations svc orc c w) = w
  ∧ ∃ e, callsOf (TriggerJobEvaluations svc orc c w) = [TriggerJobEvaluationsCall c e].
Proof. unfold TriggerJobEvaluations. simpl. eauto. Qed.

Lemma triggerAll_spec cs errs w :
  worldOf (triggerAll svc orc cs errs w) = w
  ∧ Forall (λ c, ∃ n e, c = TriggerJobEvaluationsCall n e)
      (callsOf (triggerAll svc orc cs errs w)).
Proof.
  revert errs w. induction cs as [|c cs IH]; intros errs w; simpl.
  - split; [done | constructor].
  - rewrite worldOf_bind, callsOf_bind.
    destruct (TriggerJobEvaluations_spec c w) as [Hw [e Hc]].
    rewrite Hw, Hc.
    destruct (valueOf (TriggerJobEvaluations svc orc c w));
      (split; [apply IH | constructor; [eauto | apply IH]]).
Qed.

End finish.

(** ** [ActivateRegion] *)

Section region_activation.
Context (svc : Service) (orc : Oracle).

Lemma fetchClusterForRegion_calls c w :
  callsOf (fetchClusterForRegion svc orc c w) = [].
Proof.
  unfold fetchClusterForRegion. destruct (GetClusterRegion (clusters svc) c); [|done].
  rewrite callsOf_bind, GetNodes_eq. simpl.
  by destruct (snapshot svc orc w c).
Qed.

Lemma processClusterForRegion_calls r res info w :
  Forall (λ c, isWriteActiveDatacenter c = false)
    (callsOf (processClusterForRegion svc orc r res info w)).
Proof.
  unfold processClusterForRegion.
  destruct (clusterNodesInfo.err (Value info)); [constructor|].
  rewrite changeNodes_eq. simpl.
  eapply Forall_impl; [apply changeCalls_isSetNodeDrain|].
  by intros c (id & e & ->).
Qed.

Lemma isWrite_false_filter (l : list Call) :
  Forall (λ c, isWriteActiveDatacenter c = false) l →
  filter (λ c, isWriteActiveDatacenter c = true) l = [].
Proof.
  intros H. apply filter_none. eapply Forall_impl; [exact H|].
  simpl. intros c Hc. by rewrite Hc.
Qed.

(** The writes to the etcd key during [ActivateRegion]: exactly one, of the
    first cluster of the target region, after all the rest. *)
Lemma ActivateRegion_write targetRegion w activeDatacenter rest :
  GetClustersByRegion (clusters svc) targetRegion = activeDatacenter :: rest →
  ∃ info err,
    filter (λ c, isWriteActiveDatacenter c = true)
      (callsOf (ActivateRegion svc orc targetRegion w))
    = [WriteActiveDatacenterCall info err]
    ∧ ActiveDatacenter.Datacenter info = activeDatacenter
    ∧ ActiveDatacenter.ActivatedBy info = "api-region"
    ∧ (err = None →
       etcd (worldOf (ActivateRegion svc orc targetRegion w)) = Some info).
Proof.
  intros Hreg. unfold ActivateRegion. rewrite Hreg.
  rewrite !callsOf_bind, !worldOf_bind, !filter_app.
  set (w1 := worldOf (ParallelMap _ _ w)).
  set (r1 := valueOf (ParallelMap _ _ w)).
  set (w2 := worldOf (foldM _ r1 _ w1)).
  set (r2 := valueOf (foldM _ r1 _ w1)).
  match goal with
  | |- context [recordActive orc _ _ ?mine (valueOf (?m3 w2)) (worldOf (?m3 w2))] =>
      set (r3 := valueOf (m3 w2)); set (w3 := worldOf (m3 w2));
      set (c3 := callsOf (m3 w2)); set (mine_ := mine)
  end.
  destruct (recordActive_spec orc activeDatacenter "api-region" mine_ r3 w3)
    as (info & err & Hcalls & Hdc & Hby & Hetcd & _).
  exists info, err.
  destruct (notifyHealthChecker_spec svc targetRegion
              (worldOf (recordActive orc activeDatacenter "api-region" mine_ r3 w3)))
    as [Hw Hn].
  split; [|split; [done|split; [done|]]].
  - rewrite Hcalls. simpl.
    rewrite (isWrite_false_filter (callsOf (ParallelMap _ _ w))).
    2:{ unfold ParallelMap. apply ParallelMapFrom_calls_Forall. intros x w'.
        rewrite fetchClusterForRegion_calls. constructor. }
    rewrite (isWrite_false_filter (callsOf (foldM _ r1 _ w1))).
    2:{ apply foldM_calls_Forall. intros. apply processClusterForRegion_calls. }
    rewrite (isWrite_false_filter c3).
    2:{ subst c3. destruct (bool_decide _); [|constructor].
        rewrite callsOf_bind. apply Forall_app. split; [|constructor].
        eapply Forall_impl; [apply triggerAll_spec|]. by intros c (n & e & ->). }
    rewrite (isWrite_false_filter (callsOf (notifyHealthChecker _ _ _))).
    2:{ eapply Forall_impl; [exact Hn|]. by intros c ->. }
    done.
  - intros Herr. simpl. rewrite Hw. by apply Hetcd.
Qed.

End region_activation.

(** C10. The three name lists of the repository come back in ascending
    byte-wise order, so the first cluster of a region, the one
    [ActivateRegion] writes to etcd as the active datacenter, is the least
    cluster name of that region: the activation issues exactly one write to
    the etcd key, its datacenter is the name of a cluster of the target
    region and is below or equal to the name of every cluster of the region,
    and when the write goes through, it is the record etcd holds. *)
Theorem C10_sorted_names_first_is_least (svc : Service) (orc : Oracle)
  (targetRegion : string) (w : World) (key : string) (meta : clusterMetadata) :
  clusters svc !! key = Some meta →
  region meta = targetRegion →
  Sorted String.le (GetClusterNames (clusters svc))
  ∧ (∀ r, Sorted String.le (GetClustersByRegion (clusters svc) r))
  ∧ Sorted String.le (GetAllRegions (clusters svc))
  ∧ ∃ info err,
      filter (λ c, isWriteActiveDatacenter c = true)
        (callsOf (ActivateRegion svc orc targetRegion w))
      = [WriteActiveDatacenterCall info err]
      ∧ (∃ key' meta', clusters svc !! key' = Some meta'
                       ∧ region meta' = targetRegion
                       ∧ name meta' = ActiveDatacenter.Datacenter info)
      ∧ (∀ key' meta', clusters svc !! key' = Some meta' →
                       region meta' = targetRegion →
                       String.le (ActiveDatacenter.Datacenter info) (name meta'))
      ∧ (err = None →
         etcd (worldOf (ActivateRegion svc orc targetRegion w)) = Some info).
Proof.
  intros Hkey Hregion.
  split; [apply Sorted_merge_sort; apply _|].
  split; [intros r; apply Sorted_merge_sort; apply _|].
  split; [apply Sorted_merge_sort; apply _|].
  destruct (GetClustersByRegion (clusters svc) targetRegion)
    as [|activeDatacenter rest] eqn:Hreg.
  { assert (name meta ∈ GetClustersByRegion (clusters svc) targetRegion) as Hin
      by (apply elem_of_GetClustersByRegion; eauto).
    rewrite Hreg in Hin. by apply elem_of_nil in Hin. }
  destruct (ActivateRegion_write svc orc targetRegion w _ _ Hreg)
    as (info & err & Hcalls & Hdc & _ & Hetcd).
  exists info, err. split; [done|]. rewrite Hdc. split; [|split; [|done]].
  - apply elem_of_GetClustersByRegion. rewrite Hreg. by left.
  - intros key' meta' Hkey' Hregion'.
    unfold GetClustersByRegion in Hreg.
    eapply sortStrings_head_least; [exact Hreg|].
    apply list_elem_of_fmap. exists meta'. split; [done|].
    apply list_elem_of_filter. split; [done|]. apply elem_of_table_values. eauto.
Qed.

(** C10 on the example: region [us] holds [dcA] and [dcC]. *)
Lemma C10_witness :
  Example.table !! "dcC" = Some {| name := "dcC"; region := "us" |}
  ∧ Sorted String.le (GetClusterNames Example.table)
  ∧ ∃ info err,
      filter (λ c, isWriteActiveDatacenter c = true)
        (callsOf (ActivateRegion Example.svc Example.allGood "us" Example.fresh))
      = [WriteActiveDatacenterCall info err]
      ∧ ∀ key' meta', Example.table !! key' = Some meta' →
                      region meta' = "us" →
                      String.le (ActiveDatacenter.Datacenter info) (name meta').
Proof.
  destruct (C10_sorted_names_first_is_least Example.svc Example.allGood "us"
              Example.fresh "dcC" {| name := "dcC"; region := "us" |})
    as (Hnames & _ & _ & info & err & Hcalls & _ & Hleast & _).
  - reflexivity.
  - reflexivity.
  - split; [reflexivity|]. split; [exact Hnames|]. exists info, err. split; assumption.
Defined.

(** ** Datacenter and region views *)

(** A fan-out whose workers' answers satisfy [P] as long as the world
    satisfies [I]. *)
Lemma ParallelMapFrom_rel {T R} (fn : T → M (R * option string))
  (I : World → Prop) (P : T → R → option string → Prop) :
  (∀ x w, I w → P x (valueOf (fn x w)).1 (valueOf (fn x w)).2
              ∧ I (worldOf (fn x w))) →
  ∀ items index w, I w →
    Forall2 (λ x r, P x (Value r) (Error r)) items
      (valueOf (ParallelMapFrom fn index items w))
    ∧ I (worldOf (ParallelMapFrom fn index items w)).
Proof.
  intros Hfn items. induction items as [|x items IH]; intros index w HI; simpl.
  - split; [constructor | done].
  - rewrite valueOf_bind, worldOf_bind, valueOf_bind, worldOf_bind.
    destruct (Hfn x w HI) as [HP HI'].
    destruct (IH (S index) _ HI') as [Hrec HI'']. simpl.
    split; [|done]. by constructor.
Qed.

Section views_facts.
Context (svc : Service) (orc : Oracle).

Lemma getDatacenterInfo_spec dcName w :
  worldOf (getDatacenterInfo svc orc dcName w) = cacheFetched svc orc dcName w
  ∧ callsOf (getDatacenterInfo svc orc dcName w) = []
  ∧ match snapshot svc orc w dcName with
    | Err e => valueOf (getDatacenterInfo svc orc dcName w) = Err e
    | Ok nodes =>
        ∃ dc, valueOf (getDatacenterInfo svc orc dcName w) = Ok dc
              ∧ Datacenter.Name dc = dcName
              ∧ (Datacenter.Status dc = DatacenterStatusActive
                 ∨ Datacenter.Status dc = DatacenterStatusDraining)
    end.
Proof.
  unfold getDatacenterInfo.
  rewrite worldOf_bind, callsOf_bind, valueOf_bind, GetNodes_eq. simpl.
  destruct (snapshot svc orc w dcName) as [nodes|e]; [|done].
  simpl.
  destruct (countNodes nodes) as [NodesReady NodesDraining].
  assert (∀ jt jr js,
    ∃ dc, Ok (Datacenter.mk dcName
                match GetClusterRegion (clusters svc) dcName with
                | Ok region => region
                | Err _ => "unknown"
                end
                (if bool_decide (NodesDraining = length nodes)
                 then DatacenterStatusDraining
                 else if bool_decide (0 < NodesReady)
                      then DatacenterStatusActive
                      else DatacenterStatusDraining)
                (length nodes) NodesReady NodesDraining jt jr js) = Ok dc
          ∧ Datacenter.Name dc = dcName
          ∧ (Datacenter.Status dc = DatacenterStatusActive
             ∨ Datacenter.Status dc = DatacenterStatusDraining)) as Hdc.
  { intros. eexists. split; [done|]. simpl. split; [done|].
    destruct (bool_decide _); [by right|].
    destruct (bool_decide _); [by left | by right]. }
  destruct (ListJobs svc orc dcName) as [jobs|e].
  - destruct (countJobs jobs) as [JobsRunning JobsStopped]. simpl.
    split; [done|]. split; [done|]. apply Hdc.
  - simpl. split; [done|]. split; [done|]. apply Hdc.
Qed.

(** The worker of the fan-outs of [ListDatacenters] and [getRegionInfo]. *)
Lemma datacenter_worker_spec (regionName : string) w0 dcName w :
  (∀ dc, snapshot svc orc w dc = snapshot svc orc w0 dc) →
  let out :=
    (r <- getDatacenterInfo svc orc dcName ;;
     match r with
     | Err _ =>
         ret (Datacenter.mk dcName regionName DatacenterStatusError
                0 0 0 0 0 0, @None string)
     | Ok dc => ret (dc, None)
     end) w in
  ((valueOf out).2 = None
   ∧ Datacenter.Name (valueOf out).1 = dcName
   ∧ datacenterStatus (Datacenter.Status (valueOf out).1)
   ∧ (∀ e, snapshot svc orc w0 dcName = Err e →
           Datacenter.Status (valueOf out).1 = DatacenterStatusError))
  ∧ (∀ dc, snapshot svc orc (worldOf out) dc = snapshot svc orc w0 dc).
Proof.
  intros Hinv. simpl.
  rewrite valueOf_bind, worldOf_bind.
  destruct (getDatacenterInfo_spec dcName w) as (Hw & _ & Hv).
  rewrite Hw. rewrite Hinv in Hv.
  destruct (snapshot svc orc w0 dcName) as [nodes|e] eqn:Hs.
  - destruct Hv as (dc & -> & Hname & Hst). simpl. split.
    + repeat split; [done| |done].
      unfold datacenterStatus. destruct Hst; auto.
    + intros dc'. by rewrite snapshot_cacheFetched.
  - rewrite Hv. simpl. split.
    + repeat split. unfold datacenterStatus. auto.
    + intros dc'. by rewrite snapshot_cacheFetched.
Qed.

End views_facts.

(** C9. [ListDatacenters] returns a nil error. Its list has one entry per
    configured cluster: the names of the entries are [GetClusterNames], which
    has no repeats and holds exactly the keys of the cluster table. The entry
    of a cluster whose [GetNodes] fails has the status ["error"]. *)
Theorem C9_ListDatacenters_one_entry_per_cluster (svc : Service) (orc : Oracle)
  (w : World) :
  (valueOf (ListDatacenters svc orc w)).2 = None
  ∧ Datacenter.Name <$> (valueOf (ListDatacenters svc orc w)).1
    = GetClusterNames (clusters svc)
  ∧ NoDup (GetClusterNames (clusters svc))
  ∧ (∀ dcName, dcName ∈ GetClusterNames (clusters svc)
               ↔ is_Some (clusters svc !! dcName))
  ∧ ∀ i dcName e,
      GetClusterNames (clusters svc) !! i = Some dcName →
      valueOf (GetNodes svc orc dcName w) = Err e →
      ∃ dc, (valueOf (ListDatacenters svc orc w)).1 !! i = Some dc
            ∧ Datacenter.Name dc = dcName
            ∧ Datacenter.Status dc = DatacenterStatusError.
Proof.
  unfold ListDatacenters. rewrite valueOf_bind. simpl.
  set (names := GetClusterNames (clusters svc)).
  destruct (ParallelMapFrom_rel
              (λ dcName,
                 r <- getDatacenterInfo svc orc dcName ;;
                 match r with
                 | Err _ =>
                     ret (Datacenter.mk dcName "" DatacenterStatusError
                            0 0 0 0 0 0, @None string)
                 | Ok dc => ret (dc, None)
                 end)
              (λ w', ∀ dc, snapshot svc orc w' dc = snapshot svc orc w dc)
              (λ dcName dc err,
                 err = None ∧ Datacenter.Name dc = dcName
                 ∧ datacenterStatus (Datacenter.Status dc)
                 ∧ ∀ e, snapshot svc orc w dcName = Err e →
                        Datacenter.Status dc = DatacenterStatusError))
    with (items := names) (index := 0) (w := w) as [Hall _]; [|done|].
  { intros x w' HI. by apply (datacenter_worker_spec svc orc "" w x w'). }
  unfold ParallelMap.
  set (results := valueOf (ParallelMapFrom _ 0 names w)) in *.
  split; [done|]. split; [|split; [apply NoDup_GetClusterNames|split]].
  - clearbody results. clear -Hall. induction Hall as [|x r xs rs (_ & Hn & _) _ IH]; [done|].
    rewrite !fmap_cons. by rewrite Hn, IH.
  - intros dcName. apply elem_of_GetClusterNames.
  - intros i dcName e Hi Hfail. rewrite GetNodes_eq in Hfail. simpl in Hfail.
    destruct (Forall2_lookup_l _ _ _ _ _ Hall Hi) as (r & Hr & _ & Hn & _ & Herr).
    exists (Value r). split; [|split; [done|by eapply Herr]].
    by rewrite list_lookup_fmap, Hr.
Qed.

(** *** The status of a region *)

Lemma countIf_cons p d ds :
  countIf p (d :: ds) = (if p d then 1 else 0) + countIf p ds.
Proof.
  unfold countIf. rewrite filter_cons.
  destruct (decide (p d = true)) as [->|Hp]; [done|].
  apply not_true_is_false in Hp. by rewrite Hp.
Qed.

Lemma countIf_le p ds : countIf p ds ≤ length ds.
Proof.
  induction ds as [|d ds IH]; [done|]. rewrite countIf_cons. simpl.
  destruct (p d); lia.
Qed.

Lemma countIf_pos p ds : 0 < countIf p ds ↔ ∃ d, d ∈ ds ∧ p d = true.
Proof.
  induction ds as [|d ds IH].
  - split; [unfold countIf; simpl; lia|]. intros (d & Hd & _). by apply elem_of_nil in Hd.
  - rewrite countIf_cons. split.
    + intros Hpos. destruct (p d) eqn:Hp.
      * exists d. split; [by left | done].
      * simpl in Hpos. apply IH in Hpos as (d' & Hd' & Hp'). exists d'.
        split; [by right | done].
    + intros (d' & Hd' & Hp'). apply elem_of_cons in Hd' as [->|Hd'].
      * rewrite Hp'. lia.
      * assert (0 < countIf p ds) by (apply IH; eauto). lia.
Qed.

Lemma countIf_all p ds : countIf p ds = length ds ↔ ∀ d, d ∈ ds → p d = true.
Proof.
  induction ds as [|d ds IH].
  - split; [|done]. intros _ d Hd. by apply elem_of_nil in Hd.
  - rewrite countIf_cons. simpl. pose proof (countIf_le p ds) as Hle. split.
    + intros Hlen d' Hd'. destruct (p d) eqn:Hp; [|lia].
      apply elem_of_cons in Hd' as [->|Hd']; [done|]. apply IH; [lia | done].
    + intros Hall. rewrite (Hall d) by (by left).
      assert (countIf p ds = length ds) as ->; [|done].
      apply IH. intros d' Hd'. apply Hall. by right.
Qed.

Lemma countStatus_fold ds acc :
  activeCount (foldl countStatus acc ds) = activeCount acc + countIf isActive ds
  ∧ drainingCount (foldl countStatus acc ds)
    = drainingCount acc + countIf isDraining ds
  ∧ errorCount (foldl countStatus acc ds) = errorCount acc + countIf isError ds.
Proof.
  revert acc. induction ds as [|d ds IH]; intros acc.
  - unfold countIf. simpl. lia.
  - simpl. destruct (IH (countStatus acc d)) as (Ha & Hd & He).
    rewrite Ha, Hd, He, !countIf_cons. unfold isActive, isDraining, isError.
    simpl.
    destruct (streq (Datacenter.Status d) DatacenterStatusActive) eqn:E1.
    { apply streq_true in E1. rewrite E1. unfold streq. simpl. lia. }
    destruct (streq (Datacenter.Status d) DatacenterStatusDraining) eqn:E2.
    { apply streq_true in E2. rewrite E2. unfold streq. simpl. lia. }
    destruct (streq (Datacenter.Status d) DatacenterStatusError); lia.
Qed.

Lemma anyStatus_countIf st ds :
  anyStatus st ds ↔ 0 < countIf (λ d, streq (Datacenter.Status d) st) ds.
Proof.
  rewrite countIf_pos. unfold anyStatus. split.
  - intros (d & Hd & Hst). exists d. split; [done|]. by apply streq_true.
  - intros (d & Hd & Hst). exists d. split; [done|]. by apply streq_true.
Qed.

Lemma allStatus_countIf st ds :
  allStatus st ds ↔ countIf (λ d, streq (Datacenter.Status d) st) ds = length ds.
Proof.
  rewrite countIf_all. unfold allStatus. split.
  - intros H d Hd. apply streq_true. by apply H.
  - intros H d Hd. apply streq_true. by apply H.
Qed.

(** The status decision, on members that carry one of the three datacenter
    statuses, case by case and in the order of precedence. *)
Lemma regionStatus_cases ds :
  Forall (λ d, datacenterStatus (Datacenter.Status d)) ds →
  let st := regionStatus (foldl countStatus (Build_regionCounts 0 0 0 0 0 0) ds)
              (length ds) in
  (st = "error" ↔ anyStatus "error" ds)
  ∧ (st = "draining" ↔ ¬ anyStatus "error" ds ∧ allStatus "draining" ds)
  ∧ (st = "partial"
     ↔ ¬ anyStatus "error" ds ∧ ¬ allStatus "draining" ds
       ∧ anyStatus "active" ds ∧ anyStatus "draining" ds)
  ∧ (st = "active"
     ↔ ¬ anyStatus "error" ds ∧ ¬ allStatus "draining" ds
       ∧ ¬ (anyStatus "active" ds ∧ anyStatus "draining" ds)
       ∧ allStatus "active" ds).
Proof.
  intros Hvalid st.
  assert (¬ anyStatus "error" ds → ¬ anyStatus "draining" ds →
          allStatus "active" ds) as Hrest.
  { intros Hne Hnd d Hd. rewrite Forall_forall in Hvalid.
    destruct (Hvalid d Hd) as [H|[H|H]]; [done| |].
    - destruct Hnd. by exists d.
    - destruct Hne. by exists d. }
  assert (ds ≠ [] → allStatus "active" ds → ¬ allStatus "draining" ds) as Hnonempty.
  { intros Hne Ha Hd. destruct ds as [|d ds']; [done|].
    specialize (Ha d ltac:(by left)). specialize (Hd d ltac:(by left)).
    rewrite Ha in Hd. discriminate. }
  subst st. unfold regionStatus.
  destruct (countStatus_fold ds (Build_regionCounts 0 0 0 0 0 0)) as (Ha & Hd & He).
  rewrite Ha, Hd, He. simpl.
  fold (countIf isError ds). 
  pose proof (anyStatus_countIf "error" ds) as Herr.
  pose proof (anyStatus_countIf "active" ds) as Hact.
  pose proof (anyStatus_countIf "draining" ds) as Hdr.
  pose proof (allStatus_countIf "draining" ds) as Halld.
  change (countIf (λ d, streq (Datacenter.Status d) "error") ds)
    with (countIf isError ds) in Herr.
  change (countIf (λ d, streq (Datacenter.Status d) "active") ds)
    with (countIf isActive ds) in Hact.
  change (countIf (λ d, streq (Datacenter.Status d) "draining") ds)
    with (countIf isDraining ds) in Hdr, Halld.
  unfold DatacenterStatusError, DatacenterStatusDraining, DatacenterStatusActive.
  repeat case_bool_decide; simpl.
  - (* error *)
    apply Herr in H. repeat split; intros; try discriminate; tauto.
  - (* draining *)
    apply Halld in H0. assert (¬ anyStatus "error" ds) by (rewrite Herr; lia).
    repeat split; intros; try discriminate; tauto.
  - (* partial *)
    assert (¬ anyStatus "error" ds) by (rewrite Herr; lia).
    assert (¬ allStatus "draining" ds) by (by rewrite Halld).
    apply Hact in H1. apply Hdr in H2.
    repeat split; intros; try discriminate; tauto.
  - (* active, no draining member *)
    assert (¬ anyStatus "error" ds) as Hne by (rewrite Herr; lia).
    assert (¬ allStatus "draining" ds) by (by rewrite Halld).
    assert (¬ anyStatus "draining" ds) as Hnd by (by rewrite Hdr).
    pose proof (Hrest Hne Hnd).
    repeat split; intros; try discriminate; tauto.
  - (* no active member, a draining one: every member would be draining *)
    assert (¬ anyStatus "error" ds) as Hne by (rewrite Herr; lia).
    assert (¬ allStatus "draining" ds) as Hnot by (by rewrite Halld).
    assert (¬ anyStatus "active" ds) as Hna by (by rewrite Hact).
    exfalso. apply Hnot. intros d Hd'. rewrite Forall_forall in Hvalid.
    destruct (Hvalid d Hd') as [Hs|[Hs|Hs]];
      [destruct Hna; by exists d | done | destruct Hne; by exists d].
  - (* no active member, no draining one: the same *)
    assert (¬ anyStatus "error" ds) as Hne by (rewrite Herr; lia).
    assert (¬ allStatus "draining" ds) as Hnot by (by rewrite Halld).
    assert (¬ anyStatus "active" ds) as Hna by (by rewrite Hact).
    exfalso. apply Hnot. intros d Hd'. rewrite Forall_forall in Hvalid.
    destruct (Hvalid d Hd') as [Hs|[Hs|Hs]];
      [destruct Hna; by exists d | done | destruct Hne; by exists d].
Qed.

Lemma getRegionInfo_members (svc : Service) (orc : Oracle) regionName w :
  (valueOf (getRegionInfo svc orc regionName w)).2 = None
  ∧ Datacenter.Name <$> Region.Datacenters (valueOf (getRegionInfo svc orc regionName w)).1
    = GetClustersByRegion (clusters svc) regionName
  ∧ Forall (λ d, datacenterStatus (Datacenter.Status d))
      (Region.Datacenters (valueOf (getRegionInfo svc orc regionName w)).1)
  ∧ Region.Status (valueOf (getRegionInfo svc orc regionName w)).1
    = regionStatus
        (foldl countStatus (Build_regionCounts 0 0 0 0 0 0)
           (Region.Datacenters (valueOf (getRegionInfo svc orc regionName w)).1))
        (length (Region.Datacenters (valueOf (getRegionInfo svc orc regionName w)).1)).
Proof.
  unfold getRegionInfo. rewrite valueOf_bind. simpl.
  set (names := GetClustersByRegion (clusters svc) regionName).
  destruct (ParallelMapFrom_rel
              (λ dcName,
                 r <- getDatacenterInfo svc orc dcName ;;
                 match r with
                 | Err _ =>
                     ret (Datacenter.mk dcName regionName DatacenterStatusError
                            0 0 0 0 0 0, @None string)
                 | Ok dc => ret (dc, None)
                 end)
              (λ w', ∀ dc, snapshot svc orc w' dc = snapshot svc orc w dc)
              (λ dcName dc err,
                 err = None ∧ Datacenter.Name dc = dcName
                 ∧ datacenterStatus (Datacenter.Status dc)
                 ∧ ∀ e, snapshot svc orc w dcName = Err e →
                        Datacenter.Status dc = DatacenterStatusError))
    with (items := names) (index := 0) (w := w) as [Hall _]; [|done|].
  { intros x w' HI. by apply (datacenter_worker_spec svc orc regionName w x w'). }
  unfold ParallelMap.
  set (results := valueOf (ParallelMapFrom _ 0 names w)) in *.
  clearbody results.
  split; [done|]. split; [|split].
  - clear -Hall. induction Hall as [|x r xs rs (_ & Hn & _) _ IH]; [done|].
    rewrite !fmap_cons. by rewrite Hn, IH.
  - clear -Hall. induction Hall as [|x r xs rs (_ & _ & Hst & _) _ IH].
    + constructor.
    + rewrite fmap_cons. by constructor.
  - f_equal. rewrite length_fmap. by apply Forall2_length in Hall.
Qed.

(** C7. The status of the region view [getRegionInfo] returns, read off the
    statuses of its member datacenters, with ["error"] before ["draining"]
    before ["partial"] before ["active"]: it is ["error"] iff some member is
    ["error"]; ["draining"] iff no member is ["error"] and all are
    ["draining"]; ["partial"] iff none of the former holds and both an
    ["active"] and a ["draining"] member appear; ["active"] iff none of the
    former holds and all members are ["active"]. For a region with a member,
    ["active"] iff all members are ["active"], and ["partial"] iff no member
    is ["error"] and both statuses appear. The call returns a nil error and
    the members are the clusters of the region, in order. *)
Theorem C7_region_status (svc : Service) (orc : Oracle) (regionName : string)
  (w : World) :
  let view := (valueOf (getRegionInfo svc orc regionName w)).1 in
  let ds := Region.Datacenters view in
  let st := Region.Status view in
  (valueOf (getRegionInfo svc orc regionName w)).2 = None
  ∧ Datacenter.Name <$> ds = GetClustersByRegion (clusters svc) regionName
  ∧ (st = "error" ↔ anyStatus "error" ds)
  ∧ (st = "draining" ↔ ¬ anyStatus "error" ds ∧ allStatus "draining" ds)
  ∧ (st = "partial"
     ↔ ¬ anyStatus "error" ds ∧ ¬ allStatus "draining" ds
       ∧ anyStatus "active" ds ∧ anyStatus "draining" ds)
  ∧ (st = "active"
     ↔ ¬ anyStatus "error" ds ∧ ¬ allStatus "draining" ds
       ∧ ¬ (anyStatus "active" ds ∧ anyStatus "draining" ds)
       ∧ allStatus "active" ds)
  ∧ (st = "partial"
     ↔ ¬ anyStatus "error" ds ∧ anyStatus "active" ds ∧ anyStatus "draining" ds)
  ∧ (ds ≠ [] → (st = "active" ↔ allStatus "active" ds)).
Proof.
  intros view ds st.
  destruct (getRegionInfo_members svc orc regionName w) as (Herr & Hnames & Hvalid & Hst).
  fold view in Hnames, Hvalid, Hst. fold ds in Hnames, Hvalid, Hst. fold st in Hst.
  pose proof (regionStatus_cases ds Hvalid) as Hcases. simpl in Hcases.
  rewrite <- Hst in Hcases. destruct Hcases as (He & Hd & Hp & Ha).
  split; [exact Herr|]. split; [exact Hnames|]. split; [exact He|].
  split; [exact Hd|]. split; [exact Hp|]. split; [exact Ha|]. split.
  - rewrite Hp. split; [tauto|]. intros (Hne & [a [Hain Hast]] & Hdr).
    split; [done|]. split; [|split; [by exists a | done]].
    intros Hall. specialize (Hall a Hain).
    rewrite Hast in Hall. discriminate.
  - intros Hnonempty. rewrite Ha. split; [tauto|]. intros Hall.
    destruct ds as [|d ds'] eqn:Hds; [done|].
    assert (Datacenter.Status d = "active") as Hd0 by (apply Hall; by left).
    split; [|split; [|split; [|done]]].
    + intros (x & Hx & Hxs). rewrite (Hall x Hx) in Hxs. discriminate.
    + intros Hdall. specialize (Hdall d ltac:(by left)). rewrite Hd0 in Hdall.
      discriminate.
    + intros [_ (x & Hx & Hxs)]. rewrite (Hall x Hx) in Hxs. discriminate.
Qed.

(** ** [ActivateDatacenter], phase by phase *)

Lemma foldl_imap_Result {T R B} (f : B → Result R → B) (g : T → R * option string)
  (items : list T) :
  (∀ acc v e i j, f acc (mkResult v e i) = f acc (mkResult v e j)) →
  ∀ index acc,
    foldl f acc (imap (λ j x, mkResult (g x).1 (g x).2 (index + j)) items)
    = foldl (λ acc x, f acc (mkResult (g x).1 (g x).2 0)) acc items.
Proof.
  intros Hf. induction items as [|x items IH]; intros index acc; [done|].
  simpl. rewrite (Hf _ _ _ _ 0).
  rewrite <- (IH (S index)). f_equal. apply imap_ext. intros j y _. simpl.
  f_equal. lia.
Qed.

Section datacenter_activation.
Context (svc : Service) (orc : Oracle).

Lemma changeNodes_eq' c d nodes res w :
  changeNodes svc orc c d nodes res w
  = (foldl (collectChange svc orc c d) res (planNode d <$> nodes),
     set_cache (delete (cacheKey c))
       (foldl (λ w x, changeEffect svc orc c d x w) w (planNode d <$> nodes)),
     (planNode d <$> nodes) ≫= changeCalls svc orc c d).
Proof.
  rewrite changeNodes_eq. f_equal. f_equal.
  apply (foldl_imap_Result (collectNodeResult c d) (changeResult svc orc c d)).
  done.
Qed.

Lemma processClusterForDatacenter_eq targetDC res v e i w :
  processClusterForDatacenter svc orc targetDC res (mkResult v e i) w
  = (processedResult svc orc targetDC res v, processedWorld svc orc targetDC v w,
     processedCalls svc orc targetDC v).
Proof.
  unfold processClusterForDatacenter, processedResult, processedWorld,
    processedCalls. simpl.
  destruct (clusterNodesInfo.err v); [done|].
  destruct (bool_decide _); [done|]. apply changeNodes_eq'.
Qed.

Lemma fetchInv_refl w : fetchInv svc orc w w.
Proof. by repeat split. Qed.

Lemma fetchInv_cacheFetched w0 w dc :
  fetchInv svc orc w0 w → fetchInv svc orc w0 (cacheFetched svc orc dc w).
Proof.
  intros (Hs & Hn & He & Ha & Hr & Hc). split; [|split; [|split; [|split; [|split]]]].
  - intros dc'. by rewrite snapshot_cacheFetched.
  - by rewrite nomad_cacheFetched.
  - unfold cacheFetched. destruct (cache w !! cacheKey dc); [done|].
    by destruct (snapshot svc orc w dc).
  - unfold cacheFetched. destruct (cache w !! cacheKey dc); [done|].
    by destruct (snapshot svc orc w dc).
  - unfold cacheFetched. destruct (cache w !! cacheKey dc); [done|].
    by destruct (snapshot svc orc w dc).
  - intros Hc0. specialize (Hc Hc0). unfold cacheFetched.
    destruct (cache w !! cacheKey dc) eqn:Hmiss; [done|].
    destruct (snapshot svc orc w dc) as [nodes|e] eqn:Hsnap; [|done].
    intros dc' nodes'. simpl. unfold snapshot in Hsnap. rewrite Hmiss in Hsnap.
    destruct (decide (dc = dc')) as [<-|Hne].
    + rewrite lookup_insert_eq. intros [= <-].
      destruct (clusters svc !! dc); [|done].
      destruct (nodes_list_err orc dc); [done|]. by injection Hsnap as <-.
    + rewrite lookup_insert_ne; [apply Hc|]. intros Heq. by apply cacheKey_inj in Heq.
Qed.

Lemma fetchClusterForDatacenter_eq targetDC targetRegion w0 clusterName w :
  fetchInv svc orc w0 w →
  fetchClusterForDatacenter svc orc targetDC targetRegion clusterName w
  = ((fetchedInfo svc orc targetDC targetRegion w0 clusterName, None),
     fetchedWorld svc orc targetDC targetRegion clusterName w, [])
  ∧ fetchInv svc orc w0 (fetchedWorld svc orc targetDC targetRegion clusterName w).
Proof.
  intros Hinv. unfold fetchClusterForDatacenter, fetchedInfo, fetchedWorld.
  destruct (GetClusterRegion (clusters svc) clusterName) as [clusterRegion|e];
    [|done].
  destruct (streq clusterRegion targetRegion && negb (streq clusterName targetDC));
    [done|].
  split; [|by apply fetchInv_cacheFetched].
  unfold bind. rewrite GetNodes_eq.
  destruct Hinv as (Hs & _). rewrite Hs.
  by destruct (snapshot svc orc w0 clusterName).
Qed.

Lemma foldM_processClusterForDatacenter targetDC
  (infoOf : string → clusterNodesInfo.t) clusterNames :
  ∀ n res w,
    foldM (processClusterForDatacenter svc orc targetDC)
      (imap (λ j x, mkResult (infoOf x) None (n + j)) clusterNames) res w
    = (foldl (λ res x, processedResult svc orc targetDC res (infoOf x)) res
         clusterNames,
       foldl (λ w x, processedWorld svc orc targetDC (infoOf x) w) w clusterNames,
       clusterNames ≫= (λ x, processedCalls svc orc targetDC (infoOf x))).
Proof.
  induction clusterNames as [|x xs IH]; intros n res w; [done|].
  simpl. erewrite bind_eq; [reflexivity|apply processClusterForDatacenter_eq|].
  specialize (IH (S n) (processedResult svc orc targetDC res (infoOf x))
                (processedWorld svc orc targetDC (infoOf x) w)).
  etransitivity; [|exact IH]. f_equal. apply imap_ext.
  intros j y _. simpl. f_equal. lia.
Qed.

(** The two fan-outs over the clusters, as folds over the cluster names. *)
Lemma ActivateDatacenter_loops targetDC targetRegion clusterNames res w :
  let w1 := foldl (λ w x, fetchedWorld svc orc targetDC targetRegion x w) w
              clusterNames in
  let infoOf := fetchedInfo svc orc targetDC targetRegion w in
  (clusterNodesResults <-
     ParallelMap (fetchClusterForDatacenter svc orc targetDC targetRegion)
       clusterNames ;;
   foldM (processClusterForDatacenter svc orc targetDC) clusterNodesResults res) w
  = (foldl (λ res x, processedResult svc orc targetDC res (infoOf x)) res clusterNames,
     foldl (λ w x, processedWorld svc orc targetDC (infoOf x) w) w1 clusterNames,
     clusterNames ≫= (λ x, processedCalls svc orc targetDC (infoOf x)))
  ∧ fetchInv svc orc w w1.
Proof.
  intros w1 infoOf.
  destruct (ParallelMapFrom_pure
              (fetchClusterForDatacenter svc orc targetDC targetRegion)
              (fetchInv svc orc w)
              (λ x, (infoOf x, None))
              (fetchedWorld svc orc targetDC targetRegion)
              (λ _, [])) with (items := clusterNames) (index := 0) (w := w)
    as [Hfetch Hinv]; [|apply fetchInv_refl|].
  { intros x w' HI. by apply fetchClusterForDatacenter_eq. }
  fold w1 in Hfetch, Hinv. split; [|done].
  unfold ParallelMap. erewrite bind_eq; [|exact Hfetch|].
  2:{ apply (foldM_processClusterForDatacenter targetDC infoOf clusterNames 0). }
  f_equal.
  assert (clusterNames ≫= (λ _ : string, @nil Call) = []) as ->; [|done].
  clear. induction clusterNames; [done|]. by rewrite bind_cons.
Qed.

End datacenter_activation.

Section datacenter_activation_spec.
Context (svc : Service) (orc : Oracle).

(** [ActivateDatacenter] on a known target: the node writes are those of the
    cluster loop, the counters are those the loop computed, and what follows
    the loop (the evaluation trigger, the etcd write, the notification)
    writes to no node. *)
Lemma ActivateDatacenter_spec targetDC meta w :
  clusters svc !! targetDC = Some meta →
  let clusterNames := GetClusterNames (clusters svc) in
  let infoOf := fetchedInfo svc orc targetDC (region meta) w in
  let w1 := foldl (λ w x, fetchedWorld svc orc targetDC (region meta) x w) w
              clusterNames in
  let res1 := foldl (λ res x, processedResult svc orc targetDC res (infoOf x))
                (ActivationResult.mk targetDC 0 0 []) clusterNames in
  let w2 := foldl (λ w x, processedWorld svc orc targetDC (infoOf x) w) w1
              clusterNames in
  let out := ActivateDatacenter svc orc targetDC w in
  fetchInv svc orc w w1
  ∧ (∃ res', valueOf out = (Some res', None)
             ∧ ActivationResult.DrainedNodes res' = ActivationResult.DrainedNodes res1
             ∧ ActivationResult.UnDrainedNodes res'
               = ActivationResult.UnDrainedNodes res1
             ∧ ∀ e, e ∈ ActivationResult.Errors res1 →
                    e ∈ ActivationResult.Errors res')
  ∧ (∃ tail, callsOf out
             = (clusterNames ≫= (λ x, processedCalls svc orc targetDC (infoOf x)))
               ++ tail
             ∧ Forall (λ c, isSetNodeDrain c = false) tail)
  ∧ nomad (worldOf out) = nomad w2
  ∧ cache (worldOf out) = cache w2.
Proof.
  intros Htarget clusterNames infoOf w1 res1 w2 out.
  destruct (ActivateDatacenter_loops svc orc targetDC (region meta) clusterNames
              (ActivationResult.mk targetDC 0 0 []) w) as [Hloops Hinv].
  fold infoOf w1 res1 w2 in Hloops, Hinv. split; [exact Hinv|].
  pose proof (f_equal valueOf Hloops) as Hv.
  pose proof (f_equal worldOf Hloops) as Hw.
  pose proof (f_equal callsOf Hloops) as Hc.
  rewrite valueOf_bind in Hv. rewrite worldOf_bind in Hw. rewrite callsOf_bind in Hc.
  simpl in Hv, Hw, Hc.
  subst out. unfold ActivateDatacenter, GetClusterRegion. rewrite Htarget.
  fold clusterNames.
  rewrite !valueOf_bind, !worldOf_bind, !callsOf_bind. rewrite Hv, Hw.
  rewrite app_assoc, Hc. clear Hv Hw Hc Hloops.
  match goal with
  | |- context [recordActive orc targetDC "api" true (valueOf ?t) _] =>
      set (trig := t)
  end.
  assert (worldOf trig = w2
          ∧ ActivationResult.DrainedNodes (valueOf trig)
            = ActivationResult.DrainedNodes res1
          ∧ ActivationResult.UnDrainedNodes (valueOf trig)
            = ActivationResult.UnDrainedNodes res1
          ∧ (∀ e, e ∈ ActivationResult.Errors res1 →
                  e ∈ ActivationResult.Errors (valueOf trig))
          ∧ Forall (λ c, isSetNodeDrain c = false) (callsOf trig))
    as (Htw & Htd & Htu & Hte & Htc).
  { subst trig. destruct (bool_decide _); [|by repeat split].
    rewrite worldOf_bind, valueOf_bind, callsOf_bind.
    destruct (TriggerJobEvaluations_spec svc orc targetDC w2) as [Hw' [e Hc']].
    rewrite Hw', Hc'.
    destruct (valueOf (TriggerJobEvaluations svc orc targetDC w2)); simpl.
    - repeat split; [|by repeat constructor].
      intros e' He'. apply elem_of_app. by left.
    - repeat split; [done|by repeat constructor]. }
  rewrite Htw.
  destruct (recordActive_spec orc targetDC "api" true (valueOf trig) w2)
    as (info & err & Hrc & _ & _ & _ & Hrn & Hrd & Hru & Hre).
  destruct (notifyHealthChecker_spec svc (region meta)
              (worldOf (recordActive orc targetDC "api" true (valueOf trig) w2)))
    as [Hnw Hnc].
  split; [|split; [|split]].
  - eexists. split; [reflexivity|]. rewrite Hrd, Hru, Htd, Htu.
    split; [done|]. split; [done|]. intros e He. by apply Hre, Hte.
  - eexists. split; [reflexivity|]. rewrite Hrc.
    apply Forall_app. split; [done|]. apply Forall_app. split; [by repeat constructor|].
    apply Forall_app. split; [|constructor].
    eapply Forall_impl; [exact Hnc|]. by intros c ->.
  - simpl. rewrite Hnw. exact Hrn.
  - simpl. rewrite Hnw.
    unfold recordActive, WriteActiveDatacenter, Now, bind, modify, emit, ret.
    by destruct (etcd_put_err orc).
Qed.

End datacenter_activation_spec.

(** ** Counters and node writes *)

Lemma countChanged_app d l1 l2 :
  countChanged d (l1 ++ l2) = countChanged d l1 + countChanged d l2.
Proof. unfold countChanged. by rewrite filter_app, length_app. Qed.

Lemma countChanged_none d l :
  Forall (λ c, isSetNodeDrain c = false) l → countChanged d l = 0.
Proof.
  intros H. unfold countChanged. rewrite filter_none; [done|].
  eapply Forall_impl; [exact H|]. intros [] Hc; simpl in *; by try discriminate.
Qed.


Section counters.
Context (svc : Service) (orc : Oracle).

Lemma changeCalls_planNode c d nodes :
  (planNode d <$> nodes) ≫= changeCalls svc orc c d = writesFor svc orc c d nodes.
Proof.
  unfold writesFor. induction nodes as [|n nodes IH]; [done|].
  rewrite fmap_cons, bind_cons, IH, filter_cons. unfold changeCalls at 1.
  fold (inDesiredState d n). simpl.
  destruct (inDesiredState d n) eqn:Hd; simpl; [|done].
  by destruct (decide (true = false)).
Qed.

Lemma collectChange_spec c d res ntc :
  let res' := collectChange svc orc c d res ntc in
  let calls := changeCalls svc orc c d ntc in
  ActivationResult.DrainedNodes res'
  = ActivationResult.DrainedNodes res + countChanged true calls
  ∧ ActivationResult.UnDrainedNodes res'
    = ActivationResult.UnDrainedNodes res + countChanged false calls
  ∧ ActivationResult.Errors res'
    = ActivationResult.Errors res ++ omap failureMessage calls.
Proof.
  unfold collectChange, collectNodeResult, changeResult, changeCalls, countChanged.
  destruct (nodeToChange.alreadyCorrect ntc); simpl.
  { rewrite app_nil_r. repeat split; lia. }
  destruct (drainOutcome svc orc c (Node.ID (nodeToChange.node ntc)) d) as [e|];
    simpl.
  { repeat split; lia. }
  rewrite !filter_cons, app_nil_r. simpl.
  destruct (streq (Node.ID (nodeToChange.node ntc)) ""); simpl.
  { rewrite !andb_false_r. simpl. repeat split; lia. }
  rewrite !andb_true_r.
  destruct d; simpl; repeat split; lia.
Qed.

Lemma foldl_collectChange_spec c d ntcs res :
  let res' := foldl (collectChange svc orc c d) res ntcs in
  let calls := ntcs ≫= changeCalls svc orc c d in
  ActivationResult.DrainedNodes res'
  = ActivationResult.DrainedNodes res + countChanged true calls
  ∧ ActivationResult.UnDrainedNodes res'
    = ActivationResult.UnDrainedNodes res + countChanged false calls
  ∧ ActivationResult.Errors res'
    = ActivationResult.Errors res ++ omap failureMessage calls.
Proof.
  revert res. induction ntcs as [|ntc ntcs IH]; intros res; cbv zeta.
  { unfold countChanged. simpl. rewrite app_nil_r. repeat split; lia. }
  destruct (IH (collectChange svc orc c d res ntc)) as (Hd & Hu & He).
  destruct (collectChange_spec c d res ntc) as (Hd1 & Hu1 & He1).
  rewrite bind_cons, !countChanged_app, omap_app. cbn [foldl].
  rewrite Hd, Hu, He, Hd1, Hu1, He1. rewrite <- app_assoc.
  repeat split; lia.
Qed.

Lemma processedCalls_fetchedInfo targetDC targetRegion w clusterName :
  processedCalls svc orc targetDC
    (fetchedInfo svc orc targetDC targetRegion w clusterName)
  = writesFor svc orc clusterName (negb (streq clusterName targetDC))
      (clusterNodesInfo.nodes
         (fetchedInfo svc orc targetDC targetRegion w clusterName)).
Proof.
  assert (clusterNodesInfo.clusterName
            (fetchedInfo svc orc targetDC targetRegion w clusterName)
          = clusterName) as Hname.
  { unfold fetchedInfo. destruct (GetClusterRegion _ _); [|done].
    destruct (_ && _); [done|]. by destruct (snapshot _ _ _ _). }
  assert (clusterNodesInfo.err
            (fetchedInfo svc orc targetDC targetRegion w clusterName) ≠ None →
          clusterNodesInfo.nodes
            (fetchedInfo svc orc targetDC targetRegion w clusterName) = [])
    as Herr.
  { unfold fetchedInfo. destruct (GetClusterRegion _ _); [|done].
    destruct (_ && _); [done|]. by destruct (snapshot _ _ _ _). }
  unfold processedCalls. rewrite Hname.
  destruct (clusterNodesInfo.err _) as [e|].
  - by rewrite Herr.
  - case_bool_decide as Hlen.
    + apply nil_length_inv in Hlen. by rewrite Hlen.
    + apply changeCalls_planNode.
Qed.

Lemma processedResult_spec targetDC res info :
  let res' := processedResult svc orc targetDC res info in
  let calls := processedCalls svc orc targetDC info in
  ActivationResult.DrainedNodes res'
  = ActivationResult.DrainedNodes res + countChanged true calls
  ∧ ActivationResult.UnDrainedNodes res'
    = ActivationResult.UnDrainedNodes res + countChanged false calls
  ∧ ∀ msg, msg ∈ ActivationResult.Errors res ++ omap failureMessage calls →
           msg ∈ ActivationResult.Errors res'.
Proof.
  unfold processedResult, processedCalls.
  destruct (clusterNodesInfo.err info) as [e|]; simpl.
  { unfold countChanged. simpl. split; [lia|]. split; [lia|].
    intros msg. rewrite app_nil_r. intros Hm. apply elem_of_app. by left. }
  case_bool_decide.
  { unfold countChanged. simpl. split; [lia|]. split; [lia|].
    intros msg. by rewrite app_nil_r. }
  destruct (foldl_collectChange_spec
              (clusterNodesInfo.clusterName info)
              (negb (streq (clusterNodesInfo.clusterName info) targetDC))
              (planNode (negb (streq (clusterNodesInfo.clusterName info) targetDC))
                 <$> clusterNodesInfo.nodes info) res) as (Hd & Hu & He).
  split; [exact Hd|]. split; [exact Hu|]. intros msg. by rewrite He.
Qed.

Lemma foldl_processedResult_spec targetDC (infoOf : string → clusterNodesInfo.t)
  clusterNames res :
  let res' := foldl (λ res x, processedResult svc orc targetDC res (infoOf x))
                res clusterNames in
  let calls := clusterNames ≫= (λ x, processedCalls svc orc targetDC (infoOf x)) in
  ActivationResult.DrainedNodes res'
  = ActivationResult.DrainedNodes res + countChanged true calls
  ∧ ActivationResult.UnDrainedNodes res'
    = ActivationResult.UnDrainedNodes res + countChanged false calls
  ∧ ∀ msg, msg ∈ ActivationResult.Errors res ++ omap failureMessage calls →
           msg ∈ ActivationResult.Errors res'.
Proof.
  revert res. induction clusterNames as [|x xs IH]; intros res; cbv zeta.
  { unfold countChanged. simpl. split; [lia|]. split; [lia|].
    intros msg. by rewrite app_nil_r. }
  destruct (IH (processedResult svc orc targetDC res (infoOf x))) as (Hd & Hu & He).
  destruct (processedResult_spec targetDC res (infoOf x)) as (Hd1 & Hu1 & He1).
  rewrite bind_cons, !countChanged_app, omap_app. cbn [foldl].
  rewrite Hd, Hu, Hd1, Hu1. split; [lia|]. split; [lia|].
  intros msg Hm. apply He. rewrite app_assoc in Hm.
  apply elem_of_app in Hm as [Hm|Hm]; apply elem_of_app; [left|by right].
  by apply He1.
Qed.

End counters.

(** The node writes and the counters of [ActivateDatacenter]. *)
Lemma ActivateDatacenter_writes_and_counters (svc : Service) (orc : Oracle)
  (targetDC : string) (meta : clusterMetadata) (w : World) :
  clusters svc !! targetDC = Some meta →
  let out := ActivateDatacenter svc orc targetDC w in
  let infoOf := fetchedInfo svc orc targetDC (region meta) w in
  ∃ res,
    valueOf out = (Some res, None)
    ∧ filter (λ c, isSetNodeDrain c = true) (callsOf out)
      = GetClusterNames (clusters svc)
          ≫= (λ c, writesFor svc orc c (negb (streq c targetDC))
                     (clusterNodesInfo.nodes (infoOf c)))
    ∧ ActivationResult.DrainedNodes res = countChanged true (callsOf out)
    ∧ ActivationResult.UnDrainedNodes res = countChanged false (callsOf out)
    ∧ (∀ c msg, c ∈ callsOf out → failureMessage c = Some msg →
                msg ∈ ActivationResult.Errors res).
Proof.
  intros Htarget out infoOf.
  destruct (ActivateDatacenter_spec svc orc targetDC meta w Htarget)
    as (_ & (res & Hres & Hd & Hu & He) & (tail & Hcalls & Htail) & _).
  fold out in Hres, Hcalls. fold infoOf in Hcalls, Hd, Hu, He.
  set (names := GetClusterNames (clusters svc)) in *.
  destruct (foldl_processedResult_spec svc orc targetDC infoOf names
              (ActivationResult.mk targetDC 0 0 [])) as (Hd1 & Hu1 & He1).
  simpl in Hd1, Hu1, He1.
  set (calls2 := names ≫= (λ x, processedCalls svc orc targetDC (infoOf x))) in *.
  assert (calls2
          = names ≫= (λ c, writesFor svc orc c (negb (streq c targetDC))
                             (clusterNodesInfo.nodes (infoOf c)))) as Hwrites.
  { subst calls2. clear. induction names as [|x xs IH]; [done|].
    rewrite !bind_cons, IH. f_equal. apply processedCalls_fetchedInfo. }
  assert (Forall (λ c, isSetNodeDrain c = true) calls2) as Hall.
  { rewrite Hwrites. apply Forall_forall. intros c Hc.
    apply list_elem_of_bind in Hc as (x & Hc & _). unfold writesFor in Hc.
    apply list_elem_of_fmap in Hc as (n & -> & _). done. }
  assert (ActivationResult.DrainedNodes res = countChanged true (callsOf out)
          ∧ ActivationResult.UnDrainedNodes res = countChanged false (callsOf out))
    as [Hdrained Hundrained].
  { rewrite Hcalls, !countChanged_app, !(countChanged_none _ tail) by done.
    rewrite Hd, Hu, Hd1, Hu1. lia. }
  exists res. split; [exact Hres|]. split; [|split; [exact Hdrained|split;
    [exact Hundrained|]]].
  - rewrite Hcalls, filter_app, <- Hwrites.
    rewrite (filter_none _ tail).
    2:{ eapply Forall_impl; [exact Htail|]. simpl. intros c Hc. by rewrite Hc. }
    rewrite app_nil_r. clear -Hall. induction Hall as [|c l Hc _ IH]; [done|].
    rewrite filter_cons, IH. by destruct (decide _).
  - intros c msg Hc Hmsg. apply He, He1. simpl. rewrite Hcalls in Hc.
    apply elem_of_app in Hc as [Hc|Hc].
    + apply list_elem_of_omap. by exists c.
    + rewrite Forall_forall in Htail. specialize (Htail c Hc).
      destruct c; simpl in *; discriminate.
Qed.




(** ** Which clusters an activation touches *)

Section frame.
Context (svc : Service) (orc : Oracle).

Lemma fetchedInfo_clusterName targetDC targetRegion w x :
  clusterNodesInfo.clusterName (fetchedInfo svc orc targetDC targetRegion w x) = x.
Proof.
  unfold fetchedInfo. destruct (GetClusterRegion _ _); [|done].
  destruct (_ && _); [done|]. by destruct (snapshot _ _ _ _).
Qed.

(** A cluster with nodes to look at is a known cluster that is the target or
    lies in another region than the target. *)
Lemma fetchedInfo_nodes targetDC targetRegion w x :
  clusterNodesInfo.nodes (fetchedInfo svc orc targetDC targetRegion w x) ≠ [] →
  ∃ m, clusters svc !! x = Some m
       ∧ (x = targetDC ∨ region m ≠ targetRegion)
       ∧ snapshot svc orc w x
         = Ok (clusterNodesInfo.nodes (fetchedInfo svc orc targetDC targetRegion w x)).
Proof.
  unfold fetchedInfo, GetClusterRegion.
  destruct (clusters svc !! x) as [m|]; [|done].
  destruct (streq (region m) targetRegion && negb (streq x targetDC)) eqn:Hskip;
    [done|].
  destruct (snapshot svc orc w x) as [nodes|e]; [|done]. simpl.
  intros _. exists m. split; [done|]. split; [|done].
  apply andb_false_iff in Hskip as [Hr|Hx].
  - right. by apply streq_false.
  - left. apply negb_false_iff in Hx. by apply streq_true.
Qed.

Lemma elem_of_writesFor call c d nodes :
  call ∈ writesFor svc orc c d nodes →
  ∃ n, n ∈ nodes ∧ inDesiredState d n = false
       ∧ call = SetNodeDrainCall c (Node.ID n) d (drainOutcome svc orc c (Node.ID n) d).
Proof.
  unfold writesFor. intros Hin. apply list_elem_of_fmap in Hin as (n & -> & Hn).
  apply list_elem_of_filter in Hn as [Hd Hn]. by exists n.
Qed.

Lemma nomad_changeEffects_other c d ntcs w C :
  c ≠ C →
  nomad (foldl (λ w x, changeEffect svc orc c d x w) w ntcs) !! C = nomad w !! C.
Proof.
  intros Hne. revert w. induction ntcs as [|ntc ntcs IH]; intros w; [done|].
  simpl. rewrite IH. unfold changeEffect.
  destruct (nodeToChange.alreadyCorrect ntc); [done|].
  destruct (drainOutcome svc orc c _ d); [done|]. simpl.
  unfold drain_in_table. by rewrite lookup_alter_ne.
Qed.

Lemma cache_changeEffects c d ntcs w :
  cache (foldl (λ w x, changeEffect svc orc c d x w) w ntcs) = cache w.
Proof.
  revert w. induction ntcs as [|ntc ntcs IH]; intros w; [done|].
  simpl. rewrite IH. unfold changeEffect.
  destruct (nodeToChange.alreadyCorrect ntc); [done|].
  by destruct (drainOutcome svc orc c _ d).
Qed.

Lemma processedWorld_other targetDC info w C :
  clusterNodesInfo.clusterName info ≠ C ∨ clusterNodesInfo.nodes info = [] →
  nomad (processedWorld svc orc targetDC info w) !! C = nomad w !! C
  ∧ cache (processedWorld svc orc targetDC info w) !! cacheKey C
    = cache w !! cacheKey C.
Proof.
  intros Hother. unfold processedWorld.
  destruct (clusterNodesInfo.err info); [done|].
  case_bool_decide as Hlen; [done|].
  destruct Hother as [Hne|Hnil]; [|by rewrite Hnil in Hlen].
  simpl. split.
  - by apply nomad_changeEffects_other.
  - rewrite lookup_delete_ne, cache_changeEffects; [done|].
    intros Heq. by apply cacheKey_inj in Heq.
Qed.

Lemma fetchedWorld_other targetDC targetRegion x w C m :
  clusters svc !! C = Some m → region m = targetRegion → C ≠ targetDC →
  cache (fetchedWorld svc orc targetDC targetRegion x w) !! cacheKey C
  = cache w !! cacheKey C.
Proof.
  intros HC Hr Hne. unfold fetchedWorld, GetClusterRegion.
  destruct (clusters svc !! x) as [mx|] eqn:Hx; [|done].
  destruct (streq (region mx) targetRegion && negb (streq x targetDC)) eqn:Hskip;
    [done|].
  assert (x ≠ C) as HxC.
  { intros ->. rewrite HC in Hx. injection Hx as <-.
    apply andb_false_iff in Hskip as [Hs|Hs].
    - by apply streq_false in Hs.
    - apply negb_false_iff, streq_true in Hs. done. }
  unfold cacheFetched. destruct (cache w !! cacheKey x); [done|].
  destruct (snapshot svc orc w x); [|done]. simpl.
  rewrite lookup_insert_ne; [done|]. intros Heq. by apply cacheKey_inj in Heq.
Qed.

Lemma foldl_processedWorld_other targetDC (infoOf : string → clusterNodesInfo.t)
  clusterNames w C :
  (∀ x, x ∈ clusterNames →
        clusterNodesInfo.clusterName (infoOf x) ≠ C
        ∨ clusterNodesInfo.nodes (infoOf x) = []) →
  nomad (foldl (λ w x, processedWorld svc orc targetDC (infoOf x) w) w clusterNames)
    !! C = nomad w !! C
  ∧ cache (foldl (λ w x, processedWorld svc orc targetDC (infoOf x) w) w
             clusterNames) !! cacheKey C
    = cache w !! cacheKey C.
Proof.
  revert w. induction clusterNames as [|x xs IH]; intros w Hother; [done|].
  simpl. destruct (IH (processedWorld svc orc targetDC (infoOf x) w)) as [Hn Hc].
  { intros y Hy. apply Hother. by right. }
  destruct (processedWorld_other targetDC (infoOf x) w C) as [Hn1 Hc1].
  { apply Hother. by left. }
  by rewrite Hn, Hc, Hn1, Hc1.
Qed.

Lemma foldl_fetchedWorld_other targetDC targetRegion clusterNames w C m :
  clusters svc !! C = Some m → region m = targetRegion → C ≠ targetDC →
  cache (foldl (λ w x, fetchedWorld svc orc targetDC targetRegion x w) w
           clusterNames) !! cacheKey C
  = cache w !! cacheKey C.
Proof.
  intros HC Hr Hne. revert w. induction clusterNames as [|x xs IH]; intros w; [done|].
  simpl. rewrite IH. by eapply fetchedWorld_other.
Qed.

End frame.

(** C4. A datacenter activation of a known target leaves alone every other
    cluster of the target's region: no [SetNodeDrain] goes to such a cluster,
    and its node table and its cache entry are as before. Every write with
    [drain = true] goes to a cluster of another region, and every write with
    [drain = false] goes to the target. *)
Theorem C4_region_mates_untouched (svc : Service) (orc : Oracle)
  (targetDC C : string) (metaT metaC : clusterMetadata) (w : World) :
  clusters svc !! targetDC = Some metaT →
  clusters svc !! C = Some metaC →
  region metaC = region metaT →
  C ≠ targetDC →
  let out := ActivateDatacenter svc orc targetDC w in
  (∀ id d e, SetNodeDrainCall C id d e ∉ callsOf out)
  ∧ nomad (worldOf out) !! C = nomad w !! C
  ∧ cache (worldOf out) !! cacheKey C = cache w !! cacheKey C
  ∧ (∀ c id e, SetNodeDrainCall c id true e ∈ callsOf out →
               ∃ m, clusters svc !! c = Some m ∧ region m ≠ region metaT)
  ∧ (∀ c id e, SetNodeDrainCall c id false e ∈ callsOf out → c = targetDC).
Proof.
  intros Htarget HC Hregion Hne out.
  destruct (ActivateDatacenter_spec svc orc targetDC metaT w Htarget)
    as (Hinv & _ & (tail & Hcalls & Htail) & Hnomad & Hcache).
  fold out in Hcalls, Hnomad, Hcache.
  set (names := GetClusterNames (clusters svc)) in *.
  set (infoOf := fetchedInfo svc orc targetDC (region metaT) w) in *.
  assert (∀ c id d e, SetNodeDrainCall c id d e ∈ callsOf out →
            d = negb (streq c targetDC)
            ∧ ∃ m, clusters svc !! c = Some m
                   ∧ (c = targetDC ∨ region m ≠ region metaT)) as Hwrites.
  { intros c id d e Hin. rewrite Hcalls in Hin.
    apply elem_of_app in Hin as [Hin|Hin].
    2:{ rewrite Forall_forall in Htail. by specialize (Htail _ Hin). }
    apply list_elem_of_bind in Hin as (x & Hin & _).
    unfold infoOf in Hin. rewrite processedCalls_fetchedInfo in Hin.
    apply elem_of_writesFor in Hin as (n & Hn & _ & Heq).
    injection Heq as -> _ -> _. split; [done|].
    destruct (fetchedInfo_nodes svc orc targetDC (region metaT) w x)
      as (m & Hm & Hor & _).
    { intros Hnil. rewrite Hnil in Hn. by apply elem_of_nil in Hn. }
    by exists m. }
  assert (clusterNodesInfo.nodes (infoOf C) = []) as HCnodes.
  { destruct (clusterNodesInfo.nodes (infoOf C)) eqn:Hnodes; [done|].
    destruct (fetchedInfo_nodes svc orc targetDC (region metaT) w C)
      as (m & Hm & [?|Hr] & _); [|done|].
    - fold infoOf. by rewrite Hnodes.
    - rewrite HC in Hm. injection Hm as <-. done. }
  split; [|split; [|split; [|split]]].
  - intros id d e Hin. destruct (Hwrites _ _ _ _ Hin) as (_ & m & Hm & [?|Hr]); [done|].
    rewrite HC in Hm. injection Hm as <-. done.
  - rewrite Hnomad. destruct Hinv as (_ & Hn1 & _). rewrite <- Hn1.
    apply foldl_processedWorld_other. intros x _.
    unfold infoOf at 1. rewrite fetchedInfo_clusterName.
    destruct (decide (x = C)) as [->|]; [by right | by left].
  - rewrite Hcache.
    rewrite <- (foldl_fetchedWorld_other svc orc targetDC (region metaT) names w C
                  metaC HC Hregion Hne).
    apply foldl_processedWorld_other. intros x _.
    unfold infoOf at 1. rewrite fetchedInfo_clusterName.
    destruct (decide (x = C)) as [->|]; [by right | by left].
  - intros c id e Hin. destruct (Hwrites _ _ _ _ Hin) as (Hd & m & Hm & Hor).
    exists m. split; [done|]. destruct Hor as [->|?]; [|done].
    by rewrite streq_refl in Hd.
  - intros c id e Hin. destruct (Hwrites _ _ _ _ Hin) as (Hd & _).
    symmetry in Hd. apply negb_false_iff in Hd. by apply streq_true.
Qed.

(** C4 on the example: activating [dcA] leaves its region mate [dcC] alone. *)
Lemma C4_witness :
  Example.table !! "dcA" = Some {| name := "dcA"; region := "us" |}
  ∧ Example.table !! "dcC" = Some {| name := "dcC"; region := "us" |}
  ∧ "dcC" ≠ "dcA"
  ∧ (∀ id d e,
       SetNodeDrainCall "dcC" id d e
       ∉ callsOf (ActivateDatacenter Example.svc Example.allGood "dcA" Example.fresh))
  ∧ nomad (worldOf (ActivateDatacenter Example.svc Example.allGood "dcA"
                      Example.fresh)) !! "dcC"
    = nomad Example.fresh !! "dcC".
Proof.
  assert ("dcC" ≠ "dcA") as Hne by discriminate.
  destruct (C4_region_mates_untouched Example.svc Example.allGood "dcA" "dcC"
              {| name := "dcA"; region := "us" |}
              {| name := "dcC"; region := "us" |} Example.fresh)
    as (Hcalls & Hnomad & _); [reflexivity|reflexivity|reflexivity|exact Hne|].
  split; [reflexivity|]. split; [reflexivity|]. split; [exact Hne|].
  split; assumption.
Defined.

(** ** A second activation *)

Lemma apply_drain_same id d n :
  Node.ID n = id → inDesiredState d (apply_drain id d n) = true.
Proof.
  intros <-. unfold apply_drain. rewrite streq_refl.
  unfold inDesiredState, planNode. simpl. by destruct d.
Qed.

Lemma apply_drain_other id d n : Node.ID n ≠ id → apply_drain id d n = n.
Proof.
  intros Hne. unfold apply_drain. apply streq_false in Hne. by rewrite Hne.
Qed.

Section second_run.
Context (svc : Service) (orc : Oracle).

(** After the writes for [todo], a node is in the desired state when it was,
    or when [todo] holds a node of its ID that was not, provided the writes
    go through. *)
Lemma afterWrites_desired c d todo table :
  (∀ n, n ∈ todo → inDesiredState d n = false →
        drainOutcome svc orc c (Node.ID n) d = None) →
  (∀ e, e ∈ table →
        inDesiredState d e = true
        ∨ ∃ n, n ∈ todo ∧ inDesiredState d n = false ∧ Node.ID n = Node.ID e) →
  ∀ e, e ∈ afterWrites svc orc c d todo table → inDesiredState d e = true.
Proof.
  unfold afterWrites. revert table.
  induction todo as [|n todo IH]; intros table Hok Hinv e He; simpl in He.
  - destruct (Hinv e He) as [Hd|(n & Hn & _)]; [done|]. by apply elem_of_nil in Hn.
  - eapply IH; [| |exact He].
    + intros n' Hn'. apply Hok. by right.
    + intros e1 He1. destruct (inDesiredState d n) eqn:Hdn.
      * destruct (Hinv e1 He1) as [Hd|(n' & Hn' & Hdn' & Hid)]; [by left|].
        right. exists n'. split; [|done].
        apply elem_of_cons in Hn' as [->|Hn']; [congruence | done].
      * rewrite (Hok n) in He1 by (done || by left).
        apply list_elem_of_fmap in He1 as (e0 & -> & He0).
        destruct (decide (Node.ID e0 = Node.ID n)) as [Heq|Hne].
        { left. by apply apply_drain_same. }
        rewrite apply_drain_other by done.
        destruct (Hinv e0 He0) as [Hd|(n' & Hn' & Hdn' & Hid)]; [by left|].
        right. exists n'. split; [|done].
        apply elem_of_cons in Hn' as [->|Hn']; [congruence | done].
Qed.

Lemma nomad_changeEffects_same c d todo w :
  nomad (foldl (λ w x, changeEffect svc orc c d x w) w (planNode d <$> todo)) !! c
  = afterWrites svc orc c d todo <$> nomad w !! c.
Proof.
  unfold afterWrites. revert w. induction todo as [|n todo IH]; intros w.
  - simpl. by destruct (nomad w !! c).
  - rewrite fmap_cons. cbn [foldl]. rewrite IH. unfold changeEffect.
    fold (inDesiredState d n).
    destruct (inDesiredState d n) eqn:Hdn.
    { destruct (nomad w !! c); simpl; by rewrite ?Hdn. }
    simpl.
    destruct (drainOutcome svc orc c (Node.ID n) d) eqn:Hout.
    { destruct (nomad w !! c); simpl; by rewrite ?Hdn, ?Hout. }
    simpl. unfold drain_in_table. rewrite lookup_alter_eq.
    destruct (nomad w !! c); simpl; by rewrite ?Hdn, ?Hout.
Qed.

Lemma nomad_processedWorld_same targetDC info w :
  nomad (processedWorld svc orc targetDC info w) !! clusterNodesInfo.clusterName info
  = tableAfter svc orc targetDC info (nomad w !! clusterNodesInfo.clusterName info).
Proof.
  unfold processedWorld, tableAfter.
  destruct (clusterNodesInfo.err info); [done|].
  case_bool_decide; [done|]. simpl. apply nomad_changeEffects_same.
Qed.

Lemma nomad_processedWorlds targetDC targetRegion w0 clusterNames w x :
  NoDup clusterNames → x ∈ clusterNames →
  nomad (foldl (λ w y, processedWorld svc orc targetDC
                         (fetchedInfo svc orc targetDC targetRegion w0 y) w)
           w clusterNames) !! x
  = tableAfter svc orc targetDC (fetchedInfo svc orc targetDC targetRegion w0 x)
      (nomad w !! x).
Proof.
  intros Hnodup. revert w.
  induction Hnodup as [|y ys Hy Hnodup IH]; intros w Hx.
  - by apply elem_of_nil in Hx.
  - simpl. destruct (decide (y = x)) as [->|Hne].
    + destruct (foldl_processedWorld_other svc orc targetDC
                  (fetchedInfo svc orc targetDC targetRegion w0)
                  ys (processedWorld svc orc targetDC
                        (fetchedInfo svc orc targetDC targetRegion w0 x) w) x)
        as [Hn _].
      { intros z Hz. left. rewrite fetchedInfo_clusterName. by intros ->. }
      rewrite Hn.
      pose proof (nomad_processedWorld_same targetDC
                    (fetchedInfo svc orc targetDC targetRegion w0 x) w) as Hsame.
      by rewrite fetchedInfo_clusterName in Hsame.
    + apply elem_of_cons in Hx as [->|Hx]; [done|]. rewrite IH by done.
      destruct (processedWorld_other svc orc targetDC
                  (fetchedInfo svc orc targetDC targetRegion w0 y) w x) as [Hn _].
      { left. by rewrite fetchedInfo_clusterName. }
      by rewrite Hn.
Qed.

End second_run.

Section second_run_state.
Context (svc : Service) (orc : Oracle).

Lemma snapshot_coherent w x nodes :
  cacheCoherent w → snapshot svc orc w x = Ok nodes →
  nodes = default [] (nomad w !! x).
Proof.
  intros Hc. unfold snapshot.
  destruct (cache w !! cacheKey x) as [ns|] eqn:Hhit.
  - intros [= <-]. by apply Hc.
  - destruct (clusters svc !! x); [|done].
    destruct (nodes_list_err orc x); [done|]. by intros [= <-].
Qed.

Lemma processedWorld_coherent targetDC info w :
  cacheCoherent w → cacheCoherent (processedWorld svc orc targetDC info w).
Proof.
  intros Hc. unfold processedWorld.
  destruct (clusterNodesInfo.err info); [done|].
  case_bool_decide; [done|].
  intros dc nodes. simpl. rewrite cache_changeEffects.
  destruct (decide (clusterNodesInfo.clusterName info = dc)) as [<-|Hne].
  - by rewrite lookup_delete_eq.
  - rewrite lookup_delete_ne by (intros Heq; by apply cacheKey_inj in Heq).
    rewrite nomad_changeEffects_other by done. apply Hc.
Qed.

Lemma processedWorlds_coherent targetDC (infoOf : string → clusterNodesInfo.t)
  clusterNames w :
  cacheCoherent w →
  cacheCoherent
    (foldl (λ w x, processedWorld svc orc targetDC (infoOf x) w) w clusterNames).
Proof.
  revert w. induction clusterNames as [|x xs IH]; intros w Hc; [done|].
  simpl. by apply IH, processedWorld_coherent.
Qed.

Lemma processedResults_errors_mono targetDC (infoOf : string → clusterNodesInfo.t)
  clusterNames res msg :
  msg ∈ ActivationResult.Errors res →
  msg ∈ ActivationResult.Errors
          (foldl (λ res x, processedResult svc orc targetDC res (infoOf x)) res
             clusterNames).
Proof.
  intros Hmsg.
  destruct (foldl_processedResult_spec svc orc targetDC infoOf clusterNames res)
    as (_ & _ & He).
  apply He, elem_of_app. by left.
Qed.

(** A cluster whose fetch failed leaves its entry in [errors]. *)
Lemma processedResults_fetch_error targetDC (infoOf : string → clusterNodesInfo.t)
  clusterNames res x e :
  x ∈ clusterNames → clusterNodesInfo.err (infoOf x) = Some e →
  fetchError (infoOf x) e
  ∈ ActivationResult.Errors
      (foldl (λ res x, processedResult svc orc targetDC res (infoOf x)) res
         clusterNames).
Proof.
  revert res. induction clusterNames as [|y ys IH]; intros res Hx Herr.
  - by apply elem_of_nil in Hx.
  - simpl. apply elem_of_cons in Hx as [->|Hx]; [|by apply IH].
    apply processedResults_errors_mono. unfold processedResult. rewrite Herr.
    simpl. apply elem_of_app. right. by left.
Qed.

(** A node write that failed leaves its entry in [errors]. *)
Lemma processedResults_write_error targetDC (infoOf : string → clusterNodesInfo.t)
  clusterNames res x call msg :
  x ∈ clusterNames → call ∈ processedCalls svc orc targetDC (infoOf x) →
  failureMessage call = Some msg →
  msg ∈ ActivationResult.Errors
          (foldl (λ res x, processedResult svc orc targetDC res (infoOf x)) res
             clusterNames).
Proof.
  intros Hx Hcall Hmsg.
  destruct (foldl_processedResult_spec svc orc targetDC infoOf clusterNames res)
    as (_ & _ & He).
  apply He, elem_of_app. right. apply list_elem_of_omap. exists call.
  split; [|done]. apply list_elem_of_bind. by exists x.
Qed.

(** The state an activation without errors leaves: the cache agrees with the
    node tables, and in every cluster the activation looks at (the target,
    and the clusters of other regions) every node is in the desired state. *)
Lemma first_run_state targetDC meta w :
  clusters svc !! targetDC = Some meta →
  cacheCoherent w →
  let clusterNames := GetClusterNames (clusters svc) in
  let infoOf := fetchedInfo svc orc targetDC (region meta) w in
  let w1 := foldl (λ w x, fetchedWorld svc orc targetDC (region meta) x w) w
              clusterNames in
  let w2 := foldl (λ w x, processedWorld svc orc targetDC (infoOf x) w) w1
              clusterNames in
  ActivationResult.Errors
    (foldl (λ res x, processedResult svc orc targetDC res (infoOf x))
       (ActivationResult.mk targetDC 0 0 []) clusterNames) = [] →
  fetchInv svc orc w w1 →
  cacheCoherent w2
  ∧ ∀ x m, clusters svc !! x = Some m →
           x = targetDC ∨ region m ≠ region meta →
           ∀ e, e ∈ default [] (nomad w2 !! x) →
                inDesiredState (negb (streq x targetDC)) e = true.
Proof.
  intros Htarget Hcoh clusterNames infoOf w1 w2 Hnoerr Hinv.
  destruct Hinv as (_ & Hnomad1 & _ & _ & _ & Hcoh1).
  split; [by apply processedWorlds_coherent, Hcoh1|].
  intros x m Hx Hlook e He.
  assert (x ∈ clusterNames) as Hin by (apply elem_of_GetClusterNames; eauto).
  subst w2. unfold infoOf in He.
  rewrite nomad_processedWorlds in He
    by (done || apply NoDup_GetClusterNames).
  rewrite Hnomad1 in He.
  assert (streq (region m) (region meta) && negb (streq x targetDC) = false)
    as Hskip.
  { apply andb_false_iff. destruct Hlook as [->|Hr].
    - right. by rewrite streq_refl.
    - left. by apply streq_false. }
  pose proof (processedResults_fetch_error targetDC infoOf clusterNames
                (ActivationResult.mk targetDC 0 0 []) x) as Hfetch.
  pose proof (λ call msg, processedResults_write_error targetDC infoOf clusterNames
                (ActivationResult.mk targetDC 0 0 []) x call msg Hin) as Hwrite.
  rewrite Hnoerr in Hfetch, Hwrite. unfold infoOf in Hfetch, Hwrite.
  rewrite processedCalls_fetchedInfo in Hwrite.
  unfold tableAfter in He. unfold fetchedInfo, GetClusterRegion in He, Hfetch, Hwrite.
  rewrite Hx, Hskip in He, Hfetch, Hwrite.
  destruct (snapshot svc orc w x) as [nodes1|err] eqn:Hsnap.
  2:{ specialize (Hfetch err Hin eq_refl). by apply elem_of_nil in Hfetch. }
  simpl in He, Hwrite.
  pose proof (snapshot_coherent w x nodes1 Hcoh Hsnap) as Hnodes1.
  case_bool_decide as Hlen.
  { apply nil_length_inv in Hlen. rewrite <- Hnodes1, Hlen in He.
    by apply elem_of_nil in He. }
  destruct (nomad w !! x) as [table|] eqn:Htable; simpl in Hnodes1.
  2:{ by rewrite Hnodes1 in Hlen. }
  subst table. simpl in He.
  eapply afterWrites_desired; [| |exact He].
  - intros n Hn Hdn.
    destruct (drainOutcome svc orc x (Node.ID n) (negb (streq x targetDC)))
      as [failure|] eqn:Hout; [|done].
    assert (SetNodeDrainCall x (Node.ID n) (negb (streq x targetDC)) (Some failure)
            ∈ writesFor svc orc x (negb (streq x targetDC)) nodes1) as Hcall.
    { unfold writesFor. apply list_elem_of_fmap. exists n. rewrite Hout.
      split; [reflexivity|]. apply list_elem_of_filter. done. }
    specialize (Hwrite _ _ Hcall eq_refl). by apply elem_of_nil in Hwrite.
  - intros e0 He0. destruct (inDesiredState (negb (streq x targetDC)) e0) eqn:Hd0;
      [by left|]. right. by exists e0.
Qed.

End second_run_state.

Section idempotence.
Context (svc : Service).

Lemma changeEffects_desired orc c d nodes w :
  (∀ n, n ∈ nodes → inDesiredState d n = true) →
  foldl (λ w x, changeEffect svc orc c d x w) w (planNode d <$> nodes) = w.
Proof.
  induction nodes as [|n nodes IH]; intros Hall; [done|].
  rewrite fmap_cons. cbn [foldl]. unfold changeEffect at 2.
  fold (inDesiredState d n). rewrite (Hall n) by (by left).
  apply IH. intros n' Hn'. apply Hall. by right.
Qed.

Lemma writesFor_desired orc c d nodes :
  (∀ n, n ∈ nodes → inDesiredState d n = true) → writesFor svc orc c d nodes = [].
Proof.
  intros Hall. unfold writesFor. rewrite filter_none; [done|].
  apply Forall_forall. intros n Hn. by rewrite (Hall n Hn).
Qed.

(** In a world whose cache agrees with the node tables and whose nodes are
    all in the desired state, an activation finds nothing to write. *)
Lemma nothing_to_change orc targetDC meta w x :
  cacheCoherent w →
  (∀ x m, clusters svc !! x = Some m →
          x = targetDC ∨ region m ≠ region meta →
          ∀ e, e ∈ default [] (nomad w !! x) →
               inDesiredState (negb (streq x targetDC)) e = true) →
  ∀ n, n ∈ clusterNodesInfo.nodes (fetchedInfo svc orc targetDC (region meta) w x) →
       inDesiredState (negb (streq x targetDC)) n = true.
Proof.
  intros Hcoh Hall n Hn.
  destruct (fetchedInfo_nodes svc orc targetDC (region meta) w x)
    as (m & Hm & Hlook & Hsnap).
  { intros Hnil. rewrite Hnil in Hn. by apply elem_of_nil in Hn. }
  apply (Hall x m Hm Hlook). by rewrite <- (snapshot_coherent svc orc w x _ Hcoh Hsnap).
Qed.

Lemma processedWorlds_desired orc targetDC (infoOf : string → clusterNodesInfo.t)
  clusterNames w :
  (∀ x n, n ∈ clusterNodesInfo.nodes (infoOf x) →
          inDesiredState
            (negb (streq (clusterNodesInfo.clusterName (infoOf x)) targetDC)) n
          = true) →
  nomad (foldl (λ w x, processedWorld svc orc targetDC (infoOf x) w) w clusterNames)
  = nomad w.
Proof.
  intros Hall. revert w. induction clusterNames as [|x xs IH]; intros w; [done|].
  simpl. rewrite IH. unfold processedWorld.
  destruct (clusterNodesInfo.err (infoOf x)); [done|].
  case_bool_decide; [done|]. simpl. rewrite changeEffects_desired; [done|].
  apply Hall.
Qed.

End idempotence.

(** C5, as amended. Take an activation of a known target that starts from a
    cache that agrees with the clusters' node tables and that reports no
    error. Activating the same target again right after it (whatever the
    collaborators answer this time) issues no node write, leaves every node
    table as it is, and returns [drained_nodes = 0] and
    [un_drained_nodes = 0]. *)
Theorem C5_second_activation_changes_nothing (svc : Service) (orc1 orc2 : Oracle)
  (targetDC : string) (meta : clusterMetadata) (w : World)
  (res1 : ActivationResult.t) :
  clusters svc !! targetDC = Some meta →
  cacheCoherent w →
  valueOf (ActivateDatacenter svc orc1 targetDC w) = (Some res1, None) →
  ActivationResult.Errors res1 = [] →
  let w1 := worldOf (ActivateDatacenter svc orc1 targetDC w) in
  let out2 := ActivateDatacenter svc orc2 targetDC w1 in
  filter (λ c, isSetNodeDrain c = true) (callsOf out2) = []
  ∧ nomad (worldOf out2) = nomad w1
  ∧ ∃ res2, valueOf out2 = (Some res2, None)
            ∧ ActivationResult.DrainedNodes res2 = 0
            ∧ ActivationResult.UnDrainedNodes res2 = 0.
Proof.
  intros Htarget Hcoh Hres1 Hnoerr w1 out2.
  (* the first run *)
  destruct (ActivateDatacenter_spec svc orc1 targetDC meta w Htarget)
    as (Hinv1 & (res' & Hres' & _ & _ & Herrs) & _ & Hnomad1 & Hcache1).
  rewrite Hres1 in Hres'. injection Hres' as <-. rewrite Hnoerr in Herrs.
  fold w1 in Hnomad1, Hcache1.
  destruct (first_run_state svc orc1 targetDC meta w Htarget Hcoh) as [Hcoh2 Hdes2];
    [|exact Hinv1|].
  { apply elem_of_nil_inv. intros e He. by apply (elem_of_nil e), Herrs. }
  rewrite <- Hnomad1 in Hdes2.
  assert (cacheCoherent w1) as Hcohw1.
  { intros dc nodes. rewrite Hcache1, Hnomad1. apply Hcoh2. }
  clear Hcoh2 Hnomad1 Hcache1 Hinv1 Herrs.
  (* the second run *)
  pose proof (nothing_to_change svc orc2 targetDC meta w1) as Hnothing.
  specialize (λ x, Hnothing x Hcohw1 Hdes2).
  destruct (ActivateDatacenter_writes_and_counters svc orc2 targetDC meta w1 Htarget)
    as (res2 & Hres2 & Hwrites & Hd & Hu & _).
  fold out2 in Hres2, Hwrites, Hd, Hu.
  assert (filter (λ c, isSetNodeDrain c = true) (callsOf out2) = []) as Hnone.
  { rewrite Hwrites. generalize (GetClusterNames (clusters svc)).
    intros names. induction names as [|x xs IH]; [done|].
    rewrite bind_cons, IH, writesFor_desired; [done|]. apply Hnothing. }
  assert (∀ d, countChanged d (callsOf out2) = 0) as Hcount.
  { intros d. unfold countChanged. apply length_zero_iff_nil.
    apply elem_of_nil_inv. intros c Hc. apply list_elem_of_filter in Hc as [Hch Hc].
    apply (elem_of_nil c). rewrite <- Hnone. apply list_elem_of_filter.
    split; [|done]. destruct c as [? ? ? []| | | |]; done. }
  split; [exact Hnone|]. split.
  - destruct (ActivateDatacenter_spec svc orc2 targetDC meta w1 Htarget)
      as (Hinv2 & _ & _ & Hnomad2 & _).
    fold out2 in Hnomad2. rewrite Hnomad2.
    destruct Hinv2 as (_ & Hn & _). rewrite <- Hn.
    apply processedWorlds_desired. intros x n Hn'.
    rewrite fetchedInfo_clusterName. by apply Hnothing.
  - exists res2. split; [exact Hres2|]. by rewrite Hd, Hu, !Hcount.
Qed.

(** C5 on the example: after [dcA] is activated from the fresh world, a
    second activation of [dcA] writes to no node. *)
Lemma C5_witness :
  Example.table !! "dcA" = Some {| name := "dcA"; region := "us" |}
  ∧ cacheCoherent Example.fresh
  ∧ valueOf (ActivateDatacenter Example.svc Example.allGood "dcA" Example.fresh)
    = (Some (ActivationResult.mk "dcA" 2 0 []), None)
  ∧ filter (λ c, isSetNodeDrain c = true)
      (callsOf (ActivateDatacenter Example.svc Example.allGood "dcA"
                  (worldOf (ActivateDatacenter Example.svc Example.allGood "dcA"
                              Example.fresh)))) = [].
Proof.
  assert (cacheCoherent Example.fresh) as Hcoh.
  { intros dc nodes Hhit. simpl in Hhit. rewrite lookup_empty in Hhit. discriminate. }
  split; [reflexivity|]. split; [exact Hcoh|]. split; [vm_compute; reflexivity|].
  destruct (C5_second_activation_changes_nothing Example.svc Example.allGood
              Example.allGood "dcA" {| name := "dcA"; region := "us" |}
              Example.fresh (ActivationResult.mk "dcA" 2 0 []))
    as (Hnone & _); [reflexivity|exact Hcoh|vm_compute; reflexivity|reflexivity|].
  exact Hnone.
Defined.

(** C5 as stated fails when the first activation reads a cached snapshot
    that is no longer true. The instance of [dcB] starts with an empty cache;
    its startup reconciliation drains [b1] and fails on [b2], which leaves
    the snapshot of [dcB] from before the drain in the cache. The activation
    of [dcB] that follows reads that snapshot, finds both nodes ready, drains
    [dcA], and reports no error. The second activation of [dcB] reads the
    node table again and un-drains [b1]. *)
Lemma C5_counterexample :
  let w1 := worldOf (PerformStartupReconciliation Example.svc Example5.b2Fails
                       Example5.start) in
  let run1 := ActivateDatacenter Example.svc Example.allGood "dcB" w1 in
  let run2 := ActivateDatacenter Example.svc Example.allGood "dcB" (worldOf run1) in
  cache Example5.start = ∅
  ∧ valueOf run1 = (Some (ActivationResult.mk "dcB" 1 0 []), None)
  ∧ filter (λ c, isSetNodeDrain c = true) (callsOf run1)
    = [SetNodeDrainCall "dcA" "a1" true None]
  ∧ filter (λ c, isSetNodeDrain c = true) (callsOf run2)
    = [SetNodeDrainCall "dcB" "b1" false None]
  ∧ valueOf run2 = (Some (ActivationResult.mk "dcB" 0 1 []), None).
Proof. vm_compute. repeat split. Qed.

(** ** [drainMyNodes] *)

Section draining.
Context (svc : Service) (orc : Oracle).

Lemma drainLoop_guard node :
  Node.Drain node || negb (streq (Node.SchedulingEligibility node) "eligible")
  = negb (Node.IsReady node).
Proof.
  unfold Node.IsReady. destruct (Node.Drain node); [done|]. simpl.
  by destruct (streq _ _).
Qed.

Lemma drainLoop_spec nodes w :
  let out := drainLoop svc orc nodes w in
  cache (worldOf out) = cache w ∧ etcd (worldOf out) = etcd w
  ∧ amDrained (worldOf out) = amDrained w ∧ reads (worldOf out) = reads w
  ∧ Forall (λ c, ∃ id e, c = SetNodeDrainCall (myDatacenter svc) id true e)
      (callsOf out)
  ∧ ((∀ n, n ∈ nodes → Node.IsReady n = true →
           drainOutcome svc orc (myDatacenter svc) (Node.ID n) true = None) →
     valueOf out = None ∧ callsOf out = drainWrites svc nodes)
  ∧ (valueOf out = None →
     ∀ n, n ∈ nodes → Node.IsReady n = true →
          drainOutcome svc orc (myDatacenter svc) (Node.ID n) true = None).
Proof.
  revert w. induction nodes as [|node rest IH]; intros w; cbv zeta.
  - simpl. repeat split; try done. intros _ n Hn. by apply elem_of_nil in Hn.
  - cbn [drainLoop]. rewrite drainLoop_guard. unfold drainWrites.
    rewrite filter_cons.
    destruct (Node.IsReady node) eqn:Hready; cbn [negb].
    2:{ destruct (IH w) as (Hc & He & Ha & Hr & Hcalls & Hok & Hnone).
        destruct (decide (false = true)) as [?|_]; [done|].
        split; [done|]. split; [done|]. split; [done|]. split; [done|].
        split; [done|]. split.
        - intros Hall. apply Hok. intros n Hn. apply Hall. by right.
        - intros Hv n Hn Hr'. apply elem_of_cons in Hn as [->|Hn]; [congruence|].
          by apply Hnone. }
    destruct (decide (true = true)) as [_|?]; [|done].
    rewrite valueOf_bind, worldOf_bind, callsOf_bind, SetNodeDrain_eq. simpl.
    destruct (drainOutcome svc orc (myDatacenter svc) (Node.ID node) true)
      as [e|] eqn:Hout; simpl.
    + split; [done|]. split; [done|]. split; [done|]. split; [done|].
      split; [repeat constructor; eauto|]. split; [|done].
      intros Hall. rewrite (Hall node) in Hout by (done || by left). done.
    + destruct (IH (set_nomad (drain_in_table (myDatacenter svc) (Node.ID node) true) w))
        as (Hc & He & Ha & Hr & Hcalls & Hok & Hnone).
      split; [done|]. split; [done|]. split; [done|]. split; [done|].
      split; [constructor; eauto|]. split.
      * intros Hall. destruct Hok as [Hv Hcs].
        { intros n Hn. apply Hall. by right. }
        split; [done|]. rewrite Hcs. reflexivity.
      * intros Hv n Hn Hr'. apply elem_of_cons in Hn as [->|Hn]; [done|].
        by apply Hnone.
Qed.

Lemma drainMyNodes_spec w :
  let out := drainMyNodes svc orc w in
  etcd (worldOf out) = etcd w
  ∧ amDrained (worldOf out) = amDrained w ∧ reads (worldOf out) = reads w
  ∧ Forall (λ c, ∃ id e, c = SetNodeDrainCall (myDatacenter svc) id true e)
      (callsOf out)
  ∧ (drainSucceeds svc orc w →
     valueOf out = None
     ∧ ∀ nodes, snapshot svc orc w (myDatacenter svc) = Ok nodes →
                callsOf out = drainWrites svc nodes)
  ∧ (valueOf out = None → drainSucceeds svc orc w).
Proof.
  unfold drainMyNodes.
  rewrite valueOf_bind, worldOf_bind, callsOf_bind, GetNodes_eq. simpl.
  assert (etcd (cacheFetched svc orc (myDatacenter svc) w) = etcd w
          ∧ amDrained (cacheFetched svc orc (myDatacenter svc) w) = amDrained w
          ∧ reads (cacheFetched svc orc (myDatacenter svc) w) = reads w)
    as (He0 & Ha0 & Hr0).
  { unfold cacheFetched. destruct (cache w !! _); [done|].
    by destruct (snapshot svc orc w _). }
  destruct (snapshot svc orc w (myDatacenter svc)) as [nodes|e] eqn:Hsnap.
  2:{ simpl. split; [done|]. split; [done|]. split; [done|].
      split; [constructor|]. split; [|done].
      intros (nodes & Hs & _). rewrite Hsnap in Hs. discriminate. }
  rewrite valueOf_bind, worldOf_bind, callsOf_bind.
  destruct (drainLoop_spec nodes (cacheFetched svc orc (myDatacenter svc) w))
    as (_ & He & Ha & Hr & Hcalls & Hok & Hnone).
  destruct (valueOf (drainLoop svc orc nodes
                       (cacheFetched svc orc (myDatacenter svc) w)))
    as [e|] eqn:Hv; simpl; rewrite ?app_nil_r.
  - split; [congruence|]. split; [congruence|].
    split; [congruence|]. split; [done|]. split; [|done].
    intros (nodes' & Hs & Hall). rewrite Hsnap in Hs. injection Hs as <-.
    destruct (Hok Hall). congruence.
  - split; [congruence|]. split; [congruence|].
    split; [congruence|]. split; [done|]. split.
    + intros (nodes' & Hs & Hall). rewrite Hsnap in Hs. injection Hs as <-.
      split; [done|]. intros ? [= <-]. by apply Hok.
    + intros _. exists nodes. split; [done|]. by apply Hnone.
Qed.

Lemma drainAndMark_spec ret_ w :
  let out := drainAndMark svc orc ret_ w in
  etcd (worldOf out) = etcd w ∧ reads (worldOf out) = reads w
  ∧ Forall (λ c, ∃ id e, c = SetNodeDrainCall (myDatacenter svc) id true e)
      (callsOf out)
  ∧ (drainSucceeds svc orc w →
     valueOf out = ret_ ∧ amDrained (worldOf out) = true
     ∧ ∀ nodes, snapshot svc orc w (myDatacenter svc) = Ok nodes →
                callsOf out = drainWrites svc nodes)
  ∧ (¬ drainSucceeds svc orc w →
     is_Some (valueOf out) ∧ amDrained (worldOf out) = amDrained w).
Proof.
  unfold drainAndMark. rewrite valueOf_bind, worldOf_bind, callsOf_bind.
  destruct (drainMyNodes_spec w) as (He & Ha & Hr & Hcalls & Hok & Hnone).
  destruct (valueOf (drainMyNodes svc orc w)) as [e|] eqn:Hv; simpl;
    rewrite ?app_nil_r.
  - split; [done|]. split; [done|]. split; [done|]. split.
    + intros Hs. destruct (Hok Hs). congruence.
    + intros _. split; [by eexists | done].
  - split; [done|]. split; [done|]. split; [done|]. split.
    + intros Hs. destruct (Hok Hs) as [_ Hcs]. done.
    + intros Hns. destruct Hns. by apply Hnone.
Qed.

Lemma drainAlwaysSucceeds_drainSucceeds w :
  drainAlwaysSucceeds svc orc → drainSucceeds svc orc w.
Proof.
  intros ([m Hm] & Hlist & Hupd). unfold drainSucceeds, snapshot, drainOutcome.
  rewrite Hm, Hlist. setoid_rewrite Hupd.
  destruct (cache w !! cacheKey (myDatacenter svc)); eauto.
Qed.

End draining.

(** ** Startup reconciliation *)

Section reconciliation.
Context (svc : Service) (orc : Oracle).

Lemma ReadActiveDatacenter_eq w :
  ReadActiveDatacenter orc w
  = (readResult orc w, w, [ReadActiveDatacenterCall (readResult orc w)]).
Proof. reflexivity. Qed.

Lemma snapshot_ext w w' dc :
  cache w' = cache w → nomad w' = nomad w →
  snapshot svc orc w' dc = snapshot svc orc w dc.
Proof. intros Hc Hn. unfold snapshot. by rewrite Hc, Hn. Qed.

Lemma drainSucceeds_ext w w' :
  cache w' = cache w → nomad w' = nomad w →
  drainSucceeds svc orc w' ↔ drainSucceeds svc orc w.
Proof.
  intros Hc Hn. unfold drainSucceeds.
  by rewrite (snapshot_ext w w' (myDatacenter svc) Hc Hn).
Qed.

(** A computation that, after calls [pre] that write nothing, ends in
    "drain, mark drained, return [ret_]". *)
Lemma ends_in_drainAndMark ret_ w w' pre (out : option string * World * list Call) :
  valueOf out = valueOf (drainAndMark svc orc ret_ w') →
  worldOf out = worldOf (drainAndMark svc orc ret_ w') →
  callsOf out = pre ++ callsOf (drainAndMark svc orc ret_ w') →
  cache w' = cache w → nomad w' = nomad w → etcd w' = etcd w →
  amDrained w' = amDrained w →
  Forall (λ c, isWriteActiveDatacenter c = false ∧ isSetNodeDrain c = false) pre →
  (∀ c, c ∈ callsOf out → isWriteActiveDatacenter c = false)
  ∧ etcd (worldOf out) = etcd w
  ∧ (drainSucceeds svc orc w →
     valueOf out = ret_ ∧ amDrained (worldOf out) = true
     ∧ ∀ nodes, snapshot svc orc w (myDatacenter svc) = Ok nodes →
                filter (λ c, isSetNodeDrain c = true) (callsOf out)
                = drainWrites svc nodes)
  ∧ (¬ drainSucceeds svc orc w →
     is_Some (valueOf out) ∧ amDrained (worldOf out) = amDrained w).
Proof.
  intros Hv Hw Hc Hcache Hnomad Hetcd Ham Hpre.
  destruct (drainAndMark_spec svc orc ret_ w') as (He & _ & Hcalls & Hok & Hfail).
  rewrite Hv, Hw, Hc. rewrite (drainSucceeds_ext w w' Hcache Hnomad) in Hok, Hfail.
  split; [|split; [congruence|split]].
  - intros c Hin. apply elem_of_app in Hin as [Hin|Hin].
    + rewrite Forall_forall in Hpre. by apply Hpre.
    + rewrite Forall_forall in Hcalls. by destruct (Hcalls c Hin) as (id & e & ->).
  - intros Hs. destruct (Hok Hs) as (Hret & Hmark & Hwrites).
    split; [done|]. split; [done|]. intros nodes Hsnap.
    rewrite <- (snapshot_ext w w' _ Hcache Hnomad) in Hsnap.
    rewrite (Hwrites nodes Hsnap), filter_app.
    rewrite (filter_none _ pre).
    2:{ eapply Forall_impl; [exact Hpre|]. simpl. intros c [_ Hc']. by rewrite Hc'. }
    simpl. unfold drainWrites.
    generalize (filter (λ n, Node.IsReady n = true) nodes). intros l.
    induction l as [|n l IH]; [done|]. rewrite fmap_cons, filter_cons. simpl.
    destruct (decide (true = true)); [|done]. by rewrite IH.
  - intros Hns. destruct (Hfail Hns) as [Hsome Hsame]. split; [done|]. congruence.
Qed.

(** The paths of [PerformStartupReconciliation] that end in "drain and
    return nil": no record could be read, or the record names another
    datacenter. *)
Lemma PerformStartupReconciliation_not_mine w :
  match readResult orc w with
  | Err _ => True
  | Ok info => ActiveDatacenter.Datacenter info ≠ myDatacenter svc
  end →
  ∃ w' pre,
    let out := PerformStartupReconciliation svc orc w in
    valueOf out = valueOf (drainAndMark svc orc None w')
    ∧ worldOf out = worldOf (drainAndMark svc orc None w')
    ∧ callsOf out = pre ++ callsOf (drainAndMark svc orc None w')
    ∧ cache w' = cache w ∧ nomad w' = nomad w ∧ etcd w' = etcd w
    ∧ amDrained w' = amDrained w
    ∧ Forall (λ c, isWriteActiveDatacenter c = false ∧ isSetNodeDrain c = false) pre.
Proof.
  intros Hread. unfold PerformStartupReconciliation.
  rewrite valueOf_bind, worldOf_bind, callsOf_bind, ReadActiveDatacenter_eq. simpl.
  destruct (readResult orc w) as [info|e].
  - apply streq_false in Hread. rewrite Hread. simpl.
    exists (bump_reads w), [ReadActiveDatacenterCall (Ok info)].
    repeat split; try done.
    + rewrite valueOf_bind. done.
    + rewrite worldOf_bind. done.
    + rewrite callsOf_bind. done.
    + repeat constructor.
  - exists w, [ReadActiveDatacenterCall (Err e)]. repeat split; try done.
    repeat constructor.
Qed.


End reconciliation.








(** ** The heartbeat loop *)

Section ticks.
Context (svc : Service) (orc : Oracle).


Lemma drainOrLog_spec w :
  let out := drainOrLog svc orc w in
  etcd (worldOf out) = etcd w
  ∧ nomad (worldOf out) = nomad (worldOf (drainMyNodes svc orc w))
  ∧ Forall (λ c, ∃ id e, c = SetNodeDrainCall (myDatacenter svc) id true e)
      (callsOf out)
  ∧ (amDrained w = true → amDrained (worldOf out) = true)
  ∧ (drainSucceeds svc orc w →
     amDrained (worldOf out) = true
     ∧ ∀ nodes, snapshot svc orc w (myDatacenter svc) = Ok nodes →
                callsOf out = drainWrites svc nodes)
  ∧ (amDrained (worldOf out) = amDrained w ∨ amDrained (worldOf out) = true).
Proof.
  unfold drainOrLog. rewrite worldOf_bind, callsOf_bind.
  destruct (drainMyNodes_spec svc orc w) as (He & Ha & _ & Hcalls & Hok & Hnone).
  destruct (valueOf (drainMyNodes svc orc w)) as [e|] eqn:Hv; simpl;
    rewrite app_nil_r.
  - split; [done|]. split; [done|]. split; [done|]. split; [congruence|].
    split; [|by left]. intros Hs. destruct (Hok Hs). congruence.
  - split; [done|]. split; [done|]. split; [done|]. split; [done|].
    split; [|by right]. intros Hs. destruct (Hok Hs) as [_ Hcs]. done.
Qed.

(** One tick, by what the read returned. *)
Lemma heartbeatTick_read_failed c w e :
  readResult orc w = Err e →
  heartbeatTick svc orc c w = (S c, w, [ReadActiveDatacenterCall (Err e)]).
Proof.
  intros Hread. unfold heartbeatTick, bind.
  by rewrite ReadActiveDatacenter_eq, Hread.
Qed.

Lemma heartbeatTick_other c w info :
  readResult orc w = Ok info →
  ActiveDatacenter.Datacenter info ≠ myDatacenter svc →
  heartbeatTick svc orc c w
  = (0,
     if amDrained w then w else worldOf (drainOrLog svc orc w),
     ReadActiveDatacenterCall (Ok info)
     :: (if amDrained w then [] else callsOf (drainOrLog svc orc w))).
Proof.
  intros Hread Hne. unfold heartbeatTick, bind.
  rewrite ReadActiveDatacenter_eq, Hread. apply streq_false in Hne. rewrite Hne.
  simpl. destruct (amDrained w); simpl; [done|].
  destruct (drainOrLog svc orc w) as [[[] w'] calls]. simpl. by rewrite app_nil_r.
Qed.

Lemma heartbeatTick_quiet c w info :
  readResult orc w = Ok info →
  ActiveDatacenter.Datacenter info = myDatacenter svc →
  (clock orc (reads w) - ActiveDatacenter.LastHeartbeat info
   < StaleThreshold (heartbeatCfg svc))%Z →
  amDrained w = true →
  heartbeatTick svc orc c w
  = (c, bump_reads w, [ReadActiveDatacenterCall (Ok info)]).
Proof.
  intros Hread Hmine Hfresh Hdrained. unfold heartbeatTick, bind.
  rewrite ReadActiveDatacenter_eq, Hread, Hmine, streq_refl. simpl.
  by rewrite bool_decide_eq_true_2, Hdrained by done.
Qed.

Lemma heartbeatTick_write c w info :
  readResult orc w = Ok info →
  ActiveDatacenter.Datacenter info = myDatacenter svc →
  bool_decide (clock orc (reads w) - ActiveDatacenter.LastHeartbeat info
               < StaleThreshold (heartbeatCfg svc))%Z && amDrained w = false →
  let w2 := bump_reads (bump_reads w) in
  let info' := ActiveDatacenter.mk (ActiveDatacenter.Datacenter info)
                 (ActiveDatacenter.ActivatedAt info)
                 (ActiveDatacenter.ActivatedBy info) (clock orc (S (reads w))) in
  heartbeatTick svc orc c w
  = match etcd_put_err orc with
    | None =>
        (0, set_etcd (Some info') w2,
         [ReadActiveDatacenterCall (Ok info);
          WriteActiveDatacenterCall info' None])
    | Some e =>
        let fence :=
          bool_decide (MaxFailures (heartbeatCfg svc) ≤ S c) && negb (amDrained w) in
        (S c,
         if fence then worldOf (drainOrLog svc orc w2) else w2,
         [ReadActiveDatacenterCall (Ok info);
          WriteActiveDatacenterCall info'
            (Some ("failed to write active datacenter to etcd: " +:+ e))]
         ++ (if fence then callsOf (drainOrLog svc orc w2) else []))
    end.
Proof.
  intros Hread Hmine Hwrite w2 info'. unfold heartbeatTick, bind.
  rewrite ReadActiveDatacenter_eq, Hread, Hmine, streq_refl. simpl.
  rewrite Hwrite. unfold WriteActiveDatacenter, bind. subst info'. simpl.
  rewrite Hmine.
  destruct (etcd_put_err orc) as [e|]; simpl; [|done].
  destruct (bool_decide _ && negb (amDrained w)); simpl; [|done].
  fold w2. destruct (drainOrLog svc orc w2) as [[[] w'] calls]. simpl.
  by rewrite app_nil_r.
Qed.

Lemma heartbeatTick_cases w :
  (∃ e, readResult orc w = Err e)
  ∨ (∃ info, readResult orc w = Ok info
             ∧ ActiveDatacenter.Datacenter info ≠ myDatacenter svc)
  ∨ (∃ info, readResult orc w = Ok info
             ∧ ActiveDatacenter.Datacenter info = myDatacenter svc
             ∧ (clock orc (reads w) - ActiveDatacenter.LastHeartbeat info
                < StaleThreshold (heartbeatCfg svc))%Z
             ∧ amDrained w = true)
  ∨ (∃ info, readResult orc w = Ok info
             ∧ ActiveDatacenter.Datacenter info = myDatacenter svc
             ∧ bool_decide (clock orc (reads w) - ActiveDatacenter.LastHeartbeat info
                            < StaleThreshold (heartbeatCfg svc))%Z
               && amDrained w = false).
Proof.
  destruct (readResult orc w) as [info|e]; [|left; eauto]. right.
  destruct (decide (ActiveDatacenter.Datacenter info = myDatacenter svc)) as [Hmine|Hne];
    [|left; eauto]. right.
  destruct (bool_decide (clock orc (reads w) - ActiveDatacenter.LastHeartbeat info
                         < StaleThreshold (heartbeatCfg svc))%Z && amDrained w)
    eqn:Hquiet; [|right; eauto].
  left. apply andb_true_iff in Hquiet as [Hfresh Hdrained].
  apply bool_decide_eq_true in Hfresh. eauto 6.
Qed.




(** A tick whose read failed does nothing but count. *)
Lemma heartbeatTick_read_failed_calls c w :
  readFailed (callsOf (heartbeatTick svc orc c w)) →
  ∃ e, heartbeatTick svc orc c w = (S c, w, [ReadActiveDatacenterCall (Err e)]).
Proof.
  assert (∀ w', existsb failedRead (callsOf (drainOrLog svc orc w')) = false)
    as Hdrain.
  { intros w'. destruct (drainOrLog_spec w') as (_ & _ & Hcalls & _).
    induction Hcalls as [|x l (? & ? & ->) _ IH]; [done|]. simpl. exact IH. }
  unfold readFailed. intros Hfailed.
  destruct (heartbeatTick_cases w)
    as [[e Hr]|[(i & Hr & Hne)|[(i & Hr & Hm & Hf & Hd)|(i & Hr & Hm & Hq)]]].
  - exists e. by apply heartbeatTick_read_failed.
  - rewrite (heartbeatTick_other c w i Hr Hne) in Hfailed. simpl in Hfailed.
    destruct (amDrained w); [done|]. by rewrite Hdrain in Hfailed.
  - by rewrite (heartbeatTick_quiet c w i Hr Hm Hf Hd) in Hfailed.
  - rewrite (heartbeatTick_write c w i Hr Hm Hq) in Hfailed.
    destruct (etcd_put_err orc) as [e|]; simpl in Hfailed; [|done].
    destruct (bool_decide _ && negb (amDrained w)); [|done].
    by rewrite Hdrain in Hfailed.
Qed.

End ticks.

Section loop.
Context (svc : Service).

Lemma heartbeatLoopFrom_cons t ticks c w :
  heartbeatLoopFrom svc (t :: ticks) c w
  = let out := heartbeatTick svc (tick_orc t) c (peerPut t w) in
    let rest := heartbeatLoopFrom svc ticks (valueOf out) (worldOf out) in
    (failuresOf rest, stateOf rest, callsOf out :: ticksOf rest).
Proof.
  simpl. destruct (heartbeatTick svc (tick_orc t) c (peerPut t w)) as [[c' w'] calls].
  simpl. by destruct (heartbeatLoopFrom svc ticks c' w') as [[n w''] rest].
Qed.



Lemma peerPut_nomad t w : nomad (peerPut t w) = nomad w.
Proof. unfold peerPut. by destruct (peer_put t). Qed.
Lemma peerPut_amDrained t w : amDrained (peerPut t w) = amDrained w.
Proof. unfold peerPut. by destruct (peer_put t). Qed.
Lemma peerPut_cache t w : cache (peerPut t w) = cache w.
Proof. unfold peerPut. by destruct (peer_put t). Qed.



(** Ticks whose read failed: each one counts, and nothing else happens. *)
Lemma heartbeatLoopFrom_read_failed ticks c w :
  Forall readFailed (ticksOf (heartbeatLoopFrom svc ticks c w)) →
  failuresOf (heartbeatLoopFrom svc ticks c w) = c + length ticks
  ∧ stateOf (heartbeatLoopFrom svc ticks c w) = foldl (λ w t, peerPut t w) w ticks
  ∧ Forall (λ calls, ∃ e, calls = [ReadActiveDatacenterCall (Err e)])
      (ticksOf (heartbeatLoopFrom svc ticks c w)).
Proof.
  revert c w. induction ticks as [|t ticks IH]; intros c w.
  - simpl. intros _. split; [lia|]. split; [done|]. constructor.
  - rewrite heartbeatLoopFrom_cons. simpl. intros Hall.
    apply Forall_cons in Hall as [Hfailed Hall].
    destruct (heartbeatTick_read_failed_calls svc (tick_orc t) c (peerPut t w) Hfailed)
      as [e Heq].
    rewrite Heq in Hall |- *. simpl in Hall |- *.
    destruct (IH _ _ Hall) as (Hc & Hw & Hcalls). rewrite Hc, Hw.
    split; [lia|]. split; [done|]. constructor; [by exists e | done].
Qed.

Lemma foldl_peerPut_keeps ticks w :
  amDrained (foldl (λ w t, peerPut t w) w ticks) = amDrained w
  ∧ nomad (foldl (λ w t, peerPut t w) w ticks) = nomad w.
Proof.
  revert w. induction ticks as [|t ticks IH]; intros w; [done|]. simpl.
  destruct (IH (peerPut t w)) as [-> ->].
  by rewrite peerPut_amDrained, peerPut_nomad.
Qed.

End loop.

(** C2. Ticks on which [ReadActiveDatacenter] fails only count: after any
    number of them, [consecutiveFailures] has grown by their number, also to
    [max_failures] and beyond, while [amDrained] and the nodes of every
    cluster are as they were and no call other than the failed read was
    issued. The read-failure branch of [heartbeatLoop] increments the counter
    and continues; the test against [max_failures] sits in the write-failure
    branch only. *)
Theorem C2_read_failures_do_not_fence (svc : Service) (ticks : list Tick)
  (c : nat) (w : World) :
  let out := heartbeatLoopFrom svc ticks c w in
  Forall readFailed (ticksOf out) →
  failuresOf out = c + length ticks
  ∧ amDrained (stateOf out) = amDrained w
  ∧ nomad (stateOf out) = nomad w
  ∧ Forall (λ calls, ∃ e, calls = [ReadActiveDatacenterCall (Err e)]) (ticksOf out).
Proof.
  intros out Hall.
  destruct (heartbeatLoopFrom_read_failed svc ticks c w Hall) as (Hc & Hw & Hcalls).
  destruct (foldl_peerPut_keeps ticks w) as [Ha Hn].
  subst out. rewrite Hw. done.
Qed.

(** C2 on the example: the instance of [dcB] is active and not drained,
    [max_failures] is 3 and etcd cannot be read on three ticks in a row. The
    counter reaches 3 and the instance is still not drained. *)
Lemma C2_witness :
  let ticks := [Example1.tick Example1.etcdDown; Example1.tick Example1.etcdDown;
                Example1.tick Example1.etcdDown] in
  let out := heartbeatLoop Example.svc ticks Example1.peerAlive in
  MaxFailures (heartbeatCfg Example.svc) = 3
  ∧ failuresOf out = 3
  ∧ amDrained (stateOf out) = false
  ∧ nomad (stateOf out) !! "dcB" = Some [Example.ready "b1"; Example.ready "b2"].
Proof.
  intros ticks out.
  destruct (C2_read_failures_do_not_fence Example.svc ticks 0 Example1.peerAlive)
    as (Hc & Ha & Hn & _).
  - vm_compute. repeat constructor.
  - split; [reflexivity|]. split; [exact Hc|]. split; [exact Ha|].
    unfold out, heartbeatLoop. rewrite Hn. reflexivity.
Defined.




(** * The rest of the service and what calls it *)

(** ** internal/concurrent: collecting results *)

Lemma CollectResults_foldl {T} (results : list (Result T)) values errors :
  foldl (λ '(values, errors) result,
           match Error result with
           | Some e => (values, errors ++ [e])
           | None => (values ++ [Value result], errors)
           end)
        (values, errors) results
  = (values ++ (Value <$> filter (λ r, Error r = None) results),
     errors ++ omap Error results).
Proof.
  revert values errors. induction results as [|r results IH]; intros values errors.
  - simpl. by rewrite !app_nil_r.
  - cbn [foldl]. destruct (Error r) as [e|] eqn:He.
    + rewrite IH, filter_cons_False by (simpl; congruence).
      cbn [omap list_omap]. rewrite He. by rewrite <- app_assoc.
    + rewrite IH, filter_cons_True by done.
      cbn [omap list_omap]. rewrite He, fmap_cons. by rewrite <- app_assoc.
Qed.

Lemma CollectResults_lengths {T} (results : list (Result T)) :
  length (Value <$> filter (λ r, Error r = None) results)
  + length (omap Error results) = length results.
Proof.
  rewrite length_fmap.
  induction results as [|r results IH]; [done|]. cbn [omap list_omap length].
  destruct (Error r) as [e|] eqn:He.
  - rewrite filter_cons_False by (simpl; congruence). simpl. lia.
  - rewrite filter_cons_True by done. simpl. lia.
Qed.

Lemma AllErrors_foldl {T} (results : list (Result T)) errors :
  foldl (λ errors result,
           match Error result with
           | Some e => errors ++ [e]
           | None => errors
           end)
        errors results
  = errors ++ omap Error results.
Proof.
  revert errors. induction results as [|r results IH]; intros errors.
  - simpl. by rewrite app_nil_r.
  - cbn [foldl omap list_omap]. rewrite IH. destruct (Error r) as [e|]; [|done].
    by rewrite <- app_assoc.
Qed.

Lemma AllErrors_omap {T} (results : list (Result T)) :
  AllErrors results = omap Error results.
Proof. unfold AllErrors. by rewrite AllErrors_foldl. Qed.

(** [CollectResults] splits the results in two without losing or reordering
    any: the errors are those of [AllErrors], the values are the values of
    the results without an error, both in the order of the results, and the
    two lists together are as long as the input. *)
Theorem CollectResults_partition {T} (results : list (Result T)) :
  (CollectResults results).2 = AllErrors results
  ∧ (CollectResults results).1
    = Value <$> filter (λ r, Error r = None) results
  ∧ length (CollectResults results).1 + length (CollectResults results).2
    = length results.
Proof.
  unfold CollectResults. rewrite CollectResults_foldl, AllErrors_omap. simpl.
  split; [done|]. split; [done|]. apply CollectResults_lengths.
Qed.

(** The three error queries agree: [FirstError] is the head of [AllErrors],
    and [HasErrors] holds exactly when there is a first error, that is when
    [AllErrors] is not empty. *)
Theorem FirstError_HasErrors_AllErrors {T} (results : list (Result T)) :
  FirstError results = head (AllErrors results)
  ∧ (HasErrors results = true ↔ is_Some (FirstError results))
  ∧ (HasErrors results = false ↔ AllErrors results = []).
Proof.
  rewrite AllErrors_omap.
  induction results as [|r results (IH1 & IH2 & IH3)]; simpl.
  - split; [done|]. split; [|done]. split; [done|]. by intros [? ?].
  - destruct (Error r) as [e|]; simpl; [|done].
    split; [done|]. split; [|done]. split; [by eexists | done].
Qed.

(** [ParallelMap] gives one result per item, each carrying the position of
    its item, whatever the workers do; so [CollectResults] of a fan-out
    accounts for every item. *)
Theorem ParallelMap_one_result_per_item {T R} (fn : T → M (R * option string))
  (items : list T) (w : World) :
  let results := valueOf (ParallelMap fn items w) in
  Index <$> results = seq 0 (length items)
  ∧ length (CollectResults results).1 + length (CollectResults results).2
    = length items.
Proof.
  intros results.
  assert (∀ index w, Index <$> valueOf (ParallelMapFrom fn index items w)
                     = seq index (length items)) as Hindex.
  { induction items as [|x items IH]; intros index w'; [done|]. simpl.
    rewrite !valueOf_bind. simpl. by rewrite IH. }
  split; [apply Hindex|].
  unfold CollectResults. rewrite CollectResults_foldl. simpl.
  rewrite CollectResults_lengths.
  rewrite <- (length_fmap Index). unfold results, ParallelMap.
  by rewrite (Hindex 0 w), length_seq.
Qed.

(** ** Read operations of the service *)

Lemma elem_of_GetAllRegions (table : clusterTable) r :
  r ∈ GetAllRegions table ↔ ∃ key meta, table !! key = Some meta ∧ region meta = r.
Proof.
  unfold GetAllRegions.
  rewrite sortStrings_elem, elem_of_elements, elem_of_list_to_set, list_elem_of_fmap.
  split.
  - intros (meta & -> & Hin). apply elem_of_table_values in Hin as [key Hkey]. eauto.
  - intros (key & meta & Hkey & <-). exists meta. split; [done|].
    apply elem_of_table_values. eauto.
Qed.

Lemma NoDup_GetAllRegions (table : clusterTable) : NoDup (GetAllRegions table).
Proof.
  unfold GetAllRegions, sortStrings. rewrite merge_sort_Permutation.
  apply NoDup_elements.
Qed.

Lemma GetClustersByRegion_nil (table : clusterTable) r :
  GetClustersByRegion table r = []
  ↔ ∀ key meta, table !! key = Some meta → region meta ≠ r.
Proof.
  split.
  - intros Hnil key meta Hkey Hr.
    assert (name meta ∈ GetClustersByRegion table r) as Hin
      by (apply elem_of_GetClustersByRegion; eauto).
    rewrite Hnil in Hin. by apply elem_of_nil in Hin.
  - intros Hnone. destruct (GetClustersByRegion table r) as [|n rest] eqn:Hreg; [done|].
    assert (n ∈ GetClustersByRegion table r) as Hin by (rewrite Hreg; by left).
    apply elem_of_GetClustersByRegion in Hin as (key & meta & Hkey & Hr & _).
    by destruct (Hnone key meta Hkey).
Qed.

Lemma countNodes_foldl nodes ready draining :
  let out := foldl (λ '(ready, draining) node,
                      if Node.Drain node then (ready, S draining)
                      else if streq (Node.SchedulingEligibility node) "eligible"
                           then (S ready, draining)
                           else (ready, S draining))
                   (ready, draining) nodes in
  out.1 + out.2 = ready + draining + length nodes
  ∧ out.1 = ready + length (filter (λ n, Node.IsReady n = true) nodes).
Proof.
  revert ready draining. induction nodes as [|n nodes IH]; intros ready draining.
  - simpl. split; lia.
  - cbn [foldl].
    destruct (Node.Drain n) eqn:Hd; [|destruct (streq _ _) eqn:He].
    + destruct (IH ready (S draining)) as [H1 H2]. cbv zeta in *.
      rewrite filter_cons_False by (unfold Node.IsReady; rewrite Hd; done).
      cbn [length]. split; lia.
    + destruct (IH (S ready) draining) as [H1 H2]. cbv zeta in *.
      rewrite filter_cons_True by (unfold Node.IsReady; by rewrite Hd, He).
      cbn [length]. split; lia.
    + destruct (IH ready (S draining)) as [H1 H2]. cbv zeta in *.
      rewrite filter_cons_False by (unfold Node.IsReady; rewrite Hd, He; done).
      cbn [length]. split; lia.
Qed.

Lemma countJobs_foldl jobs running stopped :
  let out := foldl (λ '(running, stopped) job,
                      if streq (Job.Status job) "running" then (S running, stopped)
                      else if streq (Job.Status job) "dead" then (running, S stopped)
                           else (running, stopped))
                   (running, stopped) jobs in
  out.1 + out.2 ≤ running + stopped + length jobs.
Proof.
  revert running stopped. induction jobs as [|j jobs IH]; intros running stopped.
  - simpl. lia.
  - cbn [foldl].
    destruct (streq (Job.Status j) "running"); [|destruct (streq (Job.Status j) "dead")].
    + pose proof (IH (S running) stopped) as H. cbv zeta in H. simpl. lia.
    + pose proof (IH running (S stopped)) as H. cbv zeta in H. simpl. lia.
    + pose proof (IH running stopped) as H. cbv zeta in H. simpl. lia.
Qed.

Lemma Forall2_fmap_eq {A B C} (f : C → A) (g : B → C) (xs : list A)
  (rs : list B) :
  Forall2 (λ x r, f (g r) = x) xs rs → f <$> (g <$> rs) = xs.
Proof.
  induction 1 as [|x r xs rs Hx _ IH]; [done|]. rewrite !fmap_cons. by rewrite Hx, IH.
Qed.

Lemma Forall2_Forall_fmap {A B C} (P : A → B → Prop) (Q : C → Prop) (g : B → C)
  (xs : list A) (rs : list B) :
  Forall2 P xs rs → Forall (λ x, ∀ r, P x r → Q (g r)) xs → Forall Q (g <$> rs).
Proof.
  induction 1 as [|x r xs rs Hx _ IH]; intros Hall; [constructor|].
  apply Forall_cons in Hall as [Hq Hall]. rewrite fmap_cons.
  constructor; [by apply Hq | by apply IH].
Qed.

(** A fan-out of workers that issue no call and keep [I]. *)
Lemma ParallelMapFrom_quiet {T R} (fn : T → M (R * option string))
  (I : World → Prop) :
  (∀ x w, I w → I (worldOf (fn x w)) ∧ callsOf (fn x w) = []) →
  ∀ items index w, I w →
    I (worldOf (ParallelMapFrom fn index items w))
    ∧ callsOf (ParallelMapFrom fn index items w) = [].
Proof.
  intros Hfn items. induction items as [|x items IH]; intros index w HI; [done|].
  simpl. rewrite worldOf_bind, callsOf_bind, worldOf_bind, callsOf_bind.
  destruct (Hfn x w HI) as [HI' ->]. destruct (IH (S index) _ HI') as [HI'' ->].
  done.
Qed.

Section reads.
Context (svc : Service) (orc : Oracle).

Lemma readOnly_refl w : readOnly svc orc w w.
Proof. by repeat split. Qed.

Lemma readOnly_cacheFetched w0 w dc :
  readOnly svc orc w0 w → readOnly svc orc w0 (cacheFetched svc orc dc w).
Proof.
  intros (Hn & He & Ha & Hr & Hs).
  split; [by rewrite nomad_cacheFetched|].
  assert (etcd (cacheFetched svc orc dc w) = etcd w
          ∧ amDrained (cacheFetched svc orc dc w) = amDrained w
          ∧ reads (cacheFetched svc orc dc w) = reads w) as (-> & -> & ->).
  { unfold cacheFetched. destruct (cache w !! cacheKey dc); [done|].
    by destruct (snapshot svc orc w dc). }
  repeat split; try done. intros dc'. by rewrite snapshot_cacheFetched.
Qed.

Lemma datacenter_worker_quiet (regionName : string) w0 dcName w :
  readOnly svc orc w0 w →
  let out :=
    (r <- getDatacenterInfo svc orc dcName ;;
     match r with
     | Err _ =>
         ret (Datacenter.mk dcName regionName DatacenterStatusError
                0 0 0 0 0 0, @None string)
     | Ok dc => ret (dc, None)
     end) w in
  readOnly svc orc w0 (worldOf out) ∧ callsOf out = [].
Proof.
  intros Hro. simpl. rewrite worldOf_bind, callsOf_bind.
  destruct (getDatacenterInfo_spec svc orc dcName w) as (Hw & Hc & _).
  rewrite Hw, Hc.
  split.
  - destruct (valueOf (getDatacenterInfo svc orc dcName w)); simpl;
      by apply readOnly_cacheFetched.
  - by destruct (valueOf (getDatacenterInfo svc orc dcName w)).
Qed.

Lemma getRegionInfo_quiet regionName w0 w :
  readOnly svc orc w0 w →
  readOnly svc orc w0 (worldOf (getRegionInfo svc orc regionName w))
  ∧ callsOf (getRegionInfo svc orc regionName w) = []
  ∧ Region.Name (valueOf (getRegionInfo svc orc regionName w)).1 = regionName.
Proof.
  intros Hro. unfold getRegionInfo, ParallelMap.
  rewrite worldOf_bind, callsOf_bind, valueOf_bind. simpl.
  destruct (ParallelMapFrom_quiet
              (λ dcName,
                 r <- getDatacenterInfo svc orc dcName ;;
                 match r with
                 | Err _ =>
                     ret (Datacenter.mk dcName regionName DatacenterStatusError
                            0 0 0 0 0 0, @None string)
                 | Ok dc => ret (dc, None)
                 end)
              (readOnly svc orc w0))
    with (items := GetClustersByRegion (clusters svc) regionName) (index := 0)
         (w := w) as [HI Hc]; [|done|].
  { intros x w' HI. by apply datacenter_worker_quiet. }
  rewrite Hc. done.
Qed.

End reads.

(** [GetNodes] and the cache. A list that [GetNodes] returned is served
    again from the cache: with the cache as the call left it, [GetNodes]
    returns the same list without asking the cluster, whatever the cluster
    would answer now and whatever its nodes are. A failed [GetNodes] caches
    nothing and leaves the world as it was. Neither issues a write. *)
Theorem GetNodes_served_from_cache (svc : Service) (orc : Oracle) (dc : string)
  (w : World) :
  let out := GetNodes svc orc dc w in
  callsOf out = []
  ∧ readOnly svc orc w (worldOf out)
  ∧ match valueOf out with
    | Ok nodes =>
        ∀ orc' w', cache w' = cache (worldOf out) →
                   GetNodes svc orc' dc w' = (Ok nodes, w', [])
    | Err _ => worldOf out = w
    end.
Proof.
  intros out. unfold out. rewrite GetNodes_eq. simpl.
  split; [done|]. split; [apply readOnly_cacheFetched, readOnly_refl|].
  destruct (snapshot svc orc w dc) as [nodes|e] eqn:Hs.
  - intros orc' w' Hcache. rewrite GetNodes_eq.
    assert (cache (cacheFetched svc orc dc w) !! cacheKey dc = Some nodes) as Hc.
    { unfold cacheFetched. rewrite Hs. unfold snapshot in Hs.
      destruct (cache w !! cacheKey dc) eqn:Hcw; [congruence|].
      simpl. by rewrite lookup_insert_eq. }
    unfold snapshot, cacheFetched, snapshot. by rewrite Hcache, Hc.
  - unfold cacheFetched. rewrite Hs. by destruct (cache w !! cacheKey dc).
Qed.

(** The counts of [getDatacenterInfo]. Every node is counted once, as ready
    or as draining; the status is ["active"] exactly when some node is ready
    (not draining and eligible) and ["draining"] otherwise, also for a
    datacenter without nodes; running and stopped jobs are among the jobs. *)
Theorem getDatacenterInfo_counts (svc : Service) (orc : Oracle) (dcName : string)
  (w : World) :
  match valueOf (getDatacenterInfo svc orc dcName w) with
  | Err e => valueOf (GetNodes svc orc dcName w) = Err e
  | Ok dc =>
      Datacenter.Name dc = dcName
      ∧ Datacenter.NodesReady dc + Datacenter.NodesDraining dc
        = Datacenter.NodesTotal dc
      ∧ (∀ nodes, valueOf (GetNodes svc orc dcName w) = Ok nodes →
           Datacenter.NodesTotal dc = length nodes
           ∧ Datacenter.NodesReady dc
             = length (filter (λ n, Node.IsReady n = true) nodes))
      ∧ (Datacenter.Status dc = DatacenterStatusActive
         ↔ 0 < Datacenter.NodesReady dc)
      ∧ (Datacenter.Status dc = DatacenterStatusDraining
         ↔ Datacenter.NodesReady dc = 0)
      ∧ Datacenter.JobsRunning dc + Datacenter.JobsStopped dc
        ≤ Datacenter.JobsTotal dc
  end.
Proof.
  unfold getDatacenterInfo. rewrite valueOf_bind, GetNodes_eq. simpl.
  destruct (snapshot svc orc w dcName) as [nodes|e]; [|done]. simpl.
  pose proof (countNodes_foldl nodes 0 0) as Hcount. cbv zeta in Hcount.
  fold (countNodes nodes) in Hcount.
  destruct (countNodes nodes) as [NodesReady NodesDraining]. simpl in Hcount.
  destruct Hcount as [Hsum Hready].
  assert (∀ jt jr js, jr + js ≤ jt →
    let dc := Datacenter.mk dcName
                match GetClusterRegion (clusters svc) dcName with
                | Ok region => region
                | Err _ => "unknown"
                end
                (if bool_decide (NodesDraining = length nodes)
                 then DatacenterStatusDraining
                 else if bool_decide (0 < NodesReady)
                      then DatacenterStatusActive
                      else DatacenterStatusDraining)
                (length nodes) NodesReady NodesDraining jt jr js in
    Datacenter.Name dc = dcName
    ∧ Datacenter.NodesReady dc + Datacenter.NodesDraining dc
      = Datacenter.NodesTotal dc
    ∧ (∀ nodes', Ok nodes = Ok nodes' →
         Datacenter.NodesTotal dc = length nodes'
         ∧ Datacenter.NodesReady dc
           = length (filter (λ n, Node.IsReady n = true) nodes'))
    ∧ (Datacenter.Status dc = DatacenterStatusActive
       ↔ 0 < Datacenter.NodesReady dc)
    ∧ (Datacenter.Status dc = DatacenterStatusDraining
       ↔ Datacenter.NodesReady dc = 0)
    ∧ Datacenter.JobsRunning dc + Datacenter.JobsStopped dc
      ≤ Datacenter.JobsTotal dc) as Hdc.
  { intros jt jr js Hjobs. simpl. split; [done|]. split; [lia|].
    split; [intros nodes' [= <-]; split; [done | lia]|].
    split; [|split; [|done]].
    - destruct (bool_decide (NodesDraining = length nodes)) eqn:Hall.
      + apply bool_decide_eq_true in Hall. split; [done | lia].
      + apply bool_decide_eq_false in Hall.
        rewrite bool_decide_eq_true_2 by lia. split; [lia | done].
    - destruct (bool_decide (NodesDraining = length nodes)) eqn:Hall.
      + apply bool_decide_eq_true in Hall. split; [lia | done].
      + apply bool_decide_eq_false in Hall.
        rewrite bool_decide_eq_true_2 by lia. split; [done | lia]. }
  destruct (ListJobs svc orc dcName) as [jobs|e].
  - pose proof (countJobs_foldl jobs 0 0) as Hjobs. cbv zeta in Hjobs.
    fold (countJobs jobs) in Hjobs.
    destruct (countJobs jobs) as [JobsRunning JobsStopped]. simpl in Hjobs.
    refine (Hdc (length jobs) JobsRunning JobsStopped _). lia.
  - refine (Hdc 0 0 0 _). lia.
Qed.

(** [ListRegions] returns a nil error and one entry per region of the
    cluster table, in ascending order of the region names and without
    repeats. Every entry lists the clusters of its region, in ascending
    order, so no entry is without datacenters. The call issues no write and
    changes nothing but the cache. *)
Theorem ListRegions_one_entry_per_region (svc : Service) (orc : Oracle)
  (w : World) :
  let out := ListRegions svc orc w in
  (valueOf out).2 = None
  ∧ Region.Name <$> (valueOf out).1 = GetAllRegions (clusters svc)
  ∧ NoDup (GetAllRegions (clusters svc))
  ∧ Sorted String.le (GetAllRegions (clusters svc))
  ∧ Forall (λ r, Datacenter.Name <$> Region.Datacenters r
                 = GetClustersByRegion (clusters svc) (Region.Name r)
                 ∧ Region.Datacenters r ≠ [])
      (valueOf out).1
  ∧ callsOf out = []
  ∧ readOnly svc orc w (worldOf out).
Proof.
  intros out. unfold out, ListRegions, ParallelMap.
  rewrite valueOf_bind, callsOf_bind, worldOf_bind. simpl.
  set (worker := λ regionName,
         r <- getRegionInfo svc orc regionName ;;
         match r.2 with
         | Some _ => ret (Region.mk regionName [] DatacenterStatusError 0 0 0,
                          @None string)
         | None => ret (r.1, None)
         end).
  assert (∀ x w', readOnly svc orc w w' →
            ((valueOf (worker x w')).2 = None
             ∧ Region.Name (valueOf (worker x w')).1 = x
             ∧ Datacenter.Name <$> Region.Datacenters (valueOf (worker x w')).1
               = GetClustersByRegion (clusters svc) x)
            ∧ readOnly svc orc w (worldOf (worker x w'))
            ∧ callsOf (worker x w') = []) as Hworker.
  { intros x w' Hro. unfold worker.
    rewrite valueOf_bind, worldOf_bind, callsOf_bind.
    destruct (getRegionInfo_members svc orc x w') as (Herr & Hnames & _).
    destruct (getRegionInfo_quiet svc orc x w w' Hro) as (Hro' & Hcalls & Hname).
    rewrite Herr, Hcalls. simpl. done. }
  destruct (ParallelMapFrom_rel worker (readOnly svc orc w)
              (λ x r err, err = None ∧ Region.Name r = x
                          ∧ Datacenter.Name <$> Region.Datacenters r
                            = GetClustersByRegion (clusters svc) x))
    with (items := GetAllRegions (clusters svc)) (index := 0) (w := w)
    as [Hall _]; [|apply readOnly_refl|].
  { intros x w' Hro. destruct (Hworker x w' Hro) as (Hv & Hro' & _). done. }
  destruct (ParallelMapFrom_quiet worker (readOnly svc orc w))
    with (items := GetAllRegions (clusters svc)) (index := 0) (w := w)
    as [Hro Hcalls]; [|apply readOnly_refl|].
  { intros x w' Hro. destruct (Hworker x w' Hro) as (_ & Hro' & Hc). done. }
  rewrite Hcalls.
  split; [done|]. split; [|split; [apply NoDup_GetAllRegions|split;
    [apply Sorted_merge_sort; apply _|split; [|done]]]].
  - apply Forall2_fmap_eq. eapply Forall2_impl; [exact Hall|].
    by intros x r (_ & Hn & _).
  - eapply Forall2_Forall_fmap; [exact Hall|]. apply Forall_forall.
    intros x Hx r (_ & Hn & Hd). rewrite Hn. split; [done|].
    intros Hnil. rewrite Hnil in Hd. symmetry in Hd.
    apply elem_of_GetAllRegions in Hx as (key & meta & Hkey & Hr).
    by destruct (proj1 (GetClustersByRegion_nil _ _) Hd key meta Hkey).
Qed.

(** [GetDatacentersByRegion]. For a region without clusters it returns the
    error ["region ... not found or has no datacenters"] and touches
    nothing. Otherwise it returns one entry per cluster of the region, in
    ascending order of the names, each with the region asked for; a cluster
    whose nodes cannot be read has the status ["error"]. It issues no write
    and changes nothing but the cache. The cluster table is keyed by name,
    as [NewNomadRepository] builds it. *)
Theorem GetDatacentersByRegion_entries (svc : Service) (orc : Oracle)
  (r : string) (w : World) :
  keyedByName (clusters svc) →
  let out := GetDatacentersByRegion svc orc r w in
  callsOf out = []
  ∧ readOnly svc orc w (worldOf out)
  ∧ ((∀ key meta, clusters svc !! key = Some meta → region meta ≠ r) →
     out = (Err ("region " +:+ r +:+ " not found or has no datacenters"), w, []))
  ∧ ((∃ key meta, clusters svc !! key = Some meta ∧ region meta = r) →
     ∃ dcs, valueOf out = Ok dcs
            ∧ Datacenter.Name <$> dcs = GetClustersByRegion (clusters svc) r
            ∧ Forall (λ d, Datacenter.Region d = r) dcs
            ∧ Forall (λ d, ∀ e, valueOf (GetNodes svc orc (Datacenter.Name d) w)
                                = Err e →
                                Datacenter.Status d = DatacenterStatusError) dcs).
Proof.
  intros Hkeyed out. unfold out, GetDatacentersByRegion.
  destruct (GetClustersByRegion (clusters svc) r) as [|n rest] eqn:Hreg.
  { simpl. split; [done|]. split; [apply readOnly_refl|]. split; [done|].
    intros (key & meta & Hkey & Hr).
    by destruct (proj1 (GetClustersByRegion_nil _ _) Hreg key meta Hkey). }
  rewrite bool_decide_eq_false_2 by done. rewrite <- Hreg.
  unfold ParallelMap. rewrite valueOf_bind, callsOf_bind, worldOf_bind. simpl.
  set (worker := λ dcName,
         r0 <- getDatacenterInfo svc orc dcName ;;
         match r0 with
         | Err _ => ret (Datacenter.mk dcName r DatacenterStatusError
                           0 0 0 0 0 0, @None string)
         | Ok dc => ret (dc, None)
         end).
  destruct (ParallelMapFrom_quiet worker (readOnly svc orc w))
    with (items := GetClustersByRegion (clusters svc) r) (index := 0) (w := w)
    as [Hro Hcalls]; [|apply readOnly_refl|].
  { intros x w' Hro'. by apply datacenter_worker_quiet. }
  rewrite Hcalls. split; [done|]. split; [done|]. split.
  { intros Hnone. apply GetClustersByRegion_nil in Hnone. congruence. }
  intros _. eexists. split; [done|].
  destruct (ParallelMapFrom_rel worker (readOnly svc orc w)
              (λ x d err, Datacenter.Name d = x
                          ∧ (x ∈ GetClustersByRegion (clusters svc) r →
                             Datacenter.Region d = r)
                          ∧ ∀ e, snapshot svc orc w x = Err e →
                                 Datacenter.Status d = DatacenterStatusError))
    with (items := GetClustersByRegion (clusters svc) r) (index := 0) (w := w)
    as [Hall _]; [|apply readOnly_refl|].
  { intros x w' Hro'. split; [|by apply datacenter_worker_quiet].
    unfold worker. rewrite valueOf_bind.
    destruct Hro' as (_ & _ & _ & _ & Hsnap).
    unfold getDatacenterInfo. rewrite valueOf_bind, worldOf_bind, GetNodes_eq.
    simpl. rewrite Hsnap.
    destruct (snapshot svc orc w x) as [nodes|e]; [|done]. simpl.
    destruct (countNodes nodes) as [NodesReady NodesDraining].
    assert (x ∈ GetClustersByRegion (clusters svc) r →
            match GetClusterRegion (clusters svc) x with
            | Ok region => region
            | Err _ => "unknown"
            end = r) as Hregion.
    { intros Hx. apply elem_of_GetClustersByRegion in Hx
        as (key & meta & Hkey & Hr & Hname).
      rewrite (Hkeyed key meta Hkey) in Hname. subst key.
      unfold GetClusterRegion. by rewrite Hkey. }
    destruct (ListJobs svc orc x) as [jobs|e].
    - destruct (countJobs jobs) as [JobsRunning JobsStopped]. simpl. done.
    - simpl. done. }
  split; [|split].
  - apply Forall2_fmap_eq. eapply Forall2_impl; [exact Hall|].
    by intros x d (Hn & _).
  - eapply Forall2_Forall_fmap; [exact Hall|]. apply Forall_forall.
    intros x Hx d (_ & Hr & _). by apply Hr.
  - eapply Forall2_Forall_fmap; [exact Hall|]. apply Forall_forall.
    intros x Hx d (Hn & _ & Herr) e. rewrite GetNodes_eq, Hn. simpl. apply Herr.
Qed.

Lemma Example_keyedByName : keyedByName (clusters Example.svc).
Proof.
  intros key meta. simpl. unfold Example.table. intros Hkey.
  destruct (decide (key = "dcA")) as [->|HA];
    [rewrite lookup_insert_eq in Hkey; by injection Hkey as <-|].
  rewrite lookup_insert_ne in Hkey by done.
  destruct (decide (key = "dcB")) as [->|HB];
    [rewrite lookup_insert_eq in Hkey; by injection Hkey as <-|].
  rewrite lookup_insert_ne in Hkey by done.
  destruct (decide (key = "dcC")) as [->|HC];
    [rewrite lookup_insert_eq in Hkey; by injection Hkey as <-|].
  rewrite lookup_insert_ne in Hkey by done. by rewrite lookup_empty in Hkey.
Qed.

(** [GetDatacentersByRegion] on the example table: region [us]. *)
Lemma GetDatacentersByRegion_entries_witness :
  keyedByName (clusters Example.svc)
  ∧ callsOf (GetDatacentersByRegion Example.svc Example.allGood "us" Example.fresh)
    = [].
Proof.
  split; [exact Example_keyedByName|].
  destruct (GetDatacentersByRegion_entries Example.svc Example.allGood "us"
              Example.fresh Example_keyedByName) as (Hcalls & _).
  exact Hcalls.
Defined.

(** [GetRegionDatacenters] never returns an error. For a region that has
    clusters it returns the view of [getRegionInfo], whose members are the
    clusters of the region in ascending order. For a region without
    clusters, a name no cluster carries included, it returns a region with
    no datacenters, no jobs and the status ["draining"], and touches
    nothing. *)
Theorem GetRegionDatacenters_never_fails (svc : Service) (orc : Oracle)
  (r : string) (w : World) :
  let out := GetRegionDatacenters svc orc r w in
  (∃ info, valueOf out = Ok info
           ∧ Region.Name info = r
           ∧ Datacenter.Name <$> Region.Datacenters info
             = GetClustersByRegion (clusters svc) r)
  ∧ callsOf out = []
  ∧ readOnly svc orc w (worldOf out)
  ∧ ((∀ key meta, clusters svc !! key = Some meta → region meta ≠ r) →
     out = (Ok (Region.mk r [] DatacenterStatusDraining 0 0 0), w, [])).
Proof.
  intros out. unfold out, GetRegionDatacenters.
  rewrite valueOf_bind, callsOf_bind, worldOf_bind.
  destruct (getRegionInfo_members svc orc r w) as (Herr & Hnames & _).
  destruct (getRegionInfo_quiet svc orc r w w (readOnly_refl _ _ _))
    as (Hro & Hcalls & Hname).
  rewrite Herr, Hcalls. simpl. split; [eauto|]. split; [done|]. split; [done|].
  intros Hnone. apply GetClustersByRegion_nil in Hnone.
  unfold bind, getRegionInfo, ParallelMap. rewrite Hnone. reflexivity.
Qed.

(** ** DrainAllNodesInRegion *)

Section drain_region.
Context (svc : Service) (orc : Oracle).

Lemma drainNode_eq c acc node w :
  drainNode svc orc c acc node w
  = (drainNodeCount svc orc c acc node, drainNodeEffect svc orc c node w,
     drainNodeCalls svc orc c node).
Proof.
  unfold drainNode, drainNodeCount, drainNodeEffect, drainNodeCalls.
  destruct (Node.Drain node); [done|]. cbn [negb]. unfold bind.
  rewrite SetNodeDrain_eq. by destruct (drainOutcome svc orc c (Node.ID node) true).
Qed.

Lemma drainNodes_eq c nodes acc w :
  foldM (drainNode svc orc c) nodes acc w
  = (foldl (drainNodeCount svc orc c) acc nodes,
     foldl (λ w x, drainNodeEffect svc orc c x w) w nodes,
     nodes ≫= drainNodeCalls svc orc c).
Proof.
  destruct (foldM_pure (drainNode svc orc c) (λ _, True)
              (drainNodeCount svc orc c) (drainNodeEffect svc orc c)
              (drainNodeCalls svc orc c)) with (l := nodes) (acc := acc) (w := w)
    as [Heq _]; [|done|done].
  intros acc' x w' _. split; [apply drainNode_eq | done].
Qed.

Lemma drainNodeEffect_frame c n w :
  let w' := drainNodeEffect svc orc c n w in
  cache w' = cache w ∧ etcd w' = etcd w ∧ amDrained w' = amDrained w
  ∧ reads w' = reads w
  ∧ ∀ C, C ≠ c → nomad w' !! C = nomad w !! C.
Proof.
  unfold drainNodeEffect. destruct (Node.Drain n); [done|].
  destruct (drainOutcome svc orc c (Node.ID n) true); [done|]. simpl.
  repeat split. intros C HC. unfold drain_in_table. by rewrite lookup_alter_ne.
Qed.

Lemma drainNodeEffects_frame c nodes w :
  let w' := foldl (λ w x, drainNodeEffect svc orc c x w) w nodes in
  cache w' = cache w ∧ etcd w' = etcd w ∧ amDrained w' = amDrained w
  ∧ reads w' = reads w
  ∧ ∀ C, C ≠ c → nomad w' !! C = nomad w !! C.
Proof.
  revert w. induction nodes as [|n nodes IH]; intros w; [done|].
  cbn [foldl]. destruct (IH (drainNodeEffect svc orc c n w)) as (-> & -> & -> & -> & Hn).
  destruct (drainNodeEffect_frame c n w) as (-> & -> & -> & -> & Hstep).
  repeat split. intros C HC. by rewrite (Hn C HC), (Hstep C HC).
Qed.

(** With the list of a cluster in the cache, writes to its nodes do not
    change what [GetNodes] answers. *)
Lemma snapshot_drainNodeEffects c nodes w dc :
  is_Some (cache w !! cacheKey c) →
  snapshot svc orc (foldl (λ w x, drainNodeEffect svc orc c x w) w nodes) dc
  = snapshot svc orc w dc.
Proof.
  intros [cached Hc].
  destruct (drainNodeEffects_frame c nodes w) as (Hcache & _ & _ & _ & Hn).
  unfold snapshot. rewrite Hcache.
  destruct (decide (dc = c)) as [->|Hne]; [by rewrite Hc|].
  by rewrite (Hn dc Hne).
Qed.

Lemma cacheFetched_cached dc w nodes :
  snapshot svc orc w dc = Ok nodes →
  cache (cacheFetched svc orc dc w) !! cacheKey dc = Some nodes.
Proof.
  intros Hs. unfold cacheFetched. rewrite Hs. unfold snapshot in Hs.
  destruct (cache w !! cacheKey dc) eqn:Hc; [congruence|].
  simpl. by rewrite lookup_insert_eq.
Qed.

Lemma drainCluster_eq w0 c w :
  (∀ dc, snapshot svc orc w dc = snapshot svc orc w0 dc) →
  drainCluster svc orc c w
  = (drainClusterResult svc orc w0 c, drainClusterEffect svc orc w0 c w,
     drainClusterCalls svc orc w0 c)
  ∧ ∀ dc, snapshot svc orc (drainClusterEffect svc orc w0 c w) dc
          = snapshot svc orc w0 dc.
Proof.
  intros Hinv.
  unfold drainCluster, drainClusterResult, drainClusterEffect, drainClusterCalls.
  unfold bind at 1. rewrite GetNodes_eq, Hinv.
  destruct (snapshot svc orc w0 c) as [nodes|e] eqn:Hs.
  - unfold bind. rewrite drainNodes_eq. simpl. rewrite app_nil_r.
    split; [done|]. intros dc. rewrite snapshot_drainNodeEffects.
    + by rewrite snapshot_cacheFetched.
    + exists nodes. apply cacheFetched_cached. by rewrite Hinv.
  - simpl. split; [|done]. f_equal. f_equal.
    unfold cacheFetched. rewrite Hinv, Hs. by destruct (cache w !! cacheKey c).
Qed.

Lemma drainClusters_eq w names index :
  ParallelMapFrom (drainCluster svc orc) index names w
  = (imap (λ j x, mkResult (drainClusterResult svc orc w x).1
                    (drainClusterResult svc orc w x).2 (index + j)) names,
     foldl (λ w' x, drainClusterEffect svc orc w x w') w names,
     names ≫= drainClusterCalls svc orc w).
Proof.
  destruct (ParallelMapFrom_pure (drainCluster svc orc)
              (λ w', ∀ dc, snapshot svc orc w' dc = snapshot svc orc w dc)
              (drainClusterResult svc orc w) (drainClusterEffect svc orc w)
              (drainClusterCalls svc orc w))
    with (items := names) (index := index) (w := w) as [Heq _]; [|done|done].
  intros x w' Hinv. by apply drainCluster_eq.
Qed.

Lemma collectDrainResult_errors results total errors :
  (foldl collectDrainResult (total, errors) results).2
  = errors ++ omap (λ r, (λ e, "cluster drain error: " +:+ e) <$> Error r) results.
Proof.
  revert total errors. induction results as [|r results IH]; intros total errors.
  - simpl. by rewrite app_nil_r.
  - cbn [foldl omap list_omap]. unfold collectDrainResult at 2.
    destruct (Error r) as [e|]; simpl; rewrite IH; [|done].
    by rewrite <- app_assoc.
Qed.

Lemma cacheDeletes_eq names w :
  foldM (λ _ clusterName, modify (set_cache (delete (cacheKey clusterName))))
    names tt w
  = (tt, foldl (λ w c, set_cache (delete (cacheKey c)) w) w names, []).
Proof.
  destruct (foldM_pure
              (λ (_ : unit) clusterName,
                 modify (set_cache (delete (cacheKey clusterName))))
              (λ _, True) (λ _ _, tt)
              (λ c w, set_cache (delete (cacheKey c)) w) (λ _, []))
    with (l := names) (acc := tt) (w := w) as [Heq _]; [|done|].
  { intros [] x w' _. done. }
  rewrite Heq. f_equal; [f_equal|].
  - clear. induction names as [|c names IH]; [done|]. simpl. apply IH.
  - clear. induction names as [|c names IH]; [done|]. by rewrite bind_cons, IH.
Qed.

Lemma cacheDeletes_frame names w :
  let w' := foldl (λ w c, set_cache (delete (cacheKey c)) w) w names in
  nomad w' = nomad w ∧ etcd w' = etcd w ∧ amDrained w' = amDrained w
  ∧ (∀ c, c ∈ names → cache w' !! cacheKey c = None)
  ∧ (∀ c, cache w !! cacheKey c = None → cache w' !! cacheKey c = None).
Proof.
  revert w. induction names as [|n names IH]; intros w.
  - simpl. repeat split; try done. intros c Hc. by apply elem_of_nil in Hc.
  - cbn [foldl]. destruct (IH (set_cache (delete (cacheKey n)) w))
      as (-> & -> & -> & Hin & Hkeep).
    repeat split; try done.
    + intros c Hc. apply elem_of_cons in Hc as [->|Hc]; [|by apply Hin].
      apply Hkeep. simpl. by rewrite lookup_delete_eq.
    + intros c Hc. apply Hkeep. simpl.
      destruct (decide (cacheKey n = cacheKey c)) as [->|Hne];
        [by rewrite lookup_delete_eq | by rewrite lookup_delete_ne].
Qed.


Lemma omap_imap_Error {T R} (f : string → string) (g : T → R * option string)
  (ix : nat → nat) (items : list T) :
  omap (λ r, f <$> Error r) (imap (λ j x, mkResult (g x).1 (g x).2 (ix j)) items)
  = omap (λ x, f <$> (g x).2) items.
Proof.
  revert ix. induction items as [|x items IH]; intros ix; [done|].
  cbn [imap omap list_omap]. cbn [Error].
  rewrite <- (IH (ix ∘ S)). by destruct ((g x).2).
Qed.

Lemma DrainAllNodesInRegion_eq r w :
  GetClustersByRegion (clusters svc) r ≠ [] →
  let names := GetClustersByRegion (clusters svc) r in
  let errors :=
    omap (λ c, (λ e, "cluster drain error: " +:+ e) <$> (drainClusterResult svc orc w c).2)
      names in
  DrainAllNodesInRegion svc orc r w
  = (if bool_decide (0 < length errors)
     then Some ("some drain operations failed: " +:+ fmtStrings errors)
     else None,
     foldl (λ w c, set_cache (delete (cacheKey c)) w)
       (foldl (λ w' x, drainClusterEffect svc orc w x w') w names) names,
     names ≫= drainClusterCalls svc orc w).
Proof.
  intros Hne names errors. unfold DrainAllNodesInRegion. fold names.
  rewrite bool_decide_eq_false_2
    by (intros Hlen; apply Hne; by apply nil_length_inv).
  unfold ParallelMap, bind. rewrite drainClusters_eq.
  pose proof (collectDrainResult_errors
    (imap (λ j x, mkResult (drainClusterResult svc orc w x).1
                    (drainClusterResult svc orc w x).2 (0 + j)) names) 0 []) as Herr.
  destruct (foldl collectDrainResult (0, []) _) as [totalDrained errs].
  simpl in Herr. rewrite cacheDeletes_eq.
  assert (errs = errors) as ->.
  { rewrite Herr. unfold errors.
    apply (omap_imap_Error (λ e, "cluster drain error: " +:+ e)
             (drainClusterResult svc orc w) (λ j, j)). }
  destruct (bool_decide (0 < length errors)); simpl; by rewrite !app_nil_r.
Qed.

End drain_region.

(** *** What the drains do to the node tables *)

Lemma apply_drain_ID id d n : Node.ID (apply_drain id d n) = Node.ID n.
Proof. unfold apply_drain. by destruct (streq (Node.ID n) id). Qed.

Lemma apply_drain_keeps_draining id n :
  Node.Drain n = true → Node.Drain (apply_drain id true n) = true.
Proof. unfold apply_drain. by destruct (streq (Node.ID n) id). Qed.

Lemma apply_drain_drains id n :
  Node.ID n = id → Node.Drain (apply_drain id true n) = true.
Proof. intros <-. unfold apply_drain. by rewrite streq_refl. Qed.

Lemma nodesOf_drain_in_table c id d w C :
  nodesOf (set_nomad (drain_in_table c id d) w) C
  = if decide (C = c) then apply_drain id d <$> nodesOf w C else nodesOf w C.
Proof.
  unfold nodesOf, drain_in_table. simpl. destruct (decide (C = c)) as [->|Hne].
  - rewrite lookup_alter_eq. by destruct (nomad w !! c).
  - by rewrite lookup_alter_ne.
Qed.

Lemma onlyDrained_refl w : onlyDrained w w.
Proof. intros c. apply Forall_Forall2_diag, Forall_forall. done. Qed.

Lemma onlyDrained_trans w1 w2 w3 :
  onlyDrained w1 w2 → onlyDrained w2 w3 → onlyDrained w1 w3.
Proof.
  intros H12 H23 c. specialize (H12 c). specialize (H23 c).
  revert H23. generalize (nodesOf w3 c).
  induction H12 as [|n1 n2 l1 l2 [Hid Hd] _ IH]; intros l3 H23.
  - inversion H23. constructor.
  - inversion H23 as [|? n3 ? l3' [Hid' Hd'] H23']; subst.
    constructor; [|by apply IH]. split; [congruence | auto].
Qed.

Lemma onlyDrained_same_nomad w w' : nomad w' = nomad w → onlyDrained w w'.
Proof.
  intros Heq c. unfold nodesOf. rewrite Heq.
  apply Forall_Forall2_diag, Forall_forall. done.
Qed.

Lemma onlyDrained_drain_in_table c id w :
  onlyDrained w (set_nomad (drain_in_table c id true) w).
Proof.
  intros C. rewrite nodesOf_drain_in_table. destruct (decide (C = c)) as [->|_].
  - apply Forall2_fmap_r, Forall_Forall2_diag, Forall_forall. intros n _.
    split; [apply apply_drain_ID | apply apply_drain_keeps_draining].
  - apply Forall_Forall2_diag, Forall_forall. done.
Qed.

Lemma onlyDrained_draining w w' c :
  onlyDrained w w' →
  Forall (λ n, Node.Drain n = true) (nodesOf w c) →
  Forall (λ n, Node.Drain n = true) (nodesOf w' c).
Proof.
  intros Hev Hall. specialize (Hev c).
  induction Hev as [|n n' l l' [_ Hd] _ IH]; [constructor|].
  apply Forall_cons in Hall as [Hn Hall]. constructor; [auto | by apply IH].
Qed.

Lemma onlyDrained_IDs w w' c :
  onlyDrained w w' → Node.ID <$> nodesOf w' c = Node.ID <$> nodesOf w c.
Proof.
  intros Hev. specialize (Hev c).
  induction Hev as [|n n' l l' [Hid _] _ IH]; [done|].
  rewrite !fmap_cons. by rewrite Hid, IH.
Qed.

Section drain_region_effect.
Context (svc : Service) (orc : Oracle).

Lemma onlyDrained_drainNodeEffect c n w :
  onlyDrained w (drainNodeEffect svc orc c n w).
Proof.
  unfold drainNodeEffect. destruct (Node.Drain n); [apply onlyDrained_refl|].
  destruct (drainOutcome svc orc c (Node.ID n) true); [apply onlyDrained_refl|].
  apply onlyDrained_drain_in_table.
Qed.

Lemma onlyDrained_drainNodeEffects c nodes w :
  onlyDrained w (foldl (λ w x, drainNodeEffect svc orc c x w) w nodes).
Proof.
  revert w. induction nodes as [|n nodes IH]; intros w; [apply onlyDrained_refl|].
  cbn [foldl]. eapply onlyDrained_trans; [apply onlyDrained_drainNodeEffect | apply IH].
Qed.

Lemma onlyDrained_drainClusterEffect w0 c w :
  onlyDrained w (drainClusterEffect svc orc w0 c w).
Proof.
  unfold drainClusterEffect.
  destruct (snapshot svc orc w0 c); [|apply onlyDrained_refl].
  eapply onlyDrained_trans; [|apply onlyDrained_drainNodeEffects].
  apply onlyDrained_same_nomad, nomad_cacheFetched.
Qed.

Lemma onlyDrained_drainClusterEffects w0 names w :
  onlyDrained w (foldl (λ w' x, drainClusterEffect svc orc w0 x w') w names).
Proof.
  revert w. induction names as [|c names IH]; intros w; [apply onlyDrained_refl|].
  cbn [foldl]. eapply onlyDrained_trans; [apply onlyDrained_drainClusterEffect | apply IH].
Qed.

(** When every write goes through, the node loop over the list [nodes]
    leaves draining every node of the table that was draining or has the ID
    of a node of [nodes] that was not. *)
Lemma drainNodeEffects_drained c nodes w :
  (∀ id, drainOutcome svc orc c id true = None) →
  Forall (λ n', Node.Drain n' = true
                ∨ ∃ n, n ∈ nodes ∧ Node.Drain n = false ∧ Node.ID n = Node.ID n')
    (nodesOf w c) →
  Forall (λ n', Node.Drain n' = true)
    (nodesOf (foldl (λ w x, drainNodeEffect svc orc c x w) w nodes) c).
Proof.
  intros Hok. revert w. induction nodes as [|n nodes IH]; intros w Hall.
  - simpl. eapply Forall_impl; [exact Hall|]. intros n' [Hd|(n & Hin & _)]; [done|].
    by apply elem_of_nil in Hin.
  - cbn [foldl]. apply IH. unfold drainNodeEffect.
    destruct (Node.Drain n) eqn:Hd.
    + eapply Forall_impl; [exact Hall|].
      intros n' [Hd'|(m & Hin & Hm & Hid)]; [by left|].
      apply elem_of_cons in Hin as [->|Hin]; [congruence|]. right. eauto.
    + rewrite Hok, nodesOf_drain_in_table. rewrite decide_True by done.
      apply Forall_fmap. eapply Forall_impl; [exact Hall|].
      intros n' [Hd'|(m & Hin & Hm & Hid)]; simpl.
      * left. by apply apply_drain_keeps_draining.
      * apply elem_of_cons in Hin as [->|Hin].
        -- left. by apply apply_drain_drains.
        -- right. exists m. by rewrite apply_drain_ID.
Qed.

Lemma drainClusterEffect_drained w0 c w :
  (∀ id, drainOutcome svc orc c id true = None) →
  snapshot svc orc w0 c = Ok (nodesOf w0 c) →
  onlyDrained w0 w →
  Forall (λ n', Node.Drain n' = true)
    (nodesOf (drainClusterEffect svc orc w0 c w) c).
Proof.
  intros Hok Hs Hev. unfold drainClusterEffect. rewrite Hs.
  apply drainNodeEffects_drained; [done|].
  replace (nodesOf (cacheFetched svc orc c w) c) with (nodesOf w c)
    by (unfold nodesOf; by rewrite nomad_cacheFetched).
  clear Hs. specialize (Hev c). induction Hev as [|n n' l l' [Hid Hd] _ IH]; [constructor|].
  constructor.
  - destruct (Node.Drain n) eqn:Hdn; [left; auto|].
    right. exists n. split; [by left | done].
  - eapply Forall_impl; [exact IH|].
    intros m [?|(m' & Hin & ? & ?)]; [by left|]. right. exists m'.
    split; [by right | done].
Qed.

Lemma drainClusterEffects_drained w0 names w c :
  (∀ id, drainOutcome svc orc c id true = None) →
  snapshot svc orc w0 c = Ok (nodesOf w0 c) →
  onlyDrained w0 w →
  c ∈ names →
  Forall (λ n', Node.Drain n' = true)
    (nodesOf (foldl (λ w' x, drainClusterEffect svc orc w0 x w') w names) c).
Proof.
  intros Hok Hs. revert w. induction names as [|x names IH]; intros w Hev Hin;
    [by apply elem_of_nil in Hin|].
  cbn [foldl].
  assert (onlyDrained w0 (drainClusterEffect svc orc w0 x w)) as Hev'
    by (eapply onlyDrained_trans; [exact Hev | apply onlyDrained_drainClusterEffect]).
  destruct (decide (c = x)) as [<-|Hne].
  - eapply onlyDrained_draining; [apply onlyDrained_drainClusterEffects|].
    by apply drainClusterEffect_drained.
  - apply IH; [done|]. apply elem_of_cons in Hin as [?|?]; [congruence | done].
Qed.

Lemma clusterAnswers_snapshot w c :
  cacheCoherent w → clusterAnswers svc orc c →
  snapshot svc orc w c = Ok (nodesOf w c)
  ∧ ∀ id, drainOutcome svc orc c id true = None.
Proof.
  intros Hcoh ([meta Hmeta] & Hlist & Hupd). split.
  - unfold snapshot, nodesOf. destruct (cache w !! cacheKey c) as [nodes|] eqn:Hc.
    + by rewrite (Hcoh c nodes Hc).
    + by rewrite Hmeta, Hlist.
  - intros id. unfold drainOutcome. by rewrite Hmeta, Hupd.
Qed.

End drain_region_effect.


(** [DrainAllNodesInRegion] returns an error in two cases only: the region
    has no cluster, or the node list of one of its clusters cannot be read.
    A node write that fails is logged and changes nothing in the result. *)
Theorem DrainAllNodesInRegion_error_iff (svc : Service) (orc : Oracle)
  (r : string) (w : World) :
  valueOf (DrainAllNodesInRegion svc orc r w) = None
  ↔ GetClustersByRegion (clusters svc) r ≠ []
    ∧ ∀ c, c ∈ GetClustersByRegion (clusters svc) r →
           ∃ nodes, valueOf (GetNodes svc orc c w) = Ok nodes.
Proof.
  destruct (decide (GetClustersByRegion (clusters svc) r = [])) as [Hnil|Hne].
  { unfold DrainAllNodesInRegion. rewrite Hnil. simpl. split; [done|]. by intros [? _]. }
  rewrite (DrainAllNodesInRegion_eq svc orc r w Hne). simpl.
  set (names := GetClustersByRegion (clusters svc) r).
  assert (omap (λ c, (λ e, "cluster drain error: " +:+ e)
                     <$> (drainClusterResult svc orc w c).2) names = []
          ↔ ∀ c, c ∈ names → ∃ nodes, valueOf (GetNodes svc orc c w) = Ok nodes)
    as Herrors.
  { clear. induction names as [|c names IH].
    - split; [|done]. intros _ c Hc. by apply elem_of_nil in Hc.
    - cbn [omap list_omap]. unfold drainClusterResult at 1.
      setoid_rewrite GetNodes_eq. simpl. setoid_rewrite GetNodes_eq in IH.
      simpl in IH.
      destruct (snapshot svc orc w c) as [nodes|e] eqn:Hs; simpl.
      + rewrite IH. split.
        * intros Hall c' Hc'. apply elem_of_cons in Hc' as [->|Hc']; eauto.
        * intros Hall c' Hc'. apply Hall. by right.
      + split; [done|]. intros Hall.
        destruct (Hall c) as [nodes Hn]; [by left|]. congruence. }
  split.
  - intros Hv. split; [done|]. apply Herrors.
    destruct (omap _ names) as [|e errors]; [done|].
    by rewrite bool_decide_eq_true_2 in Hv by (simpl; lia).
  - intros [_ Hall]. apply Herrors in Hall. rewrite Hall. done.
Qed.

(** [DrainAllNodesInRegion], when everything answers. Let the cache agree
    with the clusters and let every cluster of the region answer (its node
    list can be read, its servers accept every drain update). Then the call
    returns nil and afterwards every node of every cluster of the region is
    draining; the tables hold the same nodes as before. *)
Theorem DrainAllNodesInRegion_drains_all (svc : Service) (orc : Oracle)
  (r : string) (w : World) :
  cacheCoherent w →
  GetClustersByRegion (clusters svc) r ≠ [] →
  (∀ c, c ∈ GetClustersByRegion (clusters svc) r → clusterAnswers svc orc c) →
  let out := DrainAllNodesInRegion svc orc r w in
  valueOf out = None
  ∧ (∀ c, c ∈ GetClustersByRegion (clusters svc) r →
          Forall (λ n, Node.Drain n = true) (nodesOf (worldOf out) c))
  ∧ (∀ c, Node.ID <$> nodesOf (worldOf out) c = Node.ID <$> nodesOf w c).
Proof.
  intros Hcoh Hne Hanswers out. unfold out.
  rewrite (DrainAllNodesInRegion_eq svc orc r w Hne). simpl.
  set (names := GetClustersByRegion (clusters svc) r) in *.
  destruct (cacheDeletes_frame names
              (foldl (λ w' x, drainClusterEffect svc orc w x w') w names))
    as (Hn & _).
  split; [|split].
  - assert (omap (λ c, (λ e, "cluster drain error: " +:+ e)
                       <$> (drainClusterResult svc orc w c).2) names = []) as ->;
      [|done].
    assert (Forall (clusterAnswers svc orc) names) as Hall
      by (by apply Forall_forall).
    clear -Hall Hcoh. induction Hall as [|c names Hc _ IH]; [done|].
    cbn [omap list_omap]. unfold drainClusterResult at 1.
    destruct (clusterAnswers_snapshot svc orc w c Hcoh Hc) as [-> _]. simpl.
    exact IH.
  - intros c Hc. unfold nodesOf. rewrite Hn.
    destruct (clusterAnswers_snapshot svc orc w c Hcoh (Hanswers c Hc)) as [Hs Hok].
    apply drainClusterEffects_drained; try done. apply onlyDrained_refl.
  - intros c. apply onlyDrained_IDs.
    eapply onlyDrained_trans; [apply onlyDrained_drainClusterEffects|].
    by apply onlyDrained_same_nomad.
Qed.

Lemma Example_allGood_answers c :
  is_Some (clusters Example.svc !! c) → clusterAnswers Example.svc Example.allGood c.
Proof. intros Hc. by repeat split. Qed.

Lemma Example_us : GetClustersByRegion (clusters Example.svc) "us" = ["dcA"; "dcC"].
Proof. by vm_compute. Qed.

(** [DrainAllNodesInRegion] of region [us] on the example, every node ready
    and every collaborator answering. *)
Lemma DrainAllNodesInRegion_drains_all_witness :
  cacheCoherent Example.fresh
  ∧ valueOf (DrainAllNodesInRegion Example.svc Example.allGood "us" Example.fresh)
    = None.
Proof.
  assert (cacheCoherent Example.fresh) as Hcoh.
  { intros dc nodes Hc. simpl in Hc. by rewrite lookup_empty in Hc. }
  split; [exact Hcoh|].
  destruct (DrainAllNodesInRegion_drains_all Example.svc Example.allGood "us"
              Example.fresh Hcoh) as (Hnil & _).
  - by rewrite Example_us.
  - intros c Hc. apply Example_allGood_answers. rewrite Example_us in Hc.
    apply elem_of_cons in Hc as [->|Hc]; [by eexists|].
    apply list_elem_of_singleton in Hc as ->. by eexists.
  - exact Hnil.
Defined.

(** ** EnsureSingleActiveDatacenter *)

Section startup_sync.
Context (svc : Service) (orc : Oracle).

Lemma fetchClusterWithRegion_eq w0 c w :
  (∀ dc, snapshot svc orc w dc = snapshot svc orc w0 dc) →
  fetchClusterWithRegion svc orc c w
  = ((fetchedWithRegion svc orc w0 c, None), cacheFetched svc orc c w, []).
Proof.
  intros Hinv. unfold fetchClusterWithRegion, fetchedWithRegion, bind.
  rewrite GetNodes_eq, Hinv.
  destruct (snapshot svc orc w0 c) as [nodes|e]; [|done].
  by destruct (GetClusterRegion (clusters svc) c).
Qed.

Lemma fetchClustersWithRegion_eq w :
  ParallelMapFrom (fetchClusterWithRegion svc orc) 0 (GetClusterNames (clusters svc)) w
  = (fetchedResults svc orc w,
     foldl (λ w' c, cacheFetched svc orc c w') w (GetClusterNames (clusters svc)),
     [])
  ∧ readOnly svc orc w
      (foldl (λ w' c, cacheFetched svc orc c w') w (GetClusterNames (clusters svc))).
Proof.
  destruct (ParallelMapFrom_pure (fetchClusterWithRegion svc orc)
              (readOnly svc orc w)
              (λ c, (fetchedWithRegion svc orc w c, None))
              (cacheFetched svc orc) (λ _, []))
    with (items := GetClusterNames (clusters svc)) (index := 0) (w := w)
    as [Heq Hro]; [|apply readOnly_refl|].
  { intros c w' Hro. split; [|by apply readOnly_cacheFetched].
    apply fetchClusterWithRegion_eq. by destruct Hro as (_ & _ & _ & _ & ?). }
  split; [|done]. rewrite Heq. f_equal.
  generalize (GetClusterNames (clusters svc)). intros l.
  induction l as [|c l IH]; [done|]. by rewrite bind_cons, IH.
Qed.

Lemma drainForSync_eq ntd w :
  drainForSync svc orc ntd w
  = (syncResult svc orc ntd, syncEffect svc orc ntd w, [syncCall svc orc ntd]).
Proof.
  unfold drainForSync, syncResult, syncEffect, syncCall, bind.
  rewrite SetNodeDrain_eq.
  by destruct (drainOutcome svc orc (nodeToDrain.clusterName ntd)
                 (Node.ID (nodeToDrain.node ntd)) true).
Qed.

Lemma syncEffect_frame ntd w :
  cache (syncEffect svc orc ntd w) = cache w
  ∧ etcd (syncEffect svc orc ntd w) = etcd w
  ∧ amDrained (syncEffect svc orc ntd w) = amDrained w
  ∧ onlyDrained w (syncEffect svc orc ntd w).
Proof.
  unfold syncEffect. destruct (drainOutcome svc orc _ _ true).
  - repeat split. apply onlyDrained_refl.
  - repeat split. apply onlyDrained_drain_in_table.
Qed.

Lemma syncEffects_frame ntds w :
  let w' := foldl (λ w x, syncEffect svc orc x w) w ntds in
  etcd w' = etcd w ∧ amDrained w' = amDrained w ∧ onlyDrained w w'.
Proof.
  revert w. induction ntds as [|ntd ntds IH]; intros w.
  { repeat split. apply onlyDrained_refl. }
  cbn [foldl]. destruct (IH (syncEffect svc orc ntd w)) as (-> & -> & Hev).
  destruct (syncEffect_frame ntd w) as (_ & -> & -> & Hstep).
  repeat split. by eapply onlyDrained_trans.
Qed.

Lemma drainRegionForSync_spec m results region w :
  let ntds := default [] (m !! region)
              ≫= (λ clusterName, nodesOfCluster clusterName results) in
  let out := drainRegionForSync svc orc m results tt region w in
  callsOf out = syncCall svc orc <$> ntds
  ∧ etcd (worldOf out) = etcd w
  ∧ amDrained (worldOf out) = amDrained w
  ∧ onlyDrained w (worldOf out).
Proof.
  intros ntds out. unfold out, drainRegionForSync. fold ntds.
  unfold ParallelMap.
  destruct (ParallelMapFrom_pure (drainForSync svc orc) (λ _, True)
              (syncResult svc orc) (syncEffect svc orc)
              (λ ntd, [syncCall svc orc ntd]))
    with (items := ntds) (index := 0) (w := w) as [Heq _]; [|done|].
  { intros x w' _. split; [apply drainForSync_eq | done]. }
  unfold bind. rewrite Heq, cacheDeletes_eq. unfold callsOf, worldOf. cbn [fst snd].
  rewrite app_nil_r.
  match goal with
  | |- context [foldl (λ w c, set_cache (delete (cacheKey c)) w) ?W ?names] =>
      destruct (cacheDeletes_frame names W) as (Hn & -> & -> & _)
  end.
  destruct (syncEffects_frame ntds w) as (-> & -> & Hev).
  split; [|split; [done|split; [done|]]].
  - clear. induction ntds as [|x l IH]; [done|]. by rewrite bind_cons, fmap_cons, IH.
  - eapply onlyDrained_trans; [exact Hev|]. by apply onlyDrained_same_nomad.
Qed.

Lemma drainRegionsForSync_spec m results regions w :
  let out := foldM (drainRegionForSync svc orc m results) regions tt w in
  callsOf out
  = regions ≫= (λ region,
      syncCall svc orc
      <$> (default [] (m !! region)
           ≫= (λ clusterName, nodesOfCluster clusterName results)))
  ∧ etcd (worldOf out) = etcd w
  ∧ amDrained (worldOf out) = amDrained w
  ∧ onlyDrained w (worldOf out).
Proof.
  revert w. induction regions as [|region regions IH]; intros w.
  { simpl. repeat split. apply onlyDrained_refl. }
  cbn [foldM]. cbv zeta. rewrite callsOf_bind, worldOf_bind, bind_cons.
  destruct (drainRegionForSync_spec m results region w) as (Hc & He & Ha & Hev).
  cbv zeta in Hc, He, Ha, Hev.
  assert (valueOf (drainRegionForSync svc orc m results tt region w) = tt) as ->
    by (by destruct (valueOf _)).
  destruct (IH (worldOf (drainRegionForSync svc orc m results tt region w)))
    as (Hc' & He' & Ha' & Hev'). cbv zeta in Hc', He', Ha', Hev'.
  rewrite Hc, Hc', He', Ha', He, Ha. repeat split.
  by eapply onlyDrained_trans.
Qed.

Lemma EnsureSingleActiveDatacenter_eq rangeOrder w :
  let w1 := foldl (λ w' c, cacheFetched svc orc c w') w
              (GetClusterNames (clusters svc)) in
  let m := activeByRegion svc orc w in
  let out := EnsureSingleActiveDatacenter svc orc rangeOrder w in
  valueOf out = None
  ∧ readOnly svc orc w w1
  ∧ (size m ≤ 1 → worldOf out = w1 ∧ callsOf out = [])
  ∧ (1 < size m →
     callsOf out
     = drop 1 (rangeOrder m)
       ≫= (λ region, syncCall svc orc <$> nodesToDrainIn svc orc w region))
  ∧ etcd (worldOf out) = etcd w
  ∧ amDrained (worldOf out) = amDrained w
  ∧ onlyDrained w (worldOf out).
Proof.
  intros w1 m out. destruct (fetchClustersWithRegion_eq w) as [Hfetch Hro].
  fold w1 in Hfetch, Hro.
  assert (out
          = (if bool_decide (size m ≤ 1) then ret None
             else
               (foldM (drainRegionForSync svc orc m (fetchedResults svc orc w))
                  (drop 1 (rangeOrder m)) tt ;;;
                ret None)) w1) as ->.
  { unfold out, EnsureSingleActiveDatacenter, ParallelMap.
    unfold bind at 1. rewrite Hfetch. fold (activeByRegion svc orc w). fold m.
    by destruct ((if bool_decide (size m ≤ 1) then ret None
                  else
                    (foldM (drainRegionForSync svc orc m (fetchedResults svc orc w))
                       (drop 1 (rangeOrder m)) tt ;;;
                     ret None)) w1) as [[b w2] c2]. }
  destruct Hro as (Hn & He & Ha & Hr & Hs).
  assert (onlyDrained w w1) as Hev1 by (by apply onlyDrained_same_nomad).
  destruct (bool_decide (size m ≤ 1)) eqn:Hsize.
  - apply bool_decide_eq_true in Hsize. simpl.
    split; [done|]. split; [done|]. split; [done|]. split; [lia|]. done.
  - apply bool_decide_eq_false in Hsize.
    destruct (drainRegionsForSync_spec m (fetchedResults svc orc w)
                (drop 1 (rangeOrder m)) w1) as (Hc & He' & Ha' & Hev).
    cbv zeta in Hc, He', Ha', Hev.
    rewrite valueOf_bind, callsOf_bind, worldOf_bind. simpl. rewrite app_nil_r.
    rewrite Hc, He', Ha', He, Ha.
    split; [done|]. split; [done|]. split; [lia|]. split; [done|].
    split; [done|]. split; [done|]. by eapply onlyDrained_trans.
Qed.

End startup_sync.

Lemma hasReadyNodes_true nodes :
  hasReadyNodes nodes = true ↔ ∃ n, n ∈ nodes ∧ Node.IsReady n = true.
Proof.
  unfold hasReadyNodes. rewrite existsb_exists. split.
  - intros (n & Hin & Hr). exists n. split; [by apply list_elem_of_In | done].
  - intros (n & Hin & Hr). exists n. split; [by apply list_elem_of_In | done].
Qed.

(** The grouping loop, region by region. *)
Lemma groupActive_step m0 res r :
  groupActive m0 res !! r
  = if decide (activeIn r res)
    then Some (default [] (m0 !! r)
               ++ [clusterNodesWithRegion.clusterName (Value res)])
    else m0 !! r.
Proof.
  unfold groupActive. destruct (decide (activeIn r res)) as [(He & Hr & <-)|Hnot].
  - by rewrite He, Hr, lookup_insert_eq.
  - destruct (clusterNodesWithRegion.err (Value res)) eqn:He; [done|].
    destruct (hasReadyNodes _) eqn:Hr; [|done].
    rewrite lookup_insert_ne; [done|]. intros Heq. apply Hnot. by repeat split.
Qed.

Lemma groupActive_lookup results m0 r :
  foldl groupActive m0 results !! r
  = match filter (activeIn r) results with
    | [] => m0 !! r
    | active =>
        Some (default [] (m0 !! r)
              ++ ((λ res, clusterNodesWithRegion.clusterName (Value res)) <$> active))
    end.
Proof.
  revert m0. induction results as [|res results IH]; intros m0; [done|].
  cbn [foldl]. rewrite IH, groupActive_step.
  destruct (decide (activeIn r res)) as [Hact|Hnot].
  - rewrite filter_cons_True by done. simpl.
    destruct (filter _ results) as [|a l]; [done|].
    by rewrite <- app_assoc.
  - by rewrite filter_cons_False by done.
Qed.

Section startup_sync_facts.
Context (svc : Service) (orc : Oracle).

Lemma fetchedWithRegion_clusterName w c :
  clusterNodesWithRegion.clusterName (fetchedWithRegion svc orc w c) = c.
Proof.
  unfold fetchedWithRegion. destruct (snapshot svc orc w c); [|done].
  by destruct (GetClusterRegion (clusters svc) c).
Qed.

Lemma fetchedWithRegion_ok w c :
  clusterNodesWithRegion.err (fetchedWithRegion svc orc w c) = None
  ↔ ∃ nodes meta, snapshot svc orc w c = Ok nodes
                  ∧ clusters svc !! c = Some meta
                  ∧ fetchedWithRegion svc orc w c
                    = clusterNodesWithRegion.mk c nodes (region meta) None.
Proof.
  unfold fetchedWithRegion, GetClusterRegion. split.
  - destruct (snapshot svc orc w c) as [nodes|e]; [|done].
    destruct (clusters svc !! c) as [meta|]; [|done]. eauto.
  - intros (nodes & meta & -> & -> & _). done.
Qed.

Lemma elem_of_fetchedResults w res :
  res ∈ fetchedResults svc orc w
  → ∃ c, c ∈ GetClusterNames (clusters svc)
         ∧ Value res = fetchedWithRegion svc orc w c.
Proof.
  unfold fetchedResults. intros Hin.
  apply elem_of_lookup_imap in Hin as (j & c & -> & Hc).
  exists c. split; [by eapply list_elem_of_lookup_2 | done].
Qed.

Lemma fetchedResults_elem w c :
  c ∈ GetClusterNames (clusters svc) →
  ∃ j, mkResult (fetchedWithRegion svc orc w c) None j ∈ fetchedResults svc orc w.
Proof.
  intros Hin. apply list_elem_of_lookup in Hin as [j Hj]. exists j.
  unfold fetchedResults. apply elem_of_lookup_imap. eauto.
Qed.

(** The regions of [activeDatacentersByRegion], and the datacenters listed
    under each. *)
Lemma activeByRegion_lookup w r l :
  activeByRegion svc orc w !! r = Some l →
  l ≠ []
  ∧ ∀ c, c ∈ l ↔ ∃ meta nodes, clusters svc !! c = Some meta ∧ region meta = r
                               ∧ snapshot svc orc w c = Ok nodes
                               ∧ hasReadyNodes nodes = true.
Proof.
  unfold activeByRegion. rewrite groupActive_lookup, lookup_empty.
  destruct (filter (activeIn r) (fetchedResults svc orc w)) as [|a active] eqn:Hf;
    [done|].
  intros Hl.
  assert (l = (λ res, clusterNodesWithRegion.clusterName (Value res))
              <$> filter (activeIn r) (fetchedResults svc orc w)) as ->
    by (rewrite Hf; by injection Hl as <-).
  split; [by rewrite Hf|]. clear Hf Hl. intros c.
  rewrite list_elem_of_fmap. split.
  - intros (res & -> & Hin). apply list_elem_of_filter in Hin as [(He & Hr & Hreg) Hin].
    apply elem_of_fetchedResults in Hin as (c & Hc & Hv). rewrite Hv in *.
    rewrite fetchedWithRegion_clusterName.
    apply fetchedWithRegion_ok in He as (nodes & meta & Hs & Hm & Heq).
    rewrite Heq in Hr, Hreg. simpl in *. eauto 6.
  - intros (meta & nodes & Hm & Hreg & Hs & Hr).
    destruct (fetchedResults_elem w c) as [j Hj].
    { apply elem_of_GetClusterNames. eauto. }
    exists (mkResult (fetchedWithRegion svc orc w c) None j).
    simpl. rewrite fetchedWithRegion_clusterName. split; [done|].
    apply list_elem_of_filter. split; [|done].
    unfold activeIn, fetchedWithRegion, GetClusterRegion. simpl.
    rewrite Hs, Hm. done.
Qed.

Lemma activeByRegion_is_Some w r :
  is_Some (activeByRegion svc orc w !! r)
  ↔ ∃ c meta nodes, clusters svc !! c = Some meta ∧ region meta = r
                    ∧ snapshot svc orc w c = Ok nodes
                    ∧ hasReadyNodes nodes = true.
Proof.
  split.
  - intros [l Hl]. destruct (activeByRegion_lookup w r l Hl) as [Hne Hiff].
    destruct l as [|c l]; [done|]. destruct (proj1 (Hiff c)) as (meta & nodes & ?);
      [by left|]. eauto.
  - intros (c & meta & nodes & Hm & Hreg & Hs & Hr).
    unfold activeByRegion. rewrite groupActive_lookup, lookup_empty.
    destruct (fetchedResults_elem w c) as [j Hj].
    { apply elem_of_GetClusterNames. eauto. }
    assert (mkResult (fetchedWithRegion svc orc w c) None j
            ∈ filter (activeIn r) (fetchedResults svc orc w)) as Hin.
    { apply list_elem_of_filter. split; [|done].
      unfold activeIn, fetchedWithRegion, GetClusterRegion. simpl.
      rewrite Hs, Hm. done. }
    destruct (filter _ _) as [|a l]; [by apply elem_of_nil in Hin|]. by eexists.
Qed.

Lemma nodesOfCluster_imap w c
  (f : nat → string → Result clusterNodesWithRegion.t) names :
  (∀ j c0, Value (f j c0) = fetchedWithRegion svc orc w c0) →
  nodesOfCluster c (imap f names)
  = if decide (c ∈ names
               ∧ clusterNodesWithRegion.err (fetchedWithRegion svc orc w c) = None)
    then nodeToDrain.mk c
         <$> filter (λ n, Node.IsReady n = true)
               (clusterNodesWithRegion.nodes (fetchedWithRegion svc orc w c))
    else [].
Proof.
  revert f. induction names as [|c0 names IH]; intros f Hf.
  { rewrite decide_False; [done|]. intros [Hin _]. by apply elem_of_nil in Hin. }
  cbn [imap nodesOfCluster]. rewrite Hf, fetchedWithRegion_clusterName.
  rewrite (IH (f ∘ S)) by (intros j c1; apply Hf).
  destruct (decide (c0 = c)) as [->|Hne].
  - rewrite streq_refl. cbn [andb].
    destruct (decide (clusterNodesWithRegion.err (fetchedWithRegion svc orc w c)
                      = None)) as [He|He].
    + rewrite bool_decide_eq_true_2 by done.
      rewrite (decide_True (P := c ∈ c :: names ∧ _)) by (split; [by left | done]).
      done.
    + rewrite bool_decide_eq_false_2 by done.
      rewrite !decide_False; [done| |]; by intros [_ ?].
  - apply streq_false in Hne as Hs. rewrite Hs. cbn [andb].
    destruct (decide (c ∈ names ∧ _)) as [[Hin He]|Hnot].
    + rewrite decide_True; [done|]. split; [by right | done].
    + rewrite decide_False; [done|]. intros [Hin He]. apply Hnot.
      apply elem_of_cons in Hin as [?|?]; [congruence | done].
Qed.

Lemma elem_of_nodesToDrainIn w r ntd :
  ntd ∈ nodesToDrainIn svc orc w r
  ↔ ∃ meta nodes, clusters svc !! nodeToDrain.clusterName ntd = Some meta
                  ∧ region meta = r
                  ∧ snapshot svc orc w (nodeToDrain.clusterName ntd) = Ok nodes
                  ∧ nodeToDrain.node ntd ∈ nodes
                  ∧ Node.IsReady (nodeToDrain.node ntd) = true.
Proof.
  unfold nodesToDrainIn. rewrite list_elem_of_bind. unfold fetchedResults.
  split.
  - intros (c & Hntd & Hc). rewrite (nodesOfCluster_imap w c) in Hntd by done.
    destruct (decide _) as [[Hin He]|]; [|by apply elem_of_nil in Hntd].
    apply list_elem_of_fmap in Hntd as (n & -> & Hn).
    apply list_elem_of_filter in Hn as [Hready Hn]. simpl.
    apply fetchedWithRegion_ok in He as (nodes & meta & Hs & Hm & Heq).
    rewrite Heq in Hn. simpl in Hn.
    destruct (activeByRegion svc orc w !! r) as [l|] eqn:Hl;
      [|by apply elem_of_nil in Hc].
    simpl in Hc. apply (activeByRegion_lookup w r l Hl) in Hc
      as (meta' & nodes' & Hm' & Hreg & _).
    exists meta, nodes. repeat split; try done. congruence.
  - intros (meta & nodes & Hm & Hreg & Hs & Hn & Hready).
    destruct ntd as [c n]. simpl in *. exists c.
    assert (is_Some (activeByRegion svc orc w !! r)) as [l Hl].
    { apply activeByRegion_is_Some. exists c, meta, nodes.
      repeat split; try done. apply hasReadyNodes_true. eauto. }
    rewrite Hl. simpl. split.
    + rewrite (nodesOfCluster_imap w c) by done.
      assert (fetchedWithRegion svc orc w c
              = clusterNodesWithRegion.mk c nodes (region meta) None) as Heq.
      { unfold fetchedWithRegion, GetClusterRegion. by rewrite Hs, Hm. }
      rewrite decide_True.
      * apply list_elem_of_fmap. exists n. split; [done|].
        apply list_elem_of_filter. split; [done|]. by rewrite Heq.
      * split; [apply elem_of_GetClusterNames; eauto | by rewrite Heq].
    + apply (activeByRegion_lookup w r l Hl). exists meta, nodes.
      repeat split; try done. apply hasReadyNodes_true. eauto.
Qed.

End startup_sync_facts.

Lemma map_size_le_1 (m : gmap string (list string)) :
  size m ≤ 1 ↔ ∀ k1 k2, is_Some (m !! k1) → is_Some (m !! k2) → k1 = k2.
Proof.
  rewrite <- length_map_to_list. split.
  - intros Hlen k1 k2 [v1 H1] [v2 H2].
    destruct (decide (k1 = k2)) as [|Hne]; [done|]. exfalso.
    assert ([(k1, v1); (k2, v2)] ⊆+ map_to_list m) as Hsub.
    { apply NoDup_submseteq.
      - apply NoDup_cons. split; [|apply NoDup_singleton].
        intros Hin. apply list_elem_of_singleton in Hin. congruence.
      - intros x Hx. apply elem_of_cons in Hx as [->|Hx];
          [by apply elem_of_map_to_list|].
        apply list_elem_of_singleton in Hx as ->. by apply elem_of_map_to_list. }
    apply submseteq_length in Hsub. simpl in Hsub. lia.
  - intros Hkeys. pose proof (NoDup_fst_map_to_list m) as Hnd.
    destruct (map_to_list m) as [|[k1 v1] [|[k2 v2] rest]] eqn:Hl; simpl; try lia.
    exfalso. assert (k1 = k2) as ->.
    { apply Hkeys.
      - exists v1. apply elem_of_map_to_list. rewrite Hl. by left.
      - exists v2. apply elem_of_map_to_list. rewrite Hl. right. by left. }
    rewrite !fmap_cons in Hnd. simpl in Hnd.
    apply NoDup_cons in Hnd as [Hnin _]. apply Hnin. by left.
Qed.

Lemma rangesOver_keyOrder m : rangesOver (Example8.keyOrder m) m.
Proof.
  unfold rangesOver, Example8.keyOrder. split; [apply NoDup_fst_map_to_list|].
  intros k. rewrite list_elem_of_fmap. split.
  - intros [[k' v] [-> Hin]]. apply elem_of_map_to_list in Hin. by exists v.
  - intros [v Hv]. exists (k, v). split; [done|]. by apply elem_of_map_to_list.
Qed.

(** [EnsureSingleActiveDatacenter] only drains, and only ready nodes: it
    returns nil; every call it issues is a [SetNodeDrain(cluster, id, true)]
    for a node that [GetNodes] listed as ready (not draining and eligible) in
    a configured cluster. It never undrains a node, never writes the etcd
    key and leaves [amDrained] alone; no node appears or disappears. This
    holds for every order in which the region map is ranged over. *)
Theorem EnsureSingleActiveDatacenter_only_drains (svc : Service) (orc : Oracle)
  (rangeOrder : gmap string (list string) → list string) (w : World) :
  let out := EnsureSingleActiveDatacenter svc orc rangeOrder w in
  valueOf out = None
  ∧ Forall (λ call,
      ∃ c n nodes,
        call = SetNodeDrainCall c (Node.ID n) true
                 (drainOutcome svc orc c (Node.ID n) true)
        ∧ is_Some (clusters svc !! c)
        ∧ valueOf (GetNodes svc orc c w) = Ok nodes
        ∧ n ∈ nodes ∧ Node.IsReady n = true)
      (callsOf out)
  ∧ etcd (worldOf out) = etcd w
  ∧ amDrained (worldOf out) = amDrained w
  ∧ onlyDrained w (worldOf out).
Proof.
  intros out.
  destruct (EnsureSingleActiveDatacenter_eq svc orc rangeOrder w)
    as (Hv & _ & Hsmall & Hbig & He & Ha & Hev).
  fold out in Hv, Hsmall, Hbig, He, Ha, Hev.
  split; [done|]. split; [|done].
  destruct (decide (size (activeByRegion svc orc w) ≤ 1)) as [Hsize|Hsize].
  { destruct (Hsmall Hsize) as [_ ->]. constructor. }
  rewrite Hbig by lia. apply Forall_forall. intros call Hin.
  apply list_elem_of_bind in Hin as (r & Hin & _).
  apply list_elem_of_fmap in Hin as (ntd & -> & Hntd).
  apply elem_of_nodesToDrainIn in Hntd as (meta & nodes & Hm & _ & Hs & Hn & Hr).
  exists (nodeToDrain.clusterName ntd), (nodeToDrain.node ntd), nodes.
  rewrite GetNodes_eq. simpl. repeat split; eauto.
Qed.

(** [EnsureSingleActiveDatacenter] with at most one active region. When all
    the clusters for which [GetNodes] lists a ready node are of one region,
    the call writes nothing: it issues no call and changes nothing but the
    cache. *)
Theorem EnsureSingleActiveDatacenter_single_region (svc : Service) (orc : Oracle)
  (rangeOrder : gmap string (list string) → list string) (w : World) :
  (∀ c1 c2 meta1 meta2 nodes1 nodes2,
     clusters svc !! c1 = Some meta1 → clusters svc !! c2 = Some meta2 →
     valueOf (GetNodes svc orc c1 w) = Ok nodes1 → hasReadyNodes nodes1 = true →
     valueOf (GetNodes svc orc c2 w) = Ok nodes2 → hasReadyNodes nodes2 = true →
     region meta1 = region meta2) →
  let out := EnsureSingleActiveDatacenter svc orc rangeOrder w in
  valueOf out = None ∧ callsOf out = [] ∧ readOnly svc orc w (worldOf out).
Proof.
  intros Hone out.
  destruct (EnsureSingleActiveDatacenter_eq svc orc rangeOrder w)
    as (Hv & Hro & Hsmall & _).
  fold out in Hv, Hsmall.
  destruct Hsmall as [-> ->]; [|done].
  apply map_size_le_1. intros r1 r2 H1 H2.
  apply activeByRegion_is_Some in H1 as (c1 & meta1 & nodes1 & Hm1 & <- & Hs1 & Hr1).
  apply activeByRegion_is_Some in H2 as (c2 & meta2 & nodes2 & Hm2 & <- & Hs2 & Hr2).
  apply (Hone c1 c2 meta1 meta2 nodes1 nodes2); try done;
    by rewrite GetNodes_eq.
Qed.

(** The hypothesis of the theorem above, from the size of the region map. *)
Lemma single_region_of_size (svc : Service) (orc : Oracle) (w : World) :
  size (activeByRegion svc orc w) ≤ 1 →
  ∀ c1 c2 meta1 meta2 nodes1 nodes2,
    clusters svc !! c1 = Some meta1 → clusters svc !! c2 = Some meta2 →
    valueOf (GetNodes svc orc c1 w) = Ok nodes1 → hasReadyNodes nodes1 = true →
    valueOf (GetNodes svc orc c2 w) = Ok nodes2 → hasReadyNodes nodes2 = true →
    region meta1 = region meta2.
Proof.
  intros Hsize c1 c2 meta1 meta2 nodes1 nodes2 Hm1 Hm2 Hs1 Hr1 Hs2 Hr2.
  rewrite GetNodes_eq in Hs1, Hs2. simpl in Hs1, Hs2.
  apply (proj1 (map_size_le_1 _) Hsize); apply activeByRegion_is_Some; eauto 8.
Qed.

(** On the example with only region [us] active. *)
Lemma EnsureSingleActiveDatacenter_single_region_witness :
  callsOf (EnsureSingleActiveDatacenter Example.svc Example.allGood
             Example8.keyOrder Example8.onlyUs) = [].
Proof.
  destruct (EnsureSingleActiveDatacenter_single_region Example.svc Example.allGood
              Example8.keyOrder Example8.onlyUs) as (_ & Hcalls & _).
  - apply single_region_of_size. vm_compute. lia.
  - exact Hcalls.
Defined.

(** [EnsureSingleActiveDatacenter] with several active regions. The regions
    of the map are those with a cluster for which [GetNodes] lists a ready
    node. When there are two or more, the region that comes first in the
    range over the map is kept: no call goes to a cluster of that region.
    Every ready node that [GetNodes] listed for a cluster of any other
    region is asked to drain. Which region comes first is not determined by
    the code. *)
Theorem EnsureSingleActiveDatacenter_keeps_first (svc : Service) (orc : Oracle)
  (rangeOrder : gmap string (list string) → list string) (w : World) :
  let m := activeByRegion svc orc w in
  let out := EnsureSingleActiveDatacenter svc orc rangeOrder w in
  rangesOver (rangeOrder m) m →
  1 < size m →
  (∀ r, is_Some (m !! r)
        ↔ ∃ c meta nodes, clusters svc !! c = Some meta ∧ region meta = r
                          ∧ valueOf (GetNodes svc orc c w) = Ok nodes
                          ∧ hasReadyNodes nodes = true)
  ∧ ∃ keep, head (rangeOrder m) = Some keep
      ∧ is_Some (m !! keep)
      ∧ (∀ c id d e meta, SetNodeDrainCall c id d e ∈ callsOf out →
           clusters svc !! c = Some meta → region meta ≠ keep)
      ∧ (∀ c meta nodes n,
           clusters svc !! c = Some meta → region meta ≠ keep →
           valueOf (GetNodes svc orc c w) = Ok nodes →
           n ∈ nodes → Node.IsReady n = true →
           SetNodeDrainCall c (Node.ID n) true
             (drainOutcome svc orc c (Node.ID n) true) ∈ callsOf out).
Proof.
  intros m out [Hnd Hkeys] Hsize.
  split.
  { intros r. unfold m. rewrite activeByRegion_is_Some.
    by setoid_rewrite GetNodes_eq. }
  destruct (EnsureSingleActiveDatacenter_eq svc orc rangeOrder w)
    as (_ & _ & _ & Hbig & _).
  fold m out in Hbig. specialize (Hbig Hsize).
  destruct (rangeOrder m) as [|keep rest] eqn:Horder.
  { exfalso. assert (m ≠ ∅) as Hne
      by (apply map_size_non_empty_iff; lia).
    apply map_choose in Hne as (k & v & Hk).
    assert (k ∈ @nil string) as Hin by (apply Hkeys; by eexists).
    by apply elem_of_nil in Hin. }
  exists keep. split; [done|]. split; [apply Hkeys; by left|].
  apply NoDup_cons in Hnd as [Hkeep _]. simpl in Hbig. rewrite drop_0 in Hbig.
  split.
  - intros c id d e meta Hin Hm Hreg. rewrite Hbig in Hin.
    apply list_elem_of_bind in Hin as (r & Hin & Hr).
    apply list_elem_of_fmap in Hin as (ntd & Heq & Hntd).
    apply elem_of_nodesToDrainIn in Hntd as (meta' & nodes & Hm' & Hreg' & _).
    injection Heq as -> _ _ _. rewrite Hm in Hm'. injection Hm' as <-.
    congruence.
  - intros c meta nodes n Hm Hreg Hs Hn Hready. rewrite GetNodes_eq in Hs.
    simpl in Hs. rewrite Hbig. apply list_elem_of_bind. exists (region meta).
    split.
    + apply list_elem_of_fmap. exists (nodeToDrain.mk c n). split; [done|].
      apply elem_of_nodesToDrainIn. simpl. eauto 8.
    + assert (region meta ∈ keep :: rest) as Hin.
      { apply Hkeys. apply activeByRegion_is_Some. exists c, meta, nodes.
        repeat split; try done. apply hasReadyNodes_true. eauto. }
      apply elem_of_cons in Hin as [?|?]; [congruence | done].
Qed.

(** On the example with every node ready: regions [eu] and [us] are active. *)
Lemma EnsureSingleActiveDatacenter_keeps_first_witness :
  ∃ keep,
    head (Example8.keyOrder (activeByRegion Example.svc Example.allGood Example.fresh))
    = Some keep
    ∧ is_Some (activeByRegion Example.svc Example.allGood Example.fresh !! keep).
Proof.
  destruct (EnsureSingleActiveDatacenter_keeps_first Example.svc Example.allGood
              Example8.keyOrder Example.fresh)
    as (_ & keep & Hhead & Hsome & _).
  - apply rangesOver_keyOrder.
  - vm_compute. lia.
  - exists keep. split; [exact Hhead | exact Hsome].
Defined.

(** ** Startup reconciliation: the stale record and the resumption *)

Section reconciliation_rest.
Context (svc : Service) (orc : Oracle).

(** The path that finds a stale heartbeat of the local datacenter. *)
Lemma PerformStartupReconciliation_stale_path w info :
  readResult orc w = Ok info →
  ActiveDatacenter.Datacenter info = myDatacenter svc →
  (StaleThreshold (heartbeatCfg svc)
   < clock orc (S (reads w)) - ActiveDatacenter.LastHeartbeat info)%Z →
  ∃ w' pre,
    let out := PerformStartupReconciliation svc orc w in
    valueOf out = valueOf (drainAndMark svc orc None w')
    ∧ worldOf out = worldOf (drainAndMark svc orc None w')
    ∧ callsOf out = pre ++ callsOf (drainAndMark svc orc None w')
    ∧ cache w' = cache w ∧ nomad w' = nomad w ∧ etcd w' = etcd w
    ∧ amDrained w' = amDrained w
    ∧ Forall (λ c, isWriteActiveDatacenter c = false ∧ isSetNodeDrain c = false) pre.
Proof.
  intros Hread Hmine Hstale. unfold PerformStartupReconciliation.
  rewrite valueOf_bind, worldOf_bind, callsOf_bind, ReadActiveDatacenter_eq. simpl.
  rewrite Hread. rewrite Hmine, streq_refl. simpl.
  exists (bump_reads (bump_reads (bump_reads w))),
    [ReadActiveDatacenterCall (Ok info)].
  rewrite !valueOf_bind, !worldOf_bind, !callsOf_bind. simpl.
  rewrite bool_decide_eq_true_2 by done.
  rewrite !valueOf_bind, !worldOf_bind, !callsOf_bind. simpl.
  repeat split; try done. repeat constructor.
Qed.

Lemma drainAndMark_nil ret_ w :
  valueOf (drainAndMark svc orc ret_ w) = None →
  ret_ = None ∧ amDrained (worldOf (drainAndMark svc orc ret_ w)) = true.
Proof.
  unfold drainAndMark. rewrite valueOf_bind, worldOf_bind.
  destruct (valueOf (drainMyNodes svc orc w)); simpl; [done|]. by intros ->.
Qed.

End reconciliation_rest.

(** Startup with a stale record of the local datacenter. When the record is
    read, names the local datacenter and its heartbeat is older than the
    stale threshold, [PerformStartupReconciliation] does not resume: it
    issues no write to the etcd key and drains. When [drainMyNodes] goes
    through, the node writes are one [SetNodeDrain(M, id, true)] per ready
    node, [amDrained] is set and the result is nil; when it does not, an
    error is returned and [amDrained] keeps its value. *)
Theorem PerformStartupReconciliation_stale (svc : Service) (orc : Oracle)
  (w : World) (info : ActiveDatacenter.t) :
  etcd_get_err orc = None →
  etcd w = Some info →
  ActiveDatacenter.Datacenter info = myDatacenter svc →
  (StaleThreshold (heartbeatCfg svc)
   < clock orc (S (reads w)) - ActiveDatacenter.LastHeartbeat info)%Z →
  let out := PerformStartupReconciliation svc orc w in
  (∀ c, c ∈ callsOf out → isWriteActiveDatacenter c = false)
  ∧ etcd (worldOf out) = etcd w
  ∧ (drainSucceeds svc orc w →
     valueOf out = None ∧ amDrained (worldOf out) = true
     ∧ ∀ nodes, snapshot svc orc w (myDatacenter svc) = Ok nodes →
                filter (λ c, isSetNodeDrain c = true) (callsOf out)
                = drainWrites svc nodes)
  ∧ (¬ drainSucceeds svc orc w →
     is_Some (valueOf out) ∧ amDrained (worldOf out) = amDrained w).
Proof.
  intros Hget Hetcd Hmine Hstale out.
  assert (readResult orc w = Ok info) as Hread.
  { unfold readResult. by rewrite Hget, Hetcd. }
  destruct (PerformStartupReconciliation_stale_path svc orc w info Hread Hmine Hstale)
    as (w' & pre & Hv & Hw & Hc & Hcache & Hnomad & Hetcd' & Ham & Hpre).
  fold out in Hv, Hw, Hc.
  exact (ends_in_drainAndMark svc orc _ w w' pre out Hv Hw Hc Hcache Hnomad
           Hetcd' Ham Hpre).
Qed.

(** On the example: the record of [dcB] is 200 s old, the threshold 120 s. *)
Lemma PerformStartupReconciliation_stale_witness :
  etcd (worldOf (PerformStartupReconciliation Example.svc Example.allGood
                   Example9.peerDead))
  = etcd Example9.peerDead.
Proof.
  destruct (PerformStartupReconciliation_stale Example.svc Example.allGood
              Example9.peerDead
              (ActiveDatacenter.mk "dcB" 700000000000 "api" 800000000000))
    as (_ & Hetcd & _).
  - reflexivity.
  - reflexivity.
  - reflexivity.
  - simpl. lia.
  - exact Hetcd.
Defined.

(** When startup reconciliation leaves the instance active. The only path
    of [PerformStartupReconciliation] that returns nil without marking the
    instance drained is "resuming as active": the record names the local
    datacenter, its heartbeat age is at most the stale threshold when
    [IsStale] reads the clock and at least the threshold when the next
    [HeartbeatAge] reads it. On that path nothing is drained or written. With
    a clock that stands still between the two readings this means an age
    equal to the threshold; every other age of a record of the local
    datacenter, stale or fresh, ends in a drain. *)
Theorem PerformStartupReconciliation_resumes_only_at_threshold (svc : Service)
  (orc : Oracle) (w : World) :
  let out := PerformStartupReconciliation svc orc w in
  let now1 := clock orc (S (reads w)) in
  let now2 := clock orc (S (S (reads w))) in
  let thr := StaleThreshold (heartbeatCfg svc) in
  (∀ info,
     etcd_get_err orc = None → etcd w = Some info →
     ActiveDatacenter.Datacenter info = myDatacenter svc →
     (now1 - ActiveDatacenter.LastHeartbeat info ≤ thr)%Z →
     (thr ≤ now2 - ActiveDatacenter.LastHeartbeat info)%Z →
     valueOf out = None ∧ amDrained (worldOf out) = false
     ∧ callsOf out = [ReadActiveDatacenterCall (Ok info)]
     ∧ nomad (worldOf out) = nomad w ∧ etcd (worldOf out) = etcd w)
  ∧ (valueOf out = None → amDrained (worldOf out) = false →
     ∃ info, etcd_get_err orc = None ∧ etcd w = Some info
             ∧ ActiveDatacenter.Datacenter info = myDatacenter svc
             ∧ (now1 - ActiveDatacenter.LastHeartbeat info ≤ thr)%Z
             ∧ (thr ≤ now2 - ActiveDatacenter.LastHeartbeat info)%Z
             ∧ (now1 = now2 →
                (now1 - ActiveDatacenter.LastHeartbeat info = thr)%Z)).
Proof.
  intros out now1 now2 thr. split.
  - intros info Hget Hetcd Hmine Hle Hge.
    assert (readResult orc w = Ok info) as Hread.
    { unfold readResult. by rewrite Hget, Hetcd. }
    unfold out, PerformStartupReconciliation.
    rewrite valueOf_bind, worldOf_bind, callsOf_bind, ReadActiveDatacenter_eq. simpl.
    rewrite Hread. rewrite Hmine, streq_refl. simpl.
    rewrite !valueOf_bind, !worldOf_bind, !callsOf_bind. simpl.
    rewrite bool_decide_eq_false_2 by (fold now1 thr; lia).
    rewrite !valueOf_bind, !worldOf_bind, !callsOf_bind. simpl.
    rewrite bool_decide_eq_false_2 by (fold now2 thr; lia).
    done.
  - intros Hnil Hactive.
    destruct (readResult orc w) as [info|e] eqn:Hread.
    2:{ exfalso.
        destruct (PerformStartupReconciliation_not_mine svc orc w)
          as (w' & pre & Hv & Hw & _); [by rewrite Hread|].
        fold out in Hv, Hw. rewrite Hv in Hnil. rewrite Hw in Hactive.
        apply drainAndMark_nil in Hnil as [_ Hd]. congruence. }
    assert (etcd_get_err orc = None ∧ etcd w = Some info) as [Hget Hetcd].
    { unfold readResult in Hread. destruct (etcd_get_err orc); [done|].
      destruct (etcd w); [|done]. by injection Hread as ->. }
    destruct (decide (ActiveDatacenter.Datacenter info = myDatacenter svc))
      as [Hmine|Hother].
    2:{ exfalso.
        destruct (PerformStartupReconciliation_not_mine svc orc w)
          as (w' & pre & Hv & Hw & _); [by rewrite Hread|].
        fold out in Hv, Hw. rewrite Hv in Hnil. rewrite Hw in Hactive.
        apply drainAndMark_nil in Hnil as [_ Hd]. congruence. }
    destruct (decide (thr < now1 - ActiveDatacenter.LastHeartbeat info)%Z)
      as [Hstale|Hle].
    { exfalso.
      destruct (PerformStartupReconciliation_stale_path svc orc w info Hread Hmine
                  Hstale) as (w' & pre & Hv & Hw & _).
      fold out in Hv, Hw. rewrite Hv in Hnil. rewrite Hw in Hactive.
      apply drainAndMark_nil in Hnil as [_ Hd]. congruence. }
    destruct (decide (now2 - ActiveDatacenter.LastHeartbeat info < thr)%Z)
      as [Hfresh|Hge].
    { exfalso. revert Hnil. unfold out, PerformStartupReconciliation.
      rewrite valueOf_bind, ReadActiveDatacenter_eq. simpl.
      rewrite Hread. rewrite Hmine, streq_refl. simpl.
      rewrite !valueOf_bind. simpl.
      rewrite bool_decide_eq_false_2 by (fold now1 thr; lia).
      rewrite !valueOf_bind. simpl.
      rewrite bool_decide_eq_true_2 by (fold now2 thr; lia).
      intros Hnil. by apply drainAndMark_nil in Hnil as [? _]. }
    exists info. repeat split; try done; lia.
Qed.

(** ** The heartbeat loop: what it never does, and the ticks that succeed *)

Section ticks_rest.
Context (svc : Service) (orc : Oracle).

Lemma onlyDrained_drainLoop nodes w :
  onlyDrained w (worldOf (drainLoop svc orc nodes w)).
Proof.
  revert w. induction nodes as [|node nodes IH]; intros w; [apply onlyDrained_refl|].
  cbn [drainLoop]. destruct (_ || _); [apply IH|].
  rewrite worldOf_bind, SetNodeDrain_eq. simpl.
  destruct (drainOutcome svc orc (myDatacenter svc) (Node.ID node) true);
    simpl; [apply onlyDrained_refl|].
  eapply onlyDrained_trans; [apply onlyDrained_drain_in_table | apply IH].
Qed.

Lemma onlyDrained_drainMyNodes w :
  onlyDrained w (worldOf (drainMyNodes svc orc w)).
Proof.
  unfold drainMyNodes. rewrite worldOf_bind, GetNodes_eq. simpl.
  destruct (snapshot svc orc w (myDatacenter svc)) as [nodes|e].
  - rewrite worldOf_bind.
    assert (onlyDrained w (worldOf (drainLoop svc orc nodes
                                      (cacheFetched svc orc (myDatacenter svc) w))))
      as Hev.
    { eapply onlyDrained_trans; [|apply onlyDrained_drainLoop].
      apply onlyDrained_same_nomad, nomad_cacheFetched. }
    destruct (valueOf (drainLoop svc orc nodes _)); simpl; [done|].
    eapply onlyDrained_trans; [exact Hev|]. by apply onlyDrained_same_nomad.
  - simpl. apply onlyDrained_same_nomad, nomad_cacheFetched.
Qed.

Lemma drainOrLog_failed w :
  ¬ drainSucceeds svc orc w →
  amDrained (worldOf (drainOrLog svc orc w)) = amDrained w.
Proof.
  intros Hns. unfold drainOrLog. rewrite worldOf_bind.
  destruct (drainMyNodes_spec svc orc w) as (_ & Ha & _ & _ & _ & Hnone).
  destruct (valueOf (drainMyNodes svc orc w)) as [e|]; simpl; [done|].
  destruct Hns. by apply Hnone.
Qed.

Lemma onlyDrained_drainOrLog w :
  onlyDrained w (worldOf (drainOrLog svc orc w)).
Proof.
  destruct (drainOrLog_spec svc orc w) as (_ & Hn & _).
  eapply onlyDrained_trans; [apply onlyDrained_drainMyNodes|].
  by apply onlyDrained_same_nomad.
Qed.

Lemma heartbeatCall_drainOrLog w :
  Forall (heartbeatCall svc) (callsOf (drainOrLog svc orc w)).
Proof.
  destruct (drainOrLog_spec svc orc w) as (_ & _ & Hcalls & _).
  eapply Forall_impl; [exact Hcalls|]. by intros call (id & e & ->).
Qed.

Lemma heartbeatTick_safe c w :
  let out := heartbeatTick svc orc c w in
  (amDrained w = true → amDrained (worldOf out) = true)
  ∧ onlyDrained w (worldOf out)
  ∧ Forall (heartbeatCall svc) (callsOf out).
Proof.
  destruct (heartbeatTick_cases svc orc w)
    as [[e Hr]|[(i & Hr & Hne)|[(i & Hr & Hm & Hf & Hd)|(i & Hr & Hm & Hq)]]].
  - rewrite (heartbeatTick_read_failed svc orc c w e Hr). simpl.
    split; [done|]. split; [apply onlyDrained_refl | by repeat constructor].
  - rewrite (heartbeatTick_other svc orc c w i Hr Hne). simpl.
    destruct (amDrained w) eqn:Hd.
    + split; [done|]. split; [apply onlyDrained_refl | by repeat constructor].
    + split; [done|]. split; [apply onlyDrained_drainOrLog|].
      constructor; [done | apply heartbeatCall_drainOrLog].
  - rewrite (heartbeatTick_quiet svc orc c w i Hr Hm Hf Hd). simpl.
    split; [done|]. split; [by apply onlyDrained_same_nomad | by repeat constructor].
  - rewrite (heartbeatTick_write svc orc c w i Hr Hm Hq).
    destruct (etcd_put_err orc) as [e|]; simpl.
    + destruct (amDrained w) eqn:Hd; simpl.
      * rewrite andb_false_r. split; [done|].
        split; [by apply onlyDrained_same_nomad | by repeat constructor].
      * split; [done|]. destruct (bool_decide _ && true).
        -- split.
           ++ eapply onlyDrained_trans; [|apply onlyDrained_drainOrLog].
              by apply onlyDrained_same_nomad.
           ++ constructor; [done|]. constructor; [done|].
              apply heartbeatCall_drainOrLog.
        -- split; [by apply onlyDrained_same_nomad | by repeat constructor].
    + split; [done|].
      split; [by apply onlyDrained_same_nomad | by repeat constructor].
Qed.

End ticks_rest.

(** The heartbeat loop never gives the datacenter back. Over any number of
    ticks, with any answers of the collaborators and any writes of peers to
    the etcd key: once [amDrained] is true it stays true; a node that is
    draining stays draining, and no node appears or disappears; every call
    of a tick is the read or a write of the etcd key, the write carrying the
    local datacenter, or a [SetNodeDrain(M, id, true)] for the local
    datacenter [M]. *)
Theorem heartbeatLoop_never_undrains (svc : Service) (ticks : list Tick)
  (c : nat) (w : World) :
  let out := heartbeatLoopFrom svc ticks c w in
  (amDrained w = true → amDrained (stateOf out) = true)
  ∧ onlyDrained w (stateOf out)
  ∧ Forall (Forall (heartbeatCall svc)) (ticksOf out).
Proof.
  revert c w. induction ticks as [|t ticks IH]; intros c w.
  { simpl. split; [done|]. split; [apply onlyDrained_refl | constructor]. }
  cbv zeta. rewrite heartbeatLoopFrom_cons. simpl.
  destruct (heartbeatTick_safe svc (tick_orc t) c (peerPut t w)) as (Ha & Hev & Hcalls).
  cbv zeta in Ha, Hev, Hcalls. rewrite peerPut_amDrained in Ha.
  destruct (IH (valueOf (heartbeatTick svc (tick_orc t) c (peerPut t w)))
              (worldOf (heartbeatTick svc (tick_orc t) c (peerPut t w))))
    as (Ha' & Hev' & Hcalls'). cbv zeta in Ha', Hev', Hcalls'.
  split; [auto|]. split; [|by constructor].
  eapply onlyDrained_trans; [|exact Hev'].
  eapply onlyDrained_trans; [|exact Hev].
  apply onlyDrained_same_nomad, peerPut_nomad.
Qed.

(** A tick that reads a record of the local datacenter. A drained instance
    that finds the heartbeat fresh writes nothing and keeps its failure
    counter: another instance is heartbeating. In every other case the tick
    writes the record back with [LastHeartbeat] set to the time of the
    write and the other fields as read; when the write succeeds the counter
    is reset to 0 and a read of the key gives the new record. The write
    undrains nothing: a drained instance that finds its record stale keeps
    the record alive and stays drained. *)
Theorem heartbeatTick_own_record (svc : Service) (orc : Oracle) (c : nat)
  (w : World) (info : ActiveDatacenter.t) :
  etcd_get_err orc = None →
  etcd w = Some info →
  ActiveDatacenter.Datacenter info = myDatacenter svc →
  let out := heartbeatTick svc orc c w in
  let age := (clock orc (reads w) - ActiveDatacenter.LastHeartbeat info)%Z in
  let info' := ActiveDatacenter.mk (ActiveDatacenter.Datacenter info)
                 (ActiveDatacenter.ActivatedAt info)
                 (ActiveDatacenter.ActivatedBy info) (clock orc (S (reads w))) in
  ((age < StaleThreshold (heartbeatCfg svc))%Z → amDrained w = true →
   valueOf out = c ∧ callsOf out = [ReadActiveDatacenterCall (Ok info)]
   ∧ etcd (worldOf out) = etcd w ∧ amDrained (worldOf out) = true)
  ∧ (((StaleThreshold (heartbeatCfg svc) ≤ age)%Z ∨ amDrained w = false) →
     etcd_put_err orc = None →
     valueOf out = 0
     ∧ callsOf out = [ReadActiveDatacenterCall (Ok info);
                      WriteActiveDatacenterCall info' None]
     ∧ etcd (worldOf out) = Some info'
     ∧ amDrained (worldOf out) = amDrained w
     ∧ nomad (worldOf out) = nomad w).
Proof.
  intros Hget Hetcd Hmine out age info'.
  assert (readResult orc w = Ok info) as Hread.
  { unfold readResult. by rewrite Hget, Hetcd. }
  split.
  - intros Hfresh Hd. unfold out.
    by rewrite (heartbeatTick_quiet svc orc c w info Hread Hmine Hfresh Hd).
  - intros Hcase Hput. unfold out.
    rewrite (heartbeatTick_write svc orc c w info Hread Hmine), Hput; [done|].
    destruct Hcase as [Hstale|Hnd].
    + rewrite bool_decide_eq_false_2 by (fold age; lia). done.
    + rewrite Hnd. apply andb_false_r.
Qed.

(** On the example: the drained instance of [dcB] finds its own record 200 s
    old and writes the heartbeat. *)
Lemma heartbeatTick_own_record_witness :
  amDrained Example9.drainedPeerDead = true
  ∧ valueOf (heartbeatTick Example.svc Example.allGood 2 Example9.drainedPeerDead)
    = 0
  ∧ amDrained (worldOf (heartbeatTick Example.svc Example.allGood 2
                          Example9.drainedPeerDead)) = true.
Proof.
  destruct (heartbeatTick_own_record Example.svc Example.allGood 2
              Example9.drainedPeerDead
              (ActiveDatacenter.mk "dcB" 700000000000 "api" 800000000000))
    as (_ & Hwrite).
  - reflexivity.
  - reflexivity.
  - reflexivity.
  - destruct Hwrite as (Hc & _ & _ & Ha & _).
    + left. simpl. lia.
    + reflexivity.
    + split; [reflexivity|]. split; [exact Hc | exact Ha].
Defined.

(** A tick that reads a record of another datacenter. The failure counter
    is reset to 0 and nothing is written to the etcd key. An instance that
    is already drained does nothing more. One that is not calls
    [drainMyNodes]: when that goes through, the calls after the read are one
    [SetNodeDrain(M, id, true)] per ready node and [amDrained] is set; when
    it does not, [amDrained] stays false and the next such tick tries
    again. *)
Theorem heartbeatTick_other_active (svc : Service) (orc : Oracle) (c : nat)
  (w : World) (info : ActiveDatacenter.t) :
  etcd_get_err orc = None →
  etcd w = Some info →
  ActiveDatacenter.Datacenter info ≠ myDatacenter svc →
  let out := heartbeatTick svc orc c w in
  valueOf out = 0
  ∧ etcd (worldOf out) = etcd w
  ∧ (∀ call, call ∈ callsOf out → isWriteActiveDatacenter call = false)
  ∧ (amDrained w = true →
     worldOf out = w ∧ callsOf out = [ReadActiveDatacenterCall (Ok info)])
  ∧ (amDrained w = false → drainSucceeds svc orc w →
     amDrained (worldOf out) = true
     ∧ ∀ nodes, snapshot svc orc w (myDatacenter svc) = Ok nodes →
                callsOf out
                = ReadActiveDatacenterCall (Ok info) :: drainWrites svc nodes)
  ∧ (amDrained w = false → ¬ drainSucceeds svc orc w →
     amDrained (worldOf out) = false).
Proof.
  intros Hget Hetcd Hother out.
  assert (readResult orc w = Ok info) as Hread.
  { unfold readResult. by rewrite Hget, Hetcd. }
  unfold out. rewrite (heartbeatTick_other svc orc c w info Hread Hother). simpl.
  destruct (drainOrLog_spec svc orc w) as (He & _ & Hcalls & _ & Hok & _).
  split; [done|]. split; [by destruct (amDrained w)|]. split; [|split; [|split]].
  - intros call Hin. apply elem_of_cons in Hin as [->|Hin]; [done|].
    destruct (amDrained w); [by apply elem_of_nil in Hin|].
    rewrite Forall_forall in Hcalls. by destruct (Hcalls call Hin) as (? & ? & ->).
  - by intros ->.
  - intros -> Hs. destruct (Hok Hs) as [Hd Hcs]. split; [done|].
    intros nodes Hsnap. by rewrite (Hcs nodes Hsnap).
  - intros Hd Hns. rewrite Hd. by rewrite drainOrLog_failed.
Qed.

(** On the example: etcd names [dcA], the instance of [dcB] is not drained. *)
Lemma heartbeatTick_other_active_witness :
  valueOf (heartbeatTick Example.svc Example.allGood 2 Example9.otherActive) = 0
  ∧ amDrained (worldOf (heartbeatTick Example.svc Example.allGood 2
                          Example9.otherActive)) = true.
Proof.
  destruct (heartbeatTick_other_active Example.svc Example.allGood 2
              Example9.otherActive
              (ActiveDatacenter.mk "dcA" 900000000000 "api" 995000000000))
    as (Hc & _ & _ & _ & Hok & _).
  - reflexivity.
  - reflexivity.
  - simpl. discriminate.
  - destruct Hok as [Hd _].
    + reflexivity.
    + apply drainAlwaysSucceeds_drainSucceeds. split; [|split].
      * vm_compute. by eexists.
      * reflexivity.
      * intros nodeID. reflexivity.
    + split; [exact Hc | exact Hd].
Defined.

(** ** The activations and the etcd record *)

Lemma ParallelMapFrom_inv {T R} (fn : T → M (R * option string))
  (I : World → Prop) (P : Call → Prop) (Q : T → Prop) :
  (∀ x w, Q x → I w → I (worldOf (fn x w)) ∧ Forall P (callsOf (fn x w))) →
  ∀ items index w, Forall Q items → I w →
    I (worldOf (ParallelMapFrom fn index items w))
    ∧ Forall P (callsOf (ParallelMapFrom fn index items w)).
Proof.
  intros Hfn items. induction items as [|x items IH]; intros index w HQ HI.
  { split; [done | constructor]. }
  apply Forall_cons in HQ as [Hx HQ].
  simpl. rewrite worldOf_bind, callsOf_bind, worldOf_bind, callsOf_bind.
  destruct (Hfn x w Hx HI) as [HI' Hc]. destruct (IH (S index) _ HQ HI') as [HI'' Hc'].
  simpl. split; [done|]. rewrite app_nil_r. by apply Forall_app.
Qed.

Lemma foldM_inv {A B} (body : B → A → M B) (I : World → Prop) (P : Call → Prop)
  (Q : A → Prop) :
  (∀ acc x w, Q x → I w → I (worldOf (body acc x w))
                          ∧ Forall P (callsOf (body acc x w))) →
  ∀ l acc w, Forall Q l → I w →
    I (worldOf (foldM body l acc w)) ∧ Forall P (callsOf (foldM body l acc w)).
Proof.
  intros Hbody l. induction l as [|x l IH]; intros acc w HQ HI.
  { split; [done | constructor]. }
  apply Forall_cons in HQ as [Hx HQ].
  simpl. rewrite worldOf_bind, callsOf_bind.
  destruct (Hbody acc x w Hx HI) as [HI' Hc].
  destruct (IH (valueOf (body acc x w)) _ HQ HI') as [HI'' Hc'].
  split; [done|]. by apply Forall_app.
Qed.

Lemma sameRecord_refl w : sameRecord w w.
Proof. done. Qed.

Lemma sameRecord_trans w1 w2 w3 :
  sameRecord w1 w2 → sameRecord w2 w3 → sameRecord w1 w3.
Proof. intros (? & ? & ?) (? & ? & ?). repeat split; congruence. Qed.

Section activation_record.
Context (svc : Service) (orc : Oracle).

Lemma sameRecord_cacheFetched dc w : sameRecord w (cacheFetched svc orc dc w).
Proof.
  unfold cacheFetched. destruct (cache w !! cacheKey dc); [done|].
  by destruct (snapshot svc orc w dc).
Qed.

Lemma sameRecord_changeEffects c d ntcs w :
  sameRecord w (foldl (λ w x, changeEffect svc orc c d x w) w ntcs).
Proof.
  revert w. induction ntcs as [|ntc ntcs IH]; intros w; [done|].
  cbn [foldl]. eapply sameRecord_trans; [|apply IH].
  unfold changeEffect. destruct (nodeToChange.alreadyCorrect ntc); [done|].
  by destruct (drainOutcome svc orc c _ d).
Qed.

(** The node phase of an activation: a cluster gets the writes
    [SetNodeDrain(cluster, id, shouldDrain)]. *)
Lemma changeNodes_record c d nodes res w :
  sameRecord w (worldOf (changeNodes svc orc c d nodes res w))
  ∧ Forall (λ call, ∃ id e, call = SetNodeDrainCall c id d e)
      (callsOf (changeNodes svc orc c d nodes res w)).
Proof.
  rewrite changeNodes_eq. simpl. split; [|apply changeCalls_isSetNodeDrain].
  eapply sameRecord_trans; [apply sameRecord_changeEffects | done].
Qed.

Lemma recordActive_eq datacenter by_ mine res w :
  let info := activationRecord orc w datacenter by_ in
  recordActive orc datacenter by_ mine res w
  = match etcd_put_err orc with
    | Some e =>
        (addError res ("failed to write to etcd: "
                       +:+ ("failed to write active datacenter to etcd: " +:+ e)),
         bump_reads (bump_reads w),
         [WriteActiveDatacenterCall info
            (Some ("failed to write active datacenter to etcd: " +:+ e))])
    | None =>
        (res,
         (if mine then set_amDrained false else λ w, w)
           (set_etcd (Some info) (bump_reads (bump_reads w))),
         [WriteActiveDatacenterCall info None])
    end.
Proof.
  unfold recordActive, WriteActiveDatacenter, Now, bind, modify, emit, ret,
    activationRecord.
  destruct (etcd_put_err orc) as [e|]; simpl; [done|]. by destruct mine.
Qed.

(** What follows the node phase in both activations, from the world [w2]
    the node phase leaves. *)
Lemma activation_tail (trig : M ActivationResult.t) datacenter by_ mine r w0 w2 :
  sameRecord w0 w2 →
  (∀ w, worldOf (trig w) = w) →
  (∀ w, Forall (λ c, isWriteActiveDatacenter c = false) (callsOf (trig w))) →
  let out :=
    (result <- trig ;;
     result <- recordActive orc datacenter by_ mine result ;;
     notifyHealthChecker svc r ;;;
     ret (Some result, @None string)) w2 in
  let info := activationRecord orc w0 datacenter by_ in
  (∃ res, valueOf out = (Some res, None)
          ∧ ∀ e, etcd_put_err orc = Some e →
                 last (ActivationResult.Errors res)
                 = Some ("failed to write to etcd: "
                         +:+ ("failed to write active datacenter to etcd: " +:+ e)))
  ∧ filter (λ c, isWriteActiveDatacenter c = true) (callsOf out)
    = [WriteActiveDatacenterCall info
         ((λ e, "failed to write active datacenter to etcd: " +:+ e)
          <$> etcd_put_err orc)]
  ∧ match etcd_put_err orc with
    | None =>
        etcd (worldOf out) = Some info
        ∧ amDrained (worldOf out) = (if mine then false else amDrained w0)
    | Some _ =>
        etcd (worldOf out) = etcd w0 ∧ amDrained (worldOf out) = amDrained w0
    end
  ∧ (healthChecker svc = true → last (callsOf out) = Some (SetActiveRegionCall r))
  ∧ nomad (worldOf out) = nomad w2.
Proof.
  intros (He & Ha & Hr) Htw Htc out info. unfold out.
  rewrite !valueOf_bind, !worldOf_bind, !callsOf_bind, Htw.
  rewrite recordActive_eq. unfold activationRecord in *. rewrite Hr. fold info.
  rewrite !filter_app, (isWrite_false_filter _ (Htc w2)).
  assert (∀ w, filter (λ c, isWriteActiveDatacenter c = true)
                 (callsOf (notifyHealthChecker svc r w)) = []
               ∧ worldOf (notifyHealthChecker svc r w) = w
               ∧ (healthChecker svc = true →
                  callsOf (notifyHealthChecker svc r w) = [SetActiveRegionCall r]))
    as Hnotify.
  { intros w. unfold notifyHealthChecker. by destruct (healthChecker svc). }
  destruct (etcd_put_err orc) as [e|]; simpl.
  - destruct (Hnotify (bump_reads (bump_reads w2))) as (-> & -> & Hn). simpl.
    split; [|split; [done|split; [done|split; [|done]]]].
    + eexists. split; [done|]. intros e' [= <-]. simpl. by rewrite last_snoc.
    + intros Hh. rewrite (Hn Hh), app_nil_r, last_app. done.
  - set (w3 := (if mine then set_amDrained false else λ w, w)
                 (set_etcd (Some info) (bump_reads (bump_reads w2)))).
    destruct (Hnotify w3) as (-> & -> & Hn). simpl.
    split; [|split; [done|split; [|split]]].
    + eexists. split; [done|]. done.
    + subst w3. destruct mine; simpl; done.
    + intros Hh. rewrite (Hn Hh), app_nil_r, last_app. done.
    + subst w3. by destruct mine.
Qed.

Lemma fetchClusterForDatacenter_record targetDC targetRegion c w :
  sameRecord w (worldOf (fetchClusterForDatacenter svc orc targetDC targetRegion c w))
  ∧ callsOf (fetchClusterForDatacenter svc orc targetDC targetRegion c w) = [].
Proof.
  unfold fetchClusterForDatacenter.
  destruct (GetClusterRegion (clusters svc) c); [|done].
  destruct (_ && _); [done|].
  rewrite worldOf_bind, callsOf_bind, GetNodes_eq. simpl.
  destruct (snapshot svc orc w c); simpl;
    (split; [apply sameRecord_cacheFetched | done]).
Qed.

Lemma fetchClusterForRegion_record c w :
  sameRecord w (worldOf (fetchClusterForRegion svc orc c w))
  ∧ callsOf (fetchClusterForRegion svc orc c w) = []
  ∧ clusterNodesInfo.clusterName (valueOf (fetchClusterForRegion svc orc c w)).1 = c
  ∧ (clusterNodesInfo.err (valueOf (fetchClusterForRegion svc orc c w)).1 = None →
     GetClusterRegion (clusters svc) c
     = Ok (clusterNodesInfo.region (valueOf (fetchClusterForRegion svc orc c w)).1)).
Proof.
  unfold fetchClusterForRegion.
  destruct (GetClusterRegion (clusters svc) c) as [r|e]; [|done].
  rewrite worldOf_bind, callsOf_bind, valueOf_bind, GetNodes_eq. simpl.
  destruct (snapshot svc orc w c); simpl;
    (split; [apply sameRecord_cacheFetched | done]).
Qed.

End activation_record.

Lemma Forall2_right {A B} (P : A → B → Prop) (Q : B → Prop) xs rs :
  Forall2 P xs rs → (∀ x r, P x r → Q r) → Forall Q rs.
Proof. induction 1; intros HPQ; constructor; eauto. Qed.

Section activation_record_main.
Context (svc : Service) (orc : Oracle).

Lemma processClusterForDatacenter_record targetDC res info w :
  sameRecord w (worldOf (processClusterForDatacenter svc orc targetDC res info w))
  ∧ Forall (λ c, isWriteActiveDatacenter c = false)
      (callsOf (processClusterForDatacenter svc orc targetDC res info w)).
Proof.
  unfold processClusterForDatacenter.
  destruct (clusterNodesInfo.err (Value info)); [by split|].
  destruct (bool_decide _); [by split|].
  destruct (changeNodes_record svc orc
              (clusterNodesInfo.clusterName (Value info))
              (negb (streq (clusterNodesInfo.clusterName (Value info)) targetDC))
              (clusterNodesInfo.nodes (Value info)) res w) as [Hw Hc].
  split; [done|]. eapply Forall_impl; [exact Hc|]. by intros c (id & e & ->).
Qed.

(** The node writes of one step of the cluster loop of [ActivateRegion] go
    to the cluster the step is about, with the drain flag of its region. *)
Lemma processClusterForRegion_record targetRegion res info w :
  sameRecord w (worldOf (processClusterForRegion svc orc targetRegion res info w))
  ∧ Forall (λ call, ∃ id e,
              call = SetNodeDrainCall (clusterNodesInfo.clusterName (Value info)) id
                       (negb (streq (clusterNodesInfo.region (Value info))
                                targetRegion)) e)
      (callsOf (processClusterForRegion svc orc targetRegion res info w))
  ∧ (clusterNodesInfo.err (Value info) ≠ None →
     callsOf (processClusterForRegion svc orc targetRegion res info w) = []).
Proof.
  unfold processClusterForRegion.
  destruct (clusterNodesInfo.err (Value info)); [by repeat split|].
  destruct (changeNodes_record svc orc
              (clusterNodesInfo.clusterName (Value info))
              (negb (streq (clusterNodesInfo.region (Value info)) targetRegion))
              (clusterNodesInfo.nodes (Value info)) res w) as [Hw Hc].
  split; [done|]. split; [done|]. by intros [].
Qed.

Lemma triggerOne_spec targetDC res w :
  let trig :=
    (if bool_decide (0 < ActivationResult.UnDrainedNodes res) then
       err <- TriggerJobEvaluations svc orc targetDC ;;
       match err with
       | Some e =>
           ret (addError res ("failed to trigger job evaluations for "
                              +:+ targetDC +:+ ": " +:+ e))
       | None => ret res
       end
     else ret res) in
  worldOf (trig w) = w
  ∧ Forall (λ c, isWriteActiveDatacenter c = false) (callsOf (trig w)).
Proof.
  intros trig. subst trig. destruct (bool_decide _); [|by split].
  rewrite worldOf_bind, callsOf_bind.
  destruct (TriggerJobEvaluations_spec svc orc targetDC w) as [Hw [e Hc]].
  rewrite Hw, Hc.
  destruct (valueOf (TriggerJobEvaluations svc orc targetDC w)); simpl;
    (split; [done | by repeat constructor]).
Qed.

Lemma triggerRegion_spec targetClusters res w :
  let trig :=
    (if bool_decide (0 < ActivationResult.UnDrainedNodes res) then
       evalErrors <- triggerAll svc orc targetClusters [] ;;
       ret (ActivationResult.mk (ActivationResult.Activated res)
              (ActivationResult.DrainedNodes res)
              (ActivationResult.UnDrainedNodes res)
              (ActivationResult.Errors res ++ evalErrors))
     else ret res) in
  worldOf (trig w) = w
  ∧ Forall (λ c, isWriteActiveDatacenter c = false) (callsOf (trig w)).
Proof.
  intros trig. subst trig. destruct (bool_decide _); [|by split].
  rewrite worldOf_bind, callsOf_bind.
  destruct (triggerAll_spec svc orc targetClusters [] w) as [Hw Hc].
  rewrite Hw. simpl. split; [done|]. rewrite app_nil_r.
  eapply Forall_impl; [exact Hc|]. by intros c (n & e & ->).
Qed.

(** The two fan-outs of [ActivateDatacenter] leave the etcd key, the drained
    mark and the clock alone and write nothing to etcd. *)
Lemma ActivateDatacenter_loops_record targetDC targetRegion names res w :
  let loops :=
    (clusterNodesResults <-
       ParallelMap (fetchClusterForDatacenter svc orc targetDC targetRegion) names ;;
     foldM (processClusterForDatacenter svc orc targetDC) clusterNodesResults res) in
  sameRecord w (worldOf (loops w))
  ∧ Forall (λ c, isWriteActiveDatacenter c = false) (callsOf (loops w)).
Proof.
  intros loops. subst loops. rewrite worldOf_bind, callsOf_bind. unfold ParallelMap.
  destruct (ParallelMapFrom_inv
              (fetchClusterForDatacenter svc orc targetDC targetRegion)
              (sameRecord w) (λ c, isWriteActiveDatacenter c = false) (λ _, True))
    with (items := names) (index := 0) (w := w) as [HI Hc].
  { intros x w' _ Hw'.
    destruct (fetchClusterForDatacenter_record svc orc targetDC targetRegion x w')
      as [Hs ->].
    split; [by eapply sameRecord_trans | constructor]. }
  { by apply Forall_true. }
  { done. }
  destruct (foldM_inv (processClusterForDatacenter svc orc targetDC)
              (sameRecord w) (λ c, isWriteActiveDatacenter c = false) (λ _, True))
    with (l := valueOf (ParallelMapFrom
                          (fetchClusterForDatacenter svc orc targetDC targetRegion)
                          0 names w))
         (acc := res)
         (w := worldOf (ParallelMapFrom
                          (fetchClusterForDatacenter svc orc targetDC targetRegion)
                          0 names w)) as [HI' Hc'].
  { intros acc x w' _ Hw'.
    destruct (processClusterForDatacenter_record targetDC acc x w') as [Hs Hcs].
    split; [by eapply sameRecord_trans | done]. }
  { by apply Forall_true. }
  { done. }
  split; [done|]. by apply Forall_app.
Qed.

(** The same for [ActivateRegion], with the direction of every node write. *)
Lemma ActivateRegion_loops_record targetRegion res w :
  let loops :=
    (clusterNodesResults <-
       ParallelMap (fetchClusterForRegion svc orc) (GetClusterNames (clusters svc)) ;;
     foldM (processClusterForRegion svc orc targetRegion) clusterNodesResults res) in
  sameRecord w (worldOf (loops w))
  ∧ Forall (λ call, ∃ c meta id e,
              clusters svc !! c = Some meta
              ∧ call = SetNodeDrainCall c id
                         (negb (streq (region meta) targetRegion)) e)
      (callsOf (loops w)).
Proof.
  intros loops. subst loops. rewrite worldOf_bind, callsOf_bind. unfold ParallelMap.
  set (P := λ call : Call, ∃ c meta id e,
              clusters svc !! c = Some meta
              ∧ call = SetNodeDrainCall c id
                         (negb (streq (region meta) targetRegion)) e).
  set (names := GetClusterNames (clusters svc)).
  destruct (ParallelMapFrom_inv (fetchClusterForRegion svc orc)
              (sameRecord w) P (λ _, True))
    with (items := names) (index := 0) (w := w) as [HI Hc].
  { intros x w' _ Hw'.
    destruct (fetchClusterForRegion_record svc orc x w') as (Hs & -> & _).
    split; [by eapply sameRecord_trans | constructor]. }
  { by apply Forall_true. }
  { done. }
  set (results := valueOf (ParallelMapFrom (fetchClusterForRegion svc orc) 0 names w))
    in *.
  set (w1 := worldOf (ParallelMapFrom (fetchClusterForRegion svc orc) 0 names w)) in *.
  assert (Forall (λ r : Result clusterNodesInfo.t,
                    clusterNodesInfo.err (Value r) = None →
                    ∃ meta, clusters svc !! clusterNodesInfo.clusterName (Value r)
                            = Some meta
                            ∧ clusterNodesInfo.region (Value r) = region meta)
            results) as Hres.
  { destruct (ParallelMapFrom_rel (fetchClusterForRegion svc orc) (λ _, True)
                (λ x v _, clusterNodesInfo.err v = None →
                          ∃ meta, clusters svc !! clusterNodesInfo.clusterName v
                                  = Some meta
                                  ∧ clusterNodesInfo.region v = region meta))
      with (items := names) (index := 0) (w := w) as [Hall _]; [|done|].
    - intros x w' _. split; [|done].
      destruct (fetchClusterForRegion_record svc orc x w') as (_ & _ & Hn & Hr).
      intros Herr. specialize (Hr Herr). rewrite Hn.
      unfold GetClusterRegion in Hr. destruct (clusters svc !! x) as [meta|]; [|done].
      exists meta. split; [done|]. by injection Hr as <-.
    - eapply Forall2_right; [exact Hall|]. by intros x r Hx. }
  destruct (foldM_inv (processClusterForRegion svc orc targetRegion)
              (sameRecord w) P
              (λ r : Result clusterNodesInfo.t,
                 clusterNodesInfo.err (Value r) = None →
                 ∃ meta, clusters svc !! clusterNodesInfo.clusterName (Value r)
                         = Some meta
                         ∧ clusterNodesInfo.region (Value r) = region meta))
    with (l := results) (acc := res) (w := w1) as [HI' Hc'].
  { intros acc x w' Hx Hw'.
    destruct (processClusterForRegion_record targetRegion acc x w')
      as (Hs & Hcs & Hnone).
    split; [by eapply sameRecord_trans|].
    destruct (clusterNodesInfo.err (Value x)) as [e|] eqn:Herr.
    - rewrite Hnone by done. constructor.
    - destruct (Hx eq_refl) as (meta & Hmeta & Hregion).
      eapply Forall_impl; [exact Hcs|]. intros call (id & e & ->).
      exists (clusterNodesInfo.clusterName (Value x)), meta, id, e.
      by rewrite Hregion. }
  { done. }
  { done. }
  split; [done|]. by apply Forall_app.
Qed.

End activation_record_main.

Lemma bind_assoc {A B C} (m : M A) (f : A → M B) (g : B → M C) w :
  bind (bind m f) g w = bind m (λ x, bind (f x) g) w.
Proof.
  unfold bind. destruct (m w) as [[a w1] c1]. destruct (f a w1) as [[b w2] c2].
  destruct (g b w2) as [[c w3] c3]. by rewrite app_assoc.
Qed.

(** [ActivateDatacenter] and the etcd record. On a configured target the
    activation writes the etcd key exactly once: the target, activated by
    ["api"], stamped with the next two readings of the clock. When the write
    succeeds etcd holds that record and the instance's drained mark is
    cleared, whichever datacenter the instance manages. When it fails, the
    record in etcd and the mark are as before, and the activation still
    returns a result without a Go error; the last entry of its [Errors] is
    the failure. The health checker, when there is one, is told the region
    of the target as the last call. *)
Theorem ActivateDatacenter_records_target (svc : Service) (orc : Oracle)
  (targetDC : string) (meta : clusterMetadata) (w : World) :
  clusters svc !! targetDC = Some meta →
  let out := ActivateDatacenter svc orc targetDC w in
  let info := activationRecord orc w targetDC "api" in
  (∃ res, valueOf out = (Some res, None)
          ∧ ∀ e, etcd_put_err orc = Some e →
                 last (ActivationResult.Errors res)
                 = Some ("failed to write to etcd: "
                         +:+ ("failed to write active datacenter to etcd: " +:+ e)))
  ∧ filter (λ c, isWriteActiveDatacenter c = true) (callsOf out)
    = [WriteActiveDatacenterCall info
         ((λ e, "failed to write active datacenter to etcd: " +:+ e)
          <$> etcd_put_err orc)]
  ∧ match etcd_put_err orc with
    | None => etcd (worldOf out) = Some info ∧ amDrained (worldOf out) = false
    | Some _ => etcd (worldOf out) = etcd w ∧ amDrained (worldOf out) = amDrained w
    end
  ∧ (healthChecker svc = true →
     last (callsOf out) = Some (SetActiveRegionCall (region meta))).
Proof.
  intros Htarget out info. subst out.
  unfold ActivateDatacenter, GetClusterRegion. rewrite Htarget.
  set (res0 := ActivationResult.mk targetDC 0 0 []).
  rewrite <- (bind_assoc
                (ParallelMap (fetchClusterForDatacenter svc orc targetDC (region meta))
                   (GetClusterNames (clusters svc)))
                (λ rs, foldM (processClusterForDatacenter svc orc targetDC) rs res0)).
  destruct (ActivateDatacenter_loops_record svc orc targetDC (region meta)
              (GetClusterNames (clusters svc)) res0 w) as [Hsame Hcalls].
  cbv zeta in Hsame, Hcalls.
  set (loops := bind _ _) in *.
  rewrite valueOf_bind, worldOf_bind, callsOf_bind.
  destruct (activation_tail svc orc
              (if bool_decide (0 < ActivationResult.UnDrainedNodes (valueOf (loops w)))
               then
                 err <- TriggerJobEvaluations svc orc targetDC ;;
                 match err with
                 | Some e =>
                     ret (addError (valueOf (loops w))
                            ("failed to trigger job evaluations for "
                             +:+ targetDC +:+ ": " +:+ e))
                 | None => ret (valueOf (loops w))
                 end
               else ret (valueOf (loops w)))
              targetDC "api" true (region meta) w (worldOf (loops w)) Hsame)
    as (Hres & Hwrite & Hstate & Hlast & _).
  { intros w'. apply (triggerOne_spec svc orc targetDC (valueOf (loops w)) w'). }
  { intros w'. apply (triggerOne_spec svc orc targetDC (valueOf (loops w)) w'). }
  fold info in Hwrite, Hstate.
  split; [exact Hres|]. split; [|split].
  - rewrite filter_app, (isWrite_false_filter _ Hcalls). exact Hwrite.
  - exact Hstate.
  - intros Hh. rewrite last_app, (Hlast Hh). done.
Qed.

Lemma ActivateDatacenter_records_target_witness :
  clusters Example10.svcC !! "dcA" = Some {| name := "dcA"; region := "us" |}
  ∧ amDrained Example10.allDrained = true
  ∧ amDrained (worldOf (ActivateDatacenter Example10.svcC Example.allGood "dcA"
                          Example10.allDrained)) = false.
Proof.
  split; [done|]. split; [done|].
  apply (ActivateDatacenter_records_target Example10.svcC Example.allGood "dcA"
           {| name := "dcA"; region := "us" |} Example10.allDrained).
  done.
Defined.

Section region_record.
Context (svc : Service) (orc : Oracle).


End region_record.

(** [ActivateRegion] and the etcd record. The activation of a region with
    clusters writes the etcd key exactly once: the first cluster of the
    region, activated by ["api-region"], stamped with the next two readings
    of the clock. The instance's drained mark is cleared only when the write
    succeeds and that first cluster is the datacenter the instance manages;
    an instance that manages another cluster of the region keeps its mark.
    A failed write leaves the record in etcd and the mark as they were, and
    the activation still returns a result without a Go error; the last
    entry of its [Errors] is the failure. The health checker, when there is
    one, is told the region as the last call. *)
Theorem ActivateRegion_clears_mark_for_first_only (svc : Service) (orc : Oracle)
  (targetRegion : string) (first : string) (rest : list string) (w : World) :
  GetClustersByRegion (clusters svc) targetRegion = first :: rest →
  let out := ActivateRegion svc orc targetRegion w in
  let info := activationRecord orc w first "api-region" in
  (∃ res, valueOf out = (Some res, None)
          ∧ ∀ e, etcd_put_err orc = Some e →
                 last (ActivationResult.Errors res)
                 = Some ("failed to write to etcd: "
                         +:+ ("failed to write active datacenter to etcd: " +:+ e)))
  ∧ filter (λ c, isWriteActiveDatacenter c = true) (callsOf out)
    = [WriteActiveDatacenterCall info
         ((λ e, "failed to write active datacenter to etcd: " +:+ e)
          <$> etcd_put_err orc)]
  ∧ match etcd_put_err orc with
    | None =>
        etcd (worldOf out) = Some info
        ∧ amDrained (worldOf out)
          = (if bool_decide (first = myDatacenter svc) then false else amDrained w)
    | Some _ => etcd (worldOf out) = etcd w ∧ amDrained (worldOf out) = amDrained w
    end
  ∧ (healthChecker svc = true →
     last (callsOf out) = Some (SetActiveRegionCall targetRegion)).
Proof.
  intros Hregion out info. subst out. unfold ActivateRegion. rewrite Hregion.
  set (res0 := ActivationResult.mk targetRegion 0 0 []).
  rewrite <- (bind_assoc
                (ParallelMap (fetchClusterForRegion svc orc)
                   (GetClusterNames (clusters svc)))
                (λ rs, foldM (processClusterForRegion svc orc targetRegion) rs res0)).
  destruct (ActivateRegion_loops_record svc orc targetRegion res0 w) as [Hsame Hcalls].
  cbv zeta in Hsame, Hcalls.
  set (loops := bind _ _) in *.
  rewrite valueOf_bind, worldOf_bind, callsOf_bind.
  destruct (activation_tail svc orc
              (if bool_decide (0 < ActivationResult.UnDrainedNodes (valueOf (loops w)))
               then
                 evalErrors <- triggerAll svc orc (first :: rest) [] ;;
                 ret (ActivationResult.mk
                        (ActivationResult.Activated (valueOf (loops w)))
                        (ActivationResult.DrainedNodes (valueOf (loops w)))
                        (ActivationResult.UnDrainedNodes (valueOf (loops w)))
                        (ActivationResult.Errors (valueOf (loops w)) ++ evalErrors))
               else ret (valueOf (loops w)))
              first "api-region" (streq first (myDatacenter svc)) targetRegion
              w (worldOf (loops w)) Hsame)
    as (Hres & Hwrite & Hstate & Hlast & _).
  { intros w'. apply (triggerRegion_spec svc orc (first :: rest) (valueOf (loops w)) w'). }
  { intros w'. apply (triggerRegion_spec svc orc (first :: rest) (valueOf (loops w)) w'). }
  fold info in Hwrite, Hstate.
  split; [exact Hres|]. split; [|split].
  - rewrite filter_app, isWrite_false_filter; [exact Hwrite|].
    eapply Forall_impl; [exact Hcalls|]. by intros c (? & ? & ? & ? & _ & ->).
  - exact Hstate.
  - intros Hh. rewrite last_app, (Hlast Hh). done.
Qed.

Lemma ActivateRegion_clears_mark_for_first_only_witness :
  GetClustersByRegion (clusters Example10.svcC) "us" = ["dcA"; "dcC"]
  ∧ amDrained (worldOf (ActivateRegion Example10.svcC Example.allGood "us"
                          Example10.allDrained)) = true.
Proof.
  assert (GetClustersByRegion (clusters Example10.svcC) "us" = ["dcA"; "dcC"])
    as Hregion by (vm_compute; reflexivity).
  split; [exact Hregion|].
  apply (ActivateRegion_clears_mark_for_first_only Example10.svcC Example.allGood
           "us" "dcA" ["dcC"] Example10.allDrained Hregion).
Defined.


(** ** [config.Validate] *)

Lemma checkAddresses_None i clusters :
  config.checkAddresses i clusters = None
  ↔ Forall (λ cluster, config.ClusterConfig.Address cluster ≠ "") clusters.
Proof.
  revert i. induction clusters as [|cluster rest IH]; intros i; simpl.
  { split; [constructor | done]. }
  destruct (streq (config.ClusterConfig.Address cluster) "") eqn:Ha.
  - apply streq_true in Ha. split; [done|].
    intros H. apply Forall_cons in H as [H _]. done.
  - apply streq_false in Ha. rewrite IH. split.
    + intros H. by constructor.
    + intros H. by apply Forall_cons in H as [_ H].
Qed.

Lemma checkAddresses_first i clusters j cluster :
  clusters !! j = Some cluster →
  config.ClusterConfig.Address cluster = "" →
  (∀ k cl, k < j → clusters !! k = Some cl → config.ClusterConfig.Address cl ≠ "") →
  config.checkAddresses i clusters
  = Some ("cluster[" +:+ pretty (i + j) +:+ "].address is required").
Proof.
  revert i j. induction clusters as [|c0 rest IH]; intros i j Hj Ha Hbefore; [done|].
  simpl. destruct j as [|j].
  - injection Hj as ->. rewrite Ha. simpl. by rewrite Nat.add_0_r.
  - assert (config.ClusterConfig.Address c0 ≠ "") as Hc0.
    { apply (Hbefore 0 c0); [lia | done]. }
    apply streq_false in Hc0. rewrite Hc0.
    rewrite (IH (S i) j Hj Ha).
    + by replace (S i + j) with (i + S j) by lia.
    + intros k cl Hk Hcl. apply (Hbefore (S k) cl); [lia | done].
Qed.

Lemma orDefault_pos value default_ :
  (0 < default_)%Z → (0 < config.orDefault value default_)%Z.
Proof. intros Hd. unfold config.orDefault. case_bool_decide; lia. Qed.

Lemma Validate_accepts c :
  config.acceptable c →
  config.Validate c
  = (config.withClusterRetryInterval
       (config.withStaleThreshold
          (config.withMaxFailures
             (config.withUpdateInterval (config.withDialTimeout c)))), None).
Proof.
  intros (Haddr & Hcl & Hall & Hhc & Hmy & Hep). unfold config.Validate.
  apply streq_false in Haddr. rewrite Haddr.
  rewrite bool_decide_eq_false_2 by (by destruct (config.Config.Clusters c)).
  apply checkAddresses_None with (i := 0) in Hall. rewrite Hall.
  apply streq_false in Hmy. rewrite Hmy.
  rewrite (bool_decide_eq_false_2 (length _ = 0))
    by (by destruct (config.EtcdConfig.Endpoints (config.Config.Etcd c))).
  destruct (config.HealthCheckConfig.Enabled (config.Config.HealthCheck c)); [|done].
  destruct (Hhc eq_refl) as [Hi Ht].
  rewrite !bool_decide_eq_false_2 by lia. done.
Qed.

Lemma Validate_rejects c e :
  (config.Validate c).2 = Some e → ¬ config.acceptable c ∧ (config.Validate c).1 = c.
Proof.
  unfold config.Validate.
  destruct (streq (config.ServerConfig.Addr (config.Config.Server c)) "") eqn:Haddr.
  { apply streq_true in Haddr. intros _. split; [|done]. by intros (H & _). }
  case_bool_decide as Hcl.
  { intros _. split; [|done]. intros (_ & H & _).
    by destruct (config.Config.Clusters c). }
  destruct (config.checkAddresses 0 (config.Config.Clusters c)) as [e'|] eqn:Hchk.
  { intros _. split; [|done]. intros (_ & _ & H & _).
    apply checkAddresses_None with (i := 0) in H. congruence. }
  destruct (config.HealthCheckConfig.Enabled (config.Config.HealthCheck c)) eqn:Hen;
    simpl.
  - case_bool_decide as Hi.
    { intros _. split; [|done]. intros (_ & _ & _ & H & _).
      destruct (H Hen). lia. }
    case_bool_decide as Ht.
    { intros _. split; [|done]. intros (_ & _ & _ & H & _).
      destruct (H Hen). lia. }
    destruct (streq (config.Config.MyDatacenter c) "") eqn:Hmy.
    { apply streq_true in Hmy. intros _. split; [|done]. by intros (_ & _ & _ & _ & H & _). }
    case_bool_decide as Hep; [|done].
    intros _. split; [|done]. intros (_ & _ & _ & _ & _ & H).
    by destruct (config.EtcdConfig.Endpoints (config.Config.Etcd c)).
  - destruct (streq (config.Config.MyDatacenter c) "") eqn:Hmy.
    { apply streq_true in Hmy. intros _. split; [|done]. by intros (_ & _ & _ & _ & H & _). }
    case_bool_decide as Hep; [|done].
    intros _. split; [|done]. intros (_ & _ & _ & _ & _ & H).
    by destruct (config.EtcdConfig.Endpoints (config.Config.Etcd c)).
Qed.

Lemma Validate_None_acceptable c :
  (config.Validate c).2 = None → config.acceptable c.
Proof.
  unfold config.Validate, config.acceptable.
  destruct (streq (config.ServerConfig.Addr (config.Config.Server c)) "") eqn:Haddr;
    [done|].
  apply streq_false in Haddr.
  case_bool_decide as Hcl; [done|].
  destruct (config.checkAddresses 0 (config.Config.Clusters c)) as [e'|] eqn:Hchk;
    [done|].
  apply checkAddresses_None in Hchk.
  assert (config.Config.Clusters c ≠ []) as Hne.
  { intros Hnil. by rewrite Hnil in Hcl. }
  destruct (config.HealthCheckConfig.Enabled (config.Config.HealthCheck c)) eqn:Hen;
    simpl.
  - case_bool_decide as Hi; [done|]. case_bool_decide as Ht; [done|].
    destruct (streq (config.Config.MyDatacenter c) "") eqn:Hmy; [done|].
    apply streq_false in Hmy. case_bool_decide as Hep; [done|]. intros _.
    repeat split; try done; try lia.
    intros Hnil. by rewrite Hnil in Hep.
  - destruct (streq (config.Config.MyDatacenter c) "") eqn:Hmy; [done|].
    apply streq_false in Hmy. case_bool_decide as Hep; [done|]. intros _.
    repeat split; try done.
    intros Hnil. by rewrite Hnil in Hep.
Qed.

(** [Validate] accepts a configuration exactly when the server address, the
    local datacenter and the address of every cluster are non-empty, there
    is a cluster and an etcd endpoint, and an enabled health check has a
    positive interval and threshold. Names and regions of clusters may be
    empty. A rejected configuration is left as it was, and a missing
    cluster address is reported with the index of the first cluster that
    lacks one. *)
Theorem Validate_accepts_iff (c : config.Config.t) :
  ((config.Validate c).2 = None ↔ config.acceptable c)
  ∧ ((config.Validate c).2 ≠ None → (config.Validate c).1 = c)
  ∧ (∀ i cluster,
       config.ServerConfig.Addr (config.Config.Server c) ≠ "" →
       config.Config.Clusters c !! i = Some cluster →
       config.ClusterConfig.Address cluster = "" →
       (∀ k cl, k < i → config.Config.Clusters c !! k = Some cl →
                config.ClusterConfig.Address cl ≠ "") →
       (config.Validate c).2
       = Some ("cluster[" +:+ pretty i +:+ "].address is required")).
Proof.
  split; [|split].
  - split.
    + apply Validate_None_acceptable.
    + intros H. by rewrite (Validate_accepts c H).
  - destruct (config.Validate c).2 as [e|] eqn:He; [|done].
    intros _. by destruct (Validate_rejects c e He).
  - intros i cluster Haddr Hi Ha Hbefore. unfold config.Validate.
    apply streq_false in Haddr. rewrite Haddr.
    rewrite bool_decide_eq_false_2
      by (destruct (config.Config.Clusters c); [done | simpl; lia]).
    by rewrite (checkAddresses_first 0 _ i cluster Hi Ha Hbefore).
Qed.

Lemma withDefaults_fields c :
  let c' := config.withClusterRetryInterval
              (config.withStaleThreshold
                 (config.withMaxFailures
                    (config.withUpdateInterval (config.withDialTimeout c)))) in
  c' = config.Config.mk (config.Config.Server c) (config.Config.Cache c)
         (config.Config.HealthCheck c)
         (config.EtcdConfig.mk
            (config.EtcdConfig.Endpoints (config.Config.Etcd c))
            (config.orDefault (config.EtcdConfig.DialTimeout (config.Config.Etcd c))
               (5 * config.Second))
            (config.EtcdConfig.Username (config.Config.Etcd c))
            (config.EtcdConfig.Password (config.Config.Etcd c))
            (config.EtcdConfig.TLS (config.Config.Etcd c)))
         (config.HeartbeatConfig.mk
            (config.orDefault
               (config.HeartbeatConfig.UpdateInterval (config.Config.Heartbeat c))
               (30 * config.Second))
            (config.orDefault
               (config.HeartbeatConfig.MaxFailures (config.Config.Heartbeat c)) 3)
            (config.orDefault
               (config.HeartbeatConfig.StaleThreshold (config.Config.Heartbeat c))
               (2 * config.Minute)))
         (config.Config.MyDatacenter c)
         (config.orDefault (config.Config.ClusterRetryInterval c) (5 * config.Minute))
         (config.Config.Clusters c) (config.Config.SkipUnhealthyClusters c).
Proof.
  destruct c as [srv cache hc [ep dt un pw tls] [ui mf st] my cri cls skip].
  unfold config.withClusterRetryInterval, config.withStaleThreshold,
    config.withMaxFailures, config.withUpdateInterval, config.withDialTimeout,
    config.withHeartbeat, config.orDefault.
  cbn [config.Config.Etcd config.Config.Heartbeat config.EtcdConfig.DialTimeout
       config.HeartbeatConfig.UpdateInterval].
  destruct (bool_decide (dt ≤ 0)%Z);
    cbn [config.Config.Etcd config.Config.Heartbeat config.Config.Server
         config.Config.Cache config.Config.HealthCheck config.Config.MyDatacenter
         config.Config.ClusterRetryInterval config.Config.Clusters
         config.Config.SkipUnhealthyClusters
         config.EtcdConfig.DialTimeout config.EtcdConfig.Endpoints
         config.EtcdConfig.Username config.EtcdConfig.Password config.EtcdConfig.TLS
         config.HeartbeatConfig.UpdateInterval config.HeartbeatConfig.MaxFailures
         config.HeartbeatConfig.StaleThreshold];
    destruct (bool_decide (ui ≤ 0)%Z);
    cbn [config.Config.Etcd config.Config.Heartbeat config.Config.Server
         config.Config.Cache config.Config.HealthCheck config.Config.MyDatacenter
         config.Config.ClusterRetryInterval config.Config.Clusters
         config.Config.SkipUnhealthyClusters
         config.EtcdConfig.DialTimeout config.EtcdConfig.Endpoints
         config.EtcdConfig.Username config.EtcdConfig.Password config.EtcdConfig.TLS
         config.HeartbeatConfig.UpdateInterval config.HeartbeatConfig.MaxFailures
         config.HeartbeatConfig.StaleThreshold];
    destruct (bool_decide (mf ≤ 0)%Z);
    cbn [config.Config.Etcd config.Config.Heartbeat config.Config.Server
         config.Config.Cache config.Config.HealthCheck config.Config.MyDatacenter
         config.Config.ClusterRetryInterval config.Config.Clusters
         config.Config.SkipUnhealthyClusters
         config.EtcdConfig.DialTimeout config.EtcdConfig.Endpoints
         config.EtcdConfig.Username config.EtcdConfig.Password config.EtcdConfig.TLS
         config.HeartbeatConfig.UpdateInterval config.HeartbeatConfig.MaxFailures
         config.HeartbeatConfig.StaleThreshold];
    destruct (bool_decide (st ≤ 0)%Z);
    cbn [config.Config.Etcd config.Config.Heartbeat config.Config.Server
         config.Config.Cache config.Config.HealthCheck config.Config.MyDatacenter
         config.Config.ClusterRetryInterval config.Config.Clusters
         config.Config.SkipUnhealthyClusters
         config.EtcdConfig.DialTimeout config.EtcdConfig.Endpoints
         config.EtcdConfig.Username config.EtcdConfig.Password config.EtcdConfig.TLS
         config.HeartbeatConfig.UpdateInterval config.HeartbeatConfig.MaxFailures
         config.HeartbeatConfig.StaleThreshold];
    destruct (bool_decide (cri ≤ 0)%Z); reflexivity.
Qed.

Lemma orDefault_idem value default_ :
  (0 < default_)%Z →
  config.orDefault (config.orDefault value default_) default_
  = config.orDefault value default_.
Proof. intros Hd. unfold config.orDefault. repeat case_bool_decide; lia. Qed.

(** [Validate] and the defaults. On a configuration it accepts, [Validate]
    replaces each of the etcd dial timeout, the heartbeat update interval,
    [max_failures], the stale threshold and the cluster retry interval by
    its default (5 s, 30 s, 3, 2 min, 5 min) when the value is zero or
    negative, and keeps it otherwise; afterwards all five are positive.
    Nothing else changes, and validating the result again accepts it and
    changes nothing. *)
Theorem Validate_fills_defaults (c : config.Config.t) :
  config.acceptable c →
  let c' := (config.Validate c).1 in
  (config.Validate c).2 = None
  ∧ config.EtcdConfig.DialTimeout (config.Config.Etcd c')
    = config.orDefault (config.EtcdConfig.DialTimeout (config.Config.Etcd c))
        (5 * config.Second)
  ∧ config.HeartbeatConfig.UpdateInterval (config.Config.Heartbeat c')
    = config.orDefault
        (config.HeartbeatConfig.UpdateInterval (config.Config.Heartbeat c))
        (30 * config.Second)
  ∧ config.HeartbeatConfig.MaxFailures (config.Config.Heartbeat c')
    = config.orDefault
        (config.HeartbeatConfig.MaxFailures (config.Config.Heartbeat c)) 3
  ∧ config.HeartbeatConfig.StaleThreshold (config.Config.Heartbeat c')
    = config.orDefault
        (config.HeartbeatConfig.StaleThreshold (config.Config.Heartbeat c))
        (2 * config.Minute)
  ∧ config.Config.ClusterRetryInterval c'
    = config.orDefault (config.Config.ClusterRetryInterval c) (5 * config.Minute)
  ∧ ((0 < config.EtcdConfig.DialTimeout (config.Config.Etcd c'))%Z
     ∧ (0 < config.HeartbeatConfig.UpdateInterval (config.Config.Heartbeat c'))%Z
     ∧ (0 < config.HeartbeatConfig.MaxFailures (config.Config.Heartbeat c'))%Z
     ∧ (0 < config.HeartbeatConfig.StaleThreshold (config.Config.Heartbeat c'))%Z
     ∧ (0 < config.Config.ClusterRetryInterval c')%Z)
  ∧ (config.Config.Server c' = config.Config.Server c
     ∧ config.Config.Cache c' = config.Config.Cache c
     ∧ config.Config.HealthCheck c' = config.Config.HealthCheck c
     ∧ config.Config.MyDatacenter c' = config.Config.MyDatacenter c
     ∧ config.Config.Clusters c' = config.Config.Clusters c
     ∧ config.Config.SkipUnhealthyClusters c' = config.Config.SkipUnhealthyClusters c
     ∧ config.EtcdConfig.Endpoints (config.Config.Etcd c')
       = config.EtcdConfig.Endpoints (config.Config.Etcd c)
     ∧ config.EtcdConfig.Username (config.Config.Etcd c')
       = config.EtcdConfig.Username (config.Config.Etcd c)
     ∧ config.EtcdConfig.Password (config.Config.Etcd c')
       = config.EtcdConfig.Password (config.Config.Etcd c)
     ∧ config.EtcdConfig.TLS (config.Config.Etcd c')
       = config.EtcdConfig.TLS (config.Config.Etcd c))
  ∧ config.Validate c' = (c', None).
Proof.
  intros Hacc c'. subst c'. rewrite (Validate_accepts c Hacc).
  cbn [fst snd]. rewrite (withDefaults_fields c).
  set (c' := config.Config.mk _ _ _ _ _ _ _ _ _).
  assert ((0 < 5 * config.Second)%Z ∧ (0 < 30 * config.Second)%Z
          ∧ (0 < 2 * config.Minute)%Z ∧ (0 < 5 * config.Minute)%Z)
    as (H5 & H30 & H2 & H5m) by (unfold config.Minute, config.Second; lia).
  split; [done|]. do 5 (split; [done|]).
  split.
  { subst c'. cbn. repeat split; apply orDefault_pos; done || lia. }
  split; [done|].
  assert (config.acceptable c') as Hacc'.
  { exact Hacc. }
  rewrite (Validate_accepts c' Hacc'), (withDefaults_fields c'). f_equal.
  subst c'. cbn.
  rewrite !orDefault_idem by (done || lia). done.
Qed.

Lemma Validate_fills_defaults_witness :
  config.acceptable Example11.cfg
  ∧ config.Config.Heartbeat (config.Validate Example11.cfg).1
    = config.HeartbeatConfig.mk 30000000000 5 120000000000.
Proof.
  assert (config.acceptable Example11.cfg) as Hacc.
  { apply Validate_None_acceptable. reflexivity. }
  split; [exact Hacc|].
  destruct (Validate_fills_defaults Example11.cfg Hacc)
    as (_ & _ & Hu & Hm & Hs & _).
  destruct (config.Config.Heartbeat (config.Validate Example11.cfg).1) as [u m s].
  simpl in Hu, Hm, Hs. rewrite Hu, Hm, Hs. reflexivity.
Defined.

(** ** [NewNomadRepository] *)

Lemma detectClusterInfo_nonempty agent datacenter region :
  detectClusterInfo agent = Ok (datacenter, region) →
  datacenter ≠ "" ∧ region ≠ "".
Proof.
  unfold detectClusterInfo.
  destruct (NomadAgent.Self agent) as [[[dv rv]|]|e]; try done.
  destruct dv as [| |dc]; try done.
  destruct (streq dc "") eqn:Hdc; [done|]. apply streq_false in Hdc.
  intros [= <- <-]. split; [done|].
  destruct rv as [| |rs]; try done.
  destruct (streq rs "") eqn:Hrs; simpl; [done|]. by apply streq_false in Hrs.
Qed.

Lemma nameAndRegion_nonempty i cluster agent n r :
  nameAndRegion i cluster agent = (n, r) → n ≠ "" ∧ r ≠ "".
Proof.
  unfold nameAndRegion.
  destruct (streq (config.ClusterConfig.Name cluster) "") eqn:Hn;
    destruct (streq (config.ClusterConfig.Region cluster) "") eqn:Hr; simpl;
    try apply streq_false in Hn; try apply streq_false in Hr.
  - destruct (detectClusterInfo agent) as [[dn dr]|e] eqn:Hd.
    + intros [= <- <-]. by apply detectClusterInfo_nonempty in Hd.
    + by intros [= <- <-].
  - destruct (detectClusterInfo agent) as [[dn dr]|e] eqn:Hd.
    + intros [= <- <-]. apply detectClusterInfo_nonempty in Hd as [? _]. done.
    + by intros [= <- <-].
  - destruct (detectClusterInfo agent) as [[dn dr]|e] eqn:Hd.
    + intros [= <- <-]. apply detectClusterInfo_nonempty in Hd as [_ ?]. done.
    + by intros [= <- <-].
  - by intros [= <- <-].
Qed.

Lemma nameAndRegion_given i cluster agent :
  config.ClusterConfig.Name cluster ≠ "" →
  config.ClusterConfig.Region cluster ≠ "" →
  nameAndRegion i cluster agent
  = (config.ClusterConfig.Name cluster, config.ClusterConfig.Region cluster).
Proof.
  intros Hn Hr. unfold nameAndRegion.
  apply streq_false in Hn. apply streq_false in Hr. by rewrite Hn, Hr.
Qed.

Lemma app_nonempty (a b : string) : a ≠ "" → a +:+ b ≠ "".
Proof. by destruct a. Qed.

Lemma clusterKeyFor_nonempty (clusters : clusterTable) n r :
  n ≠ "" → clusterKeyFor clusters n r ≠ "".
Proof.
  intros Hn. unfold clusterKeyFor. case_bool_decide; [|done]. by apply app_nonempty.
Qed.

(** The invariant of the table under construction. *)
Lemma initClusters_invariant skip agents cfgs :
  ∀ i (clusters table : clusterTable),
    initClusters skip agents i cfgs clusters = Ok table →
    (keyedByName clusters
     ∧ ∀ key meta, clusters !! key = Some meta → key ≠ "" ∧ region meta ≠ "") →
    (keyedByName table
     ∧ ∀ key meta, table !! key = Some meta → key ≠ "" ∧ region meta ≠ "")
    ∧ (∀ key, is_Some (clusters !! key) → is_Some (table !! key))
    ∧ size table ≤ size clusters + length cfgs
    ∧ ((∃ j, j < length cfgs ∧ usable agents (i + j)) → table ≠ ∅).
Proof.
  induction cfgs as [|cluster rest IH]; intros i clusters table Hrun Hinv.
  { simpl in Hrun. injection Hrun as <-. split; [done|]. split; [done|].
    split; [simpl; lia|]. intros (j & Hj & _). simpl in Hj. lia. }
  simpl in Hrun.
  destruct (NomadAgent.create_err (agents i)) as [e|] eqn:Hcreate; [done|].
  destruct (checkClusterHealth (agents i)) as [healthErr|] eqn:Hhealth.
  - destruct skip; [|done].
    destruct (IH (S i) clusters table Hrun Hinv) as (Hinv' & Hdom & Hsize & Hne).
    split; [done|]. split; [done|]. split; [simpl; lia|].
    intros (j & Hj & Hu). destruct j as [|j].
    + rewrite Nat.add_0_r in Hu. destruct Hu as [_ Hu]. congruence.
    + apply Hne. exists j. split; [simpl in Hj; lia|].
      by replace (S i + j) with (i + S j) by lia.
  - destruct (nameAndRegion i cluster (agents i)) as [n r] eqn:Hnr.
    apply nameAndRegion_nonempty in Hnr as [Hn Hr].
    set (key := clusterKeyFor clusters n r) in *.
    assert (key ≠ "") as Hkey by by apply clusterKeyFor_nonempty.
    destruct (IH (S i) _ table Hrun) as (Hinv' & Hdom & Hsize & _).
    { destruct Hinv as [Hk Hne]. split.
      - intros k meta. destruct (decide (k = key)) as [->|Hneq].
        + rewrite lookup_insert_eq. by intros [= <-].
        + rewrite lookup_insert_ne by done. apply Hk.
      - intros k meta. destruct (decide (k = key)) as [->|Hneq].
        + rewrite lookup_insert_eq. by intros [= <-].
        + rewrite lookup_insert_ne by done. apply Hne. }
    split; [done|]. split; [|split].
    + intros k Hk. apply Hdom. destruct (decide (k = key)) as [->|Hneq].
      * by rewrite lookup_insert_eq.
      * by rewrite lookup_insert_ne.
    + etransitivity; [exact Hsize|].
      rewrite map_size_insert. destruct (clusters !! key); simpl; lia.
    + intros _ Hempty.
      assert (is_Some (table !! key)) as [m Hm].
      { apply Hdom. by rewrite lookup_insert_eq. }
      by rewrite Hempty, lookup_empty in Hm.
Qed.

Lemma initClusters_Err_iff skip agents cfgs :
  ∀ i (clusters : clusterTable),
    (∃ e, initClusters skip agents i cfgs clusters = Err e)
    ↔ ∃ j, j < length cfgs ∧ stopsAt skip agents (i + j).
Proof.
  induction cfgs as [|cluster rest IH]; intros i clusters; simpl.
  { split; [by intros [e ?] | intros (j & Hj & _); lia]. }
  assert (∀ P : nat → Prop,
            (∃ j, j < S (length rest) ∧ P (i + j))
            ↔ P i ∨ ∃ j, j < length rest ∧ P (S i + j)) as Hsplit.
  { intros P. split.
    - intros ([|j] & Hj & HP).
      + left. by rewrite Nat.add_0_r in HP.
      + right. exists j. split; [lia|]. by replace (S i + j) with (i + S j) by lia.
    - intros [HP|(j & Hj & HP)].
      + exists 0. split; [lia|]. by rewrite Nat.add_0_r.
      + exists (S j). split; [lia|]. by replace (i + S j) with (S i + j) by lia. }
  rewrite Hsplit. unfold stopsAt at 1.
  destruct (NomadAgent.create_err (agents i)) as [e|] eqn:Hcreate.
  { split; [intros _; by left; left | intros _; eauto]. }
  destruct (checkClusterHealth (agents i)) as [healthErr|] eqn:Hhealth.
  - destruct skip.
    + rewrite IH. split; [by right|]. intros [[?|[? _]]|?]; done.
    + split; [intros _; left; by right | intros _; eauto].
  - destruct (nameAndRegion i cluster (agents i)) as [n r].
    rewrite IH. split; [by right|]. intros [[?|[_ ?]]|?]; done.
Qed.

Lemma initClusters_none_usable skip agents cfgs :
  ∀ i (clusters table : clusterTable),
    initClusters skip agents i cfgs clusters = Ok table →
    (∀ j, j < length cfgs → ¬ usable agents (i + j)) →
    table = clusters.
Proof.
  induction cfgs as [|cluster rest IH]; intros i clusters table Hrun Hnone.
  { simpl in Hrun. by injection Hrun as <-. }
  simpl in Hrun.
  destruct (NomadAgent.create_err (agents i)) as [e|] eqn:Hcreate; [done|].
  destruct (checkClusterHealth (agents i)) as [healthErr|] eqn:Hhealth.
  - destruct skip; [|done]. apply (IH (S i) clusters table Hrun).
    intros j Hj. replace (S i + j) with (i + S j) by lia.
    apply Hnone. simpl. lia.
  - destruct (Hnone 0); [simpl; lia|]. by rewrite Nat.add_0_r.
Qed.

(** The table [NewNomadRepository] returns. Every cluster sits under its
    own name, the table is not empty, and no cluster has an empty name or
    an empty region, also when the configuration leaves names and regions
    out and the agents cannot be asked. The table may hold fewer clusters
    than are configured. *)
Theorem NewNomadRepository_table_invariant (cfg : config.Config.t)
  (agents : nat → NomadAgent.t) (table : clusterTable) :
  NewNomadRepository cfg agents = Ok table →
  keyedByName table
  ∧ table ≠ ∅
  ∧ (∀ key meta, table !! key = Some meta → key ≠ "" ∧ region meta ≠ "")
  ∧ size table ≤ length (config.Config.Clusters cfg).
Proof.
  unfold NewNomadRepository.
  destruct (initClusters _ agents 0 (config.Config.Clusters cfg) ∅)
    as [clusters|e] eqn:Hrun; [|done].
  case_bool_decide as Hsize; [done|]. intros [= <-].
  destruct (initClusters_invariant _ agents _ 0 ∅ clusters Hrun)
    as ((Hk & Hne) & _ & Hsz & _).
  { split; [intros key meta | intros key meta]; by rewrite lookup_empty. }
  split; [done|]. split; [|split; [done|]].
  - intros Hempty. apply Hsize. by rewrite Hempty, map_size_empty.
  - by rewrite map_size_empty in Hsz.
Qed.

Lemma NewNomadRepository_table_invariant_witness :
  ∃ table, NewNomadRepository Example11.cfg (λ _, Example11.healthy) = Ok table
           ∧ keyedByName table.
Proof.
  eexists. split; [vm_compute; reflexivity|].
  eapply (NewNomadRepository_table_invariant Example11.cfg (λ _, Example11.healthy)).
  vm_compute. reflexivity.
Defined.

(** When [NewNomadRepository] fails. It returns an error exactly when some
    configured cluster stops it (no client can be made for it, or it is
    unhealthy and unhealthy clusters are not skipped) or no configured
    cluster is usable; when none stops it and none is usable the error is
    ["no healthy clusters available"]. *)
Theorem NewNomadRepository_fails_iff (cfg : config.Config.t)
  (agents : nat → NomadAgent.t) :
  let n := length (config.Config.Clusters cfg) in
  let skip := config.Config.SkipUnhealthyClusters cfg in
  ((∃ e, NewNomadRepository cfg agents = Err e)
   ↔ (∃ i, i < n ∧ stopsAt skip agents i) ∨ (∀ i, i < n → ¬ usable agents i))
  ∧ ((∀ i, i < n → ¬ stopsAt skip agents i) →
     (∀ i, i < n → ¬ usable agents i) →
     NewNomadRepository cfg agents = Err "no healthy clusters available").
Proof.
  intros n skip. unfold NewNomadRepository. fold skip.
  pose proof (initClusters_Err_iff skip agents (config.Config.Clusters cfg) 0 ∅)
    as Herr. fold n in Herr.
  destruct (initClusters skip agents 0 (config.Config.Clusters cfg) ∅)
    as [clusters|e] eqn:Hrun.
  - destruct (initClusters_invariant skip agents _ 0 ∅ clusters Hrun)
      as (_ & _ & _ & Hne).
    { split; [intros key meta | intros key meta]; by rewrite lookup_empty. }
    fold n in Hne.
    assert (¬ ∃ i, i < n ∧ stopsAt skip agents i) as Hnostop.
    { intros Hs. apply Herr in Hs as [e ?]. done. }
    assert (size clusters = 0 ↔ ∀ i, i < n → ¬ usable agents i) as Hsize.
    { split.
      - intros Hsz i Hi Hu. apply Hne; [eauto|]. by apply map_size_empty_iff.
      - intros Hnone.
        rewrite (initClusters_none_usable skip agents _ 0 ∅ clusters Hrun Hnone).
        apply map_size_empty. }
    split.
    + case_bool_decide as Hsz.
      * split; [intros _; right; by apply Hsize | eauto].
      * split; [by intros [e ?]|]. intros [Hs|Hnone]; [done|].
        by apply Hsize in Hnone.
    + intros _ Hnone. apply Hsize in Hnone. by rewrite bool_decide_eq_true_2.
  - split.
    + split; [intros _; left; apply Herr; eauto | eauto].
    + intros Hnostop _. exfalso.
      destruct (proj1 Herr (ex_intro _ e eq_refl)) as (i & Hi & Hs).
      by apply (Hnostop i Hi).
Qed.

Lemma clusterKeyFor_fresh (clusters : clusterTable) n r :
  clusters !! n = None → clusterKeyFor clusters n r = n.
Proof.
  intros Hn. unfold clusterKeyFor. rewrite bool_decide_eq_false_2; [done|].
  rewrite Hn. by intros [? ?].
Qed.

Lemma initClusters_named skip agents cfgs :
  ∀ i (clusters : clusterTable),
    (∀ j, j < length cfgs → usable agents (i + j)) →
    Forall (λ c, config.ClusterConfig.Name c ≠ ""
                 ∧ config.ClusterConfig.Region c ≠ "") cfgs →
    NoDup (config.ClusterConfig.Name <$> cfgs) →
    (∀ c, c ∈ cfgs → clusters !! config.ClusterConfig.Name c = None) →
    ∃ table,
      initClusters skip agents i cfgs clusters = Ok table
      ∧ ∀ key meta,
          table !! key = Some meta
          ↔ clusters !! key = Some meta
            ∨ ∃ c, c ∈ cfgs ∧ key = config.ClusterConfig.Name c
                   ∧ meta = {| name := config.ClusterConfig.Name c;
                               region := config.ClusterConfig.Region c |}.
Proof.
  induction cfgs as [|cluster rest IH]; intros i clusters Husable Hnames Hnodup Hfresh.
  { exists clusters. split; [done|]. intros key meta. split; [by left|].
    intros [?|(c & Hc & _)]; [done|]. by apply elem_of_nil in Hc. }
  simpl. destruct (Husable 0) as [Hcreate Hhealth]; [simpl; lia|].
  rewrite Nat.add_0_r in Hcreate, Hhealth. rewrite Hcreate, Hhealth.
  apply Forall_cons in Hnames as [[Hn Hr] Hnames].
  rewrite fmap_cons in Hnodup. apply NoDup_cons in Hnodup as [Hnotin Hnodup].
  rewrite (nameAndRegion_given i cluster (agents i) Hn Hr).
  rewrite clusterKeyFor_fresh by (apply Hfresh; by left).
  set (n := config.ClusterConfig.Name cluster) in *.
  set (r := config.ClusterConfig.Region cluster) in *.
  destruct (IH (S i) (<[n := {| name := n; region := r |}]> clusters))
    as (table & Hrun & Hlookup).
  { intros j Hj. replace (S i + j) with (i + S j) by lia. apply Husable. simpl. lia. }
  { done. }
  { done. }
  { intros c Hc. rewrite lookup_insert_ne; [apply Hfresh; by right|].
    intros Heq. apply Hnotin. rewrite Heq. apply list_elem_of_fmap. by exists c. }
  exists table. split; [done|]. intros key meta. rewrite Hlookup. split.
  - intros [Hins|(c & Hc & -> & ->)].
    + destruct (decide (key = n)) as [->|Hne].
      * rewrite lookup_insert_eq in Hins. injection Hins as <-.
        right. exists cluster. split; [by left | done].
      * rewrite lookup_insert_ne in Hins by done. by left.
    + right. exists c. split; [by right | done].
  - intros [Hold|(c & Hc & -> & ->)].
    + left. rewrite lookup_insert_ne; [done|]. intros Heq.
      assert (clusters !! n = None) as Hn' by (apply Hfresh; by left).
      rewrite Heq in Hn'. congruence.
    + apply elem_of_cons in Hc as [->|Hc].
      * left. by rewrite lookup_insert_eq.
      * right. by exists c.
Qed.

(** The usual configuration. When every configured cluster carries a name
    and a region, the names differ, a client can be made for every cluster
    and every cluster is healthy, [NewNomadRepository] succeeds and its
    table holds exactly the configured clusters, each under its configured
    name with its configured region; the agents are not asked for names. *)
Theorem NewNomadRepository_named_clusters (cfg : config.Config.t)
  (agents : nat → NomadAgent.t) :
  config.Config.Clusters cfg ≠ [] →
  (∀ i, i < length (config.Config.Clusters cfg) → usable agents i) →
  Forall (λ c, config.ClusterConfig.Name c ≠ ""
               ∧ config.ClusterConfig.Region c ≠ "") (config.Config.Clusters cfg) →
  NoDup (config.ClusterConfig.Name <$> config.Config.Clusters cfg) →
  ∃ table,
    NewNomadRepository cfg agents = Ok table
    ∧ ∀ key meta,
        table !! key = Some meta
        ↔ ∃ c, c ∈ config.Config.Clusters cfg
               ∧ key = config.ClusterConfig.Name c
               ∧ meta = {| name := config.ClusterConfig.Name c;
                           region := config.ClusterConfig.Region c |}.
Proof.
  intros Hne Husable Hnames Hnodup. unfold NewNomadRepository.
  destruct (initClusters_named (config.Config.SkipUnhealthyClusters cfg) agents
              (config.Config.Clusters cfg) 0 ∅) as (table & -> & Hlookup); try done.
  assert (∀ key meta,
            table !! key = Some meta
            ↔ ∃ c, c ∈ config.Config.Clusters cfg
                   ∧ key = config.ClusterConfig.Name c
                   ∧ meta = {| name := config.ClusterConfig.Name c;
                               region := config.ClusterConfig.Region c |}) as Hl.
  { intros key meta. rewrite Hlookup. split; [|by right].
    intros [Hempty|?]; [|done]. by rewrite lookup_empty in Hempty. }
  exists table. split; [|exact Hl].
  rewrite bool_decide_eq_false_2; [done|].
  destruct (config.Config.Clusters cfg) as [|c rest] eqn:Hcl; [done|].
  intros Hsize. apply map_size_empty_iff in Hsize.
  assert (table !! config.ClusterConfig.Name c
          = Some {| name := config.ClusterConfig.Name c;
                    region := config.ClusterConfig.Region c |}) as Hc.
  { apply Hl. exists c. split; [by left | done]. }
  by rewrite Hsize, lookup_empty in Hc.
Qed.

Lemma NewNomadRepository_named_clusters_witness :
  ∃ table, NewNomadRepository Example11.cfg (λ _, Example11.healthy) = Ok table
           ∧ table !! "dcB" = Some {| name := "dcB"; region := "eu" |}.
Proof.
  destruct (NewNomadRepository_named_clusters Example11.cfg (λ _, Example11.healthy))
    as (table & Hrun & Hlookup).
  - done.
  - intros i _. split; reflexivity.
  - repeat constructor; done.
  - cbn. apply NoDup_cons. split; [|apply NoDup_singleton].
    intros Hin. apply list_elem_of_singleton in Hin. discriminate.
  - exists table. split; [exact Hrun|]. apply Hlookup.
    exists (config.ClusterConfig.mk "dcB" "eu" "http://b:4646" None).
    split; [|done]. right. left.
Defined.

(** ** The health checker *)

Section healthcheck_facts.
Context (cfg : config.HealthCheckConfig.t) (svc : Service) (orc : Oracle)
  (status_leader : string → result string).

Lemma ListRegions_quiet w :
  readOnly svc orc w (worldOf (ListRegions svc orc w))
  ∧ callsOf (ListRegions svc orc w) = [].
Proof.
  unfold ListRegions, ParallelMap. rewrite worldOf_bind, callsOf_bind. simpl.
  destruct (ParallelMapFrom_quiet
              (λ regionName,
                 r <- getRegionInfo svc orc regionName ;;
                 match r.2 with
                 | Some _ =>
                     ret (Region.mk regionName [] DatacenterStatusError 0 0 0,
                          @None string)
                 | None => ret (r.1, None)
                 end) (readOnly svc orc w))
    with (items := GetAllRegions (clusters svc)) (index := 0) (w := w) as [Hro ->].
  - intros x w' Hw'. rewrite worldOf_bind, callsOf_bind.
    destruct (getRegionInfo_quiet svc orc x w w' Hw') as (Hro & -> & _).
    by destruct (valueOf (getRegionInfo svc orc x w')).2.
  - apply readOnly_refl.
  - done.
Qed.

Lemma GetRegionDatacenters_quiet region w :
  readOnly svc orc w (worldOf (GetRegionDatacenters svc orc region w))
  ∧ callsOf (GetRegionDatacenters svc orc region w) = [].
Proof.
  unfold GetRegionDatacenters. rewrite worldOf_bind, callsOf_bind.
  destruct (getRegionInfo_quiet svc orc region w w (readOnly_refl svc orc w))
    as (Hro & -> & _).
  by destruct (valueOf (getRegionInfo svc orc region w)).2.
Qed.

Lemma syncActiveRegion_spec c w :
  let out := syncActiveRegion svc orc c w in
  readOnly svc orc w (worldOf out)
  ∧ callsOf out = []
  ∧ (valueOf out = c
     ∨ Checker.activeRegion (valueOf out) ≠ Checker.activeRegion c
       ∧ Checker.failureCounter (valueOf out) = ∅).
Proof.
  unfold syncActiveRegion, detectActiveRegion. simpl.
  rewrite !worldOf_bind, !callsOf_bind, !valueOf_bind.
  destruct (ListRegions_quiet w) as [Hro ->].
  destruct (valueOf (ListRegions svc orc w)).2; simpl; [by eauto|].
  destruct (streq (firstActiveRegion _) "") eqn:He; simpl; [by eauto|].
  destruct (streq (Checker.activeRegion c) _) eqn:Hc; simpl; [by eauto|].
  apply streq_false in Hc. split; [done|]. split; [done|]. right. by split.
Qed.

Lemma checkRegionLeader_quiet region w :
  readOnly svc orc w (worldOf (checkRegionLeader svc orc status_leader region w))
  ∧ callsOf (checkRegionLeader svc orc status_leader region w) = [].
Proof.
  unfold checkRegionLeader. rewrite worldOf_bind, callsOf_bind.
  destruct (GetRegionDatacenters_quiet region w) as [Hro ->].
  destruct (valueOf (GetRegionDatacenters svc orc region w)) as [details|e]; [|done].
  by destruct (Region.Datacenters details).
Qed.



Lemma failuresIn_setFailures region n c r :
  failuresIn (setFailures region n c) r
  = if bool_decide (r = region) then n else failuresIn c r.
Proof.
  unfold failuresIn, setFailures. simpl. case_bool_decide as Hr.
  - subst r. by rewrite lookup_insert_eq.
  - by rewrite lookup_insert_ne.
Qed.


End healthcheck_facts.

Lemma wrapInt_bounds z :
  (- 2 ^ 63 ≤ wrapInt z)%Z ∧ ((- 2 ^ 63 ≤ z)%Z → (wrapInt z ≤ z)%Z).
Proof.
  unfold wrapInt.
  assert (2 ^ 63 = 9223372036854775808)%Z as -> by reflexivity.
  assert (2 ^ 64 = 18446744073709551616)%Z as -> by reflexivity.
  pose proof (Z.mod_pos_bound (z + 9223372036854775808) 18446744073709551616) as Hb.
  split; [lia|]. intros Hz.
  pose proof (Z.mod_le (z + 9223372036854775808) 18446744073709551616) as Hle.
  lia.
Qed.



(** One check of a checker whose counters are all at most [j], with
    [j + 1] below the threshold: no call, and the counters are at most
    [j + 1]. *)
Lemma performCheck_quiet_below (cfg : config.HealthCheckConfig.t)
  (svc : Service) (orc : Oracle) (status_leader : string → result string)
  (j : Z) (c : Checker.t) (w : World) :
  (0 ≤ j)%Z →
  countersAtMost j c →
  (j + 1 < config.HealthCheckConfig.FailedThreshold cfg)%Z →
  callsOf (performCheck cfg svc orc status_leader c w) = []
  ∧ countersAtMost (j + 1) (valueOf (performCheck cfg svc orc status_leader c w)).
Proof.
  intros Hj Hcount Hth. unfold performCheck.
  rewrite !valueOf_bind, !callsOf_bind.
  destruct (syncActiveRegion_spec svc orc c w) as (_ & -> & Hc1).
  cbv zeta in Hc1.
  set (c1 := valueOf (syncActiveRegion svc orc c w)) in *.
  set (w1 := worldOf (syncActiveRegion svc orc c w)) in *.
  assert (2 ^ 63 = 9223372036854775808)%Z as Hpow by reflexivity.
  assert (countersAtMost j c1) as Hcount1.
  { destruct Hc1 as [->|[_ Hempty]]; [done|].
    intros r. unfold failuresIn. rewrite Hempty, lookup_empty. simpl. lia. }
  assert (∀ n, (- 2 ^ 63 ≤ n ≤ j + 1)%Z →
               countersAtMost (j + 1) (setFailures (Checker.activeRegion c1) n c1))
    as Hset.
  { intros n Hn r. rewrite failuresIn_setFailures. case_bool_decide; [done|].
    specialize (Hcount1 r). lia. }
  destruct (streq (Checker.activeRegion c1) "") eqn:Hempty.
  { simpl. split; [done|]. intros r. specialize (Hcount1 r). lia. }
  rewrite !valueOf_bind, !callsOf_bind.
  destruct (checkRegionLeader_quiet svc orc status_leader (Checker.activeRegion c1) w1)
    as (_ & ->).
  set (w2 := worldOf (checkRegionLeader svc orc status_leader
                        (Checker.activeRegion c1) w1)) in *.
  assert (callsOf (handleFailure cfg svc orc (Checker.activeRegion c1) c1 w2) = []
          ∧ countersAtMost (j + 1)
              (valueOf (handleFailure cfg svc orc (Checker.activeRegion c1) c1 w2)))
    as Hfail.
  { pose proof (Hcount1 (Checker.activeRegion c1)) as Hx.
    destruct (wrapInt_bounds (failuresIn c1 (Checker.activeRegion c1) + 1))
      as [Hlo Hle].
    unfold handleFailure. rewrite bool_decide_eq_false_2 by lia.
    simpl. split; [done|]. apply Hset. lia. }
  destruct (valueOf (checkRegionLeader svc orc status_leader
                       (Checker.activeRegion c1) w1)) as [[|]|e]; simpl.
  - split; [done|]. apply Hset. lia.
  - exact Hfail.
  - exact Hfail.
Qed.

Lemma performChecks_quiet (cfg : config.HealthCheckConfig.t) (svc : Service)
  (checks : list Check) :
  ∀ (j : Z) (c : Checker.t),
    (0 ≤ j)%Z →
    countersAtMost j c →
    (j + Z.of_nat (length checks) < config.HealthCheckConfig.FailedThreshold cfg)%Z →
    Forall (λ calls, calls = []) (performChecks cfg svc checks c).2.
Proof.
  induction checks as [|t rest IH]; intros j c Hj Hcount Hth; [constructor|].
  simpl.
  destruct (performCheck_quiet_below cfg svc (check_orc t) (check_leader t) j c
              (check_world t) Hj Hcount) as [Hnil Hcount'].
  { simpl length in Hth. lia. }
  specialize (IH (j + 1)%Z
                (valueOf (performCheck cfg svc (check_orc t) (check_leader t) c
                            (check_world t)))).
  destruct (performChecks cfg svc rest _) as [c' calls]. simpl.
  constructor; [done|]. apply IH; [lia | done | simpl length in Hth; lia].
Qed.

(** A checker that has just been created drains nothing before its
    threshold: with fewer checks than [failed_threshold], no check issues a
    call, whatever the clusters answer and however the world changes
    between the checks. *)
Theorem Checker_quiet_before_threshold (cfg : config.HealthCheckConfig.t)
  (svc : Service) (checks : list Check) :
  (Z.of_nat (length checks) < config.HealthCheckConfig.FailedThreshold cfg)%Z →
  Forall (λ calls, calls = []) (performChecks cfg svc checks NewChecker).2.
Proof.
  intros Hth. apply (performChecks_quiet cfg svc checks 0); [done| |lia].
  intros r. unfold failuresIn, NewChecker. simpl. rewrite lookup_empty. simpl.
  assert (2 ^ 63 = 9223372036854775808)%Z as -> by reflexivity. lia.
Qed.

Lemma Checker_quiet_before_threshold_witness :
  Forall (λ calls, calls = [])
    (performChecks Example12.hc Example.svc
       [Example12.noLeader; Example12.noLeader] NewChecker).2.
Proof.
  apply (Checker_quiet_before_threshold Example12.hc Example.svc
           [Example12.noLeader; Example12.noLeader]).
  simpl. lia.
Defined.
